(** * karen-cli: the multi-viewport layout analysis pipeline

    A shallow embedding of the audit engine of karen-cli and of the
    code-based detectors it runs (overflow, spacing, typescale,
    accessibility contrast, colour palette, design-system consistency,
    alignment and grid, design tokens, responsive design), of the summary
    it builds and of the performance score, with the properties the
    specification states about them and further properties of the code.

    Conventions of the embedding.
    - A JavaScript [number] is a binary64 float (Rocq's primitive [float]);
      a count that the code only increments by one from zero is a [nat].
    - A JavaScript string is a [string] of characters with codes below
      256; the regular expressions of the source are written out as
      matchers over [list ascii]. [toLowerCase] is the case mapping of
      such strings, and so is [toUpperCase] but for the two characters
      whose upper case has a code above 255, which it keeps.
    - [computedStyle] is read at fixed property names and is a
      [gmap string string]; an object indexed by a string of the input
      ([byViewport], [namedColors]) is modelled with the members it
      inherits from [Object.prototype]; a [Map] or [Set] is an association
      list or a list in insertion order.
    - The module-level id counter, [Math.random] and a thrown exception are
      threaded through a small state-and-error monad [M].
    - [Array.prototype.sort] with a comparator follows the procedure of the
      V8 engine for arrays of fewer than 64 elements; see [Array_sort].
    - [Math.pow], which ECMAScript leaves implementation-approximated, is
      a parameter of the contrast computation; [pow_ref] is one instance,
      used to run examples.
    - The vision service behind [ClaudeAnalyzer] is a parameter of the
      audit engine.
    - A template literal that interpolates a number is kept as the list of
      its pieces ([text]); no number-to-string conversion is modelled.
    - Limits of the engine (call stack, array length) are not modelled. *)

From Stdlib Require Import ZArith List String Ascii Floats Lia Bool.
From Stdlib Require Import DecimalString DecimalNat HexadecimalString Sorting.Sorted Sorting.Permutation.
From stdpp Require Import base gmap strings.

#[local] Set Warnings "-inexact-float,-register-all".
#[local] Open Scope Z_scope.
#[local] Open Scope string_scope.
#[local] Open Scope list_scope.

Import ListNotations.

(* ===================================================================== *)
(** * Part I. Definitions                                                *)
(* ===================================================================== *)

(** ** Characters and strings *)

Definition code (c : ascii) : nat := nat_of_ascii c.

Definition isDigit (c : ascii) : bool :=
  (48 <=? code c)%nat && (code c <=? 57)%nat.

Definition isLowerHex (c : ascii) : bool :=
  (97 <=? code c)%nat && (code c <=? 102)%nat.

Definition isUpperHex (c : ascii) : bool :=
  (65 <=? code c)%nat && (code c <=? 70)%nat.

(** [[a-f\d]] under the [i] flag. *)
Definition isHexDigit (c : ascii) : bool :=
  isDigit c || isLowerHex c || isUpperHex c.

(** [\s], restricted to the 8-bit characters a [string] holds:
    TAB, LF, VT, FF, CR, SPACE and NBSP. *)
Definition isSpace (c : ascii) : bool :=
  ((9 <=? code c)%nat && (code c <=? 13)%nat)
  || (code c =? 32)%nat || (code c =? 160)%nat.

Definition digitVal (c : ascii) : Z := Z.of_nat (code c) - 48.

Definition hexVal (c : ascii) : Z :=
  if isDigit c then Z.of_nat (code c) - 48
  else if isLowerHex c then Z.of_nat (code c) - 87
  else Z.of_nat (code c) - 55.

(** The upper case of a character with a code below 256: the letters
    [a-z] and the lower-case letters of Latin-1 move down by 32, the
    sharp s becomes [SS]. The micro sign and the y with diaeresis, whose
    upper case has a code above 255, are kept. *)
Definition upperChars (c : ascii) : list ascii :=
  if ((97 <=? code c)%nat && (code c <=? 122)%nat)%bool
  then [ascii_of_nat (code c - 32)]
  else if (code c =? 223)%nat then ["S"%char; "S"%char]
  else if ((224 <=? code c)%nat && (code c <=? 254)%nat
           && negb (code c =? 247)%nat)%bool
  then [ascii_of_nat (code c - 32)]
  else [c].

(** The lower case of a character with a code below 256. *)
Definition lowerChar (c : ascii) : ascii :=
  if ((65 <=? code c)%nat && (code c <=? 90)%nat)%bool
  then ascii_of_nat (code c + 32)
  else if ((192 <=? code c)%nat && (code c <=? 222)%nat
           && negb (code c =? 215)%nat)%bool
  then ascii_of_nat (code c + 32)
  else c.

Definition chars (s : string) : list ascii := list_ascii_of_string s.
Definition str (l : list ascii) : string := string_of_list_ascii l.

Definition toUpperCase (s : string) : string :=
  str (flat_map upperChars (chars s)).
Definition toLowerCase (s : string) : string := str (map lowerChar (chars s)).

Fixpoint prefixChars (p l : list ascii) : bool :=
  match p, l with
  | [], _ => true
  | _ :: _, [] => false
  | a :: p', b :: l' => Ascii.eqb a b && prefixChars p' l'
  end.

Definition startsWith (s p : string) : bool := prefixChars (chars p) (chars s).

Definition endsWith (s p : string) : bool :=
  prefixChars (rev (chars p)) (rev (chars s)).

(** [s.split(' ')]: the pieces between single spaces, empty pieces kept. *)
Fixpoint splitSpaces (cur : list ascii) (l : list ascii) : list string :=
  match l with
  | [] => [str (rev cur)]
  | c :: l' =>
      if Ascii.eqb c " "%char then str (rev cur) :: splitSpaces [] l'
      else splitSpaces (c :: cur) l'
  end.

Definition split_space (s : string) : list string := splitSpaces [] (chars s).

(** [parts.join(sep)]. *)
Fixpoint join (sep : string) (parts : list string) : string :=
  match parts with
  | [] => ""
  | [p] => p
  | p :: ps => p ++ sep ++ join sep ps
  end.

(** A JavaScript string used as a condition: [undefined] and [""] are falsy. *)
Definition truthy (v : option string) : bool :=
  match v with
  | Some s => negb (String.eqb s "")
  | None => false
  end.

(** [v || d] for an optional string [v] and a default [d]. *)
Definition orElse (v : option string) (d : string) : string :=
  match v with
  | Some s => if String.eqb s "" then d else s
  | None => d
  end.

(** The order of [Array.prototype.sort] without comparator on strings:
    code units, lexicographically. *)
Fixpoint charsLe (a b : list ascii) : bool :=
  match a, b with
  | [], _ => true
  | _ :: _, [] => false
  | x :: a', y :: b' =>
      if (code x <? code y)%nat then true
      else if (code y <? code x)%nat then false
      else charsLe a' b'
  end.

Definition stringLe (a b : string) : bool := charsLe (chars a) (chars b).

(** Decimal digits of a natural number, as [String(n)] prints an integer. *)
Definition natToString (n : nat) : string :=
  DecimalString.NilEmpty.string_of_uint (Nat.to_uint n).

(** [s.padStart(4, '0')]. *)
Definition padStart4 (s : string) : string :=
  str (repeat "0"%char (4 - String.length s)) ++ s.

(** [s.includes(sub)] *)
Fixpoint includesChars (sub l : list ascii) : bool :=
  prefixChars sub l
  || match l with
     | [] => false
     | _ :: l' => includesChars sub l'
     end.

Definition includesSubstring (s sub : string) : bool :=
  includesChars (chars sub) (chars s).

(** [s.split(/\s+/)]: the pieces between maximal runs of white space,
    empty pieces at the two ends kept. *)
Fixpoint splitRuns (cur : list ascii) (inRun : bool) (l : list ascii)
  : list string :=
  match l with
  | [] => [str (rev cur)]
  | c :: l' =>
      if isSpace c then
        if inRun then splitRuns [] true l'
        else str (rev cur) :: splitRuns [] true l'
      else splitRuns (c :: cur) false l'
  end.

Definition split_ws (s : string) : list string := splitRuns [] false (chars s).

(** The character [U+0022]. *)
Definition quote : ascii := "034"%char.

Definition hexDigitLower (n : nat) : ascii :=
  if (n <? 10)%nat then ascii_of_nat (48 + n) else ascii_of_nat (87 + n).

(** [JSON.stringify] of a string: quoted, with the quote, the backslash
    and the control characters escaped. *)
Definition jsonEscape (c : ascii) : list ascii :=
  let n := code c in
  if (n =? 34)%nat then ["\"; quote]%char
  else if (n =? 92)%nat then ["\"; "\"]%char
  else if (n =? 8)%nat then ["\"; "b"]%char
  else if (n =? 12)%nat then ["\"; "f"]%char
  else if (n =? 10)%nat then ["\"; "n"]%char
  else if (n =? 13)%nat then ["\"; "r"]%char
  else if (n =? 9)%nat then ["\"; "t"]%char
  else if (n <? 32)%nat then
    ["\"; "u"; "0"; "0"; hexDigitLower (n / 16); hexDigitLower (n mod 16)]%char
  else [c].

Definition jsonString (s : string) : string :=
  str (quote :: flat_map jsonEscape (chars s) ++ [quote]).

(** [JSON.stringify] of an object whose properties hold strings. *)
Definition jsonObject (fields : list (string * string)) : string :=
  ("{" ++ join ","
            (List.map (fun '(k, v) => jsonString k ++ ":" ++ jsonString v) fields)
   ++ "}")%string.
(** ** Numbers *)

Definition NaN : float := nan.

Definition isNaN (x : float) : bool := negb (x =? x)%float.

(** The Number value of an integer. *)
Definition Z2float (z : Z) : float := SF2Prim (binary_normalize prec emax z 0 false).

(** The Number value of the decimal [m * 10^e] for [0 <= m], rounded to
    nearest, ties to even. *)
Definition decimalToFloat (m e : Z) : float :=
  if (m =? 0)%Z then 0%float
  else if (0 <=? e)%Z then Z2float (m * 10 ^ e)
  else
    let '(q, e', l) := SFdiv_core_binary prec emax m 0 (10 ^ (- e)) 0 in
    SF2Prim (binary_round_aux prec emax false q e' l).

Fixpoint takeWhile {A} (p : A -> bool) (l : list A) : list A :=
  match l with
  | [] => []
  | a :: l' => if p a then a :: takeWhile p l' else []
  end.

Fixpoint dropWhile {A} (p : A -> bool) (l : list A) : list A :=
  match l with
  | [] => []
  | a :: l' => if p a then dropWhile p l' else l
  end.

Definition digitsToZ (ds : list ascii) : Z :=
  fold_left (fun acc c => acc * 10 + digitVal c) ds 0.

Definition hexToZ (ds : list ascii) : Z :=
  fold_left (fun acc c => acc * 16 + hexVal c) ds 0.

(** The exponent part [[eE][+-]?\d+] of a decimal literal, when the
    characters start with one; 0 otherwise. *)
Definition exponentPart (l : list ascii) : Z :=
  match l with
  | c :: l' =>
      if Ascii.eqb c "e"%char || Ascii.eqb c "E"%char then
        match l' with
        | s :: l'' =>
            if Ascii.eqb s "-"%char then - digitsToZ (takeWhile isDigit l'')
            else if Ascii.eqb s "+"%char then digitsToZ (takeWhile isDigit l'')
            else digitsToZ (takeWhile isDigit l')
        | [] => 0
        end
      else 0
  | [] => 0
  end.

(** The value of the longest prefix that is an unsigned decimal literal
    ([Infinity]; digits, then optionally a point and digits; or a point and
    at least one digit; each optionally followed by an exponent part);
    [NaN] when no prefix is one. *)
Definition unsignedDecimal (l : list ascii) : float :=
  if prefixChars (chars "Infinity") l then infinity
  else
    let ip := takeWhile isDigit l in
    let r := dropWhile isDigit l in
    match r with
    | c :: r' =>
        if Ascii.eqb c "."%char then
          let fp := takeWhile isDigit r' in
          match ip, fp with
          | [], [] => NaN
          | _, _ =>
              decimalToFloat (digitsToZ (ip ++ fp))
                (exponentPart (dropWhile isDigit r') - Z.of_nat (length fp))
          end
        else
          match ip with
          | [] => NaN
          | _ => decimalToFloat (digitsToZ ip) (exponentPart r)
          end
    | [] =>
        match ip with
        | [] => NaN
        | _ => decimalToFloat (digitsToZ ip) 0
        end
    end.

(** The global [parseFloat]. *)
Definition parseFloat (s : string) : float :=
  match dropWhile isSpace (chars s) with
  | c :: l' =>
      if Ascii.eqb c "-"%char then (- unsignedDecimal l')%float
      else if Ascii.eqb c "+"%char then unsignedDecimal l'
      else unsignedDecimal (c :: l')
  | [] => NaN
  end.

(** The digits of [parseInt] after the sign: radix 16 after a [0x] prefix,
    radix 10 otherwise; [NaN] when no digit follows. *)
Definition unsignedInt (l : list ascii) : float :=
  match l with
  | z :: x :: l' =>
      if Ascii.eqb z "0"%char && (Ascii.eqb x "x"%char || Ascii.eqb x "X"%char) then
        match takeWhile isHexDigit l' with
        | [] => NaN
        | ds => Z2float (hexToZ ds)
        end
      else
        match takeWhile isDigit l with
        | [] => NaN
        | ds => Z2float (digitsToZ ds)
        end
  | _ =>
      match takeWhile isDigit l with
      | [] => NaN
      | ds => Z2float (digitsToZ ds)
      end
  end.

(** The global [parseInt], called with one argument. *)
Definition parseInt (s : string) : float :=
  match dropWhile isSpace (chars s) with
  | c :: l' =>
      if Ascii.eqb c "-"%char then (- unsignedInt l')%float
      else if Ascii.eqb c "+"%char then unsignedInt l'
      else unsignedInt (c :: l')
  | [] => NaN
  end.

(** [parseInt(s, 16)] on a string of hexadecimal digits. *)
Definition parseInt16 (s : string) : float :=
  match takeWhile isHexDigit (chars s) with
  | [] => NaN
  | ds => Z2float (hexToZ ds)
  end.

(** The integer a finite float with no fractional part stands for; [None]
    for [NaN] and the infinities. Used for [x.toString(16)]. *)
Definition floatToZ (x : float) : option Z :=
  match Prim2SF x with
  | S754_zero _ => Some 0
  | S754_finite s m e =>
      let v := if (0 <=? e)%Z then Z.pos m * 2 ^ e else Z.pos m / 2 ^ (- e) in
      Some (if s then - v else v)
  | _ => None
  end.

(** [Math.round]: the integer nearest to [x], ties towards +Infinity. *)
Definition Math_round (x : float) : float :=
  match Prim2SF x with
  | S754_finite s m e =>
      if (0 <=? e)%Z then x
      else
        let n := if s then - Z.pos m else Z.pos m in
        let r := (2 * n + 2 ^ (- e)) / 2 ^ (- e + 1) in
        if (r =? 0)%Z then (if s then neg_zero else zero) else Z2float r
  | _ => x
  end.

Definition Math_abs (x : float) : float := abs x.
Definition Math_sqrt (x : float) : float := sqrt x.

(** [Math.max] and [Math.min] of two numbers: [NaN] when either is, and
    [+0] above [-0]. *)
Definition isNegZero (x : float) : bool :=
  match Prim2SF x with S754_zero true => true | _ => false end.

Definition Math_max (a b : float) : float :=
  if isNaN a || isNaN b then NaN
  else if (a <? b)%float then b
  else if (b <? a)%float then a
  else if isNegZero a then b else a.

Definition Math_min (a b : float) : float :=
  if isNaN a || isNaN b then NaN
  else if (a <? b)%float then a
  else if (b <? a)%float then b
  else if isNegZero a then a else b.

(** [parseFloat(x.toFixed(2))]: [x] rounded to two decimals, ties away from
    zero, read back as a number. *)
Definition toFixed2 (x : float) : float :=
  match Prim2SF x with
  | S754_finite s m e =>
      if (1e21 <=? abs x)%float then x
      else
        let n :=
          if (0 <=? e)%Z then Z.pos m * 2 ^ e * 100
          else (2 * (Z.pos m * 100) + 2 ^ (- e)) / 2 ^ (- e + 1) in
        if s then (- decimalToFloat n (-2))%float else decimalToFloat n (-2)
  | S754_zero _ => 0%float
  | _ => x
  end.

(** [Math.max(...values)] and [Math.min(...values)]. *)
Definition Math_max_of (values : list float) : float :=
  fold_left Math_max values neg_infinity.

Definition Math_min_of (values : list float) : float :=
  fold_left Math_min values infinity.

(** The comparison of [Array.prototype.includes] and of the keys of a
    [Map] or [Set] on numbers, SameValueZero: [NaN] is equal to itself,
    [+0] to [-0]. *)
Definition sameValueZero (x y : float) : bool :=
  (x =? y)%float || (isNaN x && isNaN y).

(** [l.includes(x)] for numbers. *)
Definition includesNumber (l : list float) (x : float) : bool :=
  existsb (sameValueZero x) l.

(** [l.indexOf(x)] for numbers, which compares with [===]: the index
    of the first entry equal to [x], or [-1]. *)
Fixpoint indexOfFrom (i : Z) (l : list float) (x : float) : Z :=
  match l with
  | [] => -1
  | y :: l' => if (y =? x)%float then i else indexOfFrom (i + 1) l' x
  end.

Definition indexOfNumber (l : list float) (x : float) : Z := indexOfFrom 0 l x.

(** A number used as a condition: [undefined], [0] and [NaN] are falsy. *)
Definition truthyNumber (v : option float) : bool :=
  match v with
  | Some x => negb (x =? 0)%float && negb (isNaN x)
  | None => false
  end.

(** *** Observations on binary64 numbers *)

(** The value of a finite float, scaled by [2^1074] so as to be an
    integer; 0 for the others. *)
Definition SFscaled (x : spec_float) : Z :=
  match x with
  | S754_finite s m e => cond_Zopp s (Z.pos m * 2 ^ (e + 1074))
  | _ => 0
  end.

(** The exponent of the binary64 format for a number of magnitude [e]. *)
Definition fexp64 (e : Z) : Z := Z.max (e - 53) (-1074).

Definition finiteOrZero (x : spec_float) : Prop :=
  match x with
  | S754_zero _ | S754_finite _ _ _ => True
  | _ => False
  end.

(** A number other than [NaN]. *)
Definition notNaN (x : float) : Prop := isNaN x = false.

(** The place of a number other than [NaN] in the order of the numbers:
    the scaled value of a finite one, with the infinities beyond. *)
Definition rank (x : float) : Z :=
  match Prim2SF x with
  | S754_infinity s => if s then - 2 ^ 2200 else 2 ^ 2200
  | sf => SFscaled sf
  end.

(** ** Objects indexed by a string of the input *)

(** The names of the members of [Object.prototype], which a lookup on a
    plain object reaches when the object has no property of the name. *)
Definition objectPrototypeKeys : list string :=
  ["constructor"; "__defineGetter__"; "__defineSetter__"; "hasOwnProperty";
   "__lookupGetter__"; "__lookupSetter__"; "isPrototypeOf";
   "propertyIsEnumerable"; "toString"; "valueOf"; "__proto__";
   "toLocaleString"].

(** ** [Array.prototype.sort] with a comparator *)

(** ECMAScript fixes the result of a sort for a consistent comparator
    only and leaves the order implementation-defined otherwise. This is
    the procedure of V8 on an array of fewer than 64 elements: the
    longest run at the start that is ascending, or strictly descending
    and then reversed, is extended by binary insertion of the elements
    that follow. On longer arrays V8 sorts stretches this way and merges
    them, with the same result whenever the comparator is consistent.
    [lessThan a b] is [comparefn(a, b) < 0]; a comparator result of [NaN]
    counts as 0. *)
Section ArraySort.

Context {A : Type}.
Variable lessThan : A -> A -> bool.

(** The binary search of the place of [pivot] in [sorted], between the
    indices [left] and [right]. *)
Fixpoint searchInsertion (fuel : nat) (pivot : A) (sorted : list A)
    (left right : nat) : nat :=
  match fuel with
  | O => left
  | S fuel' =>
      if (left <? right)%nat then
        let mid := (left + (right - left) / 2)%nat in
        match nth_error sorted mid with
        | Some x =>
            if lessThan pivot x
            then searchInsertion fuel' pivot sorted left mid
            else searchInsertion fuel' pivot sorted (S mid) right
        | None => left
        end
      else left
  end.

Definition insertSorted (sorted : list A) (pivot : A) : list A :=
  let left :=
    searchInsertion (S (length sorted)) pivot sorted 0 (length sorted) in
  firstn left sorted ++ pivot :: skipn left sorted.

(** The number of elements of [rest] that continue the run ending in
    [prev]. *)
Fixpoint runLength (descending : bool) (prev : A) (rest : list A) : nat :=
  match rest with
  | [] => O
  | cur :: rest' =>
      if Bool.eqb (lessThan cur prev) descending
      then S (runLength descending cur rest')
      else O
  end.

Definition Array_sort (l : list A) : list A :=
  match l with
  | a0 :: a1 :: rest =>
      let descending := lessThan a1 a0 in
      let n := (2 + runLength descending a1 rest)%nat in
      let run := if descending then rev (firstn n l) else firstn n l in
      fold_left insertSorted (skipn n l) run
  | _ => l
  end.

End ArraySort.

(** ** Data model (src/types/config.ts, src/types/audit.ts) *)

Inductive AuditFeature :=
| overflow | spacing | typescale | colors | accessibility | design_system
| performance.

Inductive IssueSeverity := critical | high | medium | low.

Definition AuditFeature_eqb (a b : AuditFeature) : bool :=
  match a, b with
  | overflow, overflow | spacing, spacing | typescale, typescale
  | colors, colors | accessibility, accessibility
  | design_system, design_system | performance, performance => true
  | _, _ => false
  end.

Definition IssueSeverity_eqb (a b : IssueSeverity) : bool :=
  match a, b with
  | critical, critical | high, high | medium, medium | low, low => true
  | _, _ => false
  end.

Module Viewport.
Record t := mk { name : string; width : float; height : float }.
End Viewport.

Module ElementRect.
Record t := mk { x : float; y : float; width : float; height : float }.
End ElementRect.

Module DOMElement.
Inductive t := mk {
  selector : string;
  tagName : string;
  classes : list string;
  id : string;
  rect : ElementRect.t;
  computedStyle : gmap string string;
  children : list t
}.
End DOMElement.

(** [element.computedStyle.prop]: [None] is [undefined]. *)
Definition style (el : DOMElement.t) (prop : string) : option string :=
  DOMElement.computedStyle el !! prop.

Module LayoutMetrics.
Record t := mk {
  totalElements : float;
  visibleElements : float;
  overflowingElements : float;
  performanceScore : float
}.
End LayoutMetrics.

(** The fields of a snapshot the detectors read ([styles] and [errors]
    are read by none of them). *)
Module ViewportSnapshot.
Record t := mk {
  viewport : Viewport.t;
  screenshot : string;
  dom : list DOMElement.t;
  metrics : LayoutMetrics.t
}.
End ViewportSnapshot.

Module Typescale.
Record t := mk { base : float; ratio : float; sizes : list float }.
End Typescale.

Module ContrastRatios.
Record t := mk { AA : float; AAA : float }.
End ContrastRatios.

(** The fields of the configuration the detectors and the engine read. *)
Module KarenConfig.
Record t := mk {
  spacingScale : list float;
  typescale : Typescale.t;
  colorPalette : list string;
  alignTolerancePx : float;
  contrastRatios : ContrastRatios.t;
  features : list AuditFeature;
  anthropicApiKey : option string
}.
End KarenConfig.

(** A template literal, piece by piece: literal text, an interpolated
    number (a float, an integer, a count), [v.toFixed(2)] and
    [v.toFixed(1)]. *)
Inductive piece :=
| Str (s : string)
| Num (v : float)
| Int (z : Z)
| Cnt (n : nat)
| Fixed2 (v : float)
| Fixed1 (v : float).

Definition text := list piece.

(** A colour as [normalizeColor] of the colour detector returns it: a
    string or, for the names [constructor] and [__proto__], the member of
    [Object.prototype] that the table of named colours inherits. *)
Inductive Color :=
| Hex (s : string)
| ObjectConstructor
| ObjectPrototype.

(** One variation of the button styles, as the details list it. *)
Module ButtonVariation.
Record t := mk {
  count : nat;
  borderRadius : string;
  padding : string;
  fontSize : string;
  backgroundColor : string
}.
End ButtonVariation.

(** The [details] object of an issue, one constructor per shape. *)
Inductive Details :=
| OverflowDetails (overflow_ : string) (elementWidth : float)
    (overflowType : string) (viewport : text)
| SpacingDetails (property : string) (value nearestScaleValue : float)
    (spacingScale : list float) (difference : float)
| TypescaleDetails (fontSize nearestScaleValue : float)
    (sizes : list float) (difference : float)
| ContrastDetails (foreground background : option string)
    (contrastRatio required : float) (passes : bool) (wcagLevel : string)
| NearDuplicateDetails (color1 color2 : Color) (distance : float)
    (occurrences1 occurrences2 : nat) (affectedElements : list string)
| PaletteDetails (color : Color) (nearestPaletteColor : option string)
    (distanceToPalette : float) (occurrences : nat) (palette : list string)
| ButtonStylesDetails (totalButtons uniqueStyles : nat)
    (variations : list ButtonVariation.t)
| BorderRadiiDetails (uniqueBorderRadii : list string) (count : nat)
| ButtonPaddingsDetails (uniquePaddings : list string) (count : nat)
| InputHeightsDetails (totalInputs : nat) (uniqueHeights : list string)
| InputBordersDetails (totalInputs : nat) (uniqueBorders : list string)
| CardShadowsDetails (totalCards uniqueShadows : nat)
| CardPaddingsDetails (totalCards : nat) (uniquePaddings : list string)
| HeadingDetails (tag : string) (fontSizes : list string)
| AlignmentDetails (alignmentType : string) (misalignment : float)
    (tolerance baseline : float) (elements : list (string * float * float))
| GridDetails (childCount : nat) (horizontalGaps verticalGaps : list (float * nat))
    (suggestedHorizontalGap suggestedVerticalGap : float)
| SpacingTokenDetails (property currentValue : string)
    (spacingScale : list float) (shouldUseTokens : bool)
| ColorTokenDetails (property currentColor : string) (palette : list string)
    (shouldUseToken : bool)
| RadiusTokenDetails (property currentValue suggestedToken : string)
| TypographyTokenDetails (property currentValue : string)
    (sizes : list float) (suggestedToken : text)
| FontSizeDetails (property : string) (fixedValue : text)
    (viewports : list (string * float * text)) (recommendation : string)
| PaddingDetails (property : string) (fixedValue : string) (maxPadding : float)
    (viewports : list (string * float))
| WidthDetails (property : string) (fixedValue : option string)
    (viewports : list string)
| FixedWidthDetails (elementWidth viewportWidth overflowPx : float)
| ResponsiveOverflowDetails (desktopWidth mobileWidth mobileViewport : float)
    (widthRatio : text)
| VisualDetails (aiDetected : bool) (description : option string)
    (visualIssue : bool).

Module IssueFix.
Record t := mk {
  file : string;
  before : text;
  after : text;
  explanation : option text
}.
End IssueFix.

Module Fix.
Record t := mk { suggestion : text; code : option IssueFix.t }.
End Fix.

Module Issue.
Record t := mk {
  id : string;
  type : AuditFeature;
  severity : IssueSeverity;
  viewport : string;
  element : string;
  message : text;
  details : Details;
  screenshot : option string;
  fix_ : option Fix.t
}.
End Issue.

(** ** Effects: the id counter, [Math.random], exceptions *)

(** [counter] is the module variable of src/utils/id.ts; [random k] is
    the index the [k]-th call of [Math.random] selects (before reduction
    modulo the number of choices) and [draws] counts the calls made. *)
Record World := mkWorld { counter : nat; random : nat -> nat; draws : nat }.

Inductive Exn := TypeError (msg : string).

Inductive Result (A : Type) :=
| Ok (a : A) (w : World)
| Throw (e : Exn) (w : World).
Arguments Ok {A} a w.
Arguments Throw {A} e w.

Definition M (A : Type) : Type := World -> Result A.

Definition ret {A} (a : A) : M A := fun w => Ok a w.

Definition bind {A B} (m : M A) (k : A -> M B) : M B :=
  fun w => match m w with
           | Ok a w' => k a w'
           | Throw e w' => Throw e w'
           end.

Definition throw {A} (e : Exn) : M A := fun w => Throw e w.

Notation "x <- m ;; k" := (bind m (fun x => k))
  (at level 100, m at next level, right associativity).

(** [for (const a of l) { ... issues.push(...) ... }]: the issues the body
    pushes for each [a], in order. *)
Fixpoint forEach {A B} (body : A -> M (list B)) (l : list A) : M (list B) :=
  match l with
  | [] => ret []
  | a :: l' =>
      bs <- body a ;;
      bs' <- forEach body l' ;;
      ret (bs ++ bs')
  end.

(** src/utils/id.ts *)
Definition generateId (prefix : string) : M string :=
  fun w =>
    let c := S (counter w) in
    Ok (prefix ++ "-" ++ padStart4 (natToString c))%string
       (mkWorld c (random w) (draws w)).

Definition resetCounter : M unit :=
  fun w => Ok tt (mkWorld 0 (random w) (draws w)).

(** [Math.floor(Math.random() * n)]. *)
Definition randomIndex (n : nat) : M nat :=
  fun w => Ok (random w (draws w) mod n)%nat
              (mkWorld (counter w) (random w) (S (draws w))).

(** [choices[Math.floor(Math.random() * choices.length)]]. *)
Definition pick (choices : list text) : M text :=
  k <- randomIndex (length choices) ;;
  ret (nth k choices []).

(** ** Overflow detection (src/detectors/overflow.ts) *)

Definition overflowRoasts (tagName vp : string) : list text :=
  [ [Str "Sweetie, your "; Str tagName;
     Str " is literally breaking its container on "; Str vp; Str "."];
    [Str "Horizontal overflow on "; Str vp;
     Str "? Karen's not impressed with your CSS skills."];
    [Str "Your "; Str tagName;
     Str " thinks it's bigger than its container. Spoiler: it's not."];
    [Str "Overflow issues? Really? Karen thought we left this in 2010."] ].

(** The body of the inner loop of [detectOverflow]. *)
Definition checkOverflow (snapshot : ViewportSnapshot.t)
    (element : DOMElement.t) : M (list Issue.t) :=
  let overflow_ := orElse (style element "overflow") "visible" in
  let overflowX := orElse (style element "overflowX") overflow_ in
  if String.eqb overflowX "visible"
     && (0 <? LayoutMetrics.overflowingElements
                (ViewportSnapshot.metrics snapshot))%float
     && (0 <? ElementRect.width (DOMElement.rect element))%float then
    let vp := Viewport.name (ViewportSnapshot.viewport snapshot) in
    let sel := DOMElement.selector element in
    id <- generateId "OVF" ;;
    message <- pick (overflowRoasts (DOMElement.tagName element) vp) ;;
    ret [ Issue.mk id overflow high vp sel message
            (OverflowDetails "horizontal"
               (ElementRect.width (DOMElement.rect element)) overflowX
               [Num (Viewport.width (ViewportSnapshot.viewport snapshot));
                Str "x";
                Num (Viewport.height (ViewportSnapshot.viewport snapshot))])
            (Some (ViewportSnapshot.screenshot snapshot))
            (Some (Fix.mk
               [Str "Add max-width: 100% or use clamp() for responsive sizing"]
               (Some (IssueFix.mk "styles/layout.css"
                  [Str sel; Str " {
  /* current styles */
}"]
                  [Str sel; Str " {
  max-width: 100%;
  overflow-x: auto;
}"]
                  (Some [Str "Constrains the element to its container width and adds horizontal scrolling if needed"]))))) ]
  else ret [].

Definition detectOverflow (snapshots : list ViewportSnapshot.t)
    (_config : KarenConfig.t) : M (list Issue.t) :=
  forEach
    (fun snapshot =>
       forEach (checkOverflow snapshot) (ViewportSnapshot.dom snapshot))
    snapshots.

(** ** Spacing analysis (src/detectors/spacing.ts) *)

Definition parseSpacing (spacingValue : string) : list float :=
  List.filter (fun v => negb (isNaN v))
              (List.map parseFloat (split_space spacingValue)).

Definition isOnScale (value : float) (scale : list float) : bool :=
  existsb (fun scaleValue => (Math_abs (value - scaleValue) <? 1)%float) scale.

(** [scale.reduce(...)] has no initial value: it throws on an empty array. *)
Definition findNearest (value : float) (scale : list float) : M float :=
  match scale with
  | [] => throw (TypeError "Reduce of empty array with no initial value")
  | first :: rest =>
      ret (fold_left
             (fun prev curr =>
                if (Math_abs (curr - value) <? Math_abs (prev - value))%float
                then curr else prev)
             rest first)
  end.

Definition spacingRoasts (type : string) (value nearest : float) (vp : string)
  : list text :=
  [ [Str "Random spacing? Really? "; Num value; Str "px "; Str type;
     Str "? Karen's judging your design tokens on "; Str vp; Str "."];
    [Str "Using "; Num value; Str "px for "; Str type;
     Str "? Karen insists on consistency. Try "; Num nearest;
     Str "px from your scale."];
    [Num value; Str "px "; Str type;
     Str "? That's not on the spacing scale, sweetie. Karen disapproves."];
    [Str "Arbitrary "; Str type;
     Str " values? Karen's design system is crying on "; Str vp; Str "."] ].

(** [spacingScale.join(', ')] *)
Fixpoint joinNums (l : list float) : text :=
  match l with
  | [] => []
  | [v] => [Num v]
  | v :: l' => Num v :: Str ", " :: joinNums l'
  end.

(** The body of the innermost loop of [analyzeSpacing]. *)
Definition checkSpacingValue (snapshot : ViewportSnapshot.t)
    (element : DOMElement.t) (spacingScale : list float)
    (entry : string * float) : M (list Issue.t) :=
  let '(type, value) := entry in
  if negb (isOnScale value spacingScale) && (0 <? value)%float then
    nearest <- findNearest value spacingScale ;;
    let vp := Viewport.name (ViewportSnapshot.viewport snapshot) in
    let sel := DOMElement.selector element in
    id <- generateId "SPC" ;;
    message <- pick (spacingRoasts type value nearest vp) ;;
    ret [ Issue.mk id spacing medium vp sel message
            (SpacingDetails type value nearest spacingScale
               (Math_abs (value - nearest)))
            None
            (Some (Fix.mk
               [Str "Use "; Num nearest; Str "px from your spacing scale"]
               (Some (IssueFix.mk "styles/spacing.css"
                  [Str sel; Str " {
  "; Str type; Str ": "; Num value; Str "px;
}"]
                  [Str sel; Str " {
  "; Str type; Str ": "; Num nearest; Str "px;
}"]
                  (Some (Str "Aligns to the defined spacing scale of "
                           :: joinNums spacingScale ++ [Str "px"])))))) ]
  else ret [].

Definition spacingEntries (element : DOMElement.t) : list (string * float) :=
  let margins := parseSpacing (orElse (style element "margin") "0") in
  let paddings := parseSpacing (orElse (style element "padding") "0") in
  List.map (fun v => ("margin", v)) margins
    ++ List.map (fun v => ("padding", v)) paddings.

Definition analyzeSpacing (snapshots : list ViewportSnapshot.t)
    (config : KarenConfig.t) : M (list Issue.t) :=
  let spacingScale := KarenConfig.spacingScale config in
  forEach
    (fun snapshot =>
       forEach
         (fun element =>
            forEach (checkSpacingValue snapshot element spacingScale)
                    (spacingEntries element))
         (ViewportSnapshot.dom snapshot))
    snapshots.

(** ** Typescale enforcement (the typescale detector) *)

(** [l.includes(s)] for strings. *)
Definition includes (l : list string) (s : string) : bool :=
  existsb (String.eqb s) l.

Definition textTags : list string :=
  ["P"; "H1"; "H2"; "H3"; "H4"; "H5"; "H6"; "SPAN"; "DIV"; "A"; "LI"].

Definition typescaleRoasts (fontSize nearest : float) (vp : string)
  : list text :=
  [ [Str "Font sizes all over the place? Karen enforces hierarchy like it's the law on ";
     Str vp; Str "."];
    [Num fontSize; Str "px font-size? Not in Karen's typescale, sweetie. Try ";
     Num nearest; Str "px."];
    [Str "Random font sizes make Karen's eye twitch. Use "; Num nearest;
     Str "px from your typescale on "; Str vp; Str "."];
    [Str "Typography chaos detected at "; Num fontSize;
     Str "px. Karen demands "; Num nearest; Str "px on "; Str vp; Str "."] ].

(** The body of the loop of [enforceTypescale] over the text elements.
    The detector's own [findNearest] is the one of the spacing analysis,
    word for word. *)
Definition checkFontSize (snapshot : ViewportSnapshot.t) (config : KarenConfig.t)
    (element : DOMElement.t) : M (list Issue.t) :=
  let sizes := Typescale.sizes (KarenConfig.typescale config) in
  let fontSizeStr := orElse (style element "fontSize") "16px" in
  let fontSize := parseFloat fontSizeStr in
  if negb (includesNumber sizes fontSize) && (0 <? fontSize)%float then
    nearest <- findNearest fontSize sizes ;;
    let vp := Viewport.name (ViewportSnapshot.viewport snapshot) in
    let sel := DOMElement.selector element in
    id <- generateId "TYP" ;;
    message <- pick (typescaleRoasts fontSize nearest vp) ;;
    ret [ Issue.mk id typescale medium vp sel message
            (TypescaleDetails fontSize nearest sizes
               (Math_abs (fontSize - nearest)))
            None
            (Some (Fix.mk
               [Str "Use "; Num nearest; Str "px from your type scale"]
               (Some (IssueFix.mk "styles/typography.css"
                  [Str sel; Str " {
  font-size: "; Num fontSize; Str "px;
}"]
                  [Str sel; Str " {
  font-size: "; Num nearest; Str "px;
}"]
                  (Some [Str "Aligns to the defined typescale with ratio ";
                         Num (Typescale.ratio (KarenConfig.typescale config))]))))) ]
  else ret [].

Definition enforceTypescale (snapshots : list ViewportSnapshot.t)
    (config : KarenConfig.t) : M (list Issue.t) :=
  forEach
    (fun snapshot =>
       let textElements :=
         List.filter (fun el => includes textTags (DOMElement.tagName el))
                     (ViewportSnapshot.dom snapshot) in
       forEach (checkFontSize snapshot config) textElements)
    snapshots.

(** ** Accessibility and contrast (the accessibility detector) *)

Module RGB.
Record t := mk { r : float; g : float; b : float }.
End RGB.

(** One or more digits, and what follows them. *)
Definition digits1 (l : list ascii) : option (list ascii * list ascii) :=
  match takeWhile isDigit l with
  | [] => None
  | ds => Some (ds, dropWhile isDigit l)
  end.

Definition expectChar (c : ascii) (l : list ascii) : option (list ascii) :=
  match l with
  | x :: l' => if Ascii.eqb x c then Some l' else None
  | [] => None
  end.

Definition expectPrefix (p : string) (l : list ascii) : option (list ascii) :=
  if prefixChars (chars p) l then Some (skipn (length (chars p)) l) else None.

(** [/rgb\((\d+),\s*(\d+),\s*(\d+)\)/] matched at the head of [l]: the
    three captured groups. *)
Definition matchRgbAt (l : list ascii) : option (string * string * string) :=
  l1 ← expectPrefix "rgb(" l;
  '(d1, l2) ← digits1 l1;
  l3 ← expectChar ","%char l2;
  '(d2, l4) ← digits1 (dropWhile isSpace l3);
  l5 ← expectChar ","%char l4;
  '(d3, l6) ← digits1 (dropWhile isSpace l5);
  _ ← expectChar ")"%char l6;
  Some (str d1, str d2, str d3).

(** The first position of [l] at which an unanchored pattern matches. *)
Fixpoint search {A} (matchAt : list ascii -> option A) (l : list ascii)
  : option A :=
  match matchAt l with
  | Some m => Some m
  | None =>
      match l with
      | [] => None
      | _ :: l' => search matchAt l'
      end
  end.

(** [/^#?([a-f\d]{2})([a-f\d]{2})([a-f\d]{2})$/i] *)
Definition matchHex (l : list ascii) : option (string * string * string) :=
  let body :=
    match l with
    | c :: l' => if Ascii.eqb c "#"%char then l' else l
    | [] => l
    end in
  match body with
  | [a; b; c; d; e; f] =>
      if forallb isHexDigit body
      then Some (str [a; b], str [c; d], str [e; f]) else None
  | _ => None
  end.

Definition parseColor (colorStr : string) : option RGB.t :=
  match search matchRgbAt (chars colorStr) with
  | Some (m1, m2, m3) => Some (RGB.mk (parseInt m1) (parseInt m2) (parseInt m3))
  | None =>
      match matchHex (chars colorStr) with
      | Some (m1, m2, m3) =>
          Some (RGB.mk (parseInt16 m1) (parseInt16 m2) (parseInt16 m3))
      | None => None
      end
  end.

Definition accessibilityRoasts (contrastRatio requiredRatio : float)
    (vp : string) : list text :=
  [ [Str "Contrast ratio? Never heard of her. Gray text on gray background? Karen's calling WCAG on you at ";
     Str vp; Str "."];
    [Fixed2 contrastRatio; Str ":1 contrast ratio? WCAG requires ";
     Num requiredRatio; Str ":1. Karen's disappointed on "; Str vp; Str "."];
    [Str "Low contrast text detected on "; Str vp;
     Str ". Karen insists on accessibility, sweetie."];
    [Str "Text you can barely see? Karen's not here for it. Fix your contrast on ";
     Str vp; Str "."] ].

(** [${v}] for a possibly undefined string. *)
Definition optStr (v : option string) : piece :=
  match v with Some s => Str s | None => Str "undefined" end.

Section Contrast.

(** [Math.pow], which ECMAScript leaves implementation-approximated. *)
Variable pow : float -> float -> float.

Definition linearize (val : float) : float :=
  let v := (val / 255)%float in
  if (v <=? 0.03928)%float then (v / 12.92)%float
  else pow ((v + 0.055) / 1.055)%float 2.4%float.

Definition getLuminance (rgb : RGB.t) : float :=
  let r := linearize (RGB.r rgb) in
  let g := linearize (RGB.g rgb) in
  let b := linearize (RGB.b rgb) in
  (0.2126 * r + 0.7152 * g + 0.0722 * b)%float.

Definition calculateContrast (fg bg : RGB.t) : float :=
  let l1 := getLuminance fg in
  let l2 := getLuminance bg in
  let lighter := Math_max l1 l2 in
  let darker := Math_min l1 l2 in
  ((lighter + 0.05) / (darker + 0.05))%float.

Definition generateAccessibleColor (bg : RGB.t) (_requiredRatio : float)
  : string :=
  let bgLum := getLuminance bg in
  if (0.5 <? bgLum)%float then "#000000" else "#FFFFFF".

(** The filter that selects the text elements of a snapshot. *)
Definition isTextElement (el : DOMElement.t) : bool :=
  truthy (style el "fontSize")
  && (0 <? parseFloat (orElse (style el "fontSize") ""))%float.

(** The body of the loop of [checkAccessibility] over the text elements. *)
Definition checkContrast (snapshot : ViewportSnapshot.t)
    (config : KarenConfig.t) (element : DOMElement.t) : M (list Issue.t) :=
  let fgColor := parseColor (orElse (style element "color") "#000000") in
  let bgColor :=
    parseColor (orElse (style element "backgroundColor") "#ffffff") in
  match fgColor, bgColor with
  | Some fgColor, Some bgColor =>
      let contrastRatio := calculateContrast fgColor bgColor in
      let fontSize := parseFloat (orElse (style element "fontSize") "16") in
      let requiredRatio :=
        if (fontSize <? 18)%float
        then ContrastRatios.AAA (KarenConfig.contrastRatios config)
        else ContrastRatios.AA (KarenConfig.contrastRatios config) in
      if (contrastRatio <? requiredRatio)%float then
        let vp := Viewport.name (ViewportSnapshot.viewport snapshot) in
        let sel := DOMElement.selector element in
        let level := if (7 <=? requiredRatio)%float then "AAA" else "AA" in
        id <- generateId "A11Y" ;;
        message <- pick (accessibilityRoasts contrastRatio requiredRatio vp) ;;
        ret [ Issue.mk id accessibility high vp sel message
                (ContrastDetails (style element "color")
                   (style element "backgroundColor")
                   (toFixed2 contrastRatio) requiredRatio false level)
                (Some (ViewportSnapshot.screenshot snapshot))
                (Some (Fix.mk
                   [Str "Increase contrast to meet WCAG "; Str level;
                    Str " standards"]
                   (Some (IssueFix.mk "styles/colors.css"
                      [Str sel; Str " {
  color: "; optStr (style element "color"); Str ";
}"]
                      [Str sel; Str " {
  color: ";
                       Str (generateAccessibleColor bgColor requiredRatio);
                       Str ";
}"]
                      (Some [Str "Ensures "; Num requiredRatio;
                             Str ":1 contrast ratio for WCAG compliance"]))))) ]
      else ret []
  | _, _ => ret []
  end.

Definition checkAccessibility (snapshots : list ViewportSnapshot.t)
    (config : KarenConfig.t) : M (list Issue.t) :=
  forEach
    (fun snapshot =>
       let textElements :=
         List.filter isTextElement (ViewportSnapshot.dom snapshot) in
       forEach (checkContrast snapshot config) textElements)
    snapshots.

End Contrast.

(** A reference instance of [Math.pow] for positive bases, used to run the
    detector on examples: [exp (y * ln x)] by argument reduction and
    power series. *)
Fixpoint atanhSeries (fuel : nat) (t2 term : float) (k : float) (acc : float)
  : float :=
  match fuel with
  | O => acc
  | S fuel' =>
      atanhSeries fuel' t2 (term * t2)%float (k + 2)%float
                  (acc + term / k)%float
  end.

Definition ln_ref (x : float) : float :=
  let '(m, e) := Z.frexp x in
  let t := ((m - 1) / (m + 1))%float in
  (Z2float e * 0.6931471805599453 + 2 * atanhSeries 40 (t * t) t 1 0)%float.

Fixpoint expSeries (fuel : nat) (r term : float) (n : float) (acc : float)
  : float :=
  match fuel with
  | O => acc
  | S fuel' =>
      expSeries fuel' r (term * r / n)%float (n + 1)%float (acc + term)%float
  end.

Definition exp_ref (y : float) : float :=
  match floatToZ (Math_round (y / 0.6931471805599453)%float) with
  | Some k =>
      let r := (y - Z2float k * 0.6931471805599453)%float in
      Z.ldexp (expSeries 30 r 1 1 0) k
  | None => y
  end.

Definition pow_ref (x y : float) : float :=
  if (x =? 1)%float || (y =? 0)%float then 1%float
  else if (x =? 0)%float then 0%float
  else if (x <? 0)%float then NaN
  else exp_ref (y * ln_ref x)%float.

(** ** Colour palette consistency (the colour detector) *)

Module ColorUsage.
Record t := mk { count : nat; elements : list string }.
End ColorUsage.

(** [x.toString(16)] for the numbers [parseInt] returns on a run of
    digits. *)
Definition toString16 (x : float) : string :=
  match floatToZ x with
  | Some z =>
      if (z <? 0)%Z
      then ("-" ++ HexadecimalString.NilZero.string_of_uint
                     (N.to_hex_uint (Z.to_N (- z))))%string
      else HexadecimalString.NilZero.string_of_uint (N.to_hex_uint (Z.to_N z))
  | None => if isNaN x then "NaN" else "Infinity"
  end.

Definition rgbToHex (r g b : float) : string :=
  ("#" ++ toUpperCase
     (join ""
        (List.map
           (fun x =>
              let hex := toString16 x in
              if (String.length hex =? 1)%nat then ("0" ++ hex)%string else hex)
           [r; g; b])))%string.

(** One or more characters of [[\d.]], and what follows them. *)
Definition isDigitOrDot (c : ascii) : bool := isDigit c || Ascii.eqb c "."%char.

Definition digitsOrDots1 (l : list ascii) : option (list ascii * list ascii) :=
  match takeWhile isDigitOrDot l with
  | [] => None
  | ds => Some (ds, dropWhile isDigitOrDot l)
  end.

(** [/rgba?\((\d+),\s*(\d+),\s*(\d+)(?:,\s*([\d.]+))?\)/] matched at the
    head of [l]: the three colour groups and the optional alpha group. *)
Definition matchRgbaAt (l : list ascii)
  : option (string * string * string * option string) :=
  l0 ← expectPrefix "rgb" l;
  let l0' := match expectChar "a"%char l0 with Some l' => l' | None => l0 end in
  l1 ← expectChar "("%char l0';
  '(d1, l2) ← digits1 l1;
  l3 ← expectChar ","%char l2;
  '(d2, l4) ← digits1 (dropWhile isSpace l3);
  l5 ← expectChar ","%char l4;
  '(d3, l6) ← digits1 (dropWhile isSpace l5);
  match expectChar ","%char l6 with
  | Some l7 =>
      '(a, l8) ← digitsOrDots1 (dropWhile isSpace l7);
      _ ← expectChar ")"%char l8;
      Some (str d1, str d2, str d3, Some (str a))
  | None =>
      _ ← expectChar ")"%char l6;
      Some (str d1, str d2, str d3, None)
  end.

(** [namedColors[name] || null]: the ten names of the table, and the two
    lower-case names of members the table inherits from
    [Object.prototype], both objects and so truthy. *)
Definition namedColors (name : string) : option Color :=
  if String.eqb name "black" then Some (Hex "#000000")
  else if String.eqb name "white" then Some (Hex "#FFFFFF")
  else if String.eqb name "red" then Some (Hex "#FF0000")
  else if String.eqb name "green" then Some (Hex "#008000")
  else if String.eqb name "blue" then Some (Hex "#0000FF")
  else if String.eqb name "yellow" then Some (Hex "#FFFF00")
  else if String.eqb name "cyan" then Some (Hex "#00FFFF")
  else if String.eqb name "magenta" then Some (Hex "#FF00FF")
  else if String.eqb name "gray" then Some (Hex "#808080")
  else if String.eqb name "grey" then Some (Hex "#808080")
  else if String.eqb name "constructor" then Some ObjectConstructor
  else if String.eqb name "__proto__" then Some ObjectPrototype
  else None.

Definition normalizeColor (color : string) : option Color :=
  if String.eqb color "" || String.eqb color "transparent" then None
  else if startsWith color "#" then Some (Hex (toUpperCase color))
  else
    match search matchRgbaAt (chars color) with
    | Some (m1, m2, m3, m4) =>
        let a :=
          match m4 with
          | Some s => if String.eqb s "" then 1%float else parseFloat s
          | None => 1%float
          end in
        if (a =? 0)%float then None
        else Some (Hex (rgbToHex (parseInt m1) (parseInt m2) (parseInt m3)))
    | None => namedColors (toLowerCase color)
    end.

(** [String(color)], as a regular expression, a sort without comparator
    and a template literal see a colour. *)
Definition colorText (color : Color) : string :=
  match color with
  | Hex s => s
  | ObjectConstructor => "function Object() { [native code] }"
  | ObjectPrototype => "[object Object]"
  end.

(** The comparison of the keys of a [Map]: strings by their characters,
    objects by identity. *)
Definition Color_eqb (a b : Color) : bool :=
  match a, b with
  | Hex s, Hex t => String.eqb s t
  | ObjectConstructor, ObjectConstructor => true
  | ObjectPrototype, ObjectPrototype => true
  | _, _ => false
  end.

Definition hexToRgb (hex : string) : RGB.t :=
  match matchHex (chars hex) with
  | Some (m1, m2, m3) => RGB.mk (parseInt16 m1) (parseInt16 m2) (parseInt16 m3)
  | None => RGB.mk 0 0 0
  end.

Definition colorDistance (color1 color2 : string) : float :=
  let rgb1 := hexToRgb color1 in
  let rgb2 := hexToRgb color2 in
  let rMean := ((RGB.r rgb1 + RGB.r rgb2) / 2)%float in
  let r := (RGB.r rgb1 - RGB.r rgb2)%float in
  let g := (RGB.g rgb1 - RGB.g rgb2)%float in
  let b := (RGB.b rgb1 - RGB.b rgb2)%float in
  let weightR := (2 + rMean / 256)%float in
  let weightG := 4%float in
  let weightB := (2 + (255 - rMean) / 256)%float in
  Math_sqrt (weightR * r * r + weightG * g * g + weightB * b * b)%float.

(** [String(v)] for a possibly undefined string, as a regular expression
    and a template literal see it. *)
Definition orUndefined (v : option string) : string :=
  match v with Some s => s | None => "undefined" end.

Definition findNearestColor (color : string) (palette : list string)
  : option string :=
  fst (fold_left
         (fun '(nearestColor, minDistance) paletteColor =>
            let distance := colorDistance color paletteColor in
            if (distance <? minDistance)%float
            then (Some paletteColor, distance)
            else (nearestColor, minDistance))
         palette (head palette, infinity)).

(** The [Map] of used colours, in insertion order. *)
Definition UsedColors := list (Color * ColorUsage.t).

(** The body of the loop over the colours of an element: one more
    occurrence of [normalized], seen on [selector]. *)
Fixpoint recordColor (normalized : Color) (selector : string)
    (usedColors : UsedColors) : UsedColors :=
  match usedColors with
  | [] => [(normalized, ColorUsage.mk 1 [selector])]
  | (c, usage) :: rest =>
      if Color_eqb c normalized then
        (c, ColorUsage.mk (S (ColorUsage.count usage))
              (if includes (ColorUsage.elements usage) selector
               then ColorUsage.elements usage
               else ColorUsage.elements usage ++ [selector])) :: rest
      else (c, usage) :: recordColor normalized selector rest
  end.

Definition elementColors (element : DOMElement.t) : list string :=
  omap
    (fun prop =>
       match style element prop with
       | Some c =>
           if negb (String.eqb c "") && negb (String.eqb c "transparent")
              && negb (String.eqb c "rgba(0, 0, 0, 0)")
           then Some c else None
       | None => None
       end)
    ["color"; "backgroundColor"; "borderColor"; "borderTopColor";
     "borderRightColor"; "borderBottomColor"; "borderLeftColor"].

Definition collectElement (usedColors : UsedColors) (element : DOMElement.t)
  : UsedColors :=
  fold_left
    (fun used color =>
       match normalizeColor color with
       | Some normalized => recordColor normalized (DOMElement.selector element) used
       | None => used
       end)
    (elementColors element) usedColors.

Definition collectColors (snapshots : list ViewportSnapshot.t) : UsedColors :=
  fold_left
    (fun used snapshot =>
       fold_left collectElement (ViewportSnapshot.dom snapshot) used)
    snapshots [].

(** The pairs [(colorArray[i], colorArray[j])], [i < j], in the order the
    two nested loops visit them. *)
Fixpoint allPairs {A} (l : list A) : list (A * A) :=
  match l with
  | [] => []
  | a :: l' => List.map (pair a) l' ++ allPairs l'
  end.

(** [[color1, color2].sort().join('|')] *)
Definition pairKey (color1 color2 : Color) : string :=
  if stringLe (colorText color1) (colorText color2)
  then (colorText color1 ++ "|" ++ colorText color2)%string
  else (colorText color2 ++ "|" ++ colorText color1)%string.

(** [[...new Set(l)]]: first occurrences, in order. *)
Fixpoint dedupe (seen l : list string) : list string :=
  match l with
  | [] => []
  | s :: l' => if includes seen s then dedupe seen l'
               else s :: dedupe (s :: seen) l'
  end.

Definition nearDuplicateIssue (id : string)
    (e1 e2 : Color * ColorUsage.t) (distance : float) : Issue.t :=
  let '(color1, data1) := e1 in
  let '(color2, data2) := e2 in
  Issue.mk id colors medium "all" "Multiple elements"
    [Str "Using "; Str (colorText color1); Str " AND "; Str (colorText color2);
     Str "? Karen's not having it. Pick a system."]
    (NearDuplicateDetails color1 color2
       (Math_round (distance * 100) / 100)%float
       (ColorUsage.count data1) (ColorUsage.count data2)
       (firstn 5 (dedupe [] (ColorUsage.elements data1
                               ++ ColorUsage.elements data2))))
    None
    (Some (Fix.mk
       [Str "Consolidate to a single color. Use "; Str (colorText color1);
        Str " ("; Cnt (ColorUsage.count data1); Str " occurrences) or ";
        Str (colorText color2);
        Str " ("; Cnt (ColorUsage.count data2); Str " occurrences)."]
       (Some (IssueFix.mk "styles/colors.css"
          [Str "color: "; Str (colorText color2); Str ";"]
          [Str "color: "; Str (colorText color1); Str ";"]
          None)))).

(** The two nested loops over [colorArray], with the set of processed
    pair keys. *)
Fixpoint nearDuplicates
    (pairs : list ((Color * ColorUsage.t) * (Color * ColorUsage.t)))
    (processedPairs : list string) : M (list Issue.t) :=
  match pairs with
  | [] => ret []
  | (e1, e2) :: rest =>
      let key := pairKey (fst e1) (fst e2) in
      if includes processedPairs key then nearDuplicates rest processedPairs
      else
        let distance :=
          colorDistance (colorText (fst e1)) (colorText (fst e2)) in
        found <-
          (if (0 <? distance)%float && (distance <? 15)%float then
             id <- generateId "CLR" ;;
             ret [nearDuplicateIssue id e1 e2 distance]
           else ret []) ;;
        more <- nearDuplicates rest (key :: processedPairs) ;;
        ret (found ++ more)
  end.

(** The body of the loop that checks the used colours against the palette. *)
Definition checkPalette (palette : list string) (entry : Color * ColorUsage.t)
  : M (list Issue.t) :=
  let '(color, data) := entry in
  if (ColorUsage.count data <? 3)%nat then ret []
  else
    let nearestPaletteColor := findNearestColor (colorText color) palette in
    let distanceToPalette :=
      colorDistance (colorText color) (orUndefined nearestPaletteColor) in
    if (20 <? distanceToPalette)%float then
      id <- generateId "CLR" ;;
      ret [ Issue.mk id colors low "all"
              (orUndefined (head (ColorUsage.elements data)))
              [Str "Color "; Str (colorText color);
               Str " isn't in your palette. Karen suggests picking from your design system."]
              (PaletteDetails color nearestPaletteColor
                 (Math_round (distanceToPalette * 100) / 100)%float
                 (ColorUsage.count data) palette)
              None
              (Some (Fix.mk
                 [Str "Use "; optStr nearestPaletteColor;
                  Str " from your color palette instead"]
                 (Some (IssueFix.mk "styles/colors.css"
                    [Str "color: "; Str (colorText color); Str ";"]
                    [Str "color: "; optStr nearestPaletteColor; Str ";"]
                    None)))) ]
    else ret [].

Definition analyzeColors (snapshots : list ViewportSnapshot.t)
    (config : KarenConfig.t) : M (list Issue.t) :=
  let palette := KarenConfig.colorPalette config in
  let usedColors := collectColors snapshots in
  let colorArray := usedColors in
  near <- nearDuplicates (allPairs colorArray) [] ;;
  off <- forEach (checkPalette palette) usedColors ;;
  ret (near ++ off).

(** ** Design-system consistency (the design-system detector) *)

Module ButtonStyle.
Record t := mk {
  borderRadius : string;
  padding : string;
  fontSize : string;
  fontWeight : string;
  backgroundColor : string;
  color : string;
  border : string;
  element : string
}.
End ButtonStyle.

Module InputStyle.
Record t := mk {
  borderRadius : string;
  padding : string;
  fontSize : string;
  border : string;
  height : string;
  element : string
}.
End InputStyle.

Module CardStyle.
Record t := mk {
  borderRadius : string;
  padding : string;
  backgroundColor : string;
  boxShadow : string;
  border : string;
  element : string
}.
End CardStyle.

(** Normalize padding for comparison: [10px 20px 10px 20px] becomes
    [10px 20px]. *)
Definition normalizedPadding (padding : string) : string :=
  match split_ws padding with
  | [v0; v1; v2; v3] =>
      if String.eqb v0 v2 && String.eqb v1 v3
      then (v0 ++ " " ++ v1)%string else padding
  | _ => padding
  end.

Definition createStyleSignature (style : ButtonStyle.t) : string :=
  jsonObject
    [ ("borderRadius", ButtonStyle.borderRadius style);
      ("padding", normalizedPadding (ButtonStyle.padding style));
      ("fontSize", ButtonStyle.fontSize style);
      ("fontWeight", ButtonStyle.fontWeight style);
      ("backgroundColor", ButtonStyle.backgroundColor style);
      ("border", ButtonStyle.border style) ].

(** [el.classes.some((c) => c.includes(w1) || c.includes(w2) || ...)] *)
Definition someClassIncludes (el : DOMElement.t) (words : list string) : bool :=
  existsb (fun c => existsb (includesSubstring c) words) (DOMElement.classes el).

(** [style.prop === value] for a possibly undefined property. *)
Definition styleIs (el : DOMElement.t) (prop value : string) : bool :=
  match style el prop with
  | Some s => String.eqb s value
  | None => false
  end.

Definition isButton (el : DOMElement.t) : bool :=
  String.eqb (DOMElement.tagName el) "BUTTON"
  || (String.eqb (DOMElement.tagName el) "A"
      && (someClassIncludes el ["btn"; "button"]
          || styleIs el "display" "inline-block"
          || styleIs el "display" "inline-flex"))
  || someClassIncludes el ["btn"; "button"].

Definition buttonStyleOf (btn : DOMElement.t) : ButtonStyle.t :=
  ButtonStyle.mk
    (orElse (style btn "borderRadius") "0px")
    (orElse (style btn "padding") "0px")
    (orElse (style btn "fontSize") "16px")
    (orElse (style btn "fontWeight") "400")
    (orElse (style btn "backgroundColor") "transparent")
    (orElse (style btn "color") "#000000")
    (orElse (style btn "border") "none")
    (DOMElement.selector btn).

(** [m.get(key).push(value)] on a [Map] from strings to arrays, the
    array created when the key is new. *)
Fixpoint pushAt {V} (key : string) (value : V) (m : list (string * list V))
  : list (string * list V) :=
  match m with
  | [] => [(key, [value])]
  | (k, vs) :: rest =>
      if String.eqb k key then (k, vs ++ [value]) :: rest
      else (k, vs) :: pushAt key value rest
  end.

(** [set.add(value)] on a [Set] of strings, and [new Set(l)]. *)
Definition setAdd (set : list string) (value : string) : list string :=
  if includes set value then set else set ++ [value].

Definition setOf (l : list string) : list string := fold_left setAdd l [].

Definition buttonAfter : string :=
  "// Define standard button variants
const buttonVariants = {
  primary: {
    padding: '12px 24px',
    borderRadius: '8px',
    fontSize: '16px',
    fontWeight: '600',
    backgroundColor: '#0066FF',
    color: '#FFFFFF'
  },
  secondary: {
    padding: '12px 24px',
    borderRadius: '8px',
    fontSize: '16px',
    fontWeight: '600',
    backgroundColor: 'transparent',
    border: '2px solid #0066FF',
    color: '#0066FF'
  },
  ghost: {
    padding: '12px 24px',
    borderRadius: '8px',
    fontSize: '16px',
    fontWeight: '600',
    backgroundColor: 'transparent',
    color: '#0066FF'
  }
}".

(** An entry of [variationsList]: the number of buttons of a signature
    and the first of them. *)
Definition variationOf (btns : list ButtonStyle.t)
  : nat * option ButtonStyle.t :=
  (length btns, head btns).

Definition variationDetails (v : nat * option ButtonStyle.t)
  : option ButtonVariation.t :=
  match snd v with
  | Some example =>
      Some (ButtonVariation.mk (fst v)
              (ButtonStyle.borderRadius example) (ButtonStyle.padding example)
              (ButtonStyle.fontSize example)
              (ButtonStyle.backgroundColor example))
  | None => None
  end.

Definition analyzeButtonVariations (snapshots : list ViewportSnapshot.t)
  : M (list Issue.t) :=
  let buttons :=
    flat_map
      (fun snapshot =>
         List.map buttonStyleOf
                  (List.filter isButton (ViewportSnapshot.dom snapshot)))
      snapshots in
  if (length buttons =? 0)%nat then ret []
  else
    let styleSignatures :=
      fold_left (fun m btn => pushAt (createStyleSignature btn) btn m)
                buttons [] in
    let uniqueStyles := length styleSignatures in
    styles <-
      (if (5 <? uniqueStyles)%nat then
         let variationsList :=
           Array_sort (fun a b => (fst b <? fst a)%nat)
                      (List.map (fun e => variationOf (snd e)) styleSignatures) in
         id <- generateId "DS" ;;
         ret [ Issue.mk id design_system high "all" "Button components"
                 [Str "Buttons in "; Cnt uniqueStyles;
                  Str " different styles? Karen's documenting every inconsistency."]
                 (ButtonStylesDetails (length buttons) uniqueStyles
                    (omap variationDetails (firstn 10 variationsList)))
                 None
                 (Some (Fix.mk
                    [Str "Create a Button component with consistent variants (primary, secondary, ghost)"]
                    (Some (IssueFix.mk "components/Button.tsx"
                       [Str "// "; Cnt uniqueStyles;
                        Str " different button styles scattered across your code"]
                       [Str buttonAfter]
                       None)))) ]
       else ret []) ;;
    let borderRadii := setOf (List.map ButtonStyle.borderRadius buttons) in
    radii <-
      (if (3 <? length borderRadii)%nat && (5 <? length buttons)%nat then
         id <- generateId "DS" ;;
         ret [ Issue.mk id design_system medium "all" "Button border-radius"
                 [Str "Button border-radius all over the place? Pick ONE system, sweetie."]
                 (BorderRadiiDetails borderRadii (length borderRadii))
                 None
                 (Some (Fix.mk
                    [Str "Standardize button border-radius to a single value or use design tokens"]
                    (Some (IssueFix.mk "styles/buttons.css"
                       [Str "border-radius: ";
                        Str (join ", " (firstn 3 borderRadii)); Str ", ..."]
                       [Str "border-radius: var(--border-radius-button, 8px);"]
                       None)))) ]
       else ret []) ;;
    let paddings :=
      setOf (List.map (fun b => normalizedPadding (ButtonStyle.padding b))
                      buttons) in
    pads <-
      (if (4 <? length paddings)%nat && (5 <? length buttons)%nat then
         id <- generateId "DS" ;;
         ret [ Issue.mk id design_system medium "all" "Button padding"
                 [Str "Random button padding values? Karen's judging your spacing tokens."]
                 (ButtonPaddingsDetails paddings (length paddings))
                 None
                 (Some (Fix.mk
                    [Str "Use consistent padding values from your spacing scale"]
                    (Some (IssueFix.mk "styles/buttons.css"
                       [Str "padding: "; Str (join ", " (firstn 3 paddings));
                        Str ", ..."]
                       [Str "padding: var(--spacing-3) var(--spacing-6); /* 12px 24px */"]
                       None)))) ]
       else ret []) ;;
    ret (styles ++ radii ++ pads).

Definition isInput (el : DOMElement.t) : bool :=
  String.eqb (DOMElement.tagName el) "INPUT"
  || String.eqb (DOMElement.tagName el) "TEXTAREA"
  || String.eqb (DOMElement.tagName el) "SELECT"
  || someClassIncludes el ["input"; "field"].

Definition inputStyleOf (input : DOMElement.t) : InputStyle.t :=
  InputStyle.mk
    (orElse (style input "borderRadius") "0px")
    (orElse (style input "padding") "0px")
    (orElse (style input "fontSize") "16px")
    (orElse (style input "border") "none")
    (orElse (style input "height") "auto")
    (DOMElement.selector input).

Definition analyzeInputVariations (snapshots : list ViewportSnapshot.t)
  : M (list Issue.t) :=
  let inputs :=
    flat_map
      (fun snapshot =>
         List.map inputStyleOf
                  (List.filter isInput (ViewportSnapshot.dom snapshot)))
      snapshots in
  if (length inputs =? 0)%nat then ret []
  else
    let heights := setOf (List.map InputStyle.height inputs) in
    hs <-
      (if (3 <? length heights)%nat && (3 <? length inputs)%nat then
         id <- generateId "DS" ;;
         ret [ Issue.mk id design_system medium "all" "Input fields"
                 [Str "Input fields with "; Cnt (length heights);
                  Str " different heights? Karen demands consistency."]
                 (InputHeightsDetails (length inputs) heights)
                 None
                 (Some (Fix.mk
                    [Str "Standardize input heights to 2-3 sizes (small, medium, large)"]
                    (Some (IssueFix.mk "styles/forms.css"
                       [Str "input { height: ";
                        Str (join ", " (firstn 3 heights)); Str ", ... }"]
                       [Str "input {
  height: var(--input-height, 40px);
  padding: var(--spacing-2) var(--spacing-3);
}"]
                       None)))) ]
       else ret []) ;;
    let borders := setOf (List.map InputStyle.border inputs) in
    bs <-
      (if (3 <? length borders)%nat && (3 <? length inputs)%nat then
         id <- generateId "DS" ;;
         ret [ Issue.mk id design_system medium "all" "Input borders"
                 [Str "Input borders all over the place? Design systems exist for a reason."]
                 (InputBordersDetails (length inputs) (firstn 5 borders))
                 None
                 (Some (Fix.mk
                    [Str "Use consistent border styling for all inputs"]
                    (Some (IssueFix.mk "styles/forms.css"
                       [Str "/* Inconsistent borders */"]
                       [Str "input, textarea, select {
  border: 1px solid var(--color-border);
  border-radius: var(--radius-md);
}"]
                       None)))) ]
       else ret []) ;;
    ret (hs ++ bs).

Definition isCard (el : DOMElement.t) : bool :=
  someClassIncludes el ["card"; "panel"; "box"]
  || (String.eqb (DOMElement.tagName el) "ARTICLE"
      || String.eqb (DOMElement.tagName el) "SECTION").

Definition cardStyleOf (card : DOMElement.t) : CardStyle.t :=
  CardStyle.mk
    (orElse (style card "borderRadius") "0px")
    (orElse (style card "padding") "0px")
    (orElse (style card "backgroundColor") "transparent")
    (orElse (style card "boxShadow") "none")
    (orElse (style card "border") "none")
    (DOMElement.selector card).

Definition analyzeCardVariations (snapshots : list ViewportSnapshot.t)
  : M (list Issue.t) :=
  let cards :=
    flat_map
      (fun snapshot =>
         List.map cardStyleOf
                  (List.filter isCard (ViewportSnapshot.dom snapshot)))
      snapshots in
  if (length cards =? 0)%nat then ret []
  else
    let shadows := setOf (List.map CardStyle.boxShadow cards) in
    ss <-
      (if (4 <? length shadows)%nat && (3 <? length cards)%nat then
         id <- generateId "DS" ;;
         ret [ Issue.mk id design_system medium "all" "Card shadows"
                 [Str "Card shadows in "; Cnt (length shadows);
                  Str " different styles? Karen's shadow game is stronger."]
                 (CardShadowsDetails (length cards) (length shadows))
                 None
                 (Some (Fix.mk
                    [Str "Define 2-3 shadow levels in your design system"]
                    (Some (IssueFix.mk "styles/cards.css"
                       [Str "/* Multiple shadow variations */"]
                       [Str ".card {
  box-shadow: var(--shadow-md);
  border-radius: var(--radius-lg);
  padding: var(--spacing-4);
}

/* Shadow scale */
:root {
  --shadow-sm: 0 1px 2px rgba(0, 0, 0, 0.05);
  --shadow-md: 0 4px 6px rgba(0, 0, 0, 0.1);
  --shadow-lg: 0 10px 15px rgba(0, 0, 0, 0.1);
}"]
                       None)))) ]
       else ret []) ;;
    let cardPaddings :=
      setOf (List.map (fun c => normalizedPadding (CardStyle.padding c)) cards) in
    ps <-
      (if (4 <? length cardPaddings)%nat && (3 <? length cards)%nat then
         id <- generateId "DS" ;;
         ret [ Issue.mk id design_system low "all" "Card padding"
                 [Str "Random card padding values? Use your spacing scale, sweetie."]
                 (CardPaddingsDetails (length cards) cardPaddings)
                 None
                 (Some (Fix.mk
                    [Str "Standardize card padding using spacing tokens"]
                    (Some (IssueFix.mk "styles/cards.css"
                       [Str "padding: ";
                        Str (join ", " (firstn 2 cardPaddings)); Str ", ..."]
                       [Str ".card {
  padding: var(--spacing-4);
}

.card--compact {
  padding: var(--spacing-3);
}"]
                       None)))) ]
       else ret []) ;;
    ret (ss ++ ps).

(** [headings.get(tag).add(fontSize)] on the [Map] from tags to sets of
    font sizes, the set created when the tag is new. *)
Fixpoint addHeading (tag fontSize : string) (m : list (string * list string))
  : list (string * list string) :=
  match m with
  | [] => [(tag, [fontSize])]
  | (k, sizes) :: rest =>
      if String.eqb k tag then (k, setAdd sizes fontSize) :: rest
      else (k, sizes) :: addHeading tag fontSize rest
  end.

Definition headingTags : list string := ["H1"; "H2"; "H3"; "H4"; "H5"; "H6"].

(** The body of the loop of [analyzeHeadingInconsistencies] over the
    heading levels. *)
Definition checkHeading (entry : string * list string) : M (list Issue.t) :=
  let '(tag, fontSizes) := entry in
  if (2 <? length fontSizes)%nat then
    id <- generateId "DS" ;;
    ret [ Issue.mk id design_system medium "all" tag
            [Str tag; Str " tags with "; Cnt (length fontSizes);
             Str " different sizes? Karen enforces typographic hierarchy."]
            (HeadingDetails tag fontSizes)
            None
            (Some (Fix.mk
               [Str "Standardize "; Str tag;
                Str " font size across your application"]
               (Some (IssueFix.mk "styles/typography.css"
                  [Str (toLowerCase tag); Str " { font-size: ";
                   optStr (head fontSizes); Str "; } /* inconsistent */"]
                  [Str (toLowerCase tag); Str " {
  font-size: var(--text-"; Str (toLowerCase tag); Str ");
  line-height: 1.2;
  font-weight: 600;
}"]
                  None)))) ]
  else ret [].

Definition analyzeHeadingInconsistencies (snapshots : list ViewportSnapshot.t)
  : M (list Issue.t) :=
  let headings :=
    fold_left
      (fun m snapshot =>
         fold_left
           (fun m heading =>
              addHeading (DOMElement.tagName heading)
                         (orElse (style heading "fontSize") "16px") m)
           (List.filter (fun el => includes headingTags (DOMElement.tagName el))
                        (ViewportSnapshot.dom snapshot))
           m)
      snapshots [] in
  forEach checkHeading headings.

Definition detectDesignSystemChaos (snapshots : list ViewportSnapshot.t)
  : M (list Issue.t) :=
  buttons <- analyzeButtonVariations snapshots ;;
  inputs <- analyzeInputVariations snapshots ;;
  cards <- analyzeCardVariations snapshots ;;
  headings <- analyzeHeadingInconsistencies snapshots ;;
  ret (buttons ++ inputs ++ cards ++ headings).

(** ** Alignment detection (the alignment detector) *)

Definition rectX (el : DOMElement.t) : float := ElementRect.x (DOMElement.rect el).
Definition rectY (el : DOMElement.t) : float := ElementRect.y (DOMElement.rect el).
Definition rectWidth (el : DOMElement.t) : float :=
  ElementRect.width (DOMElement.rect el).
Definition rectHeight (el : DOMElement.t) : float :=
  ElementRect.height (DOMElement.rect el).

(** [el.rect.width === 0 || el.rect.height === 0] *)
Definition invisible (el : DOMElement.t) : bool :=
  (rectWidth el =? 0)%float || (rectHeight el =? 0)%float.

(** [Math.abs(pos - current) <= tolerance] *)
Definition withinTolerance (pos current tolerance : float) : bool :=
  (Math_abs (pos - current) <=? tolerance)%float.

Definition keepRow (rows : list (list DOMElement.t))
    (currentRow : list DOMElement.t) : list (list DOMElement.t) :=
  if (1 <? length currentRow)%nat then rows ++ [currentRow] else rows.

(** The loop of [groupElementsByRow] / [groupElementsByColumn] over the
    sorted elements; [coord] is [rect.y] for rows, [rect.x] for columns,
    [current] starts as [-Infinity]. *)
Fixpoint groupWalk (coord : DOMElement.t -> float) (tolerance : float)
    (sorted : list DOMElement.t) (rows : list (list DOMElement.t))
    (currentRow : list DOMElement.t) (current : float)
  : list (list DOMElement.t) :=
  match sorted with
  | [] => keepRow rows currentRow
  | el :: rest =>
      if invisible el then groupWalk coord tolerance rest rows currentRow current
      else if withinTolerance (coord el) current tolerance then
        groupWalk coord tolerance rest rows (currentRow ++ [el]) current
      else
        groupWalk coord tolerance rest (keepRow rows currentRow) [el] (coord el)
  end.

(** The comparator [(a, b) => coord(a) - coord(b)], as the sort reads
    it. *)
Definition coordBefore (coord : DOMElement.t -> float) (a b : DOMElement.t)
  : bool :=
  (coord a - coord b <? 0)%float.

Definition groupElementsBy (coord : DOMElement.t -> float)
    (elements : list DOMElement.t) (tolerance : float)
  : list (list DOMElement.t) :=
  let sorted := Array_sort (coordBefore coord) elements in
  groupWalk coord tolerance sorted [] [] neg_infinity.

Definition groupElementsByRow := groupElementsBy rectY.
Definition groupElementsByColumn := groupElementsBy rectX.

(** [positionCounts.set(pos, (positionCounts.get(pos) || 0) + 1)] on a
    [Map] keyed by numbers, in insertion order; a new key [-0] is kept
    as [+0]. *)
Fixpoint countPosition (pos : float) (counts : list (float * nat))
  : list (float * nat) :=
  match counts with
  | [] => [(if isNegZero pos then 0%float else pos, 1%nat)]
  | (p, n) :: rest =>
      if sameValueZero p pos then (p, S n) :: rest
      else (p, n) :: countPosition pos rest
  end.

(** [entries.reduce((a, b) => a[1] > b[1] ? a : b)[0]] on a non-empty
    list of entries. *)
Definition mostCommon (first : float * nat) (rest : list (float * nat))
  : float :=
  fst (fold_left (fun a b => if (snd b <? snd a)%nat then a else b) rest first).

(** What differs between the horizontal and the vertical check. *)
Record AxisTexts := mkAxisTexts {
  alignmentType : string;
  axisMessage : string;
  suggestionHead : string;
  fixAfter : string;
  fixExplanation : string
}.

Definition horizontalTexts : AxisTexts :=
  mkAxisTexts "horizontal"
    "Elements not aligned horizontally? Karen's OCD is triggered. Fix your layout."
    "Align elements using flexbox or grid. Current misalignment: "
    ".container {
  display: flex;
  align-items: center; /* or align-items: flex-start; */
}"
    "Using flexbox ensures all items in a row maintain consistent vertical alignment".

Definition verticalTexts : AxisTexts :=
  mkAxisTexts "vertical"
    "Vertical alignment is off? Karen notices EVERYTHING. Time to fix your columns."
    "Align elements using grid or consistent margins. Current misalignment: "
    ".container {
  display: grid;
  grid-template-columns: repeat(auto-fit, minmax(200px, 1fr));
  gap: 1rem;
}"
    "Using CSS Grid ensures consistent column alignment and spacing".

(** The body of the loop of [checkHorizontalAlignment] /
    [checkVerticalAlignment] over the rows (columns). *)
Definition checkRow (coord : DOMElement.t -> float) (texts : AxisTexts)
    (snapshot : ViewportSnapshot.t) (tolerance : float)
    (row : list DOMElement.t) : M (list Issue.t) :=
  if (length row <? 2)%nat then ret []
  else
    let positions := List.map coord row in
    let minTop := Math_min_of positions in
    let maxTop := Math_max_of positions in
    let misalignment := (maxTop - minTop)%float in
    if (tolerance <? misalignment)%float then
      let positionCounts := fold_left (fun m pos => countPosition pos m)
                                      positions [] in
      match positionCounts with
      | [] => throw (TypeError "Reduce of empty array with no initial value")
      | e :: es =>
          let baseline := mostCommon e es in
          let misalignedElements :=
            List.filter
              (fun el => (tolerance <? Math_abs (coord el - baseline))%float)
              row in
          id <- generateId "ALN" ;;
          ret [ Issue.mk id design_system medium
                  (Viewport.name (ViewportSnapshot.viewport snapshot))
                  (join ", " (List.map DOMElement.selector misalignedElements))
                  [Str (axisMessage texts)]
                  (AlignmentDetails (alignmentType texts)
                     (Math_round misalignment) tolerance baseline
                     (List.map
                        (fun el => (DOMElement.selector el, coord el,
                                    Math_abs (coord el - baseline)))
                        row))
                  None
                  (Some (Fix.mk
                     [Str (suggestionHead texts);
                      Num (Math_round misalignment);
                      Str "px, tolerance: "; Num tolerance; Str "px"]
                     (Some (IssueFix.mk "styles/layout.css"
                        [Str ".container > * {
  /* Elements misaligned by "; Num (Math_round misalignment); Str "px */
}"]
                        [Str (fixAfter texts)]
                        (Some [Str (fixExplanation texts)]))))) ]
      end
    else ret [].

Definition checkHorizontalAlignment (snapshot : ViewportSnapshot.t)
    (tolerance : float) : M (list Issue.t) :=
  let rows := groupElementsByRow (ViewportSnapshot.dom snapshot) tolerance in
  forEach (checkRow rectY horizontalTexts snapshot tolerance) rows.

Definition checkVerticalAlignment (snapshot : ViewportSnapshot.t)
    (tolerance : float) : M (list Issue.t) :=
  let columns :=
    groupElementsByColumn (ViewportSnapshot.dom snapshot) tolerance in
  forEach (checkRow rectX verticalTexts snapshot tolerance) columns.

(** [gaps.set(roundedGap, (gaps.get(roundedGap) || 0) + 1)] *)
Definition countGap (gap : float) (gaps : list (float * nat))
  : list (float * nat) :=
  countPosition gap gaps.

Module Gaps.
Record t := mk { horizontal : list (float * nat); vertical : list (float * nat) }.
End Gaps.

Definition gridCompare (a b : DOMElement.t) : float :=
  if (Math_abs (rectY a - rectY b) <? 10)%float then (rectX a - rectX b)%float
  else (rectY a - rectY b)%float.

(** The body of the loop of [calculateGaps] over adjacent elements. *)
Definition gapStep (gaps : Gaps.t) (pair : DOMElement.t * DOMElement.t)
  : Gaps.t :=
  let '(current, next) := pair in
  let horizontalGaps :=
    if (Math_abs (rectY current - rectY next) <? 10)%float then
      let gap := (rectX next - (rectX current + rectWidth current))%float in
      if (0 <? gap)%float
      then countGap (Math_round gap) (Gaps.horizontal gaps)
      else Gaps.horizontal gaps
    else Gaps.horizontal gaps in
  let verticalGaps :=
    if (Math_abs (rectX current - rectX next) <? 10)%float then
      let gap := (rectY next - (rectY current + rectHeight current))%float in
      if (0 <? gap)%float
      then countGap (Math_round gap) (Gaps.vertical gaps)
      else Gaps.vertical gaps
    else Gaps.vertical gaps in
  Gaps.mk horizontalGaps verticalGaps.

(** The pairs [(sorted[i], sorted[i + 1])]. *)
Fixpoint adjacent {A} (l : list A) : list (A * A) :=
  match l with
  | a :: ((b :: _) as l') => (a, b) :: adjacent l'
  | _ => []
  end.

Definition calculateGaps (elements : list DOMElement.t) : Gaps.t :=
  let sorted :=
    Array_sort (fun a b => (gridCompare a b <? 0)%float) elements in
  fold_left gapStep (adjacent sorted) (Gaps.mk [] []).

(** [Array.from(gaps.values()).reduce((a, b) => a + b, 0) / gaps.size]:
    [values()] of the map are the counts. *)
Definition averageOfValues (gaps : list (float * nat)) : float :=
  (fold_left (fun a b => a + Z2float (Z.of_nat b)) (List.map snd gaps) 0
   / Z2float (Z.of_nat (length gaps)))%float.

(** The body of the loop of [checkGridAlignment] over the containers. *)
Definition checkContainer (snapshot : ViewportSnapshot.t)
    (container : DOMElement.t) : M (list Issue.t) :=
  let children := DOMElement.children container in
  if (length children <? 4)%nat then ret []
  else
    let gaps := calculateGaps children in
    if (3 <? length (Gaps.horizontal gaps))%nat
       || (3 <? length (Gaps.vertical gaps))%nat then
      let avgHorizontalGap := averageOfValues (Gaps.horizontal gaps) in
      let avgVerticalGap := averageOfValues (Gaps.vertical gaps) in
      let sel := DOMElement.selector container in
      id <- generateId "ALN" ;;
      ret [ Issue.mk id design_system medium
              (Viewport.name (ViewportSnapshot.viewport snapshot)) sel
              [Str "Inconsistent grid spacing? Karen demands perfect symmetry in your layouts."]
              (GridDetails (length children) (Gaps.horizontal gaps)
                 (Gaps.vertical gaps) (Math_round avgHorizontalGap)
                 (Math_round avgVerticalGap))
              None
              (Some (Fix.mk
                 [Str "Use CSS Grid with consistent gap values"]
                 (Some (IssueFix.mk "styles/layout.css"
                    [Str sel; Str " {
  /* Inconsistent spacing */
}"]
                    [Str sel; Str " {
  display: grid;
  grid-template-columns: repeat(auto-fill, minmax(250px, 1fr));
  gap: "; Num (Math_round avgVerticalGap); Str "px ";
                     Num (Math_round avgHorizontalGap); Str "px;
}"]
                    (Some [Str "CSS Grid with consistent gap ensures uniform spacing between items"]))))) ]
    else ret [].

Definition checkGridAlignment (snapshot : ViewportSnapshot.t) (_tolerance : float)
  : M (list Issue.t) :=
  let gridContainers :=
    List.filter (fun el => (4 <=? length (DOMElement.children el))%nat)
                (ViewportSnapshot.dom snapshot) in
  forEach (checkContainer snapshot) gridContainers.

Definition detectMisalignment (snapshots : list ViewportSnapshot.t)
    (config : KarenConfig.t) : M (list Issue.t) :=
  let tolerance := KarenConfig.alignTolerancePx config in
  forEach
    (fun snapshot =>
       h <- checkHorizontalAlignment snapshot tolerance ;;
       v <- checkVerticalAlignment snapshot tolerance ;;
       g <- checkGridAlignment snapshot tolerance ;;
       ret (h ++ v ++ g))
    snapshots.

(** ** Design tokens (src/detectors/design-tokens.ts) *)

(** The helpers of this detector; its [rgbToHex], [colorDistance] and
    [hexToRgb] are those of the colour detector, word for word, and its
    [normalizeColor] has no table of named colours. *)
Module DesignTokens.

Definition normalizeColor (color : string) : option string :=
  if String.eqb color "" || String.eqb color "transparent" then None
  else if startsWith color "#" then Some (toUpperCase color)
  else
    match search matchRgbaAt (chars color) with
    | Some (m1, m2, m3, m4) =>
        let a :=
          match m4 with
          | Some s => if String.eqb s "" then 1%float else parseFloat s
          | None => 1%float
          end in
        if (a =? 0)%float then None
        else Some (rgbToHex (parseInt m1) (parseInt m2) (parseInt m3))
    | None => None
    end.

End DesignTokens.

(** [tokenNames.join(' ')] *)
Fixpoint joinTexts (sep : string) (parts : list text) : text :=
  match parts with
  | [] => []
  | [p] => p
  | p :: ps => p ++ Str sep :: joinTexts sep ps
  end.

(** [`var(--spacing-${config.spacingScale.indexOf(val)})`] *)
Definition spacingToken (spacingScale : list float) (val : float) : text :=
  [Str "var(--spacing-"; Int (indexOfNumber spacingScale val); Str ")"].

Definition checkPaddingTokens (element : DOMElement.t)
    (snapshot : ViewportSnapshot.t) (config : KarenConfig.t)
  : M (list Issue.t) :=
  let spacingScale := KarenConfig.spacingScale config in
  match style element "padding" with
  | None => ret []
  | Some padding =>
      if negb (String.eqb padding "") && negb (includesSubstring padding "var(")
         && negb (String.eqb padding "0px") then
        let paddingValues := List.map parseInt (split_space padding) in
        let allOnScale := forallb (includesNumber spacingScale) paddingValues in
        if allOnScale && existsb (fun v => (0 <? v)%float) paddingValues then
          let tokenNames := List.map (spacingToken spacingScale) paddingValues in
          let sel := DOMElement.selector element in
          id <- generateId "DT" ;;
          ret [ Issue.mk id design_system low
                  (Viewport.name (ViewportSnapshot.viewport snapshot)) sel
                  [Str "Hardcoded padding? Karen insists on design tokens for consistency."]
                  (SpacingTokenDetails "padding" padding spacingScale true)
                  None
                  (Some (Fix.mk
                     [Str "Replace hardcoded padding with CSS variables from spacing scale"]
                     (Some (IssueFix.mk "styles/spacing.css"
                        [Str sel; Str " {
  padding: "; Str padding; Str ";
}"]
                        ([Str sel; Str " {
  padding: "] ++ joinTexts " " tokenNames ++ [Str ";
}"])
                        (Some [Str "Using design tokens ensures consistency across your design system"]))))) ]
        else ret []
      else ret []
  end.

Definition checkMarginTokens (element : DOMElement.t)
    (snapshot : ViewportSnapshot.t) (config : KarenConfig.t)
  : M (list Issue.t) :=
  let spacingScale := KarenConfig.spacingScale config in
  match style element "margin" with
  | None => ret []
  | Some margin =>
      if negb (String.eqb margin "") && negb (includesSubstring margin "var(")
         && negb (String.eqb margin "0px") && negb (String.eqb margin "auto")
      then
        let marginValues :=
          List.map (fun v => if String.eqb v "auto" then 0%float else parseInt v)
                   (split_space margin) in
        let allOnScale :=
          forallb (fun val => (val =? 0)%float || includesNumber spacingScale val)
                  marginValues in
        if allOnScale && existsb (fun v => (0 <? v)%float) marginValues then
          let tokenNames :=
            List.map (fun val => if (val =? 0)%float then [Str "0"]
                                 else spacingToken spacingScale val)
                     marginValues in
          let sel := DOMElement.selector element in
          id <- generateId "DT" ;;
          ret [ Issue.mk id design_system low
                  (Viewport.name (ViewportSnapshot.viewport snapshot)) sel
                  [Str "Hardcoded margin values? Use tokens like a professional, sweetie."]
                  (SpacingTokenDetails "margin" margin spacingScale true)
                  None
                  (Some (Fix.mk
                     [Str "Replace hardcoded margin with CSS variables from spacing scale"]
                     (Some (IssueFix.mk "styles/spacing.css"
                        [Str sel; Str " {
  margin: "; Str margin; Str ";
}"]
                        ([Str sel; Str " {
  margin: "] ++ joinTexts " " tokenNames ++ [Str ";
}"])
                        None)))) ]
        else ret []
      else ret []
  end.

Definition checkSpacingTokens (element : DOMElement.t)
    (snapshot : ViewportSnapshot.t) (config : KarenConfig.t)
  : M (list Issue.t) :=
  paddings <- checkPaddingTokens element snapshot config ;;
  margins <- checkMarginTokens element snapshot config ;;
  ret (paddings ++ margins).

(** [config.colorPalette.some((paletteColor) =>
    colorDistance(normalized, paletteColor.toUpperCase()) < 10)] *)
Definition inPalette (config : KarenConfig.t) (normalized : string) : bool :=
  existsb
    (fun paletteColor =>
       (colorDistance normalized (toUpperCase paletteColor) <? 10)%float)
    (KarenConfig.colorPalette config).

(** What differs between the check of the background colour and that of
    the text colour. *)
Record ColorTokenTexts := mkColorTokenTexts {
  tokenProperty : string;
  cssProperty : string;
  tokenMessage : string;
  tokenVariable : string;
  tokenExplanation : option text
}.

Definition backgroundTokenTexts : ColorTokenTexts :=
  mkColorTokenTexts "backgroundColor" "background-color"
    "Hardcoded background color? Karen demands you use your palette tokens."
    "var(--color-primary)"
    (Some [Str "Replace with appropriate color token from your palette"]).

Definition textTokenTexts : ColorTokenTexts :=
  mkColorTokenTexts "color" "color"
    "Hardcoded text color? Design tokens exist for a reason."
    "var(--color-text)" None.

Definition colorTokenIssue (texts : ColorTokenTexts) (id : string)
    (element : DOMElement.t) (snapshot : ViewportSnapshot.t)
    (config : KarenConfig.t) (color : string) : Issue.t :=
  let sel := DOMElement.selector element in
  Issue.mk id design_system low
    (Viewport.name (ViewportSnapshot.viewport snapshot)) sel
    [Str (tokenMessage texts)]
    (ColorTokenDetails (tokenProperty texts) color
       (KarenConfig.colorPalette config) true)
    None
    (Some (Fix.mk
       [Str "Use CSS variable from your color palette"]
       (Some (IssueFix.mk "styles/colors.css"
          [Str sel; Str " {
  "; Str (cssProperty texts); Str ": "; Str color; Str ";
}"]
          [Str sel; Str " {
  "; Str (cssProperty texts); Str ": "; Str (tokenVariable texts); Str ";
}"]
          (tokenExplanation texts))))).

(** [checkColorTokens]: when a colour that is checked does not
    normalise, the function returns at once with the issues found so
    far. *)
Definition checkColorTokens (element : DOMElement.t)
    (snapshot : ViewportSnapshot.t) (config : KarenConfig.t)
  : M (list Issue.t) :=
  let checkText (issues : list Issue.t) : M (list Issue.t) :=
    match style element "color" with
    | None => ret issues
    | Some textColor =>
        if negb (String.eqb textColor "")
           && negb (includesSubstring textColor "var(")
           && negb (String.eqb textColor "transparent") then
          match DesignTokens.normalizeColor textColor with
          | None => ret issues
          | Some normalized =>
              if inPalette config normalized then
                id <- generateId "DT" ;;
                ret (issues ++ [colorTokenIssue textTokenTexts id element
                                  snapshot config textColor])
              else ret issues
          end
        else ret issues
    end in
  match style element "backgroundColor" with
  | None => checkText []
  | Some bgColor =>
      if negb (String.eqb bgColor "")
         && negb (includesSubstring bgColor "var(")
         && negb (String.eqb bgColor "transparent")
         && negb (String.eqb bgColor "rgba(0, 0, 0, 0)") then
        match DesignTokens.normalizeColor bgColor with
        | None => ret []
        | Some normalized =>
            if inPalette config normalized then
              id <- generateId "DT" ;;
              checkText [colorTokenIssue backgroundTokenTexts id element
                           snapshot config bgColor]
            else checkText []
        end
      else checkText []
  end.

(** [tokenNames[radiusValue]] for a value that [standardRadii] includes. *)
Definition radiusToken (radiusValue : float) : string :=
  if (radiusValue =? 4)%float then "var(--radius-sm)"
  else if (radiusValue =? 8)%float then "var(--radius-md)"
  else if (radiusValue =? 12)%float then "var(--radius-lg)"
  else if (radiusValue =? 16)%float then "var(--radius-xl)"
  else "var(--radius-2xl)".

Definition checkBorderRadiusTokens (element : DOMElement.t)
    (snapshot : ViewportSnapshot.t) : M (list Issue.t) :=
  match style element "borderRadius" with
  | None => ret []
  | Some borderRadius =>
      if negb (String.eqb borderRadius "")
         && negb (includesSubstring borderRadius "var(")
         && negb (String.eqb borderRadius "0px") then
        let radiusValue := parseInt borderRadius in
        let standardRadii := [4; 8; 12; 16; 24]%float in
        if includesNumber standardRadii radiusValue then
          let sel := DOMElement.selector element in
          id <- generateId "DT" ;;
          ret [ Issue.mk id design_system low
                  (Viewport.name (ViewportSnapshot.viewport snapshot)) sel
                  [Str "Hardcoded border-radius? Karen's design token police are watching."]
                  (RadiusTokenDetails "borderRadius" borderRadius
                     (radiusToken radiusValue))
                  None
                  (Some (Fix.mk
                     [Str "Use CSS variable for border-radius"]
                     (Some (IssueFix.mk "styles/borders.css"
                        [Str sel; Str " {
  border-radius: "; Str borderRadius; Str ";
}"]
                        [Str sel; Str " {
  border-radius: "; Str (radiusToken radiusValue); Str ";
}"]
                        None)))) ]
        else ret []
      else ret []
  end.

Definition textSizeNames : list string :=
  ["xs"; "sm"; "base"; "lg"; "xl"; "2xl"; "3xl"; "4xl"].

(** [names[index]] for an index that [indexOf] returned, [undefined]
    outside the array. *)
Definition nameAt (names : list string) (index : Z) : option string :=
  if (index <? 0)%Z then None else nth_error names (Z.to_nat index).

Definition checkTypographyTokens (element : DOMElement.t)
    (snapshot : ViewportSnapshot.t) (config : KarenConfig.t)
  : M (list Issue.t) :=
  let sizes := Typescale.sizes (KarenConfig.typescale config) in
  match style element "fontSize" with
  | None => ret []
  | Some fontSize =>
      if negb (String.eqb fontSize "")
         && negb (includesSubstring fontSize "var(")
         && negb (includesSubstring fontSize "rem") then
        let sizeValue := parseFloat fontSize in
        if includesNumber sizes sizeValue then
          let sizeIndex := indexOfNumber sizes sizeValue in
          let tokenName :=
            [Str "var(--text-"; optStr (nameAt textSizeNames sizeIndex);
             Str ")"] in
          let sel := DOMElement.selector element in
          id <- generateId "DT" ;;
          ret [ Issue.mk id design_system low
                  (Viewport.name (ViewportSnapshot.viewport snapshot)) sel
                  [Str "Hardcoded font size? Karen demands typography tokens."]
                  (TypographyTokenDetails "fontSize" fontSize sizes tokenName)
                  None
                  (Some (Fix.mk
                     [Str "Use CSS variable from typography scale"]
                     (Some (IssueFix.mk "styles/typography.css"
                        [Str sel; Str " {
  font-size: "; Str fontSize; Str ";
}"]
                        ([Str sel; Str " {
  font-size: "] ++ tokenName ++ [Str ";
}"])
                        None)))) ]
        else ret []
      else ret []
  end.

(** The body of the inner loop of [enforceDesignTokens], for an element
    that has not been checked yet. *)
Definition checkTokens (snapshot : ViewportSnapshot.t) (config : KarenConfig.t)
    (element : DOMElement.t) : M (list Issue.t) :=
  spacings <- checkSpacingTokens element snapshot config ;;
  colours <- checkColorTokens element snapshot config ;;
  radii <- checkBorderRadiusTokens element snapshot ;;
  fonts <- checkTypographyTokens element snapshot config ;;
  ret (spacings ++ colours ++ radii ++ fonts).

(** [`${element.selector}-${snapshot.viewport.name}`] *)
Definition elementKey (snapshot : ViewportSnapshot.t) (element : DOMElement.t)
  : string :=
  (DOMElement.selector element ++ "-"
   ++ Viewport.name (ViewportSnapshot.viewport snapshot))%string.

(** The two nested loops of [enforceDesignTokens], with the set of the
    elements checked so far. *)
Fixpoint tokenLoop (config : KarenConfig.t)
    (items : list (ViewportSnapshot.t * DOMElement.t))
    (checkedElements : list string) : M (list Issue.t) :=
  match items with
  | [] => ret []
  | (snapshot, element) :: rest =>
      let key := elementKey snapshot element in
      if includes checkedElements key then tokenLoop config rest checkedElements
      else
        found <- checkTokens snapshot config element ;;
        more <- tokenLoop config rest (key :: checkedElements) ;;
        ret (found ++ more)
  end.

Definition enforceDesignTokens (snapshots : list ViewportSnapshot.t)
    (config : KarenConfig.t) : M (list Issue.t) :=
  tokenLoop config
    (flat_map
       (fun snapshot =>
          List.map (pair snapshot) (ViewportSnapshot.dom snapshot))
       snapshots)
    [].

(** ** Responsive design (the responsive detector) *)

(** *** Elements that do not change across viewports *)

(** [m.set(key, value)] on a [Map] with string keys, in insertion
    order. *)
Fixpoint mapSet {V} (key : string) (value : V) (m : list (string * V))
  : list (string * V) :=
  match m with
  | [] => [(key, value)]
  | (k, v) :: rest =>
      if String.eqb k key then (k, value) :: rest
      else (k, v) :: mapSet key value rest
  end.

(** [m.get(key)] *)
Fixpoint mapGet {V} (key : string) (m : list (string * V)) : option V :=
  match m with
  | [] => None
  | (k, v) :: rest => if String.eqb k key then Some v else mapGet key rest
  end.

(** The inner map: viewport name to the element and the viewport. *)
Definition ViewportData : Type := list (string * (DOMElement.t * Viewport.t)).

(** The body of the grouping loop: the inner map of the selector is
    created when missing, then set at the viewport name. *)
Definition groupElement (snapshot : ViewportSnapshot.t)
    (elementsBySelector : list (string * ViewportData))
    (element : DOMElement.t) : list (string * ViewportData) :=
  let selector := DOMElement.selector element in
  let inner :=
    match mapGet selector elementsBySelector with
    | Some viewportData => viewportData
    | None => []
    end in
  mapSet selector
    (mapSet (Viewport.name (ViewportSnapshot.viewport snapshot))
            (element, ViewportSnapshot.viewport snapshot) inner)
    elementsBySelector.

Definition groupBySelector (snapshots : list ViewportSnapshot.t)
  : list (string * ViewportData) :=
  fold_left
    (fun m snapshot =>
       fold_left (groupElement snapshot) (ViewportSnapshot.dom snapshot) m)
    snapshots [].

(** [new Set(l).size] under the equality [eqb]. *)
Fixpoint distinct {A} (eqb : A -> A -> bool) (seen l : list A) : list A :=
  match l with
  | [] => []
  | a :: l' =>
      if existsb (eqb a) seen then distinct eqb seen l'
      else a :: distinct eqb (a :: seen) l'
  end.

Definition setSize {A} (eqb : A -> A -> bool) (l : list A) : nat :=
  length (distinct eqb [] l).

Definition optionStringEqb (a b : option string) : bool :=
  match a, b with
  | Some x, Some y => String.eqb x y
  | None, None => true
  | _, _ => false
  end.

(** The check of the font sizes of one selector. *)
Definition checkFixedFontSize (selector : string) (viewports : ViewportData)
  : M (list Issue.t) :=
  let fontSizes :=
    List.map (fun '(_, (element, _)) =>
                parseFloat (orElse (style element "fontSize") "16"))
             viewports in
  if (setSize sameValueZero fontSizes =? 1)%nat then
    match fontSizes with
    | fontSize :: _ =>
        if (24 <? fontSize)%float then
          id <- generateId "RWD" ;;
          ret [ Issue.mk id design_system medium "all" selector
                  [Str "Fixed "; Num (Math_round fontSize);
                   Str "px font on all screens? Karen demands responsive typography."]
                  (FontSizeDetails "font-size"
                     [Num (Math_round fontSize); Str "px"]
                     (List.map
                        (fun '(name, (_, viewport)) =>
                           (name, Viewport.width viewport,
                            [Num (Math_round fontSize); Str "px"]))
                        viewports)
                     "Use clamp() or media queries for responsive scaling")
                  None
                  (Some (Fix.mk
                     [Str "Use clamp() for fluid typography that scales with viewport"]
                     (Some (IssueFix.mk "styles/typography.css"
                        [Str selector; Str " {
  font-size: "; Num (Math_round fontSize); Str "px;
}"]
                        [Str selector; Str " {
  font-size: clamp("; Num (Math_round (fontSize * 0.5));
                         Str "px, "; Num (Math_round (fontSize * 0.05));
                         Str "vw + "; Num (Math_round (fontSize * 0.3));
                         Str "px, "; Num (Math_round fontSize); Str "px);
}"]
                        (Some [Str "clamp() allows text to scale fluidly between minimum (mobile) and maximum (desktop) sizes"]))))) ]
        else ret []
    | [] => ret []
    end
  else ret [].

(** The check of the paddings of one selector. *)
Definition checkFixedPadding (selector : string) (viewports : ViewportData)
  : M (list Issue.t) :=
  let paddings :=
    List.map (fun '(_, (element, _)) => style element "padding") viewports in
  if (setSize optionStringEqb paddings =? 1)%nat then
    match paddings with
    | Some padding :: _ =>
        if negb (String.eqb padding "") && negb (String.eqb padding "0px") then
          let paddingValues := List.map parseInt (split_space padding) in
          let maxPadding := Math_max_of paddingValues in
          if (32 <? maxPadding)%float then
            id <- generateId "RWD" ;;
            ret [ Issue.mk id design_system medium "all" selector
                    [Num maxPadding;
                     Str "px padding on mobile? Karen's concerned about your spacing strategy."]
                    (PaddingDetails "padding" padding maxPadding
                       (List.map
                          (fun '(name, (_, viewport)) =>
                             (name, Viewport.width viewport))
                          viewports))
                    None
                    (Some (Fix.mk
                       [Str "Use media queries to reduce padding on smaller screens"]
                       (Some (IssueFix.mk "styles/responsive.css"
                          [Str selector; Str " {
  padding: "; Str padding; Str ";
}"]
                          [Str selector; Str " {
  padding: "; Num (Math_round (maxPadding * 0.5)); Str "px; /* Mobile */
}

@media (min-width: 768px) {
  "; Str selector; Str " {
    padding: "; Str padding; Str "; /* Tablet+ */
  }
}"]
                          (Some [Str "Mobile-first approach with increased padding on larger screens"]))))) ]
          else ret []
        else ret []
    | _ => ret []
    end
  else ret [].

(** The check of the widths of one selector. *)
Definition checkFixedPixelWidth (selector : string) (viewports : ViewportData)
  : M (list Issue.t) :=
  let widths :=
    List.map (fun '(_, (element, _)) => style element "width") viewports in
  let fixedWidthCount :=
    length
      (List.filter
         (fun w =>
            match w with
            | Some w =>
                negb (String.eqb w "") && endsWith w "px"
                && (600 <? parseInt w)%float
            | None => false
            end)
         widths) in
  if (fixedWidthCount =? length viewports)%nat then
    let width := head widths in
    let width := match width with Some w => w | None => None end in
    id <- generateId "RWD" ;;
    ret [ Issue.mk id design_system high "all" selector
            [Str "Fixed width in pixels? On ALL screen sizes? Karen's design sense is offended."]
            (WidthDetails "width" width (List.map fst viewports))
            None
            (Some (Fix.mk
               [Str "Use relative units (%, vw) or max-width for responsive layouts"]
               (Some (IssueFix.mk "styles/layout.css"
                  [Str selector; Str " {
  width: "; optStr width; Str ";
}"]
                  [Str selector; Str " {
  width: 100%;
  max-width: "; optStr width; Str ";
}"]
                  (Some [Str "Allows element to shrink on smaller screens while maintaining max width"]))))) ]
  else ret [].

(** The body of the loop of [detectNonResponsiveElements] over the
    selectors. *)
Definition checkSelector (entry : string * ViewportData)
  : M (list Issue.t) :=
  let '(selector, viewportData) := entry in
  if (length viewportData <? 3)%nat then ret []
  else
    fonts <- checkFixedFontSize selector viewportData ;;
    paddings <- checkFixedPadding selector viewportData ;;
    widths <- checkFixedPixelWidth selector viewportData ;;
    ret (fonts ++ paddings ++ widths).

Definition detectNonResponsiveElements (snapshots : list ViewportSnapshot.t)
    (_config : KarenConfig.t) : M (list Issue.t) :=
  forEach checkSelector (groupBySelector snapshots).

(** *** Fixed widths on the mobile viewport *)

(** [snapshots.find(s => s.viewport.width <= 414 && s.viewport.width >= 320)] *)
Definition isMobileWidth (s : ViewportSnapshot.t) : bool :=
  let w := Viewport.width (ViewportSnapshot.viewport s) in
  (w <=? 414)%float && (320 <=? w)%float.

Definition findMobile (snapshots : list ViewportSnapshot.t)
  : option ViewportSnapshot.t :=
  List.find isMobileWidth snapshots.

(** The body of the loop of [detectFixedWidths] over the elements. *)
Definition checkFixedWidth (mobileSnapshot : ViewportSnapshot.t)
    (element : DOMElement.t) : M (list Issue.t) :=
  match style element "width" with
  | None => ret []
  | Some width =>
      if String.eqb width "" || negb (endsWith width "px") then ret []
      else
        let widthValue := parseInt width in
        let viewportWidth :=
          Viewport.width (ViewportSnapshot.viewport mobileSnapshot) in
        if (viewportWidth <? widthValue)%float then
          let sel := DOMElement.selector element in
          id <- generateId "RWD" ;;
          ret [ Issue.mk id overflow high
                  (Viewport.name (ViewportSnapshot.viewport mobileSnapshot))
                  sel
                  [Str "Fixed width of "; Num widthValue; Str "px on a ";
                   Num viewportWidth;
                   Str "px screen? Math isn't your strong suit, is it?"]
                  (FixedWidthDetails widthValue viewportWidth
                     (widthValue - viewportWidth)%float)
                  None
                  (Some (Fix.mk
                     [Str "Use responsive width or max-width constraint"]
                     (Some (IssueFix.mk "styles/responsive.css"
                        [Str sel; Str " {
  width: "; Str width; Str ";
}"]
                        [Str sel; Str " {
  width: 100%;
  max-width: "; Str width; Str ";
}"]
                        None)))) ]
        else ret []
  end.

Definition detectFixedWidths (snapshots : list ViewportSnapshot.t)
  : M (list Issue.t) :=
  match findMobile snapshots with
  | None => ret []
  | Some mobileSnapshot =>
      forEach (checkFixedWidth mobileSnapshot)
              (ViewportSnapshot.dom mobileSnapshot)
  end.

(** *** Elements that barely fit on the mobile viewport *)

(** The body of the loop of [detectResponsiveOverflow] over the elements
    of the desktop snapshot. *)
Definition checkResponsiveOverflow (mobileSnapshot : ViewportSnapshot.t)
    (desktopElement : DOMElement.t) : M (list Issue.t) :=
  let mobileSelectors :=
    List.map DOMElement.selector (ViewportSnapshot.dom mobileSnapshot) in
  if negb (includes mobileSelectors (DOMElement.selector desktopElement))
  then ret []
  else
    match List.find
            (fun el => String.eqb (DOMElement.selector el)
                                  (DOMElement.selector desktopElement))
            (ViewportSnapshot.dom mobileSnapshot) with
    | None => ret []
    | Some mobileElement =>
        let desktopWidth := rectWidth desktopElement in
        let mobileWidth := rectWidth mobileElement in
        let viewportWidth :=
          Viewport.width (ViewportSnapshot.viewport mobileSnapshot) in
        if (800 <? desktopWidth)%float
           && (viewportWidth * 0.9 <? mobileWidth)%float then
          let sel := DOMElement.selector desktopElement in
          id <- generateId "RWD" ;;
          ret [ Issue.mk id design_system medium
                  (Viewport.name (ViewportSnapshot.viewport mobileSnapshot)) sel
                  [Str "Element barely fits on mobile but looks fine on desktop? Sounds like missing responsive styles."]
                  (ResponsiveOverflowDetails (Math_round desktopWidth)
                     (Math_round mobileWidth) viewportWidth
                     [Fixed1 ((mobileWidth / viewportWidth) * 100)%float;
                      Str "%"])
                  None
                  (Some (Fix.mk
                     [Str "Ensure proper responsive behavior with flexible layouts"]
                     (Some (IssueFix.mk "styles/responsive.css"
                        [Str sel; Str " {
  /* May need responsive adjustments */
}"]
                        [Str sel; Str " {
  width: 100%;
  max-width: 100%;
  box-sizing: border-box;
}

@media (min-width: 768px) {
  "; Str sel; Str " {
    max-width: 800px;
  }
}"]
                        None)))) ]
        else ret []
    end.

Definition detectResponsiveOverflow (snapshots : list ViewportSnapshot.t)
  : M (list Issue.t) :=
  let desktopSnapshot :=
    List.find
      (fun s => (1440 <=? Viewport.width (ViewportSnapshot.viewport s))%float)
      snapshots in
  let mobileSnapshot :=
    List.find
      (fun s => (Viewport.width (ViewportSnapshot.viewport s) <=? 414)%float)
      snapshots in
  match desktopSnapshot, mobileSnapshot with
  | Some desktopSnapshot, Some mobileSnapshot =>
      forEach (checkResponsiveOverflow mobileSnapshot)
              (ViewportSnapshot.dom desktopSnapshot)
  | _, _ => ret []
  end.

Definition enforceResponsiveDesign (snapshots : list ViewportSnapshot.t)
    (config : KarenConfig.t) : M (list Issue.t) :=
  fixed <- detectNonResponsiveElements snapshots config ;;
  widths <- detectFixedWidths snapshots ;;
  overflows <- detectResponsiveOverflow snapshots ;;
  ret (fixed ++ widths ++ overflows).

(** ** The audit engine (src/core/audit-engine.ts) *)

(** A counter of the summary after [++]: a number, or [NaN] once
    something that is not a number has been incremented. *)
Inductive JsCount := Count (n : nat) | CountNaN.

Definition increment (c : JsCount) : JsCount :=
  match c with
  | Count n => Count (S n)
  | CountNaN => CountNaN
  end.

(** [summary.byType[type]++] *)
Fixpoint bumpType (type : AuditFeature) (byType : list (AuditFeature * JsCount))
  : list (AuditFeature * JsCount) :=
  match byType with
  | [] => [(type, CountNaN)]
  | (k, c) :: rest =>
      if AuditFeature_eqb k type then (k, increment c) :: rest
      else (k, c) :: bumpType type rest
  end.

(** What [byViewport[v]] reads on the plain object [byViewport]: a
    counter of its own, a member inherited from [Object.prototype], or
    [undefined]. *)
Inductive Lookup := Own (c : JsCount) | Inherited | Undefined.

Definition getProperty (o : gmap string JsCount) (v : string) : Lookup :=
  match o !! v with
  | Some c => Own c
  | None => if includes objectPrototypeKeys v then Inherited else Undefined
  end.

(** [!x]: [0], [NaN] and [undefined] are falsy, an inherited member (a
    function or an object) is truthy. *)
Definition falsy (x : Lookup) : bool :=
  match x with
  | Own (Count O) | Own CountNaN | Undefined => true
  | Own (Count (S _)) | Inherited => false
  end.

(** [x + 1]: a function, an object and [undefined] convert to [NaN]. *)
Definition plusOne (x : Lookup) : JsCount :=
  match x with
  | Own c => increment c
  | Inherited | Undefined => CountNaN
  end.

(** [byViewport[v] = c]: the setter of [__proto__] ignores a number; any
    other name gets a property of its own. *)
Definition setProperty (o : gmap string JsCount) (v : string) (c : JsCount)
  : gmap string JsCount :=
  if String.eqb v "__proto__" then o else <[ v := c ]> o.

(** [if (!byViewport[v]) byViewport[v] = 0; byViewport[v]++] *)
Definition bumpViewport (v : string) (byViewport : gmap string JsCount)
  : gmap string JsCount :=
  let byViewport :=
    if falsy (getProperty byViewport v)
    then setProperty byViewport v (Count 0) else byViewport in
  setProperty byViewport v (plusOne (getProperty byViewport v)).

Module AuditSummary.
Record t := mk {
  total : nat;
  critical : nat;
  high : nat;
  medium : nat;
  low : nat;
  byType : list (AuditFeature * JsCount);
  byViewport : gmap string JsCount
}.
End AuditSummary.

Definition countSeverity (s : IssueSeverity) (issues : list Issue.t) : nat :=
  length (List.filter (fun i => IssueSeverity_eqb (Issue.severity i) s) issues).

Definition buildSummary (issues : list Issue.t) : AuditSummary.t :=
  let byType0 :=
    [(overflow, Count 0); (spacing, Count 0); (typescale, Count 0);
     (colors, Count 0); (accessibility, Count 0); (design_system, Count 0)] in
  AuditSummary.mk
    (length issues)
    (countSeverity critical issues)
    (countSeverity high issues)
    (countSeverity medium issues)
    (countSeverity low issues)
    (fold_left (fun m i => bumpType (Issue.type i) m) issues byType0)
    (fold_left (fun m i => bumpViewport (Issue.viewport i) m) issues ∅).

(** [claudeAnalyzer.analyzeVisualIssues(screenshot, viewport)]: the
    request to the vision service and the reading of its reply. It
    returns the issues it made of the reply, or [None] for an error
    result, and may have drawn ids in both cases. *)
Definition ClaudeAnalyzer : Type :=
  string -> Viewport.t -> M (option (list Issue.t)).

(** The fields of an [AuditEngine]. *)
Module AuditEngine.
Record t := mk {
  config : KarenConfig.t;
  claudeAnalyzer : option ClaudeAnalyzer
}.
End AuditEngine.

(** The constructor: an analyzer is made of [config.anthropicApiKey] when
    there is one; [connect] stands for [new ClaudeAnalyzer(apiKey)]. *)
Definition newAuditEngine (connect : string -> ClaudeAnalyzer)
    (config : KarenConfig.t) : AuditEngine.t :=
  AuditEngine.mk config
    (if truthy (KarenConfig.anthropicApiKey config)
     then option_map connect (KarenConfig.anthropicApiKey config)
     else None).

(** [if (this.config.features.includes(feature)) allIssues.push(...)] *)
Definition whenEnabled (config : KarenConfig.t) (feature : AuditFeature)
    (detector : M (list Issue.t)) : M (list Issue.t) :=
  if existsb (AuditFeature_eqb feature) (KarenConfig.features config)
  then detector else ret [].

Section Audit.

(** [Math.pow], for the contrast computation. *)
Variable pow : float -> float -> float.

(** Phase 2 of [runAudit]: the code-based detectors. *)
Definition runDetectors (snapshots : list ViewportSnapshot.t)
    (config : KarenConfig.t) : M (list Issue.t) :=
  ovf <- whenEnabled config overflow (detectOverflow snapshots config) ;;
  spc <- whenEnabled config spacing (analyzeSpacing snapshots config) ;;
  typ <- whenEnabled config typescale (enforceTypescale snapshots config) ;;
  a11y <- whenEnabled config accessibility
            (checkAccessibility pow snapshots config) ;;
  clr <- whenEnabled config colors (analyzeColors snapshots config) ;;
  ds <- whenEnabled config design_system
          (chaos <- detectDesignSystemChaos snapshots ;;
           aligned <- detectMisalignment snapshots config ;;
           tokens <- enforceDesignTokens snapshots config ;;
           responsive <- enforceResponsiveDesign snapshots config ;;
           ret (chaos ++ aligned ++ tokens ++ responsive)) ;;
  ret (ovf ++ spc ++ typ ++ a11y ++ clr ++ ds).

(** Phase 3 of [runAudit]: the visual analysis of each snapshot, when the
    engine has an analyzer; the issues of an error result are dropped. *)
Definition runVisualAnalysis (claudeAnalyzer : option ClaudeAnalyzer)
    (snapshots : list ViewportSnapshot.t) : M (list Issue.t) :=
  match claudeAnalyzer with
  | Some analyzer =>
      forEach
        (fun snapshot =>
           aiIssuesResult <-
             analyzer (ViewportSnapshot.screenshot snapshot)
                      (ViewportSnapshot.viewport snapshot) ;;
           ret (match aiIssuesResult with
                | Some aiIssues => aiIssues
                | None => []
                end))
        snapshots
  | None => ret []
  end.

(** [runAudit], from [resetCounter()] to the summary, on the snapshots
    that phase 1 captured: the issues and their summary. A [Throw] is the
    error result the [catch] clause returns. *)
Definition runAudit (engine : AuditEngine.t)
    (snapshots : list ViewportSnapshot.t)
  : M (list Issue.t * AuditSummary.t) :=
  _ <- resetCounter ;;
  codeIssues <- runDetectors snapshots (AuditEngine.config engine) ;;
  aiIssues <- runVisualAnalysis (AuditEngine.claudeAnalyzer engine) snapshots ;;
  let allIssues := codeIssues ++ aiIssues in
  ret (allIssues, buildSummary allIssues).

End Audit.

(** ** The performance score (the performance metrics module) *)

(** The metrics [calculatePerformanceScore] reads; [None] is
    [undefined]. *)
Module PerformanceMetrics.
Record t := mk {
  lcp : option float;
  cls : option float;
  fid : option float;
  inp : option float;
  ttfb : option float;
  fcp : option float
}.
End PerformanceMetrics.


(** One block of [calculatePerformanceScore]: the metric [metric] of
    weight [weight], scored against the thresholds [poor] and
    [needsImprovement] with the deductions [weight] and [deduction]. *)
Definition scoreMetric (metric : option float)
    (weight poor needsImprovement deduction : float)
    (state : float * float) : float * float :=
  let '(score, weights) := state in
  match metric with
  | Some value =>
      let weights := (weights + weight)%float in
      if (poor <? value)%float then ((score - weight)%float, weights)
      else if (needsImprovement <? value)%float
           then ((score - deduction)%float, weights)
           else ((score - 0)%float, weights)
  | None => (score, weights)
  end.

Definition calculatePerformanceScore (metrics : PerformanceMetrics.t) : float :=
  let state := (100%float, 0%float) in
  let state := scoreMetric (PerformanceMetrics.lcp metrics) 25 4000 2500 15 state in
  let state := scoreMetric (PerformanceMetrics.cls metrics) 25 0.25 0.1 15 state in
  let interactionMetric :=
    if truthyNumber (PerformanceMetrics.inp metrics)
    then PerformanceMetrics.inp metrics
    else PerformanceMetrics.fid metrics in
  let state := scoreMetric interactionMetric 25 500 200 15 state in
  let state := scoreMetric (PerformanceMetrics.ttfb metrics) 15 1800 600 8 state in
  let state := scoreMetric (PerformanceMetrics.fcp metrics) 10 3000 1800 5 state in
  let '(score, weights) := state in
  let score :=
    if (weights <? 100)%float then Math_round ((score / weights) * 100)%float
    else score in
  Math_max 0 (Math_min 100 score).

(** ** Observations on issues *)

(** What an issue says apart from its id and its message text. *)
Module IssueCore.
Record t := mk {
  type : AuditFeature;
  severity : IssueSeverity;
  viewport : string;
  element : string;
  details : Details
}.
End IssueCore.

Definition core (i : Issue.t) : IssueCore.t :=
  IssueCore.mk (Issue.type i) (Issue.severity i) (Issue.viewport i)
               (Issue.element i) (Issue.details i).

(** The spacing value a spacing issue reports. *)
Definition issueValue (i : Issue.t) : option float :=
  match Issue.details i with
  | SpacingDetails _ value _ _ _ => Some value
  | _ => None
  end.

(** The value of a counter that is a number. *)
Definition countValue (c : JsCount) : option nat :=
  match c with
  | Count n => Some n
  | CountNaN => None
  end.

(** The sum of the counters of [byViewport], when all are numbers. *)
Definition sumCounts (m : gmap string JsCount) : option nat :=
  map_fold
    (fun _ c acc =>
       match countValue c, acc with
       | Some n, Some a => Some (n + a)%nat
       | _, _ => None
       end)
    (Some 0%nat) m.

(** A viewport name that is not the name of a member of
    [Object.prototype]. *)
Definition plainName (v : string) : bool := negb (includes objectPrototypeKeys v).

(** The counter of a viewport name, 0 when there is none. *)
Definition counted (m : gmap string JsCount) (v : string) : nat :=
  match m !! v with
  | Some (Count n) => n
  | _ => 0%nat
  end.

(** The number of issues reported for viewport [v]. *)
Definition countViewport (v : string) (issues : list Issue.t) : nat :=
  length (List.filter (fun i => String.eqb (Issue.viewport i) v) issues).





(** [max(coord) - min(coord)] over a cluster, as [checkRow] computes it. *)
Definition spread (coord : DOMElement.t -> float) (row : list DOMElement.t)
  : float :=
  (Math_max_of (List.map coord row) - Math_min_of (List.map coord row))%float.

(** Two numbers that are the same, or the two zeros. *)
Definition sameNumber (x y : float) : Prop :=
  x = y
  \/ exists s1 s2, Prim2SF x = S754_zero s1 /\ Prim2SF y = S754_zero s2.

(** No element has [NaN] as coordinate. *)
Definition positioned (coord : DOMElement.t -> float)
    (elements : list DOMElement.t) : Prop :=
  Forall (fun el => notNaN (coord el)) elements.

(** Every element has a finite number as coordinate. *)
Definition finitelyPositioned (coord : DOMElement.t -> float)
    (elements : list DOMElement.t) : Prop :=
  Forall (fun el => finiteOrZero (Prim2SF (coord el))) elements.

(** Elements that lie within [tolerance] of [c], none before it. *)
Definition anchoredAt (coord : DOMElement.t -> float) (tolerance c : float)
    (others : list DOMElement.t) : Prop :=
  Forall (fun el => withinTolerance (coord el) c tolerance = true
                    /\ (rank c <= rank (coord el))%Z) others.

(** The cluster being built by the walk: none yet, before the first
    visible element; or a first member, whose coordinate is the anchor,
    and others within [tolerance] of it; or else the tolerance is
    infinite. *)
Definition buildingFrom (coord : DOMElement.t -> float) (tolerance : float)
    (current : float) (currentRow : list DOMElement.t) : Prop :=
  (currentRow = [] /\ current = neg_infinity)
  \/ (exists first others,
        currentRow = first :: others /\ coord first = current
        /\ anchoredAt coord tolerance current others)
  \/ tolerance = infinity.

(** A cluster the walk keeps: a first member and at least one other, all
    within [tolerance] of the first and none before it; or else the
    tolerance is infinite. *)
Definition isCluster (coord : DOMElement.t -> float) (tolerance : float)
    (row : list DOMElement.t) : Prop :=
  (exists first others,
     row = first :: others /\ others <> []
     /\ anchoredAt coord tolerance (coord first) others)
  \/ (row <> [] /\ tolerance = infinity).

(** The average the specification names for the grid check: that of the
    gap values, the keys of the map of gaps. *)
Definition spec_averageGap (gaps : list (float * nat)) : float :=
  (fold_left (fun a b => a + b) (List.map fst gaps) 0
   / Z2float (Z.of_nat (length gaps)))%float.

(** A float that is neither zero, infinite nor [NaN]. *)
Definition finiteNonzero (x : float) : bool :=
  match Prim2SF x with
  | S754_finite _ _ _ => true
  | _ => false
  end.

(** A luminance that, offset by 0.05 as in the contrast ratio, lies
    between the offset luminances of black and white. *)
Definition offsetInRange (luminance : float) : bool :=
  (0.05 <=? luminance + 0.05)%float && (luminance + 0.05 <=? 1 + 0.05)%float.

(** The ratio [checkContrast] requires of an element: AAA below 18px,
    AA from 18px on. *)
Definition requiredRatioOf (config : KarenConfig.t) (element : DOMElement.t)
  : float :=
  if (parseFloat (orElse (style element "fontSize") "16") <? 18)%float
  then ContrastRatios.AAA (KarenConfig.contrastRatios config)
  else ContrastRatios.AA (KarenConfig.contrastRatios config).

(** The colours [checkContrast] compares for an element: what
    [parseColor] reads in its [color], or in black when it has none, and
    in its [background-color], or in white when it has none. *)
Definition foregroundOf (element : DOMElement.t) : option RGB.t :=
  parseColor (orElse (style element "color") "#000000").

Definition backgroundOf (element : DOMElement.t) : option RGB.t :=
  parseColor (orElse (style element "backgroundColor") "#ffffff").

(** What the accessibility issue of an element says, for the colours
    [fg] and [bg]. *)
Definition contrastCore (pow : float -> float -> float)
    (config : KarenConfig.t) (snapshot : ViewportSnapshot.t)
    (element : DOMElement.t) (fg bg : RGB.t) : IssueCore.t :=
  IssueCore.mk accessibility high
    (Viewport.name (ViewportSnapshot.viewport snapshot))
    (DOMElement.selector element)
    (ContrastDetails (style element "color")
       (style element "backgroundColor")
       (toFixed2 (calculateContrast pow fg bg))
       (requiredRatioOf config element) false
       (if (7 <=? requiredRatioOf config element)%float then "AAA" else "AA")).

(** The verdict on a text element: skipped when one of its two colours
    is not read, flagged when their contrast is below the ratio required
    of it, passed otherwise. *)
Definition contrastVerdict (pow : float -> float -> float)
    (config : KarenConfig.t) (snapshot : ViewportSnapshot.t)
    (element : DOMElement.t) : list IssueCore.t :=
  match foregroundOf element, backgroundOf element with
  | Some fg, Some bg =>
      if (calculateContrast pow fg bg <? requiredRatioOf config element)%float
      then [contrastCore pow config snapshot element fg bg] else []
  | _, _ => []
  end.

(** An issue with its message text erased. *)
Definition unphrased (i : Issue.t) : Issue.t :=
  Issue.mk (Issue.id i) (Issue.type i) (Issue.severity i) (Issue.viewport i)
           (Issue.element i) [] (Issue.details i) (Issue.screenshot i)
           (Issue.fix_ i).

(** Two issue lists that differ in message texts only. *)
Definition sameButMessage (l1 l2 : list Issue.t) : Prop :=
  List.map unphrased l1 = List.map unphrased l2.

(** Two outcomes that agree up to [R] on what is returned: both return,
    or both throw the same exception, and the id counter is the same
    afterwards. *)
Definition similar {A} (R : A -> A -> Prop) (r1 r2 : Result A) : Prop :=
  match r1, r2 with
  | Ok a1 v1, Ok a2 v2 => R a1 a2 /\ counter v1 = counter v2
  | Throw e1 v1, Throw e2 v2 => e1 = e2 /\ counter v1 = counter v2
  | _, _ => False
  end.

(** Two computations whose outcomes are similar whenever they start with
    the same id counter, whatever [Math.random] yields in each. *)
Definition related {A} (R : A -> A -> Prop) (m1 m2 : M A) : Prop :=
  forall w1 w2, counter w1 = counter w2 -> similar R (m1 w1) (m2 w2).

(** Two answers of the analyzer that agree: two error results, or two
    issue lists that differ in message texts only. *)
Definition sameAnswer (a1 a2 : option (list Issue.t)) : Prop :=
  match a1, a2 with
  | Some l1, Some l2 => sameButMessage l1 l2
  | None, None => True
  | _, _ => False
  end.

(** An engine without analyzer, or whose analyzer answers two requests
    for the same screenshot and viewport alike. *)
Definition repeatable (engine : AuditEngine.t) : Prop :=
  match AuditEngine.claudeAnalyzer engine with
  | Some analyzer =>
      forall screenshot viewport,
        related sameAnswer (analyzer screenshot viewport)
                           (analyzer screenshot viewport)
  | None => True
  end.

(** A colour string without the separator ['|'] of the pair keys. *)
Definition noBar (s : string) : bool :=
  forallb (fun c => negb (Ascii.eqb c "|"%char)) (chars s).


(** A key as [normalizeColor] makes it: a string that starts with ['#'],
    or one of the two inherited objects. *)
Definition keyShaped (color : Color) : Prop :=
  match color with
  | Hex s => startsWith s "#" = true
  | ObjectConstructor | ObjectPrototype => True
  end.

(** An entry of the map of used colours. *)
Definition ColorEntry : Type := Color * ColorUsage.t.

(** The key of each pair of entries the nested loops visit. *)
Definition keysOf (pairs : list (ColorEntry * ColorEntry)) : list string :=
  List.map (fun p => pairKey (fst (fst p)) (fst (snd p))) pairs.

(** The distance of two colours of the map. *)
Definition distanceOf (c1 c2 : Color) : float :=
  colorDistance (colorText c1) (colorText c2).

(** A pair of colours at distance strictly between 0 and 15. *)
Definition nearPair (p : ColorEntry * ColorEntry) : bool :=
  let distance := distanceOf (fst (fst p)) (fst (snd p)) in
  (0 <? distance)%float && (distance <? 15)%float.

(** The near-duplicate issue of a pair, before it gets its id. *)
Definition nearDuplicateFinding (p : ColorEntry * ColorEntry) : Issue.t :=
  nearDuplicateIssue "" (fst p) (snd p)
    (distanceOf (fst (fst p)) (fst (snd p))).

Definition withoutId (i : Issue.t) : Issue.t :=
  Issue.mk "" (Issue.type i) (Issue.severity i) (Issue.viewport i)
           (Issue.element i) (Issue.message i) (Issue.details i)
           (Issue.screenshot i) (Issue.fix_ i).

Definition isMedium (i : Issue.t) : bool :=
  IssueSeverity_eqb (Issue.severity i) medium.

(** The replacement a fix proposes: [(before, after)]. *)
Definition replacement (i : Issue.t) : option (text * text) :=
  match Issue.fix_ i with
  | Some f =>
      match Fix.code f with
      | Some c => Some (IssueFix.before c, IssueFix.after c)
      | None => None
      end
  | None => None
  end.

(** The test [0 < x < Infinity], which a finite non-zero float passes. *)
Definition positiveFinite (x : float) : bool :=
  ((0 <? x) && (x <? infinity))%float.

(** The colour with the 8-bit channels [r], [g], [b]. *)
Definition rgb8 (r g b : nat) : RGB.t :=
  RGB.mk (Z2float (Z.of_nat r)) (Z2float (Z.of_nat g)) (Z2float (Z.of_nat b)).

(** A [Math.pow] under which every colour with channels from 0 to 255
    has a luminance in that range. *)
Definition withinGamut (pow : float -> float -> float) : Prop :=
  forall r g b : nat,
    (r < 256)%nat -> (g < 256)%nat -> (b < 256)%nat ->
    offsetInRange (getLuminance pow (rgb8 r g b)) = true.

(** The linearised value of each 8-bit channel, under the reference
    [pow]. *)
Definition linearTable : list float :=
  List.map (fun n => linearize pow_ref (Z2float (Z.of_nat n))) (seq 0 256).

(** What follows the first ['-'] of an id, read as a decimal number. *)
Definition afterDash (l : list ascii) : list ascii :=
  match dropWhile (fun c => negb (Ascii.eqb c "-"%char)) l with
  | _ :: rest => rest
  | [] => []
  end.

(** The number an id carries after its prefix. *)
Definition idNumber (id : string) : Z := digitsToZ (afterDash (chars id)).

(** A prefix without ['-']. *)
Definition dashFree (s : string) : bool :=
  forallb (fun c => negb (Ascii.eqb c "-"%char)) (chars s).

(** A computation that, when it returns, relates the id counter before,
    what is returned and the id counter after by [P]. *)
Definition counts {A} (P : nat -> A -> nat -> Prop) (m : M A) : Prop :=
  forall w,
    match m w with
    | Ok a w' => P (counter w) a (counter w')
    | Throw _ _ => True
    end.

(** Issues whose ids carry the numbers [c + 1], [c + 2], ... in order. *)
Definition numberedFrom (c : nat) (issues : list Issue.t) : Prop :=
  List.map (fun i => idNumber (Issue.id i)) issues
  = List.map Z.of_nat (seq (S c) (length issues)).

(** A computation whose issues are numbered from the id counter on,
    which it advances by their number. *)
Definition numbered (m : M (list Issue.t)) : Prop :=
  counts (fun c issues c' => c' = (c + length issues)%nat /\ numberedFrom c issues) m.

(** A computation that returns [acc] followed by issues of its own,
    numbered from the id counter on, which it advances by their
    number. *)
Definition continues (acc : list Issue.t) (m : M (list Issue.t)) : Prop :=
  counts (fun c issues c' =>
            exists more,
              issues = acc ++ more /\ c' = (c + length more)%nat
              /\ numberedFrom c more) m.

(** A computation that returns one issue, with the id [id], and leaves
    the id counter alone. *)
Definition emits (id : string) (m : M (list Issue.t)) : Prop :=
  counts (fun c issues c' => c' = c /\ exists i, issues = [i] /\ Issue.id i = id) m.

(** A computation all of whose issues satisfy [P]. *)
Definition every (P : Issue.t -> Prop) (m : M (list Issue.t)) : Prop :=
  counts (fun _ issues _ => Forall P issues) m.

(** The feature [config.features] must include for [runAudit] to report
    an issue of type [type]: the type itself, except that the
    fixed-width check, which reports overflow issues, runs under
    [design-system]. *)
Definition enabledFor (config : KarenConfig.t) (type : AuditFeature) : Prop :=
  In type (KarenConfig.features config)
  \/ (type = overflow /\ In design_system (KarenConfig.features config)).

(** What a spacing issue says of the element it is reported for: one of
    the values of its margin or padding, which is positive, has no entry
    of the scale within 1px of it, and for which the issue names a
    nearest scale value that is an entry of the scale to which no entry
    is strictly nearer; when the distance to it is a number, it is at
    least 1. *)
Definition spacingFinding (scale : list float) (element : DOMElement.t)
    (i : Issue.t) : Prop :=
  Issue.type i = spacing /\ Issue.severity i = medium
  /\ Issue.element i = DOMElement.selector element
  /\ exists property value nearest,
       Issue.details i
       = SpacingDetails property value nearest scale
           (Math_abs (value - nearest))
       /\ In (property, value) (spacingEntries element)
       /\ (property = "margin" \/ property = "padding")
       /\ (0 <? value)%float = true
       /\ (forall s, In s scale -> (Math_abs (value - s) <? 1)%float = false)
       /\ In nearest scale
       /\ (isNaN (value - nearest) = false ->
           (1 <=? Math_abs (value - nearest))%float = true)
       /\ forall s, In s scale ->
            (Math_abs (s - value) <? Math_abs (nearest - value))%float = false.

(** Two floats that are the same value, the sign of zero included. *)
Definition sameFloat (x y : float) : bool :=
  match Prim2SF x, Prim2SF y with
  | S754_zero s1, S754_zero s2 => Bool.eqb s1 s2
  | S754_infinity s1, S754_infinity s2 => Bool.eqb s1 s2
  | S754_nan, S754_nan => true
  | S754_finite s1 m1 e1, S754_finite s2 m2 e2 =>
      Bool.eqb s1 s2 && Pos.eqb m1 m2 && Z.eqb e1 e2
  | _, _ => false
  end.

(** The values of an 8-bit colour channel. *)
Definition channels : list float :=
  List.map (fun n => Z2float (Z.of_nat n)) (seq 0 256).

(** The distance of a colour with red channel [r] to itself, once the
    differences of the green and blue channels are known to be 0. *)
Definition selfDistance (r : float) : float :=
  let rMean := ((r + r) / 2)%float in
  Math_sqrt ((2 + rMean / 256) * (r - r) * (r - r) + 4 * 0 * 0
             + (2 + (255 - rMean) / 256) * 0 * 0)%float.

(** [+0] or [-0]. *)
Definition isZero (x : float) : bool :=
  match Prim2SF x with S754_zero _ => true | _ => false end.

(** The colour an off-palette issue reports. *)
Definition offPaletteColor (i : Issue.t) : option Color :=
  match Issue.details i with
  | PaletteDetails color _ _ _ _ => Some color
  | _ => None
  end.

(** The two hexadecimal digits [rgbToHex] prints for a channel. *)
Definition hex2 (x : float) : string :=
  let hex := toString16 x in
  if (String.length hex =? 1)%nat then ("0" ++ hex)%string else hex.

(** The channel value [x] survives printing by [rgbToHex] and reading by
    [hexToRgb]. *)
Definition hexRoundTrip (x : float) : bool :=
  match chars (toUpperCase (hex2 x)) with
  | [a; b] =>
      isHexDigit a && isHexDigit b && sameFloat (parseInt16 (str [a; b])) x
  | _ => false
  end.

(** [`rgb(${r}, ${g}, ${b})`], the form of a computed colour. *)
Definition rgbString (r g b : nat) : string :=
  ("rgb(" ++ natToString r ++ ", " ++ natToString g ++ ", "
   ++ natToString b ++ ")")%string.

(** The colour occurrences the collection loop records, in order: each
    colour property of each element of each snapshot that normalises. *)
Definition occurrences (snapshots : list ViewportSnapshot.t) : list Color :=
  flat_map
    (fun snapshot =>
       flat_map (fun element => omap normalizeColor (elementColors element))
                (ViewportSnapshot.dom snapshot))
    snapshots.

(** [usedColors.get(color)?.count ?? 0] *)
Definition usageCount (color : Color) (usedColors : UsedColors) : nat :=
  match List.find (fun e => Color_eqb (fst e) color) usedColors with
  | Some e => ColorUsage.count (snd e)
  | None => 0
  end.

(** A key of the map of used colours as [normalizeColor] makes it: a
    string that it maps to itself, or one of the two objects the table
    of named colours inherits. *)
Definition normalized (color : Color) : Prop :=
  match color with
  | Hex s => normalizeColor s = Some (Hex s)
  | ObjectConstructor | ObjectPrototype => True
  end.

(** An entry of the map of used colours as the collection leaves it. *)
Definition wellFormedUsage (e : ColorEntry) : Prop :=
  normalized (fst e)
  /\ ColorUsage.elements (snd e) <> []
  /\ List.NoDup (ColorUsage.elements (snd e))
  /\ (length (ColorUsage.elements (snd e)) <= ColorUsage.count (snd e))%nat.

(** [summary.byType[type]] *)
Definition lookupType (type : AuditFeature)
    (byType : list (AuditFeature * JsCount)) : option JsCount :=
  match List.find (fun e => AuditFeature_eqb (fst e) type) byType with
  | Some e => Some (snd e)
  | None => None
  end.

(** The number of issues of type [type]. *)
Definition countType (type : AuditFeature) (issues : list Issue.t) : nat :=
  length (List.filter (fun i => AuditFeature_eqb (Issue.type i) type) issues).

(** The number of children a grid issue reports. *)
Definition gridChildCount (i : Issue.t) : option nat :=
  match Issue.details i with
  | GridDetails childCount _ _ _ _ => Some childCount
  | _ => None
  end.

(** What an accessibility issue says of the element it is reported for:
    the element is text, both its colours are read, and their contrast
    is below the ratio required of it. *)
Definition contrastFinding (pow : float -> float -> float)
    (config : KarenConfig.t) (snapshot : ViewportSnapshot.t)
    (element : DOMElement.t) (i : Issue.t) : Prop :=
  Issue.type i = accessibility /\ Issue.severity i = high
  /\ Issue.viewport i = Viewport.name (ViewportSnapshot.viewport snapshot)
  /\ Issue.element i = DOMElement.selector element
  /\ Issue.screenshot i = Some (ViewportSnapshot.screenshot snapshot)
  /\ isTextElement element = true
  /\ exists fg bg,
       parseColor (orElse (style element "color") "#000000") = Some fg
       /\ parseColor (orElse (style element "backgroundColor") "#ffffff")
          = Some bg
       /\ (calculateContrast pow fg bg <? requiredRatioOf config element)%float
          = true
       /\ Issue.details i
          = ContrastDetails (style element "color")
              (style element "backgroundColor")
              (toFixed2 (calculateContrast pow fg bg))
              (requiredRatioOf config element) false
              (if (7 <=? requiredRatioOf config element)%float
               then "AAA" else "AA").

(** The font size [enforceTypescale] checks an element at. *)
Definition checkedFontSize (element : DOMElement.t) : float :=
  parseFloat (orElse (style element "fontSize") "16px").

(** A text element with a positive font size. *)
Definition sizedText (element : DOMElement.t) : bool :=
  includes textTags (DOMElement.tagName element)
  && (0 <? checkedFontSize element)%float.

(** What a typescale issue says of the element it is reported for: a
    text element with a positive font size that is not in the typescale,
    and a nearest size that is in it and to which none is strictly
    nearer. *)
Definition typescaleFinding (sizes : list float) (element : DOMElement.t)
    (i : Issue.t) : Prop :=
  Issue.type i = typescale /\ Issue.severity i = medium
  /\ Issue.element i = DOMElement.selector element
  /\ sizedText element = true
  /\ includesNumber sizes (checkedFontSize element) = false
  /\ exists nearest,
       Issue.details i
       = TypescaleDetails (checkedFontSize element) nearest sizes
           (Math_abs (checkedFontSize element - nearest))
       /\ In nearest sizes
       /\ forall s, In s sizes ->
            (Math_abs (s - checkedFontSize element)
             <? Math_abs (nearest - checkedFontSize element))%float = false.

(** An entry of the inner map comes from a snapshot: the element is in
    its DOM under the selector, the key is its viewport name. *)
Definition fromSnapshot (snapshots : list ViewportSnapshot.t)
    (selector : string) (entry : string * (DOMElement.t * Viewport.t)) : Prop :=
  exists snapshot,
    In snapshot snapshots
    /\ ViewportSnapshot.viewport snapshot = snd (snd entry)
    /\ Viewport.name (ViewportSnapshot.viewport snapshot) = fst entry
    /\ In (fst (snd entry)) (ViewportSnapshot.dom snapshot)
    /\ DOMElement.selector (fst (snd entry)) = selector.

(** A selector with its inner map, as the grouping leaves them. *)
Definition groupedEntry (snapshots : list ViewportSnapshot.t)
    (e : string * ViewportData) : Prop :=
  List.NoDup (List.map fst (snd e))
  /\ Forall (fromSnapshot snapshots (fst e)) (snd e).

(** The font size [detectNonResponsiveElements] compares. *)
Definition comparedFontSize (element : DOMElement.t) : float :=
  parseFloat (orElse (style element "fontSize") "16").

(** A width in pixels above 600. *)
Definition wideInPixels (width : option string) : bool :=
  match width with
  | Some w =>
      negb (String.eqb w "") && endsWith w "px" && (600 <? parseInt w)%float
  | None => false
  end.

(** What an issue of [detectNonResponsiveElements] says of the elements
    of its selector, one per viewport name: the same font size above
    24px on all of them, the same padding with a value above 32px, or a
    pixel width above 600 on all of them. *)
Definition fixedAcross (viewportData : ViewportData) (i : Issue.t) : Prop :=
  match Issue.details i with
  | FontSizeDetails property _ _ _ =>
      property = "font-size" /\ Issue.severity i = medium
      /\ exists fontSize,
           (24 <? fontSize)%float = true
           /\ Forall (fun entry =>
                        sameValueZero (comparedFontSize (fst (snd entry)))
                                      fontSize = true)
                     viewportData
  | PaddingDetails property padding maxPadding _ =>
      property = "padding" /\ Issue.severity i = medium
      /\ maxPadding = Math_max_of (List.map parseInt (split_space padding))
      /\ (32 <? maxPadding)%float = true
      /\ Forall (fun entry => style (fst (snd entry)) "padding" = Some padding)
                viewportData
  | WidthDetails property _ names =>
      property = "width" /\ Issue.severity i = high
      /\ names = List.map fst viewportData
      /\ Forall (fun entry => wideInPixels (style (fst (snd entry)) "width") = true)
                viewportData
  | _ => False
  end.

(** How a metric fares against its two thresholds. *)
Inductive Grade := Missing | Poor | NeedsImprovement | Good.

Definition grade (metric : option float) (poor needsImprovement : float)
  : Grade :=
  match metric with
  | Some value =>
      if (poor <? value)%float then Poor
      else if (needsImprovement <? value)%float then NeedsImprovement
      else Good
  | None => Missing
  end.

(** The metric the interaction block scores: [metrics.inp || metrics.fid]. *)
Definition interactionMetric (metrics : PerformanceMetrics.t) : option float :=
  if truthyNumber (PerformanceMetrics.inp metrics)
  then PerformanceMetrics.inp metrics
  else PerformanceMetrics.fid metrics.

(** The grades of the five blocks, in their order. *)
Definition grades (metrics : PerformanceMetrics.t) : list Grade :=
  [ grade (PerformanceMetrics.lcp metrics) 4000 2500;
    grade (PerformanceMetrics.cls metrics) 0.25 0.1;
    grade (interactionMetric metrics) 500 200;
    grade (PerformanceMetrics.ttfb metrics) 1800 600;
    grade (PerformanceMetrics.fcp metrics) 3000 1800 ].

(** The sum of the weights of the metrics that are measured. *)
Definition measuredWeight (metrics : PerformanceMetrics.t) : Z :=
  fold_right Z.add 0
    (List.map (fun '(g, weight) => match g with Missing => 0 | _ => weight end)
              (combine (grades metrics) [25; 25; 25; 15; 10])).

(** The score of a metric state by its grade. *)
Definition scoreGrade (g : Grade) (weight deduction : float)
    (state : float * float) : float * float :=
  let '(score, weights) := state in
  match g with
  | Missing => (score, weights)
  | Poor => ((score - weight)%float, (weights + weight)%float)
  | NeedsImprovement => ((score - deduction)%float, (weights + weight)%float)
  | Good => ((score - 0)%float, (weights + weight)%float)
  end.

(** The score as a function of the five grades. *)
Definition scoreOfGrades (g1 g2 g3 g4 g5 : Grade) : float :=
  let '(score, weights) :=
    scoreGrade g5 10 5
      (scoreGrade g4 15 8
         (scoreGrade g3 25 15
            (scoreGrade g2 25 15 (scoreGrade g1 25 15 (100%float, 0%float))))) in
  let score :=
    if (weights <? 100)%float then Math_round ((score / weights) * 100)%float
    else score in
  Math_max 0 (Math_min 100 score).
(** ** Example inputs *)

Definition world0 : World := mkWorld 0 (fun _ => 0%nat) 0.

(** Another state of the id counter and of [Math.random]. *)
Definition world7 : World := mkWorld 7 (fun _ => 1%nat) 3.

Definition element0 (selector : string) (st : gmap string string)
  : DOMElement.t :=
  DOMElement.mk selector "DIV" [] "" (ElementRect.mk 0 0 100 100) st [].

Definition box (selector : string) (x y width height : float) : DOMElement.t :=
  DOMElement.mk selector "DIV" [] "" (ElementRect.mk x y width height) ∅ [].

Definition metrics0 : LayoutMetrics.t := LayoutMetrics.mk 0 0 0 100.

Definition snapshot0 (viewport : Viewport.t) (dom : list DOMElement.t)
  : ViewportSnapshot.t :=
  ViewportSnapshot.mk viewport "" dom metrics0.

Definition mobile (dom : list DOMElement.t) : ViewportSnapshot.t :=
  snapshot0 (Viewport.mk "mobile" 375 667) dom.

(** [defaultConfig.typescale] *)
Definition defaultTypescale : Typescale.t :=
  Typescale.mk 16 1.25 [12; 14; 16; 20; 25; 31; 39; 49]%float.

Definition emptyTypescale : Typescale.t := Typescale.mk 16 1.25 [].

(** [defaultConfig], on the fields the detectors read. *)
Definition defaultConfig : KarenConfig.t :=
  KarenConfig.mk [0; 4; 8; 12; 16; 24; 32; 48; 64]%float
    defaultTypescale
    ["#F5E6D3"; "#D4A574"; "#8B7355"; "#E8998D"; "#9CA986"; "#B4A7D6"]
    4 (ContrastRatios.mk 4.5 7)
    [overflow; spacing; typescale; colors; accessibility; design_system]
    None.

(** The default configuration with another spacing scale, typescale,
    tolerance or list of features. *)
Definition withSpacingScale (scale : list float) : KarenConfig.t :=
  KarenConfig.mk scale defaultTypescale
    (KarenConfig.colorPalette defaultConfig) 4 (ContrastRatios.mk 4.5 7)
    (KarenConfig.features defaultConfig) None.

Definition withTypescale (ts : Typescale.t) : KarenConfig.t :=
  KarenConfig.mk (KarenConfig.spacingScale defaultConfig) ts
    (KarenConfig.colorPalette defaultConfig) 4 (ContrastRatios.mk 4.5 7)
    (KarenConfig.features defaultConfig) None.

Definition withTolerance (tolerance : float) : KarenConfig.t :=
  KarenConfig.mk (KarenConfig.spacingScale defaultConfig) defaultTypescale
    (KarenConfig.colorPalette defaultConfig) tolerance
    (ContrastRatios.mk 4.5 7) (KarenConfig.features defaultConfig) None.

Definition withFeatures (features : list AuditFeature) : KarenConfig.t :=
  KarenConfig.mk (KarenConfig.spacingScale defaultConfig) defaultTypescale
    (KarenConfig.colorPalette defaultConfig) 4 (ContrastRatios.mk 4.5 7)
    features None.

Definition emptyScaleConfig : KarenConfig.t := withSpacingScale [].

(** An engine made of the default configuration: without an API key it
    has no analyzer. *)
Definition defaultEngine : AuditEngine.t := AuditEngine.mk defaultConfig None.

Definition margin5 : list ViewportSnapshot.t :=
  [mobile [element0 ".box" {[ "margin" := "5px" ]}]].

Definition margin15 : list ViewportSnapshot.t :=
  [mobile [element0 ".test" (<[ "margin" := "15px" ]> {[ "padding" := "8px" ]})]].

Definition wide500 : list ViewportSnapshot.t :=
  [mobile [element0 ".hero" {[ "width" := "500px" ]}]].




(** The grid of the test suite: five children in one row, with
    horizontal gaps of 20, 30, 40 and 50 pixels. *)
Definition gridSnapshot : ViewportSnapshot.t :=
  snapshot0 (Viewport.mk "desktop" 1440 900)
    [ DOMElement.mk ".grid-container" "DIV" ["grid"] ""
        (ElementRect.mk 0 0 1000 700) ∅
        [ box ".grid-item-1" 0 0 100 100;
          box ".grid-item-2" 120 0 100 100;
          box ".grid-item-3" 250 0 100 100;
          box ".grid-item-4" 390 0 100 100;
          box ".grid-item-5" 540 0 100 100 ] ].

Definition white : RGB.t := RGB.mk 255 255 255.
Definition black : RGB.t := RGB.mk 0 0 0.
Definition gray170 : RGB.t := RGB.mk 170 170 170.

(** Text of 16px whose colour [parseColor] does not read, on black. *)
Definition redOnBlack : DOMElement.t :=
  element0 ".warning"
    (<[ "fontSize" := "16px" ]>
       (<[ "color" := "red" ]> {[ "backgroundColor" := "rgb(0, 0, 0)" ]})).

(** Text of 16px with no colour of its own, on black. *)
Definition unstyledOnBlack : DOMElement.t :=
  element0 ".note"
    (<[ "fontSize" := "16px" ]> {[ "backgroundColor" := "rgb(0, 0, 0)" ]}).

(** The palette scenario of the specification: [#AABBC5] on three
    properties of a first element, [#AABBCC] on five of a second one. *)
Definition twoBlues : list ViewportSnapshot.t :=
  [ mobile
      [ element0 ".a"
          (<[ "color" := "#aabbc5" ]>
             (<[ "backgroundColor" := "#aabbc5" ]>
                {[ "borderColor" := "rgb(170, 187, 197)" ]}));
        element0 ".b"
          (<[ "color" := "#aabbcc" ]>
             (<[ "backgroundColor" := "#aabbcc" ]>
                (<[ "borderColor" := "#aabbcc" ]>
                   (<[ "borderTopColor" := "#aabbcc" ]>
                      {[ "borderLeftColor" := "#aabbcc" ]})))) ] ].

(** Four colours, two of them holding a ['|'], on one element. *)
Definition barredColors : list ViewportSnapshot.t :=
  [ mobile
      [ element0 ".a"
          (<[ "color" := "#000000" ]>
             (<[ "backgroundColor" := "#1|#000001" ]>
                (<[ "borderColor" := "#000000|#1" ]>
                   {[ "borderTopColor" := "#000001" ]}))) ] ].

(** A title of 18px, half-way between the sizes 16 and 20. *)
Definition title18 : list ViewportSnapshot.t :=
  [mobile [element0 ".title" {[ "fontSize" := "18px" ]}]].

(** A hero block with the same large font, padding and pixel width. *)
Definition hero : DOMElement.t :=
  element0 ".hero"
    (<[ "fontSize" := "32px" ]>
       (<[ "padding" := "40px 16px" ]> {[ "width" := "800px" ]})).

Definition twoViewports : list ViewportSnapshot.t :=
  [ snapshot0 (Viewport.mk "mobile" 375 667) [hero];
    snapshot0 (Viewport.mk "tablet" 768 1024) [hero] ].

Definition threeViewports : list ViewportSnapshot.t :=
  twoViewports
  ++ [snapshot0 (Viewport.mk "desktop" 1440 900) [hero]].

(** The default configuration with [design-system] as only feature, and
    its engine. *)
Definition designSystemOnly : KarenConfig.t := withFeatures [design_system].

Definition designSystemEngine : AuditEngine.t :=
  AuditEngine.mk designSystemOnly None.

(** A row of three elements at y = 10, 0 and 20, with an element of no
    size and no position of its own before the second. *)
Definition voidBox (selector : string) : DOMElement.t :=
  DOMElement.mk selector "DIV" [] "" (ElementRect.mk 0 nan 0 0) ∅ [].

Definition brokenRow : ViewportSnapshot.t :=
  mobile [ box ".a" 0 10 50 50; voidBox ".gone"; box ".b" 100 0 50 50;
           box ".c" 200 20 50 50 ].

(** Colours beyond the 8-bit range: what [parseColor] reads in
    [rgb(300, 300, 300)], and a red channel of 200 digits. *)
Definition overbright : RGB.t := RGB.mk 300 300 300.
Definition overflowing : RGB.t := RGB.mk 1e200 0 0.


(** One issue reported for a viewport named [constructor]. *)
Definition constructorIssue : Issue.t :=
  Issue.mk "SPC-0001" spacing medium "constructor" ".box" []
    (SpacingDetails "margin" 5 4 [4%float] 1) None None.

(** Two elements 2 pixels apart in height, in one row. *)
Definition alignedRow : ViewportSnapshot.t :=
  mobile [ box ".a" 0 10 50 50; box ".b" 100 12 50 50 ].

(** Two elements infinitely far down. *)
Definition infiniteRow : ViewportSnapshot.t :=
  mobile [ box ".a" 0 infinity 50 50; box ".b" 100 infinity 50 50 ].

(* ===================================================================== *)
(** * Part II. Properties                                                *)
(* ===================================================================== *)

(** ** The monad *)

Lemma forEach_cons {A B} (body : A -> M (list B)) a l w :
  forEach body (a :: l) w =
  match body a w with
  | Ok bs w1 =>
      match forEach body l w1 with
      | Ok bs' w2 => Ok (bs ++ bs') w2
      | Throw e w2 => Throw e w2
      end
  | Throw e w1 => Throw e w1
  end.
Proof.
  simpl. unfold bind. destruct (body a w); [|reflexivity].
  destruct (forEach body l w0); reflexivity.
Qed.

(** An issue a loop returns was pushed by one run of its body. *)
Lemma forEach_In {A B} (body : A -> M (list B)) l :
  forall w bs w' b,
    forEach body l w = Ok bs w' -> In b bs ->
    exists a w1 bs1 w2, In a l /\ body a w1 = Ok bs1 w2 /\ In b bs1.
Proof.
  induction l as [|a l IH]; intros w bs w' b Hrun Hb.
  - simpl in Hrun. injection Hrun as <- _. destruct Hb.
  - rewrite forEach_cons in Hrun.
    destruct (body a w) as [bs1 w1|] eqn:Ha; [|discriminate].
    destruct (forEach body l w1) as [bs2 w2|] eqn:Hl; [|discriminate].
    injection Hrun as <- _. apply in_app_or in Hb as [Hb|Hb].
    + exists a, w, bs1, w1. split; [left; reflexivity|]. split; assumption.
    + destruct (IH _ _ _ _ Hl Hb) as (a' & wa & bsa & wb & Hin & Hrun' & Hb').
      exists a', wa, bsa, wb. split; [right; assumption|]. split; assumption.
Qed.

(** A loop whose body pushes nothing and leaves the world alone. *)
Lemma forEach_silent {A B} (body : A -> M (list B)) l w :
  (forall a, In a l -> body a w = Ok [] w) ->
  forEach body l w = Ok [] w.
Proof.
  induction l as [|a l IH]; intros Hbody; [reflexivity|].
  rewrite forEach_cons, Hbody by (left; reflexivity).
  rewrite IH; [reflexivity|]. intros a' Ha'. apply Hbody. right. assumption.
Qed.

Lemma forEach_total {A B} (body : A -> M (list B)) (l : list A) :
  (forall a w, In a l -> exists bs w', body a w = Ok bs w') ->
  forall w, exists bs w', forEach body l w = Ok bs w'.
Proof.
  induction l as [|a l IH]; intros Hbody w.
  - exists [], w. reflexivity.
  - destruct (Hbody a w (or_introl eq_refl)) as (bs1 & w1 & Ha).
    destruct (IH (fun a' w' H => Hbody a' w' (or_intror H)) w1)
      as (bs2 & w2 & Hl).
    exists (bs1 ++ bs2), w2. rewrite forEach_cons, Ha, Hl. reflexivity.
Qed.

(** ** Loops that cannot throw *)

(** When every run of the body returns, the loop returns, and what its
    issues say is the concatenation of what the bodies' issues say. *)
Lemma forEach_map {A B C} (body : A -> M (list B)) (g : B -> C)
    (f : A -> list C) (l : list A) :
  (forall a w, In a l ->
     exists bs w', body a w = Ok bs w' /\ List.map g bs = f a) ->
  forall w, exists bs w',
    forEach body l w = Ok bs w' /\ List.map g bs = concat (List.map f l).
Proof.
  induction l as [|a l IH]; intros Hbody w.
  - exists [], w. split; reflexivity.
  - destruct (Hbody a w (or_introl eq_refl)) as (bs1 & w1 & Ha & Hg).
    destruct (IH (fun a' w' H => Hbody a' w' (or_intror H)) w1)
      as (bs2 & w2 & Hl & Hg2).
    exists (bs1 ++ bs2), w2. rewrite forEach_cons, Ha, Hl.
    split; [reflexivity|]. simpl. rewrite List.map_app, Hg, Hg2. reflexivity.
Qed.


Lemma forEach_silent_or_throw {A B} (body : A -> M (list B)) (p : A -> bool)
    (e : Exn) (l : list A) w :
  (forall a, In a l -> body a w = if p a then Throw e w else Ok [] w) ->
  forEach body l w = if existsb p l then Throw e w else Ok [] w.
Proof.
  induction l as [|a l IH]; intros Hbody; [reflexivity|].
  rewrite forEach_cons, Hbody by (left; reflexivity). simpl.
  destruct (p a); [reflexivity|]. simpl.
  rewrite IH by (intros a' Ha'; apply Hbody; right; exact Ha').
  destruct (existsb p l); reflexivity.
Qed.


(** ** Strings *)

Lemma chars_app a b : chars (a ++ b) = (chars a ++ chars b)%list.
Proof. induction a as [|c a IH]; simpl; [reflexivity|]. unfold chars in *. rewrite IH. reflexivity. Qed.

Lemma chars_str l : chars (str l) = l.
Proof. apply list_ascii_of_string_of_list_ascii. Qed.

Lemma str_chars s : str (chars s) = s.
Proof. apply string_of_list_ascii_of_string. Qed.

Lemma str_app l1 l2 : str (l1 ++ l2) = (str l1 ++ str l2)%string.
Proof.
  induction l1 as [|c l1 IH]; [reflexivity|].
  change (str ((c :: l1) ++ l2)) with (String c (str (l1 ++ l2))).
  rewrite IH. reflexivity.
Qed.

Lemma toUpperCase_app a b :
  toUpperCase (a ++ b) = (toUpperCase a ++ toUpperCase b)%string.
Proof.
  unfold toUpperCase. rewrite chars_app, flat_map_app, str_app. reflexivity.
Qed.

(** The upper case of a character is in upper case. *)
Lemma upperChars_idem c : flat_map upperChars (upperChars c) = upperChars c.
Proof.
  destruct c as [[] [] [] [] [] [] [] []]; vm_compute; reflexivity.
Qed.

Lemma toUpperCase_idem s : toUpperCase (toUpperCase s) = toUpperCase s.
Proof.
  unfold toUpperCase. rewrite chars_str. f_equal.
  induction (chars s) as [|c l IH]; [reflexivity|].
  cbn [flat_map]. rewrite flat_map_app, upperChars_idem, IH. reflexivity.
Qed.

Lemma startsWith_hash color :
  startsWith color "#" = true -> exists rest, color = String "#" rest.
Proof.
  destruct color as [|c rest]; [discriminate|].
  unfold startsWith, chars. cbn [list_ascii_of_string prefixChars].
  destruct (Ascii.eqb_spec "#"%char c) as [<-|]; [|discriminate].
  intros _. exists rest. reflexivity.
Qed.

Lemma toUpperCase_hash rest :
  toUpperCase (String "#" rest) = String "#" (toUpperCase rest).
Proof. reflexivity. Qed.


(** Reading the decimal digits of a number gives the number back. *)
Lemma digits_fold_uint d : forall acc : nat,
  fold_left (fun acc c => acc * 10 + digitVal c)
    (chars (DecimalString.NilEmpty.string_of_uint d)) (Z.of_nat acc)
  = Z.of_nat (Nat.of_uint_acc d acc).
Proof.
  induction d; intros acc; simpl; try reflexivity;
    rewrite <- IHd; f_equal; rewrite Nat.tail_mul_spec;
    match goal with
    | |- context [digitVal ?c] =>
        let v := eval vm_compute in (digitVal c) in change (digitVal c) with v
    end; lia.
Qed.

Lemma digitsToZ_natToString n : digitsToZ (chars (natToString n)) = Z.of_nat n.
Proof.
  unfold digitsToZ, natToString. rewrite (digits_fold_uint _ 0).
  change (Nat.of_uint_acc (Nat.to_uint n) 0) with (Nat.of_uint (Nat.to_uint n)).
  rewrite Unsigned.of_to. reflexivity.
Qed.

Lemma digitsToZ_zeros k l :
  digitsToZ (repeat "0"%char k ++ l) = digitsToZ l.
Proof.
  unfold digitsToZ. induction k as [|k IH]; simpl; [reflexivity|]. exact IH.
Qed.

Lemma digitsToZ_padStart4 n :
  digitsToZ (chars (padStart4 (natToString n))) = Z.of_nat n.
Proof.
  unfold padStart4. rewrite chars_app, chars_str, digitsToZ_zeros.
  apply digitsToZ_natToString.
Qed.


(** ** Binary64 arithmetic *)

Lemma SFcompare_refl (x : spec_float) :
  SFcompare x x = None \/ SFcompare x x = Some Eq.
Proof.
  destruct x as [s|s| |s m e]; simpl.
  - right. reflexivity.
  - right. destruct s; reflexivity.
  - left. reflexivity.
  - right. rewrite Z.compare_refl, Pos.compare_cont_refl. destruct s; reflexivity.
Qed.

Lemma ltb_irrefl (x : float) : (x <? x)%float = false.
Proof.
  rewrite FloatAxioms.ltb_spec. unfold SFltb.
  destruct (SFcompare_refl (Prim2SF x)) as [-> | ->]; reflexivity.
Qed.

(** [NaN] is the only float that differs from itself. *)
Lemma isNaN_true (x : float) : isNaN x = true -> x = NaN.
Proof.
  unfold isNaN. rewrite FloatAxioms.eqb_spec. unfold SFeqb. intros H.
  apply Prim2SF_inj. change (Prim2SF NaN) with S754_nan.
  destruct (Prim2SF x) as [s|s| |s m e] eqn:Hx; simpl in H;
    try reflexivity; try discriminate.
  - destruct s; discriminate.
  - rewrite Z.compare_refl, Pos.compare_cont_refl in H. destruct s; discriminate.
Qed.

Lemma Math_max_same (x : float) : Math_max x x = x.
Proof.
  unfold Math_max. destruct (isNaN x) eqn:Hn; simpl.
  - symmetry. apply isNaN_true. exact Hn.
  - rewrite ltb_irrefl. destruct (isNegZero x); reflexivity.
Qed.

Lemma Math_min_same (x : float) : Math_min x x = x.
Proof.
  unfold Math_min. destruct (isNaN x) eqn:Hn; simpl.
  - symmetry. apply isNaN_true. exact Hn.
  - rewrite ltb_irrefl. destruct (isNegZero x); reflexivity.
Qed.

Lemma SFdiv_core_same (m : positive) (e : Z) :
  SFdiv_core_binary prec emax (Z.pos m) e (Z.pos m) e
  = (2 ^ 53, -53, loc_Exact).
Proof.
  unfold SFdiv_core_binary.
  rewrite !Z.sub_diag.
  change (Z.min (fexp prec emax 0) 0) with (-53).
  change (0 - -53) with 53.
  cbv beta iota zeta.
  rewrite Z.shiftl_mul_pow2 by lia.
  assert (Z.div_eucl (Z.pos m * 2 ^ 53) (Z.pos m) = (2 ^ 53, 0)) as ->.
  { pose proof (Z.div_mul (2 ^ 53) (Z.pos m) ltac:(lia)) as Hq.
    pose proof (Z.mod_mul (2 ^ 53) (Z.pos m) ltac:(lia)) as Hr.
    rewrite (Z.mul_comm (Z.pos m)).
    unfold Z.div, Z.modulo in Hq, Hr.
    destruct (Z.div_eucl (2 ^ 53 * Z.pos m) (Z.pos m)) as [q r].
    simpl in Hq, Hr. subst. reflexivity. }
  unfold new_location, new_location_even, new_location_odd.
  destruct (Z.even (Z.pos m)); reflexivity.
Qed.

(** A finite non-zero float divided by itself is exactly 1. *)
Lemma div_same (x : float) : finiteNonzero x = true -> (x / x)%float = 1%float.
Proof.
  unfold finiteNonzero. intros H. apply Prim2SF_inj. rewrite div_spec.
  destruct (Prim2SF x) as [s|s| |s m e]; try discriminate.
  unfold SF64div, SFdiv. rewrite SFdiv_core_same, xorb_nilpotent.
  vm_compute. reflexivity.
Qed.

Lemma isNaN_false x : isNaN x = false -> Prim2SF x <> S754_nan.
Proof.
  unfold isNaN. rewrite FloatAxioms.eqb_spec. intros H Hx. rewrite Hx in H.
  discriminate H.
Qed.

Lemma SFltb_trans f1 f2 f3 :
  SFltb f1 f2 = true -> SFltb f2 f3 = true -> SFltb f1 f3 = true.
Proof.
  unfold SFltb, SFcompare.
  destruct f1 as [s1| [|] | |[|] m1 e1], f2 as [s2| [|] | |[|] m2 e2],
           f3 as [s3| [|] | |[|] m3 e3];
    try discriminate; try reflexivity;
    destruct (Z.compare_spec e1 e2), (Z.compare_spec e2 e3),
             (Z.compare_spec e1 e3);
    try discriminate; try reflexivity; try lia;
    rewrite ?Pos.compare_cont_spec;
    destruct (Pos.compare_spec m1 m2), (Pos.compare_spec m2 m3),
             (Pos.compare_spec m1 m3);
    simpl; try discriminate; try reflexivity; try lia.
Qed.

Lemma ltb_trans (x y z : float) :
  (x <? y)%float = true -> (y <? z)%float = true -> (x <? z)%float = true.
Proof. rewrite !FloatAxioms.ltb_spec. apply SFltb_trans. Qed.

Lemma ltb_asym (x y : float) : (x <? y)%float = true -> (y <? x)%float = false.
Proof.
  intros H. destruct (y <? x)%float eqn:H'; [|reflexivity].
  rewrite <- (ltb_irrefl x). symmetry. eapply ltb_trans; eassumption.
Qed.

Lemma SF_unordered_eq x y :
  SFltb x y = false -> SFltb y x = false ->
  x <> S754_nan -> y <> S754_nan ->
  x = y \/ exists s1 s2, x = S754_zero s1 /\ y = S754_zero s2.
Proof.
  unfold SFltb, SFcompare.
  destruct x as [s1|[|]| |[|] m1 e1], y as [s2|[|]| |[|] m2 e2];
    try discriminate; try congruence;
    try (left; reflexivity); try (right; eexists _, _; split; reflexivity);
    rewrite ?Pos.compare_cont_spec; unfold Pos.switch_Eq;
    destruct (Z.compare_spec e1 e2), (Z.compare_spec e2 e1);
    try discriminate; try lia;
    destruct (Pos.compare_spec m1 m2), (Pos.compare_spec m2 m1);
    simpl; try discriminate; try lia; intros; subst; left; reflexivity.
Qed.

Lemma unordered_eq (a b : float) :
  isNaN a = false -> isNaN b = false ->
  (a <? b)%float = false -> (b <? a)%float = false ->
  a = b \/ exists s1 s2, Prim2SF a = S754_zero s1 /\ Prim2SF b = S754_zero s2.
Proof.
  intros Ha Hb Hab Hba. rewrite FloatAxioms.ltb_spec in Hab, Hba.
  destruct (SF_unordered_eq _ _ Hab Hba (isNaN_false _ Ha) (isNaN_false _ Hb))
    as [H|H]; [left; apply Prim2SF_inj, H|right; exact H].
Qed.

Lemma Math_max_comm a b : Math_max a b = Math_max b a.
Proof.
  unfold Math_max. rewrite (orb_comm (isNaN b)).
  destruct (isNaN a || isNaN b) eqn:Hnan; [reflexivity|].
  apply orb_false_iff in Hnan as [Ha Hb].
  destruct (a <? b)%float eqn:Hab; [rewrite (ltb_asym _ _ Hab); reflexivity|].
  destruct (b <? a)%float eqn:Hba; [reflexivity|].
  destruct (unordered_eq a b Ha Hb Hab Hba) as [->|(s1 & s2 & H1 & H2)].
  - destruct (isNegZero b); reflexivity.
  - unfold isNegZero. rewrite H1, H2.
    destruct s1, s2; try reflexivity; apply Prim2SF_inj; congruence.
Qed.

Lemma Math_min_comm a b : Math_min a b = Math_min b a.
Proof.
  unfold Math_min. rewrite (orb_comm (isNaN b)).
  destruct (isNaN a || isNaN b) eqn:Hnan; [reflexivity|].
  apply orb_false_iff in Hnan as [Ha Hb].
  destruct (a <? b)%float eqn:Hab; [rewrite (ltb_asym _ _ Hab); reflexivity|].
  destruct (b <? a)%float eqn:Hba; [reflexivity|].
  destruct (unordered_eq a b Ha Hb Hab Hba) as [->|(s1 & s2 & H1 & H2)].
  - destruct (isNegZero b); reflexivity.
  - unfold isNegZero. rewrite H1, H2.
    destruct s1, s2; try reflexivity; apply Prim2SF_inj; congruence.
Qed.

(** What is below something is a number. *)
Lemma ltb_not_nan x y : (x <? y)%float = true -> isNaN x = false.
Proof.
  unfold isNaN. rewrite FloatAxioms.ltb_spec, FloatAxioms.eqb_spec.
  unfold SFltb, SFeqb. intros Hlt.
  destruct (SFcompare_refl (Prim2SF x)) as [H|H]; rewrite H;
    [|reflexivity].
  destruct (Prim2SF x); try discriminate H. discriminate Hlt.
Qed.


(** *** The rounding of the binary64 operations *)

Section Rounding.

#[local] Open Scope Z_scope.

Lemma fexp64_eq e : fexp prec emax e = fexp64 e.
Proof. reflexivity. Qed.

Lemma digits2_bounds (m : positive) :
  2 ^ (Z.pos (digits2_pos m) - 1) <= Z.pos m < 2 ^ Z.pos (digits2_pos m).
Proof.
  induction m as [m IH|m IH|]; cbn [digits2_pos].
  - rewrite Pos2Z.inj_succ.
    replace (Z.succ (Z.pos (digits2_pos m)) - 1) with (Z.succ (Z.pos (digits2_pos m) - 1)) by lia.
    rewrite !Z.pow_succ_r by lia. lia.
  - rewrite Pos2Z.inj_succ.
    replace (Z.succ (Z.pos (digits2_pos m)) - 1) with (Z.succ (Z.pos (digits2_pos m) - 1)) by lia.
    rewrite !Z.pow_succ_r by lia. lia.
  - simpl. lia.
Qed.

Lemma Zdigits2_bounds (m : Z) :
  0 < m -> 2 ^ (Zdigits2 m - 1) <= m < 2 ^ Zdigits2 m.
Proof.
  destruct m as [|p|p]; try lia. intros _. apply digits2_bounds.
Qed.

Lemma Zdigits2_pos (m : Z) : 0 < m -> 0 < Zdigits2 m.
Proof. destruct m; simpl; lia. Qed.

(** A number below [2^k] has at most [k] digits. *)
Lemma Zdigits2_le (m k : Z) : 0 < m -> 0 <= k -> m < 2 ^ k -> Zdigits2 m <= k.
Proof.
  intros Hm Hk Hlt. pose proof (Zdigits2_bounds m Hm) as [Hlo _].
  pose proof (Zdigits2_pos m Hm).
  destruct (Z_le_gt_dec (Zdigits2 m) k) as [|Hgt]; [assumption|exfalso].
  assert (2 ^ k <= 2 ^ (Zdigits2 m - 1)) by (apply Z.pow_le_mono_r; lia).
  lia.
Qed.

(** A number from [2^k] on has more than [k] digits. *)
Lemma Zdigits2_gt (m k : Z) : 0 <= k -> 2 ^ k <= m -> k < Zdigits2 m.
Proof.
  intros Hk Hle.
  assert (0 < m) as Hm by (pose proof (Z.pow_pos_nonneg 2 k); lia).
  pose proof (Zdigits2_bounds m Hm) as [_ Hhi].
  destruct (Z_lt_le_dec k (Zdigits2 m)) as [|Hge]; [assumption|exfalso].
  assert (2 ^ Zdigits2 m <= 2 ^ k) by (apply Z.pow_le_mono_r; lia).
  lia.
Qed.

Lemma shr_1_m mrs : 0 <= shr_m mrs -> shr_m (shr_1 mrs) = shr_m mrs / 2.
Proof.
  destruct mrs as [m r s]. cbn [shr_m]. intros Hm.
  destruct m as [|[p|p|]|p]; cbn [shr_1 shr_m]; try lia.
  - reflexivity.
  - apply Z.div_unique with 1; lia.
  - apply Z.div_unique with 0; lia.
  - reflexivity.
Qed.

Lemma shr_1_nonneg mrs : 0 <= shr_m mrs -> 0 <= shr_m (shr_1 mrs).
Proof.
  intros H. rewrite shr_1_m by exact H. apply Z.div_pos; lia.
Qed.

Lemma iter_shr_m p : forall mrs,
  0 <= shr_m mrs ->
  shr_m (SpecFloat.iter_pos shr_1 p mrs) = shr_m mrs / 2 ^ Z.pos p.
Proof.
  induction p as [p IH|p IH|]; intros mrs Hm; cbn [SpecFloat.iter_pos].
  - assert (0 <= shr_m (shr_1 mrs)) as H1 by (apply shr_1_nonneg; exact Hm).
    assert (0 <= shr_m (SpecFloat.iter_pos shr_1 p (shr_1 mrs))) as H2.
    { rewrite IH by exact H1. apply Z.div_pos; [exact H1|]. apply Z.pow_pos_nonneg; lia. }
    rewrite IH by exact H2. rewrite IH by exact H1. rewrite shr_1_m by exact Hm.
    rewrite !Z.div_div by (try apply Z.pow_pos_nonneg; lia).
    f_equal. replace (Z.pos p~1) with (1 + Z.pos p + Z.pos p) by lia.
    rewrite !Z.pow_add_r by lia. lia.
  - assert (0 <= shr_m (SpecFloat.iter_pos shr_1 p mrs)) as H2.
    { rewrite IH by exact Hm. apply Z.div_pos; [exact Hm|]. apply Z.pow_pos_nonneg; lia. }
    rewrite IH by exact H2. rewrite IH by exact Hm.
    rewrite !Z.div_div by (try apply Z.pow_pos_nonneg; lia).
    f_equal. replace (Z.pos p~0) with (Z.pos p + Z.pos p) by lia.
    rewrite !Z.pow_add_r by lia. lia.
  - rewrite shr_1_m by exact Hm. reflexivity.
Qed.

Lemma shr_record_of_loc_m m l : shr_m (shr_record_of_loc m l) = m.
Proof. destruct l as [|[]]; reflexivity. Qed.

(** [shr_fexp] brings the exponent up to [fexp] and divides the mantissa
    accordingly. *)
Lemma shr_fexp_spec m e l :
  0 <= m ->
  let e' := Z.max e (fexp64 (Zdigits2 m + e)) in
  exists mrs, shr_fexp prec emax m e l = (mrs, e')
              /\ shr_m mrs = m / 2 ^ (e' - e).
Proof.
  intros Hm e'. unfold shr_fexp, shr. rewrite fexp64_eq.
  destruct (fexp64 (Zdigits2 m + e) - e) as [|p|p] eqn:Hn.
  - eexists. split; [f_equal; unfold e'; lia|].
    rewrite shr_record_of_loc_m. replace (e' - e) with 0 by (unfold e'; lia).
    rewrite Z.div_1_r. reflexivity.
  - eexists. split; [f_equal; unfold e'; lia|].
    rewrite iter_shr_m by (rewrite shr_record_of_loc_m; exact Hm).
    rewrite shr_record_of_loc_m. f_equal. f_equal. unfold e'. lia.
  - eexists. split; [f_equal; unfold e'; lia|].
    rewrite shr_record_of_loc_m. replace (e' - e) with 0 by (unfold e'; lia).
    rewrite Z.div_1_r. reflexivity.
Qed.

Lemma round_nearest_even_bounds m l :
  m <= round_nearest_even m l <= m + 1.
Proof.
  destruct l as [|[]]; cbn [round_nearest_even]; try lia.
  destruct (Z.even m); lia.
Qed.

(** The shape of what [binary_round_aux] returns on a positive mantissa. *)
Lemma binary_round_aux_spec s m e l :
  0 <= m ->
  let e2 := Z.max e (fexp64 (Zdigits2 m + e)) in
  let m2 := m / 2 ^ (e2 - e) in
  exists m3,
    m2 <= m3 <= m2 + 1
    /\ let e4 := Z.max e2 (fexp64 (Zdigits2 m3 + e2)) in
       let m4 := m3 / 2 ^ (e4 - e2) in
       binary_round_aux prec emax s m e l
       = match m4 with
         | Z0 => S754_zero s
         | Zpos p => if e4 <=? 971 then S754_finite s p e4 else S754_infinity s
         | Zneg _ => S754_nan
         end.
Proof.
  intros Hm e2 m2. unfold binary_round_aux.
  destruct (shr_fexp_spec m e l Hm) as (mrs & -> & Hmrs).
  fold e2 in Hmrs. fold m2 in Hmrs.
  assert (0 <= m2) as Hm2.
  { unfold m2. apply Z.div_pos; [exact Hm|]. apply Z.pow_pos_nonneg; unfold e2; lia. }
  set (m3 := round_nearest_even (shr_m mrs) (loc_of_shr_record mrs)).
  pose proof (round_nearest_even_bounds (shr_m mrs) (loc_of_shr_record mrs)) as Hb.
  fold m3 in Hb. rewrite Hmrs in Hb.
  exists m3. split; [exact Hb|].
  fold e2.
  destruct (shr_fexp_spec m3 e2 loc_Exact ltac:(lia)) as (mrs2 & -> & Hmrs2).
  cbv zeta. rewrite Hmrs2. reflexivity.
Qed.

(** *** Valid floats and their order *)

Lemma valid_finite s m e :
  valid_binary (S754_finite s m e) = true ->
  fexp64 (Z.pos (digits2_pos m) + e) = e /\ e <= 971.
Proof.
  unfold SpecFloat.valid_binary, bounded, canonical_mantissa.
  intros H. apply andb_true_iff in H as [H1 H2].
  apply Z.eqb_eq in H1. apply Z.leb_le in H2. rewrite fexp64_eq in H1.
  split; [exact H1|exact H2].
Qed.

Lemma scaled_lt_exp m1 e1 m2 e2 :
  fexp64 (Z.pos (digits2_pos m1) + e1) = e1 ->
  fexp64 (Z.pos (digits2_pos m2) + e2) = e2 ->
  e1 < e2 ->
  Z.pos m1 * 2 ^ (e1 + 1074) < Z.pos m2 * 2 ^ (e2 + 1074).
Proof.
  unfold fexp64. intros H1 H2 Hlt.
  pose proof (digits2_bounds m1) as [_ Hhi].
  pose proof (digits2_bounds m2) as [Hlo _].
  assert (Z.pos (digits2_pos m1) <= 53) as Hd1 by lia.
  assert (Z.pos (digits2_pos m2) = 53) as Hd2 by lia.
  rewrite Hd2 in Hlo. change (2 ^ (53 - 1)) with 4503599627370496 in Hlo.
  assert (2 ^ Z.pos (digits2_pos m1) <= 2 ^ 53) as Hp
    by (apply Z.pow_le_mono_r; lia).
  change (2 ^ 53) with 9007199254740992 in Hp.
  replace (e2 + 1074) with ((e2 - e1 - 1) + 1 + (e1 + 1074)) by lia.
  rewrite (Z.pow_add_r 2 (e2 - e1 - 1 + 1) (e1 + 1074)) by lia.
  rewrite (Z.pow_add_r 2 (e2 - e1 - 1) 1) by lia. change (2 ^ 1) with 2.
  assert (0 < 2 ^ (e1 + 1074)) by (apply Z.pow_pos_nonneg; lia).
  assert (0 < 2 ^ (e2 - e1 - 1)) by (apply Z.pow_pos_nonneg; lia).
  assert (Z.pos m1 < Z.pos m2 * (2 ^ (e2 - e1 - 1) * 2)) as Hm by nia.
  rewrite Z.mul_assoc. apply Z.mul_lt_mono_pos_r; assumption.
Qed.

Lemma Pos_compare_scaled m1 m2 k :
  0 < k -> Pos.compare_cont Eq m1 m2 = (Z.pos m1 * k ?= Z.pos m2 * k).
Proof.
  intros Hk. change (Pos.compare_cont Eq m1 m2) with (Z.pos m1 ?= Z.pos m2).
  destruct (Z.compare_spec (Z.pos m1) (Z.pos m2)) as [H|H|H]; symmetry.
  - rewrite H. apply Z.compare_refl.
  - apply Z.compare_lt_iff. nia.
  - apply Z.compare_gt_iff. nia.
Qed.

(** On valid finite floats and zeros, [SFcompare] is the order of the
    scaled values. *)
Lemma SFcompare_scaled x y :
  valid_binary x = true -> valid_binary y = true ->
  finiteOrZero x -> finiteOrZero y ->
  SFcompare x y = Some (SFscaled x ?= SFscaled y).
Proof.
  intros Vx Vy Fx Fy.
  destruct x as [sx|sx| |sx mx ex]; try contradiction;
    destruct y as [sy|sy| |sy my ey]; try contradiction; cbn [SFcompare SFscaled].
  - reflexivity.
  - assert (0 < Z.pos my * 2 ^ (ey + 1074)).
    { apply valid_finite in Vy as [Hy _]. unfold fexp64 in Hy.
      apply Z.mul_pos_pos; [lia|apply Z.pow_pos_nonneg; lia]. }
    destruct sy; cbn [cond_Zopp]; f_equal; symmetry.
    + apply Z.compare_gt_iff. lia.
    + apply Z.compare_lt_iff. lia.
  - assert (0 < Z.pos mx * 2 ^ (ex + 1074)).
    { apply valid_finite in Vx as [Hx _]. unfold fexp64 in Hx.
      apply Z.mul_pos_pos; [lia|apply Z.pow_pos_nonneg; lia]. }
    destruct sx; cbn [cond_Zopp]; f_equal; symmetry.
    + apply Z.compare_lt_iff. lia.
    + apply Z.compare_gt_iff. lia.
  - apply valid_finite in Vx as [Hx _]. apply valid_finite in Vy as [Hy _].
    assert (0 < Z.pos mx * 2 ^ (ex + 1074)).
    { unfold fexp64 in Hx. apply Z.mul_pos_pos; [lia|apply Z.pow_pos_nonneg; lia]. }
    assert (0 < Z.pos my * 2 ^ (ey + 1074)).
    { unfold fexp64 in Hy. apply Z.mul_pos_pos; [lia|apply Z.pow_pos_nonneg; lia]. }
    f_equal. destruct sx, sy; cbn [cond_Zopp].
    + destruct (Z.compare_spec ex ey) as [He|He|He]; symmetry.
      * subst ey. rewrite (Pos_compare_scaled mx my (2 ^ (ex + 1074)))
          by (unfold fexp64 in Hx; apply Z.pow_pos_nonneg; lia).
        rewrite Z.compare_opp. rewrite <- Z.compare_antisym. reflexivity.
      * apply Z.compare_gt_iff.
        pose proof (scaled_lt_exp _ _ _ _ Hx Hy He). lia.
      * apply Z.compare_lt_iff.
        pose proof (scaled_lt_exp _ _ _ _ Hy Hx He). lia.
    + symmetry. apply Z.compare_lt_iff. lia.
    + symmetry. apply Z.compare_gt_iff. lia.
    + destruct (Z.compare_spec ex ey) as [He|He|He]; symmetry.
      * subst ey. symmetry. apply Pos_compare_scaled.
        unfold fexp64 in Hx. apply Z.pow_pos_nonneg; lia.
      * apply Z.compare_lt_iff. exact (scaled_lt_exp _ _ _ _ Hx Hy He).
      * apply Z.compare_gt_iff. exact (scaled_lt_exp _ _ _ _ Hy Hx He).
Qed.

(** *** The sign of a difference *)

Lemma iter_xO m d : Z.pos (Pos.iter xO m d) = Z.pos m * 2 ^ Z.pos d.
Proof.
  induction d as [|d IH] using Pos.peano_ind.
  - simpl. lia.
  - rewrite Pos.iter_succ, Pos2Z.inj_xO, IH, Pos2Z.inj_succ, Z.pow_succ_r by lia.
    lia.
Qed.

Lemma shl_align_spec mx ex ez :
  snd (shl_align mx ex ez) = Z.min ex ez
  /\ Z.pos (fst (shl_align mx ex ez)) = Z.pos mx * 2 ^ (ex - Z.min ex ez).
Proof.
  unfold shl_align. destruct (ez - ex) as [|d|d] eqn:Hd; cbn [fst snd].
  - split; [lia|]. replace (ex - Z.min ex ez) with 0 by lia. lia.
  - split; [lia|]. replace (ex - Z.min ex ez) with 0 by lia. lia.
  - split; [lia|]. rewrite iter_xO. f_equal. f_equal. lia.
Qed.

(** Above the least exponent, rounding a positive mantissa does not reach
    zero. *)
Lemma shifted_positive m e :
  0 < m -> -1074 <= e ->
  0 < m / 2 ^ (Z.max e (fexp64 (Zdigits2 m + e)) - e).
Proof.
  intros Hm He. pose proof (Zdigits2_bounds m Hm) as [Hlo _].
  pose proof (Zdigits2_pos m Hm) as Hd.
  unfold fexp64.
  destruct (Z_le_gt_dec (Z.max (Zdigits2 m + e - 53) (-1074)) e) as [Hle|Hgt].
  - replace (Z.max e _ - e) with 0 by lia. rewrite Z.div_1_r. exact Hm.
  - replace (Z.max e _ - e) with (Zdigits2 m - 53) by lia.
    apply Z.div_str_pos. split; [apply Z.pow_pos_nonneg; lia|].
    etransitivity; [|exact Hlo]. apply Z.pow_le_mono_r; lia.
Qed.

Lemma binary_round_aux_sign s m e l :
  0 < m -> -1074 <= e ->
  (exists m' e', binary_round_aux prec emax s m e l = S754_finite s m' e')
  \/ binary_round_aux prec emax s m e l = S754_infinity s.
Proof.
  intros Hm He.
  destruct (binary_round_aux_spec s m e l ltac:(lia)) as (m3 & Hm3 & ->).
  pose proof (shifted_positive m e Hm He) as H2.
  set (e2 := Z.max e (fexp64 (Zdigits2 m + e))) in *.
  assert (0 < m3) as H3 by lia.
  pose proof (shifted_positive m3 e2 H3 ltac:(unfold e2; lia)) as H4.
  destruct (m3 / 2 ^ (Z.max e2 (fexp64 (Zdigits2 m3 + e2)) - e2)) as [|p|p];
    try lia.
  destruct (_ <=? 971); [left; eauto|right; reflexivity].
Qed.

Lemma binary_round_sign s p e :
  -1074 <= e ->
  (exists m' e', binary_round prec emax s p e = S754_finite s m' e')
  \/ binary_round prec emax s p e = S754_infinity s.
Proof.
  intros He. unfold binary_round.
  pose proof (shl_align_spec p e (fexp prec emax (Z.pos (digits2_pos p) + e)))
    as [Hs _].
  destruct (shl_align p e _) as [mz ez]. cbn [snd] in Hs.
  apply binary_round_aux_sign; [lia|].
  rewrite fexp64_eq in Hs. unfold fexp64 in Hs. lia.
Qed.

Lemma SFscaled_aligned s m e ez :
  ez <= e -> -1074 <= ez ->
  SFscaled (S754_finite s m e)
  = cond_Zopp s (Z.pos (fst (shl_align m e ez))) * 2 ^ (ez + 1074).
Proof.
  intros Hle Hez. pose proof (shl_align_spec m e ez) as [_ ->].
  replace (Z.min e ez) with ez by lia. cbn [SFscaled].
  replace (e + 1074) with ((e - ez) + (ez + 1074)) by lia.
  rewrite Z.pow_add_r by lia. destruct s; cbn [cond_Zopp]; lia.
Qed.

(** A difference is negative exactly when its first operand is the
    smaller one. *)
Theorem sub_negative (x y : float) :
  notNaN x -> notNaN y -> (x - y <? 0)%float = (x <? y)%float.
Proof.
  intros Hx%isNaN_false Hy%isNaN_false.
  rewrite !FloatAxioms.ltb_spec, FloatAxioms.sub_spec.
  pose proof (Prim2SF_valid x) as Vx. pose proof (Prim2SF_valid y) as Vy.
  change (Prim2SF 0) with (S754_zero false).
  destruct (Prim2SF x) as [sx|sx| |sx mx ex]; [| |contradiction|];
    (destruct (Prim2SF y) as [sy|sy| |sy my ey]; [| |contradiction|]);
    try (destruct sx, sy; reflexivity); try (destruct sx; reflexivity);
    try (destruct sy; reflexivity).
  unfold SF64sub, SFsub, SFltb.
  rewrite (SFcompare_scaled _ _ Vx Vy I I).
  pose proof (valid_finite _ _ _ Vx) as [Hcx _].
  pose proof (valid_finite _ _ _ Vy) as [Hcy _].
  assert (-1074 <= Z.min ex ey) as Hez by (unfold fexp64 in *; lia).
  rewrite (SFscaled_aligned sx mx ex (Z.min ex ey)) by lia.
  rewrite (SFscaled_aligned sy my ey (Z.min ex ey)) by lia.
  set (A := cond_Zopp sx (Z.pos (fst (shl_align mx ex (Z.min ex ey))))).
  set (B := cond_Zopp sy (Z.pos (fst (shl_align my ey (Z.min ex ey))))).
  assert (0 < 2 ^ (Z.min ex ey + 1074)) as Hk by (apply Z.pow_pos_nonneg; lia).
  unfold binary_normalize.
  destruct (A - B) as [|p|p] eqn:Hd.
  - cbn [SFcompare].
    assert (A * 2 ^ (Z.min ex ey + 1074) = B * 2 ^ (Z.min ex ey + 1074)) as ->
      by (f_equal; lia).
    rewrite Z.compare_refl. reflexivity.
  - assert ((A * 2 ^ (Z.min ex ey + 1074) ?= B * 2 ^ (Z.min ex ey + 1074)) = Gt) as ->
      by (apply Z.compare_gt_iff; nia).
    destruct (binary_round_sign false p (Z.min ex ey) Hez) as [(m' & e' & ->)| ->];
      reflexivity.
  - assert ((A * 2 ^ (Z.min ex ey + 1074) ?= B * 2 ^ (Z.min ex ey + 1074)) = Lt) as ->
      by (apply Z.compare_lt_iff; nia).
    destruct (binary_round_sign true p (Z.min ex ey) Hez) as [(m' & e' & ->)| ->];
      reflexivity.
Qed.

(** *** A bound on a quotient *)

Lemma fexp64_mono a b : a <= b -> fexp64 a <= fexp64 b.
Proof. unfold fexp64. lia. Qed.

(** Powers of two compared through their exponents. *)
Lemma pow2_lt_inv a b : 0 <= b -> 2 ^ a < 2 ^ b -> a < b.
Proof.
  intros Hb H. destruct (Z_lt_le_dec a b) as [|Hge]; [assumption|exfalso].
  assert (2 ^ b <= 2 ^ a) by (apply Z.pow_le_mono_r; lia). lia.
Qed.

Lemma SFdiv_core_binary_spec m1 e1 m2 e2 :
  0 < m1 -> 0 < m2 ->
  let e' := Z.min (fexp64 (Zdigits2 m1 + e1 - (Zdigits2 m2 + e2))) (e1 - e2) in
  exists l,
    SFdiv_core_binary prec emax m1 e1 m2 e2
    = (m1 * 2 ^ (e1 - e2 - e') / m2, e', l).
Proof.
  intros H1 H2 e'. unfold SFdiv_core_binary. rewrite fexp64_eq. fold e'.
  assert (0 <= e1 - e2 - e') as Hs by (unfold e'; lia).
  assert (match e1 - e2 - e' with
          | 0 => m1
          | Z.pos _ => Z.shiftl m1 (e1 - e2 - e')
          | Z.neg _ => 0
          end = m1 * 2 ^ (e1 - e2 - e')) as ->.
  { destruct (e1 - e2 - e') as [|p|p] eqn:Hp; [lia| |lia].
    rewrite Z.shiftl_mul_pow2 by lia. reflexivity. }
  unfold Z.div.
  destruct (Z.div_eucl (m1 * 2 ^ (e1 - e2 - e')) m2) as [q r].
  eexists. reflexivity.
Qed.

(** When the exact quotient of two positive floats is below a float [c],
    the computed quotient is at most [c]. *)
Theorem div_below (a b c : float) ma ea mb eb mc ec :
  Prim2SF a = S754_finite false ma ea ->
  Prim2SF b = S754_finite false mb eb ->
  Prim2SF c = S754_finite false mc ec ->
  ec <= 918 ->
  SFscaled (Prim2SF a) * 2 ^ 1074 < SFscaled (Prim2SF c) * SFscaled (Prim2SF b) ->
  (a / b <=? c)%float = true.
Proof.
  intros Ha Hb Hc Hec Hlt.
  pose proof (Prim2SF_valid a) as Va. pose proof (Prim2SF_valid b) as Vb.
  pose proof (Prim2SF_valid c) as Vc.
  pose proof (Prim2SF_valid (a / b)) as Vr.
  rewrite FloatAxioms.leb_spec. rewrite FloatAxioms.div_spec in *.
  rewrite Ha, Hb, Hc in *. cbn [SFscaled cond_Zopp] in Hlt.
  apply valid_finite in Va as [Ca Ua]. apply valid_finite in Vb as [Cb Ub].
  pose proof (valid_finite _ _ _ Vc) as [Cc _].
  unfold SF64div, SFdiv in *.
  destruct (SFdiv_core_binary_spec (Z.pos ma) ea (Z.pos mb) eb ltac:(lia) ltac:(lia))
    as (l & Hcore).
  rewrite Hcore in *. clear Hcore.
  set (e' := Z.min (fexp64 (Zdigits2 (Z.pos ma) + ea - (Zdigits2 (Z.pos mb) + eb)))
                   (ea - eb)) in *.
  set (q := Z.pos ma * 2 ^ (ea - eb - e') / Z.pos mb) in *.
  assert (0 <= ea - eb - e') as Hs by (unfold e'; lia).
  assert (-1074 <= ea /\ -1074 <= eb /\ -1074 <= ec) as (Hea & Heb & Hec')
    by (unfold fexp64 in *; lia).
  assert (0 <= q) as Hq.
  { unfold q. apply Z.div_pos; [|lia].
    apply Z.mul_nonneg_nonneg; [lia|]. apply Z.pow_nonneg. lia. }
  (* The digits of the operands. *)
  pose proof (digits2_bounds ma) as [Hma_lo Hma_hi].
  pose proof (digits2_bounds mb) as [Hmb_lo Hmb_hi].
  pose proof (digits2_bounds mc) as [Hmc_lo Hmc_hi].
  cbn [Zdigits2] in e'.
  set (da := Z.pos (digits2_pos ma)) in *.
  set (db := Z.pos (digits2_pos mb)) in *.
  set (dc := Z.pos (digits2_pos mc)) in *.
  (* The exact quotient is below [c]: [q * 2^e' < mc * 2^ec]. *)
  assert (q * Z.pos mb <= Z.pos ma * 2 ^ (ea - eb - e')) as Hqm.
  { unfold q. rewrite Z.mul_comm. apply Z.mul_div_le. lia. }
  assert (e' <= ec) as He'.
  { assert (da + ea - (db + eb) <= dc + ec) as HD.
    { assert (2 ^ (da - 1 + (ea + 1074) + 1074) < 2 ^ (dc + (ec + 1074) + (db + (eb + 1074)))) as Hp.
      { replace (2 ^ (da - 1 + (ea + 1074) + 1074))
          with (2 ^ (da - 1) * 2 ^ (ea + 1074) * 2 ^ 1074)
          by (rewrite <- !Z.pow_add_r by lia; reflexivity).
        replace (2 ^ (dc + (ec + 1074) + (db + (eb + 1074))))
          with (2 ^ dc * 2 ^ (ec + 1074) * (2 ^ db * 2 ^ (eb + 1074)))
          by (rewrite <- !Z.pow_add_r by (unfold dc, db; lia); reflexivity).
        assert (0 < 2 ^ (ea + 1074)) by (apply Z.pow_pos_nonneg; lia).
        assert (0 < 2 ^ (eb + 1074)) by (apply Z.pow_pos_nonneg; lia).
        assert (0 < 2 ^ (ec + 1074)) by (apply Z.pow_pos_nonneg; lia).
        assert (0 < 2 ^ 1074) by (apply Z.pow_pos_nonneg; lia).
        assert (2 ^ (da - 1) * 2 ^ (ea + 1074) * 2 ^ 1074
                <= Z.pos ma * 2 ^ (ea + 1074) * 2 ^ 1074) by nia.
        assert (Z.pos mc * 2 ^ (ec + 1074) * (Z.pos mb * 2 ^ (eb + 1074))
                < 2 ^ dc * 2 ^ (ec + 1074) * (2 ^ db * 2 ^ (eb + 1074))).
        { apply Z.mul_lt_mono_nonneg.
          - apply Z.mul_nonneg_nonneg; lia.
          - apply Z.mul_lt_mono_pos_r; lia.
          - apply Z.mul_nonneg_nonneg; lia.
          - apply Z.mul_lt_mono_pos_r; lia. }
        lia. }
      apply pow2_lt_inv in Hp; [|unfold dc, db; lia]. lia. }
    apply fexp64_mono in HD. unfold e'. lia. }
  assert (q * 2 ^ (e' + 3000) < Z.pos mc * 2 ^ (ec + 3000)) as Hv.
  { assert (-2200 <= e') as Hlow by (unfold e', fexp64; lia).
    assert (0 < 2 ^ (eb + 1074)) as Pb by (apply Z.pow_pos_nonneg; lia).
    apply Z.mul_lt_mono_pos_r with (p := Z.pos mb * 2 ^ (eb + 1074)); [lia|].
    assert (q * 2 ^ (e' + 3000) * (Z.pos mb * 2 ^ (eb + 1074))
            <= Z.pos ma * 2 ^ (ea + 1074) * 2 ^ 1074 * 2 ^ 1926) as H1.
    { replace (q * 2 ^ (e' + 3000) * (Z.pos mb * 2 ^ (eb + 1074)))
        with (q * Z.pos mb * (2 ^ (e' + 3000) * 2 ^ (eb + 1074))) by ring.
      replace (Z.pos ma * 2 ^ (ea + 1074) * 2 ^ 1074 * 2 ^ 1926)
        with (Z.pos ma * 2 ^ (ea - eb - e') * (2 ^ (e' + 3000) * 2 ^ (eb + 1074))).
      - apply Z.mul_le_mono_nonneg_r; [|exact Hqm].
        apply Z.mul_nonneg_nonneg; apply Z.pow_nonneg; lia.
      - rewrite <- !Z.mul_assoc. f_equal. rewrite <- !Z.pow_add_r by lia.
        f_equal. lia. }
    assert (Z.pos ma * 2 ^ (ea + 1074) * 2 ^ 1074 * 2 ^ 1926
            < Z.pos mc * 2 ^ (ec + 1074) * (Z.pos mb * 2 ^ (eb + 1074)) * 2 ^ 1926)
      as H2.
    { apply Z.mul_lt_mono_pos_r; [apply Z.pow_pos_nonneg; lia|exact Hlt]. }
    replace (Z.pos mc * 2 ^ (ec + 3000) * (Z.pos mb * 2 ^ (eb + 1074)))
      with (Z.pos mc * 2 ^ (ec + 1074) * (Z.pos mb * 2 ^ (eb + 1074)) * 2 ^ 1926).
    - lia.
    - replace (ec + 3000) with (ec + 1074 + 1926) by lia.
      rewrite (Z.pow_add_r 2 (ec + 1074) 1926) by lia. ring. }
  (* The rounding. *)
  destruct (binary_round_aux_spec false q e' l Hq) as (m3 & Hm3 & Hr).
  cbv beta iota in Vr. cbv beta iota. cbn [xorb] in *.
  rewrite Hr in *. clear Hr.
  set (e2 := Z.max e' (fexp64 (Zdigits2 q + e'))) in *.
  assert (e2 <= ec) as He2.
  { unfold e2. apply Z.max_lub; [exact He'|].
    destruct (Z.eq_dec q 0) as [->|Hq0].
    - cbn [Zdigits2]. unfold fexp64. lia.
    - pose proof (Zdigits2_bounds q ltac:(lia)) as [Hq_lo _].
      pose proof (Zdigits2_pos q ltac:(lia)) as Hdq.
      assert (Zdigits2 q + e' <= dc + ec) as HD.
      { assert (-2200 <= e') as Hlow by (unfold e', fexp64; lia).
        assert (2 ^ (Zdigits2 q - 1 + (e' + 3000)) < 2 ^ (dc + (ec + 3000))) as Hp.
        { replace (2 ^ (Zdigits2 q - 1 + (e' + 3000)))
            with (2 ^ (Zdigits2 q - 1) * 2 ^ (e' + 3000))
            by (rewrite <- Z.pow_add_r by lia; reflexivity).
          replace (2 ^ (dc + (ec + 3000))) with (2 ^ dc * 2 ^ (ec + 3000))
            by (rewrite <- Z.pow_add_r by (unfold dc; lia); reflexivity).
          assert (0 < 2 ^ (e' + 3000)) by (apply Z.pow_pos_nonneg; lia).
          assert (0 < 2 ^ (ec + 3000)) by (apply Z.pow_pos_nonneg; lia).
          assert (2 ^ (Zdigits2 q - 1) * 2 ^ (e' + 3000) <= q * 2 ^ (e' + 3000))
            by nia.
          assert (Z.pos mc * 2 ^ (ec + 3000) < 2 ^ dc * 2 ^ (ec + 3000)) by nia.
          lia. }
        apply pow2_lt_inv in Hp; [|unfold dc; lia]. lia. }
      apply fexp64_mono in HD. rewrite Cc in HD. exact HD. }
  assert (e' <= e2) as He2' by (unfold e2; lia).
  set (m2 := q / 2 ^ (e2 - e')) in *.
  assert (m2 < Z.pos mc * 2 ^ (ec - e2)) as Hm2.
  { unfold m2. apply Z.div_lt_upper_bound; [apply Z.pow_pos_nonneg; lia|].
    assert (-2200 <= e') as Hlow by (unfold e', fexp64; lia).
    assert (0 < 2 ^ (e' + 3000)) by (apply Z.pow_pos_nonneg; lia).
    apply Z.mul_lt_mono_pos_r with (p := 2 ^ (e' + 3000)); [assumption|].
    replace (2 ^ (e2 - e') * (Z.pos mc * 2 ^ (ec - e2)) * 2 ^ (e' + 3000))
      with (Z.pos mc * 2 ^ (ec + 3000)); [exact Hv|].
    replace (ec + 3000) with ((e2 - e') + (ec - e2) + (e' + 3000)) by lia.
    rewrite !Z.pow_add_r by lia. ring. }
  set (e4 := Z.max e2 (fexp64 (Zdigits2 m3 + e2))) in *.
  set (m4 := m3 / 2 ^ (e4 - e2)) in *.
  assert (0 <= m2) as Hm2'.
  { unfold m2. apply Z.div_pos; [exact Hq|apply Z.pow_pos_nonneg; lia]. }
  assert (m4 * 2 ^ (e4 - e2) <= Z.pos mc * 2 ^ (ec - e2)) as Hm4.
  { assert (m4 * 2 ^ (e4 - e2) <= m3).
    { unfold m4. rewrite Z.mul_comm. apply Z.mul_div_le.
      apply Z.pow_pos_nonneg; [lia|unfold e4; lia]. }
    lia. }
  assert (-1074 <= e4) as He4 by (unfold e4, fexp64; lia).
  assert (e2 <= e4) as He24 by (unfold e4; lia).
  assert (m4 * 2 ^ (e4 + 1074) <= Z.pos mc * 2 ^ (ec + 1074)) as Hfinal.
  { destruct (Z_le_gt_dec (-1074) e2) as [Hge|Hlow].
    - assert (2 ^ (e4 + 1074) = 2 ^ (e4 - e2) * 2 ^ (e2 + 1074)) as ->
        by (rewrite <- Z.pow_add_r by lia; f_equal; lia).
      assert (2 ^ (ec + 1074) = 2 ^ (ec - e2) * 2 ^ (e2 + 1074)) as ->
        by (rewrite <- Z.pow_add_r by lia; f_equal; lia).
      rewrite !Z.mul_assoc.
      apply Z.mul_le_mono_nonneg_r; [apply Z.pow_nonneg; lia|exact Hm4].
    - assert (0 < 2 ^ (-1074 - e2)) by (apply Z.pow_pos_nonneg; lia).
      apply Z.mul_le_mono_pos_r with (p := 2 ^ (-1074 - e2)); [assumption|].
      rewrite <- !Z.mul_assoc, <- !Z.pow_add_r by lia.
      replace (e4 + 1074 + (-1074 - e2)) with (e4 - e2) by lia.
      replace (ec + 1074 + (-1074 - e2)) with (ec - e2) by lia.
      exact Hm4. }
  destruct m4 as [|p|p] eqn:Hm4e.
  - reflexivity.
  - assert (e4 <= 971) as Hfin.
    { assert (2 ^ (e4 + 1074) < 2 ^ (dc + (ec + 1074))) as Hp.
      { rewrite (Z.pow_add_r 2 dc (ec + 1074)) by (unfold dc; lia).
        assert (0 < 2 ^ (ec + 1074)) by (apply Z.pow_pos_nonneg; lia).
        assert (0 < 2 ^ (e4 + 1074)) by (apply Z.pow_pos_nonneg; lia).
        assert (Z.pos mc * 2 ^ (ec + 1074) < 2 ^ dc * 2 ^ (ec + 1074)) by nia.
        nia. }
      apply pow2_lt_inv in Hp; [|unfold dc; lia].
      unfold fexp64 in Cc. lia. }
    assert ((e4 <=? 971) = true) as Hle by (apply Z.leb_le; exact Hfin).
    rewrite Hle in *. unfold SFleb.
    rewrite (SFcompare_scaled _ _ Vr Vc I I). cbn [SFscaled cond_Zopp].
    destruct (Z.compare_spec (Z.pos p * 2 ^ (e4 + 1074)) (Z.pos mc * 2 ^ (ec + 1074)));
      [reflexivity|reflexivity|lia].
  - exfalso. assert (0 <= Z.neg p); [|lia].
    rewrite <- Hm4e. unfold m4. apply Z.div_pos; [lia|].
    apply Z.pow_pos_nonneg; lia.
Qed.

End Rounding.

(** *** The order of the numbers *)

Lemma notNaN_iff (x : float) : notNaN x <-> Prim2SF x <> S754_nan.
Proof.
  split; [apply isNaN_false|]. intros H. unfold notNaN.
  destruct (isNaN x) eqn:E; [|reflexivity].
  apply isNaN_true in E. subst x. contradiction H. reflexivity.
Qed.

Section Order.

#[local] Open Scope Z_scope.

Lemma SFscaled_bound (x : spec_float) :
  valid_binary x = true -> - 2 ^ 2200 < SFscaled x < 2 ^ 2200.
Proof.
  intros V. assert (0 < 2 ^ 2200) as H0 by (apply Z.pow_pos_nonneg; lia).
  destruct x as [s|s| |s m e]; cbn [SFscaled]; try lia.
  apply valid_finite in V as [Hc He].
  pose proof (digits2_bounds m) as [_ Hm].
  assert (Z.pos m * 2 ^ (e + 1074) < 2 ^ 2200) as Hlt.
  { unfold fexp64 in Hc.
    assert (0 <= e + 1074) as He' by lia.
    assert (Z.pos (digits2_pos m) <= 53 \/ e = Z.pos (digits2_pos m) + e - 53)
      as Hd by lia.
    apply Z.lt_le_trans
      with (2 ^ Z.pos (digits2_pos m) * 2 ^ (e + 1074)).
    - apply Z.mul_lt_mono_pos_r; [apply Z.pow_pos_nonneg; lia|exact Hm].
    - rewrite <- Z.pow_add_r by lia. apply Z.pow_le_mono_r; lia. }
  destruct s; cbn [cond_Zopp]; lia.
Qed.

Lemma compare_rank (x y : float) :
  notNaN x -> notNaN y ->
  SFcompare (Prim2SF x) (Prim2SF y) = Some (rank x ?= rank y).
Proof.
  intros Hx%isNaN_false Hy%isNaN_false. unfold rank.
  pose proof (Prim2SF_valid x) as Vx. pose proof (Prim2SF_valid y) as Vy.
  pose proof (SFscaled_bound _ Vx) as Bx.
  pose proof (SFscaled_bound _ Vy) as By.
  assert (0 < 2 ^ 2200) as H0 by (apply Z.pow_pos_nonneg; lia).
  set (top := 2 ^ 2200) in *.
  destruct (Prim2SF x) as [sx|sx| |sx mx ex] eqn:Ex; [| |contradiction|];
    (destruct (Prim2SF y) as [sy|sy| |sy my ey] eqn:Ey; [| |contradiction|]);
    try (rewrite (SFcompare_scaled _ _ Vx Vy I I); reflexivity);
    try destruct sx; try destruct sy; cbn [SFcompare]; f_equal; symmetry;
    first [ apply Z.compare_eq_iff; cbn [SFscaled] in *; lia
          | apply Z.compare_lt_iff; cbn [SFscaled] in *; lia
          | apply Z.compare_gt_iff; cbn [SFscaled] in *; lia ].
Qed.

Lemma ltb_rank (x y : float) :
  notNaN x -> notNaN y -> (x <? y)%float = (rank x <? rank y).
Proof.
  intros Hx Hy. rewrite FloatAxioms.ltb_spec. unfold SFltb.
  rewrite (compare_rank x y Hx Hy). unfold Z.ltb.
  destruct (rank x ?= rank y); reflexivity.
Qed.

Lemma leb_rank (x y : float) :
  notNaN x -> notNaN y -> (x <=? y)%float = (rank x <=? rank y).
Proof.
  intros Hx Hy. rewrite FloatAxioms.leb_spec. unfold SFleb.
  rewrite (compare_rank x y Hx Hy). unfold Z.leb.
  destruct (rank x ?= rank y); reflexivity.
Qed.

Lemma leb_notNaN (x y : float) :
  (x <=? y)%float = true -> notNaN x /\ notNaN y.
Proof.
  rewrite FloatAxioms.leb_spec, !notNaN_iff. unfold SFleb. intros H.
  split; intros E; rewrite E in H;
    [|destruct (Prim2SF x) as [?|[|]| |[|] ? ?]]; discriminate H.
Qed.

Lemma ltb_notNaN (x y : float) :
  (x <? y)%float = true -> notNaN x /\ notNaN y.
Proof.
  rewrite FloatAxioms.ltb_spec, !notNaN_iff. unfold SFltb. intros H.
  split; intros E; rewrite E in H;
    [|destruct (Prim2SF x) as [?|[|]| |[|] ? ?]]; discriminate H.
Qed.

Lemma notNaN_abs (x : float) : notNaN (abs x) -> notNaN x.
Proof.
  rewrite !notNaN_iff, FloatAxioms.abs_spec. intros H E. apply H.
  rewrite E. reflexivity.
Qed.

Lemma rank_abs (x : float) : rank (abs x) = Z.abs (rank x).
Proof.
  unfold rank. rewrite FloatAxioms.abs_spec.
  assert (0 < 2 ^ 2200) as H0 by (apply Z.pow_pos_nonneg; lia).
  set (top := 2 ^ 2200) in *.
  destruct (Prim2SF x) as [s|s| |s m e] eqn:E; cbn [SFabs SFscaled].
  - reflexivity.
  - destruct s; lia.
  - reflexivity.
  - pose proof (Prim2SF_valid x) as V. rewrite E in V.
    apply valid_finite in V as [Hc _]. unfold fexp64 in Hc.
    assert (0 < 2 ^ (e + 1074)) by (apply Z.pow_pos_nonneg; lia).
    destruct s; cbn [cond_Zopp]; lia.
Qed.

End Order.

(** A number within the tolerance is not beyond it. *)
Lemma within_not_beyond (d tolerance : float) :
  (Math_abs d <=? tolerance)%float = true -> (tolerance <? d)%float = false.
Proof.
  unfold Math_abs. intros H. pose proof (leb_notNaN _ _ H) as [Ha Ht].
  pose proof (notNaN_abs _ Ha) as Hd.
  rewrite leb_rank in H by assumption. rewrite ltb_rank by assumption.
  rewrite rank_abs in H. apply Z.leb_le in H. apply Z.ltb_ge. lia.
Qed.

(** The same, read as [d <= tolerance]. *)
Lemma within_below (d tolerance : float) :
  (Math_abs d <=? tolerance)%float = true -> (d <=? tolerance)%float = true.
Proof.
  unfold Math_abs. intros H. pose proof (leb_notNaN _ _ H) as [Ha Ht].
  pose proof (notNaN_abs _ Ha) as Hd.
  rewrite leb_rank in H by assumption. rewrite leb_rank by assumption.
  rewrite rank_abs in H. apply Z.leb_le in H. apply Z.leb_le. lia.
Qed.

(** Two numbers other than [NaN] at the same place of the order are the
    same number, or the two zeros. *)
Lemma rank_inj (x y : float) :
  notNaN x -> notNaN y -> rank x = rank y ->
  x = y \/ exists s1 s2, Prim2SF x = S754_zero s1 /\ Prim2SF y = S754_zero s2.
Proof.
  intros Hx Hy H. apply unordered_eq; try assumption;
    rewrite ltb_rank by assumption; apply Z.ltb_ge; lia.
Qed.

(** ** The sort *)

Section Sorting.

Context {A : Type}.
Variable lessThan : A -> A -> bool.

(** Whatever the comparator answers, the sort only moves the elements. *)
Lemma insertSorted_Permutation (sorted : list A) (pivot : A) :
  Permutation (pivot :: sorted) (insertSorted lessThan sorted pivot).
Proof.
  unfold insertSorted.
  set (left := searchInsertion lessThan _ pivot sorted 0 (length sorted)).
  rewrite <- (firstn_skipn left sorted) at 1. apply Permutation_middle.
Qed.

Lemma fold_insertSorted_Permutation (rest : list A) : forall run,
  Permutation (run ++ rest) (fold_left (insertSorted lessThan) rest run).
Proof.
  induction rest as [|a rest IH]; intros run; simpl.
  - rewrite app_nil_r. reflexivity.
  - rewrite <- IH. rewrite <- insertSorted_Permutation.
    symmetry. apply Permutation_middle.
Qed.

Lemma Array_sort_Permutation (l : list A) :
  Permutation l (Array_sort lessThan l).
Proof.
  unfold Array_sort. destruct l as [|a0 [|a1 rest]]; try reflexivity.
  set (n := (2 + runLength lessThan (lessThan a1 a0) a1 rest)%nat).
  rewrite <- fold_insertSorted_Permutation.
  rewrite <- (firstn_skipn n (a0 :: a1 :: rest)) at 1.
  apply Permutation_app_tail.
  destruct (lessThan a1 a0); [apply Permutation_rev|reflexivity].
Qed.

Lemma Array_sort_In (l : list A) (x : A) :
  In x (Array_sort lessThan l) <-> In x l.
Proof.
  split; apply Permutation_in;
    [symmetry|]; apply Array_sort_Permutation.
Qed.

Lemma Array_sort_length (l : list A) :
  length (Array_sort lessThan l) = length l.
Proof. symmetry. apply Permutation_length, Array_sort_Permutation. Qed.

(** When the comparator reads an order off a key, the sort puts the
    elements in the order of their keys. *)
Variable key : A -> Z.
Variable good : A -> Prop.
Hypothesis lessThan_key :
  forall a b, good a -> good b -> lessThan a b = (key a <? key b)%Z.

#[local] Abbreviation upTo := (fun a b => (key a <= key b)%Z).
#[local] Abbreviation downFrom := (fun a b => (key b < key a)%Z).

Lemma StronglySorted_app (R : A -> A -> Prop) (l1 l2 : list A) :
  StronglySorted R l1 -> StronglySorted R l2 ->
  (forall x y, In x l1 -> In y l2 -> R x y) ->
  StronglySorted R (l1 ++ l2).
Proof.
  induction l1 as [|a l1 IH]; intros H1 H2 H; [exact H2|].
  apply StronglySorted_inv in H1 as [H1 Ha]. simpl. constructor.
  - apply IH; [exact H1|exact H2|].
    intros x y Hx Hy. apply H; [right; exact Hx|exact Hy].
  - apply Forall_app. split; [exact Ha|].
    apply List.Forall_forall. intros y Hy. apply H; [left; reflexivity|exact Hy].
Qed.

Lemma StronglySorted_nth (l : list A) :
  StronglySorted upTo l ->
  forall i j x y, (i <= j)%nat ->
    nth_error l i = Some x -> nth_error l j = Some y -> (key x <= key y)%Z.
Proof.
  induction 1 as [|a l Hl IH Ha]; intros i j x y Hij Hx Hy.
  - destruct i; discriminate.
  - destruct i as [|i], j as [|j]; simpl in Hx, Hy; try lia.
    + injection Hx as <-. injection Hy as <-. lia.
    + injection Hx as <-. apply nth_error_In in Hy.
      rewrite List.Forall_forall in Ha. apply (Ha _ Hy).
    + apply (IH i j); [lia|assumption..].
Qed.

Lemma In_firstn (l : list A) (k : nat) (x : A) :
  In x (firstn k l) -> exists i, (i < k)%nat /\ nth_error l i = Some x.
Proof.
  revert k. induction l as [|a l IH]; intros [|k] H; simpl in H;
    try contradiction.
  destruct H as [<-|H].
  - exists 0%nat. split; [lia|reflexivity].
  - destruct (IH _ H) as (i & Hi & Hx). exists (S i). split; [lia|exact Hx].
Qed.

Lemma In_skipn (l : list A) (k : nat) (x : A) :
  In x (skipn k l) -> exists i, (k <= i)%nat /\ nth_error l i = Some x.
Proof.
  revert k. induction l as [|a l IH]; intros [|k] H; cbn [skipn] in H;
    try contradiction.
  - apply In_nth_error in H as [i Hi]. exists i. split; [lia|exact Hi].
  - destruct (IH _ H) as (i & Hi & Hx). exists (S i). split; [lia|exact Hx].
Qed.

Lemma searchInsertion_place (pivot : A) (sorted : list A) :
  StronglySorted upTo sorted -> Forall good sorted -> good pivot ->
  forall fuel left right,
    (left <= right <= length sorted)%nat -> (right - left < fuel)%nat ->
    (forall i x, (i < left)%nat -> nth_error sorted i = Some x ->
       (key x <= key pivot)%Z) ->
    (forall i x, (right <= i)%nat -> nth_error sorted i = Some x ->
       (key pivot < key x)%Z) ->
    let k := searchInsertion lessThan fuel pivot sorted left right in
    (forall i x, (i < k)%nat -> nth_error sorted i = Some x ->
       (key x <= key pivot)%Z)
    /\ (forall i x, (k <= i)%nat -> nth_error sorted i = Some x ->
          (key pivot < key x)%Z).
Proof.
  intros Hs Hg Hp. induction fuel as [|fuel IH]; intros left right Hlr Hf Hl Hr;
    [lia|].
  cbn [searchInsertion]. destruct (left <? right)%nat eqn:Hlt.
  - apply Nat.ltb_lt in Hlt.
    set (mid := (left + (right - left) / 2)%nat).
    assert (left <= mid < right)%nat as Hmid.
    { unfold mid. pose proof (Nat.Div0.div_lt_upper_bound (right - left) 2 (right - left)).
      lia. }
    destruct (nth_error sorted mid) as [x|] eqn:Hx.
    + assert (good x) as Hgx.
      { rewrite List.Forall_forall in Hg. apply Hg.
        eapply nth_error_In. exact Hx. }
      rewrite (lessThan_key pivot x Hp Hgx).
      destruct (key pivot <? key x)%Z eqn:Hc.
      * apply Z.ltb_lt in Hc. apply IH; [lia|lia|exact Hl|].
        intros i y Hi Hy.
        pose proof (StronglySorted_nth sorted Hs mid i x y Hi Hx Hy). lia.
      * apply Z.ltb_ge in Hc. apply IH; [lia|lia| |exact Hr].
        intros i y Hi Hy.
        pose proof (StronglySorted_nth sorted Hs i mid y x ltac:(lia) Hy Hx).
        lia.
    + apply nth_error_None in Hx. lia.
  - apply Nat.ltb_ge in Hlt. split; [exact Hl|].
    intros i x Hi. apply Hr. lia.
Qed.

Lemma insertSorted_sorted (sorted : list A) (pivot : A) :
  StronglySorted upTo sorted -> Forall good sorted -> good pivot ->
  StronglySorted upTo (insertSorted lessThan sorted pivot).
Proof.
  intros Hs Hg Hp. unfold insertSorted.
  destruct (searchInsertion_place pivot sorted Hs Hg Hp
              (S (length sorted)) 0 (length sorted)) as [Hl Hr];
    [lia|lia| | |].
  - intros i x Hi. lia.
  - intros i x Hi Hx. assert (nth_error sorted i = None) as E
      by (apply nth_error_None; exact Hi). congruence.
  - set (left := searchInsertion lessThan _ pivot sorted 0 (length sorted)) in *.
    rewrite <- (firstn_skipn left sorted) in Hs.
    assert (StronglySorted upTo (firstn left sorted)
            /\ StronglySorted upTo (skipn left sorted)) as [H1 H2].
    { clear -Hs. revert Hs. generalize (skipn left sorted).
      induction (firstn left sorted) as [|a l IH]; intros l2 Hs.
      - split; [constructor|exact Hs].
      - simpl in Hs. apply StronglySorted_inv in Hs as [Hs Ha].
        destruct (IH _ Hs) as [H1 H2]. split; [|exact H2].
        constructor; [exact H1|]. apply Forall_app in Ha as [Ha _]. exact Ha. }
    apply StronglySorted_app; [exact H1| |].
    + constructor; [exact H2|]. apply List.Forall_forall. intros y Hy.
      apply In_skipn in Hy as (i & Hi & Hy). pose proof (Hr i y Hi Hy). lia.
    + intros x y Hx [<-|Hy].
      * apply In_firstn in Hx as (i & Hi & Hx). exact (Hl i x Hi Hx).
      * apply In_firstn in Hx as (i & Hi & Hx).
        apply In_skipn in Hy as (j & Hj & Hy).
        rewrite firstn_skipn in Hs.
        exact (StronglySorted_nth sorted Hs i j x y ltac:(lia) Hx Hy).
Qed.

Lemma fold_insertSorted_sorted (rest : list A) : forall run,
  StronglySorted upTo run -> Forall good run -> Forall good rest ->
  StronglySorted upTo (fold_left (insertSorted lessThan) rest run).
Proof.
  induction rest as [|a rest IH]; intros run Hs Hg Hr; [exact Hs|].
  apply Forall_cons_iff in Hr as [Ha Hr]. simpl. apply IH; [| |exact Hr].
  - apply insertSorted_sorted; assumption.
  - eapply Permutation_Forall; [apply insertSorted_Permutation|].
    constructor; assumption.
Qed.

Lemma run_ascending (rest : list A) : forall prev,
  good prev -> Forall good rest ->
  Sorted upTo (prev :: firstn (runLength lessThan false prev rest) rest).
Proof.
  induction rest as [|cur rest IH]; intros prev Hp Hr; simpl.
  - repeat constructor.
  - apply Forall_cons_iff in Hr as [Hc Hr].
    rewrite (lessThan_key cur prev Hc Hp).
    destruct (key cur <? key prev)%Z eqn:E; simpl.
    + repeat constructor.
    + apply Z.ltb_ge in E. constructor; [apply IH; assumption|].
      constructor. exact E.
Qed.

Lemma run_descending (rest : list A) : forall prev,
  good prev -> Forall good rest ->
  Sorted downFrom (prev :: firstn (runLength lessThan true prev rest) rest).
Proof.
  induction rest as [|cur rest IH]; intros prev Hp Hr; simpl.
  - repeat constructor.
  - apply Forall_cons_iff in Hr as [Hc Hr].
    rewrite (lessThan_key cur prev Hc Hp).
    destruct (key cur <? key prev)%Z eqn:E; simpl.
    + apply Z.ltb_lt in E. constructor; [apply IH; assumption|].
      constructor. exact E.
    + repeat constructor.
Qed.

Lemma rev_descending (l : list A) :
  StronglySorted downFrom l -> StronglySorted upTo (rev l).
Proof.
  induction 1 as [|a l Hl IH Ha]; simpl; [constructor|].
  apply StronglySorted_app; [exact IH|repeat constructor|].
  intros x y Hx [<-|[]]. apply in_rev in Hx.
  rewrite List.Forall_forall in Ha. pose proof (Ha x Hx). simpl in *. lia.
Qed.

Theorem Array_sort_sorted (l : list A) :
  Forall good l -> StronglySorted upTo (Array_sort lessThan l).
Proof.
  intros Hg. unfold Array_sort. destruct l as [|a0 [|a1 rest]].
  - constructor.
  - repeat constructor.
  - set (n := (2 + runLength lessThan (lessThan a1 a0) a1 rest)%nat).
    assert (Forall good (firstn n (a0 :: a1 :: rest))) as Hf.
    { apply List.Forall_forall. intros x Hx. rewrite List.Forall_forall in Hg.
      apply Hg. eapply In_firstn in Hx as (i & _ & Hx).
      eapply nth_error_In. exact Hx. }
    assert (Forall good (skipn n (a0 :: a1 :: rest))) as Hk.
    { apply List.Forall_forall. intros x Hx. rewrite List.Forall_forall in Hg.
      apply Hg. eapply In_skipn in Hx as (i & _ & Hx).
      eapply nth_error_In. exact Hx. }
    pose proof Hg as Hg'.
    apply Forall_cons_iff in Hg' as [H0 Hg']. apply Forall_cons_iff in Hg' as [H1 Hr].
    apply fold_insertSorted_sorted; [| |exact Hk].
    + unfold n. rewrite (lessThan_key a1 a0 H1 H0).
      destruct (key a1 <? key a0)%Z eqn:E.
      * apply rev_descending. apply Sorted_StronglySorted.
        { intros x y z Hxy Hyz. simpl in *. lia. }
        cbn [Nat.add firstn]. constructor;
          [apply run_descending; assumption|].
        constructor. apply Z.ltb_lt in E. exact E.
      * apply Sorted_StronglySorted.
        { intros x y z Hxy Hyz. simpl in *. lia. }
        cbn [Nat.add firstn]. constructor;
          [apply run_ascending; assumption|].
        constructor. apply Z.ltb_ge in E. exact E.
    + destruct (lessThan a1 a0); [|exact Hf].
      eapply Permutation_Forall; [apply Permutation_rev|exact Hf].
Qed.

End Sorting.

(** ** Spacing *)

(** C1 (code defect). The specification asks every analyzer to be total,
    in particular [analyzeSpacing] on an empty spacing scale. On the empty
    scale and one element with [margin: 5px], [findNearest] reduces an
    empty array without initial value and the analyzer throws. *)
Theorem analyzeSpacing_empty_scale_throws :
  forall w,
    analyzeSpacing margin5 emptyScaleConfig w
    = Throw (TypeError "Reduce of empty array with no initial value") w.
Proof. intros w. vm_compute. reflexivity. Qed.

(** On a non-empty scale, sorted or not, [findNearest] returns one of its
    entries. *)
Lemma nearest_fold_In (value : float) rest :
  forall f0,
    let nearest :=
      fold_left
        (fun prev curr =>
           if (Math_abs (curr - value) <? Math_abs (prev - value))%float
           then curr else prev) rest f0 in
    nearest = f0 \/ In nearest rest.
Proof.
  induction rest as [|s rest IH]; intros f0; simpl.
  - left. reflexivity.
  - destruct (Math_abs (s - value) <? Math_abs (f0 - value))%float.
    + destruct (IH s) as [H|H]; [right; left; symmetry; exact H|right; right; exact H].
    + destruct (IH f0) as [H|H]; [left; exact H|right; right; exact H].
Qed.

Lemma findNearest_nonempty value first rest w :
  exists nearest, findNearest value (first :: rest) w = Ok nearest w
                  /\ In nearest (first :: rest).
Proof.
  simpl. unfold ret. eexists. split; [reflexivity|].
  destruct (nearest_fold_In value rest first) as [H|H].
  - left. symmetry. exact H.
  - right. exact H.
Qed.

(** A loop returns when every run of its body does. *)
(** On a scale with at least one entry, in whatever order, the spacing
    analysis returns. *)
Lemma analyzeSpacing_total_on_nonempty_scale snapshots config w :
  KarenConfig.spacingScale config <> [] ->
  exists issues w', analyzeSpacing snapshots config w = Ok issues w'.
Proof.
  intros Hscale. unfold analyzeSpacing.
  destruct (KarenConfig.spacingScale config) as [|first rest];
    [contradiction|].
  apply forEach_total. intros snapshot w1 _.
  apply forEach_total. intros element w2 _.
  apply forEach_total. intros [type value] w3 _.
  unfold checkSpacingValue.
  destruct (negb (isOnScale value (first :: rest)) && (0 <? value)%float).
  - unfold bind.
    destruct (findNearest_nonempty value first rest w3) as (nearest & -> & _).
    eexists. eexists. reflexivity.
  - eexists. eexists. reflexivity.
Qed.

Lemma checkSpacingValue_value snapshot element scale entry w bs w' i :
  checkSpacingValue snapshot element scale entry w = Ok bs w' ->
  In i bs ->
  issueValue i = Some (snd entry) /\ isOnScale (snd entry) scale = false.
Proof.
  destruct entry as [type value]. unfold checkSpacingValue.
  destruct (isOnScale value scale) eqn:Hon; simpl.
  - intros [= <- _] [].
  - destruct (0 <? value)%float; [|intros [= <- _] []].
    unfold bind. destruct (findNearest value scale w) as [nearest w1|];
      [|discriminate].
    simpl. intros [= <- _] [<-|[]]. split; [reflexivity|exact Hon].
Qed.

(** C8. A spacing value within 1px of some entry of the scale is never
    the value of an emitted spacing issue. *)
Theorem on_scale_value_not_flagged :
  forall snapshots config w issues w' (v s : float),
    In s (KarenConfig.spacingScale config) ->
    (Math_abs (v - s) <? 1)%float = true ->
    analyzeSpacing snapshots config w = Ok issues w' ->
    forall i, In i issues -> issueValue i <> Some v.
Proof.
  intros snapshots config w issues w' v s Hs Hnear Hrun i Hi Hv.
  unfold analyzeSpacing in Hrun.
  destruct (forEach_In _ _ _ _ _ _ Hrun Hi) as (snap & w1 & b1 & w2 & _ & H1 & Hi1).
  destruct (forEach_In _ _ _ _ _ _ H1 Hi1) as (el & w3 & b2 & w4 & _ & H2 & Hi2).
  destruct (forEach_In _ _ _ _ _ _ H2 Hi2) as (en & w5 & b3 & w6 & _ & H3 & Hi3).
  destruct (checkSpacingValue_value _ _ _ _ _ _ _ _ H3 Hi3) as [Hval Hoff].
  rewrite Hval in Hv. injection Hv as Hv. rewrite Hv in Hoff.
  assert (isOnScale v (KarenConfig.spacingScale config) = true) as Hon.
  { unfold isOnScale. apply existsb_exists. exists s. split; assumption. }
  congruence.
Qed.

(** The scenario of the test suite: [margin: 15px] is flagged with nearest
    scale value 16 and difference 1, [padding: 8px] is not. *)
Lemma on_scale_value_not_flagged_witness :
  exists issues w',
    analyzeSpacing margin15 defaultConfig world0 = Ok issues w'
    /\ List.map Issue.details issues
       = [SpacingDetails "margin" 15 16
            (KarenConfig.spacingScale defaultConfig) 1]
    /\ forall i, In i issues -> issueValue i <> Some 8%float.
Proof.
  eexists. eexists. split; [vm_compute; reflexivity|]. split; [reflexivity|].
  eapply on_scale_value_not_flagged
    with (snapshots := margin15) (config := defaultConfig) (w := world0)
         (v := 8%float) (s := 8%float).
  - vm_compute. tauto.
  - vm_compute. reflexivity.
  - vm_compute. reflexivity.
Defined.

(** ** The nearest scale value *)

Lemma nearest_fold_minimal value rest : forall first,
  let nearest :=
    fold_left
      (fun prev curr =>
         if (Math_abs (curr - value) <? Math_abs (prev - value))%float
         then curr else prev) rest first in
  forall seen,
    (forall s, In s seen ->
       (Math_abs (s - value) <? Math_abs (first - value))%float = false) ->
    forall s, In s (seen ++ rest) ->
      (Math_abs (s - value) <? Math_abs (nearest - value))%float = false.
Proof.
  induction rest as [|curr rest IH]; intros first nearest seen Hseen s Hs.
  - rewrite app_nil_r in Hs. apply Hseen, Hs.
  - subst nearest. simpl.
    apply (IH _ (seen ++ [curr])).
    + intros s' Hs'. apply in_app_or in Hs' as [Hs'|[<-|[]]].
      * destruct (Math_abs (curr - value) <? Math_abs (first - value))%float eqn:Hlt.
        -- destruct (Math_abs (s' - value) <? Math_abs (curr - value))%float eqn:Hlt';
             [|reflexivity].
           rewrite <- (Hseen s' Hs'). symmetry. eapply ltb_trans; eassumption.
        -- apply Hseen, Hs'.
      * destruct (Math_abs (curr - value) <? Math_abs (first - value))%float eqn:Hlt.
        -- apply ltb_irrefl.
        -- exact Hlt.
    + rewrite <- app_assoc. exact Hs.
Qed.

(** X2. [findNearest] on a scale with at least one entry returns an entry of
    the scale, and no entry is strictly nearer to the value. *)
Theorem findNearest_is_nearest :
  forall value first rest w,
    exists nearest,
      findNearest value (first :: rest) w = Ok nearest w
      /\ In nearest (first :: rest)
      /\ forall s, In s (first :: rest) ->
           (Math_abs (s - value) <? Math_abs (nearest - value))%float = false.
Proof.
  intros value first rest w. simpl. unfold ret. eexists.
  split; [reflexivity|]. split.
  - destruct (nearest_fold_In value rest first) as [H|H];
      [left; symmetry; exact H|right; exact H].
  - intros s Hs.
    apply (nearest_fold_minimal value rest first [first]).
    + intros s' [<-|[]]. apply ltb_irrefl.
    + exact Hs.
Qed.

Lemma spacingEntries_types element entry :
  In entry (spacingEntries element) ->
  fst entry = "margin" \/ fst entry = "padding".
Proof.
  unfold spacingEntries. intros H. apply in_app_or in H as [H|H];
    apply in_map_iff in H as (v & <- & _); [left|right]; reflexivity.
Qed.

Lemma not_below_one (d : float) :
  notNaN d -> (d <? 1)%float = false -> (1 <=? d)%float = true.
Proof.
  intros Hd H. rewrite ltb_rank in H by (exact Hd || reflexivity).
  rewrite leb_rank by (exact Hd || reflexivity).
  apply Z.ltb_ge in H. apply Z.leb_le. exact H.
Qed.

Lemma abs_notNaN (x : float) : notNaN x -> notNaN (abs x).
Proof.
  rewrite !notNaN_iff, FloatAxioms.abs_spec. intros H E. apply H.
  destruct (Prim2SF x); try discriminate E. reflexivity.
Qed.

Lemma checkSpacingValue_sound snapshot element scale entry w bs w' i :
  In entry (spacingEntries element) ->
  checkSpacingValue snapshot element scale entry w = Ok bs w' ->
  In i bs ->
  spacingFinding scale element i
  /\ Issue.viewport i = Viewport.name (ViewportSnapshot.viewport snapshot).
Proof.
  destruct entry as [type value]. intros Hen. unfold checkSpacingValue.
  destruct (isOnScale value scale) eqn:Hon; simpl.
  - intros [= <- _] [].
  - destruct (0 <? value)%float eqn:Hpos; [|intros [= <- _] []].
    unfold bind. destruct scale as [|first rest]; [discriminate|].
    simpl. intros [= <- _] [<-|[]]. simpl.
    split; [|reflexivity].
    split; [reflexivity|]. split; [reflexivity|]. split; [reflexivity|].
    eexists type, value, _. split; [reflexivity|].
    split; [exact Hen|].
    split; [exact (spacingEntries_types _ _ Hen)|]. split; [exact Hpos|].
    assert (forall s, In s (first :: rest) ->
              (Math_abs (value - s) <? 1)%float = false) as Hoff.
    { intros s Hs. unfold isOnScale in Hon.
      destruct (Math_abs (value - s) <? 1)%float eqn:Hnear; [|reflexivity].
      rewrite <- Hon. symmetry. apply existsb_exists.
      exists s. split; [exact Hs|exact Hnear]. }
    split; [exact Hoff|].
    assert (In (fold_left
                  (fun prev curr =>
                     if (Math_abs (curr - value) <? Math_abs (prev - value))%float
                     then curr else prev) rest first) (first :: rest)) as Hin.
    { destruct (nearest_fold_In value rest first) as [H|H];
        [left; symmetry; exact H|right; exact H]. }
    split; [exact Hin|]. split.
    + intros Hd. apply not_below_one; [apply abs_notNaN; exact Hd|].
      apply Hoff. exact Hin.
    + intros s Hs. apply (nearest_fold_minimal value rest first [first]).
      * intros s' [<-|[]]. apply ltb_irrefl.
      * exact Hs.
Qed.

(** X3. Every issue of the spacing analysis is reported for an element
    of a snapshot, under its selector and the name of the viewport, is of
    type spacing and medium severity, and is about one of the values of
    the margin or the padding of that element: the value is positive, no
    entry of the scale is within 1px of it, the nearest scale value the
    issue names is an entry of the scale to which no entry is strictly
    nearer, the difference it reports is the distance to it, and that
    distance, when it is a number, is at least 1. *)
Theorem spacing_issues_are_sound :
  forall snapshots config w issues w',
    analyzeSpacing snapshots config w = Ok issues w' ->
    forall i, In i issues ->
      exists snapshot element,
        In snapshot snapshots
        /\ In element (ViewportSnapshot.dom snapshot)
        /\ Issue.viewport i
           = Viewport.name (ViewportSnapshot.viewport snapshot)
        /\ spacingFinding (KarenConfig.spacingScale config) element i.
Proof.
  intros snapshots config w issues w' Hrun i Hi.
  unfold analyzeSpacing in Hrun.
  destruct (forEach_In _ _ _ _ _ _ Hrun Hi) as (snap & w1 & b1 & w2 & Hsnap & H1 & Hi1).
  destruct (forEach_In _ _ _ _ _ _ H1 Hi1) as (el & w3 & b2 & w4 & Hel & H2 & Hi2).
  destruct (forEach_In _ _ _ _ _ _ H2 Hi2) as (en & w5 & b3 & w6 & Hen & H3 & Hi3).
  destruct (checkSpacingValue_sound _ _ _ _ _ _ _ _ Hen H3 Hi3) as (Hf & Hvp).
  exists snap, el.
  split; [exact Hsnap|]. split; [exact Hel|]. split; [exact Hvp|exact Hf].
Qed.

(** The scenario of the test suite: [margin: 15px] against the default
    scale. *)
Lemma spacing_issues_are_sound_witness :
  exists issues w',
    analyzeSpacing margin15 defaultConfig world0 = Ok issues w'
    /\ length issues = 1%nat
    /\ forall i, In i issues ->
         exists snapshot element,
           In snapshot margin15
           /\ In element (ViewportSnapshot.dom snapshot)
           /\ Issue.viewport i
              = Viewport.name (ViewportSnapshot.viewport snapshot)
           /\ spacingFinding (KarenConfig.spacingScale defaultConfig)
                element i.
Proof.
  eexists. eexists. split; [vm_compute; reflexivity|]. split; [reflexivity|].
  intros i Hi.
  eapply (spacing_issues_are_sound margin15 defaultConfig world0).
  - vm_compute. reflexivity.
  - exact Hi.
Defined.


(** ** The summary *)

Lemma countSeverity_split (issues : list Issue.t) :
  (countSeverity critical issues + countSeverity high issues
   + countSeverity medium issues + countSeverity low issues)%nat
  = length issues.
Proof.
  unfold countSeverity. induction issues as [|i issues IH]; [reflexivity|].
  simpl. destruct (Issue.severity i); simpl; lia.
Qed.

(** C10. The summary of one issue reported for a viewport named
    [constructor]: [total] is 1, but the guard of the [byViewport]
    counter reads the member inherited from [Object.prototype], stores no
    0, and the increment leaves [NaN]: the counters of [byViewport] do not
    sum to [total]. Of two such issues the second finds the [NaN], which
    is falsy, and counts from 0: the counter is 1 for a [total] of 2. *)
Theorem summary_counter_of_inherited_name :
  AuditSummary.total (buildSummary [constructorIssue]) = 1%nat
  /\ AuditSummary.byViewport (buildSummary [constructorIssue])
     = {[ "constructor" := CountNaN ]}
  /\ sumCounts (AuditSummary.byViewport (buildSummary [constructorIssue]))
     = None
  /\ AuditSummary.total (buildSummary [constructorIssue; constructorIssue])
     = 2%nat
  /\ AuditSummary.byViewport
       (buildSummary [constructorIssue; constructorIssue])
     = {[ "constructor" := Count 1 ]}
  /\ sumCounts
       (AuditSummary.byViewport
          (buildSummary [constructorIssue; constructorIssue]))
     = Some 1%nat.
Proof. repeat split; vm_compute; reflexivity. Qed.

Lemma sumCounts_comm (c1 c2 : JsCount) (y : option nat) :
  match countValue c1,
        match countValue c2, y with
        | Some n, Some a => Some (n + a)%nat
        | _, _ => None
        end with
  | Some n, Some a => Some (n + a)%nat
  | _, _ => None
  end
  = match countValue c2,
          match countValue c1, y with
          | Some n, Some a => Some (n + a)%nat
          | _, _ => None
          end with
    | Some n, Some a => Some (n + a)%nat
    | _, _ => None
    end.
Proof.
  destruct (countValue c1), (countValue c2), y; try reflexivity.
  f_equal. lia.
Qed.

(** On a name that is not inherited, and counters that are numbers, the
    guard and the increment count one more. *)
Lemma bumpViewport_plain (v : string) (m : gmap string JsCount) :
  plainName v = true ->
  (forall c, m !! v = Some c -> exists n, c = Count n) ->
  bumpViewport v m = <[ v := Count (S (counted m v)) ]> m.
Proof.
  unfold plainName, bumpViewport, getProperty, setProperty, counted.
  intros Hv Hm. apply negb_true_iff in Hv.
  assert (String.eqb v "__proto__" = false) as Hp.
  { destruct (String.eqb_spec v "__proto__") as [->|]; [|reflexivity].
    vm_compute in Hv. discriminate Hv. }
  rewrite Hp, Hv. destruct (m !! v) as [c|] eqn:E.
  - destruct (Hm c eq_refl) as [n ->]. destruct n as [|n]; cbn [falsy].
    + rewrite lookup_insert_eq. cbn [plusOne increment].
      rewrite insert_insert_eq. reflexivity.
    + rewrite E. reflexivity.
  - cbn [falsy]. rewrite lookup_insert_eq. cbn [plusOne increment].
    rewrite insert_insert_eq. reflexivity.
Qed.

Lemma sumCounts_bump (v : string) (m : gmap string JsCount) (k : nat) :
  (forall c, m !! v = Some c -> exists n, c = Count n) ->
  sumCounts m = Some k ->
  sumCounts (<[ v := Count (S (counted m v)) ]> m) = Some (S k).
Proof.
  unfold sumCounts, counted. intros Hm Hk.
  destruct (m !! v) as [c|] eqn:E.
  - destruct (Hm c eq_refl) as [n ->].
    rewrite (map_fold_delete_L _ _ v (Count n) m) in Hk;
      [|intros; apply sumCounts_comm|exact E].
    rewrite <- insert_delete_eq.
    rewrite map_fold_insert_L;
      [|intros; apply sumCounts_comm|apply lookup_delete_eq].
    cbn [countValue] in *.
    destruct (map_fold _ _ (delete v m)) as [a|]; [|discriminate].
    injection Hk as <-. reflexivity.
  - rewrite map_fold_insert_L; [|intros; apply sumCounts_comm|exact E].
    cbn [countValue]. unfold sumCounts in Hk. rewrite Hk. reflexivity.
Qed.

Lemma counted_insert_eq (m : gmap string JsCount) (v : string) (n : nat) :
  counted (<[ v := Count n ]> m) v = n.
Proof. unfold counted. rewrite lookup_insert_eq. reflexivity. Qed.

Lemma counted_insert_ne (m : gmap string JsCount) (u v : string) c :
  u <> v -> counted (<[ u := c ]> m) v = counted m v.
Proof. intros H. unfold counted. rewrite lookup_insert_ne by exact H. reflexivity. Qed.

Lemma byViewport_fold (issues : list Issue.t) :
  Forall (fun i => plainName (Issue.viewport i) = true) issues ->
  forall (m : gmap string JsCount) (k : nat),
    (forall v c, m !! v = Some c -> exists n, c = Count n) ->
    sumCounts m = Some k ->
    let m' := fold_left (fun m i => bumpViewport (Issue.viewport i) m)
                        issues m in
    sumCounts m' = Some (length issues + k)%nat
    /\ forall v,
         m' !! v
         = if (countViewport v issues =? 0)%nat then m !! v
           else Some (Count (countViewport v issues + counted m v)).
Proof.
  unfold countViewport.
  induction 1 as [|i issues Hi _ IH]; intros m k Hm Hk.
  - split; [exact Hk|reflexivity].
  - cbn [fold_left]. rewrite (bumpViewport_plain _ _ Hi (Hm _)).
    destruct (IH (<[ Issue.viewport i := Count (S (counted m (Issue.viewport i))) ]> m)
                 (S k)) as [Hsum Hat].
    + intros v c. destruct (decide (Issue.viewport i = v)) as [->|Hne].
      * rewrite lookup_insert_eq. intros [= <-]. eexists. reflexivity.
      * rewrite lookup_insert_ne by exact Hne. apply Hm.
    + apply sumCounts_bump; [apply Hm|exact Hk].
    + split.
      * cbn zeta in Hsum. rewrite Hsum. f_equal. cbn [length]. lia.
      * intros v. cbn zeta in Hat. rewrite Hat. cbn [List.filter].
        destruct (String.eqb_spec (Issue.viewport i) v) as [->|Hne];
          cbn [length].
        -- rewrite lookup_insert_eq, counted_insert_eq. cbn [Nat.eqb].
           destruct (length _ =? 0)%nat eqn:H0.
           ++ apply Nat.eqb_eq in H0. rewrite H0. reflexivity.
           ++ do 2 f_equal. lia.
        -- rewrite lookup_insert_ne by exact Hne.
           rewrite counted_insert_ne by exact Hne. reflexivity.
Qed.

(** The summary of issues none of whose viewports bears the name of a
    member of [Object.prototype]: [total] is the number of issues, the
    four severity counters add up to it, so do the counters of
    [byViewport], each of which counts the issues of its viewport; the
    summary of no issues has all counters zero and an empty
    [byViewport]. *)
Lemma summary_counts_consistent_on_plain_names (issues : list Issue.t) :
  Forall (fun i => plainName (Issue.viewport i) = true) issues ->
  let s := buildSummary issues in
  AuditSummary.total s = length issues
  /\ (AuditSummary.critical s + AuditSummary.high s
      + AuditSummary.medium s + AuditSummary.low s)%nat = AuditSummary.total s
  /\ sumCounts (AuditSummary.byViewport s) = Some (AuditSummary.total s)
  /\ (forall v : string,
        AuditSummary.byViewport s !! v
        = if (countViewport v issues =? 0)%nat then None
          else Some (Count (countViewport v issues)))
  /\ AuditSummary.total (buildSummary []) = 0%nat
  /\ AuditSummary.critical (buildSummary []) = 0%nat
  /\ AuditSummary.high (buildSummary []) = 0%nat
  /\ AuditSummary.medium (buildSummary []) = 0%nat
  /\ AuditSummary.low (buildSummary []) = 0%nat
  /\ AuditSummary.byViewport (buildSummary []) = ∅.
Proof.
  intros Hplain. simpl. split; [reflexivity|].
  split; [apply countSeverity_split|].
  destruct (byViewport_fold issues Hplain ∅ 0%nat) as [Hsum Hat].
  { intros v c. rewrite lookup_empty. discriminate. }
  { reflexivity. }
  split.
  { cbn zeta in Hsum. rewrite Hsum. f_equal. lia. }
  split.
  { intros v. cbn zeta in Hat. rewrite Hat. rewrite lookup_empty.
    destruct (countViewport v issues =? 0)%nat; [reflexivity|].
    unfold counted. rewrite lookup_empty. do 2 f_equal. lia. }
  repeat split; reflexivity.
Qed.

(** ** The summary by type *)

Lemma AuditFeature_eqb_eq a b : AuditFeature_eqb a b = true <-> a = b.
Proof. destruct a, b; simpl; split; congruence. Qed.

Lemma lookupType_bumpType type t byType :
  lookupType t (bumpType type byType)
  = if AuditFeature_eqb type t
    then Some (match lookupType t byType with
               | Some c => increment c
               | None => CountNaN
               end)
    else lookupType t byType.
Proof.
  unfold lookupType. induction byType as [|[k c] rest IH]; simpl.
  - destruct (AuditFeature_eqb type t); reflexivity.
  - destruct (AuditFeature_eqb k type) eqn:Hk; simpl.
    + apply AuditFeature_eqb_eq in Hk. subst k.
      destruct (AuditFeature_eqb type t); reflexivity.
    + destruct (AuditFeature_eqb k t) eqn:Hkt; simpl.
      * apply AuditFeature_eqb_eq in Hkt. subst k.
        assert (AuditFeature_eqb type t = false) as ->
          by (destruct type, t; try reflexivity; discriminate Hk).
        reflexivity.
      * exact IH.
Qed.

Lemma byType_fold issues : forall byType t,
  lookupType t (fold_left (fun m i => bumpType (Issue.type i) m) issues byType)
  = match lookupType t byType with
    | Some (Count n) => Some (Count (n + countType t issues))
    | Some CountNaN => Some CountNaN
    | None => if (0 <? countType t issues)%nat then Some CountNaN else None
    end.
Proof.
  unfold countType.
  induction issues as [|i issues IH]; intros byType t; simpl.
  - destruct (lookupType t byType) as [[n|]|]; try reflexivity.
    rewrite Nat.add_0_r. reflexivity.
  - rewrite IH, lookupType_bumpType.
    destruct (AuditFeature_eqb (Issue.type i) t); simpl.
    + destruct (lookupType t byType) as [[n|]|]; simpl; try reflexivity.
      * f_equal. f_equal. lia.
    + reflexivity.
Qed.

(** X11. [byType] of the summary: each of the six initialised features counts
    its issues; [performance], which is not initialised, is absent when
    there is no performance issue and [NaN] as soon as there is one. *)
Theorem summary_by_type :
  forall issues t,
    lookupType t (AuditSummary.byType (buildSummary issues))
    = match t with
      | performance =>
          if (0 <? countType performance issues)%nat then Some CountNaN
          else None
      | _ => Some (Count (countType t issues))
      end.
Proof.
  intros issues t. unfold buildSummary. simpl. rewrite byType_fold.
  destruct t; reflexivity.
Qed.


(** ** Fixed widths *)





(** *** Differences, minima and maxima *)

Lemma rank_bound (x : float) : (- 2 ^ 2200 <= rank x <= 2 ^ 2200)%Z.
Proof.
  unfold rank. pose proof (SFscaled_bound _ (Prim2SF_valid x)) as B.
  assert (0 < 2 ^ 2200)%Z as H0 by (apply Z.pow_pos_nonneg; lia).
  set (top := (2 ^ 2200)%Z) in *.
  destruct (Prim2SF x) as [s|[|]| |s m e]; cbn [SFscaled] in *; lia.
Qed.

Lemma ltb_infinity (x : float) : (infinity <? x)%float = false.
Proof.
  rewrite FloatAxioms.ltb_spec. change (Prim2SF infinity) with (S754_infinity false).
  destruct (Prim2SF x) as [s|[|]| |s m e]; reflexivity.
Qed.

Lemma isNaN_of_nan (x : float) : Prim2SF x = S754_nan -> isNaN x = true.
Proof.
  intros E. destruct (isNaN x) eqn:H; [reflexivity|].
  apply isNaN_false in H. contradiction.
Qed.

(** Nothing but an infinite tolerance reaches the start of the walk. *)
Lemma within_neg_infinity (x tolerance : float) :
  withinTolerance x neg_infinity tolerance = true -> tolerance = infinity.
Proof.
  unfold withinTolerance, Math_abs. intros H.
  pose proof (leb_notNaN _ _ H) as [Ha Ht]. pose proof (notNaN_abs _ Ha) as Hd.
  rewrite leb_rank in H by assumption. apply Z.leb_le in H.
  rewrite rank_abs in H.
  assert (rank (x - neg_infinity) = 2 ^ 2200)%Z as E.
  { apply isNaN_false in Hd. revert Hd. unfold rank.
    rewrite FloatAxioms.sub_spec.
    change (Prim2SF neg_infinity) with (S754_infinity true).
    destruct (Prim2SF x) as [s|[|]| |s m e]; cbn; intros Hd;
      try reflexivity; contradiction. }
  pose proof (rank_bound tolerance) as B.
  assert (0 < 2 ^ 2200)%Z as H0 by (apply Z.pow_pos_nonneg; lia).
  rewrite E in H.
  destruct (rank_inj tolerance infinity Ht eq_refl) as [->|(s1 & s2 & _ & E2)].
  - change (rank infinity) with (2 ^ 2200)%Z. lia.
  - reflexivity.
  - discriminate E2.
Qed.

(** A number less itself is zero, or [NaN] for the infinities. *)
Lemma sub_self (c : float) :
  (exists s, Prim2SF (c - c) = S754_zero s) \/ isNaN (c - c) = true.
Proof.
  destruct (Prim2SF c) as [s|s| |s m e] eqn:E.
  - left. rewrite FloatAxioms.sub_spec, E. destruct s; eexists; reflexivity.
  - right. apply isNaN_of_nan. rewrite FloatAxioms.sub_spec, E.
    destruct s; reflexivity.
  - right. apply isNaN_of_nan. rewrite FloatAxioms.sub_spec, E. reflexivity.
  - left. rewrite FloatAxioms.sub_spec, E. unfold SF64sub, SFsub.
    rewrite Z.sub_diag. eexists. reflexivity.
Qed.

Lemma sameNumber_refl (x : float) : sameNumber x x.
Proof. left. reflexivity. Qed.

Lemma rank_same (x y : float) :
  notNaN x -> notNaN y -> rank x = rank y -> sameNumber x y.
Proof. apply rank_inj. Qed.

(** A difference does not tell the two zeros apart, but by the sign of a
    zero. *)
Lemma sub_same (a a' b b' : float) :
  sameNumber a a' -> sameNumber b b' -> sameNumber (a - b) (a' - b').
Proof.
  assert (forall x y : float, Prim2SF x = Prim2SF y -> sameNumber x y) as Heq.
  { intros x y H. left. apply Prim2SF_inj. exact H. }
  intros [<-|(sa & sa' & Ea & Ea')] [<-|(sb & sb' & Eb & Eb')].
  - left. reflexivity.
  - destruct (Prim2SF a) as [s|s| |s m e] eqn:E;
      try (apply Heq; rewrite !FloatAxioms.sub_spec, E, Eb, Eb';
           try destruct s; reflexivity).
    right. rewrite !FloatAxioms.sub_spec, E, Eb, Eb'.
    destruct s, sb, sb'; eexists _, _; split; reflexivity.
  - destruct (Prim2SF b) as [s|s| |s m e] eqn:E;
      try (apply Heq; rewrite !FloatAxioms.sub_spec, E, Ea, Ea';
           try destruct s; reflexivity).
    right. rewrite !FloatAxioms.sub_spec, E, Ea, Ea'.
    destruct s, sa, sa'; eexists _, _; split; reflexivity.
  - right. rewrite !FloatAxioms.sub_spec, Ea, Ea', Eb, Eb'.
    destruct sa, sa', sb, sb'; eexists _, _; split; reflexivity.
Qed.

Lemma ltb_same (t d d' : float) :
  sameNumber d d' -> (t <? d)%float = (t <? d')%float.
Proof.
  intros [<-|(s & s' & E & E')]; [reflexivity|].
  rewrite !FloatAxioms.ltb_spec, E, E'.
  destruct (Prim2SF t) as [?|[|]| |[|] ? ?]; reflexivity.
Qed.

Lemma leb_same (t d d' : float) :
  sameNumber d d' -> (d <=? t)%float = (d' <=? t)%float.
Proof.
  intros [<-|(s & s' & E & E')]; [reflexivity|].
  rewrite !FloatAxioms.leb_spec, E, E'.
  destruct (Prim2SF t) as [?|[|]| |[|] ? ?]; reflexivity.
Qed.

Lemma Math_min_pick (a b : float) :
  notNaN a -> notNaN b ->
  notNaN (Math_min a b) /\ (Math_min a b = a \/ Math_min a b = b)
  /\ rank (Math_min a b) = Z.min (rank a) (rank b).
Proof.
  intros Ha Hb. unfold Math_min. rewrite Ha, Hb. cbn [orb].
  rewrite !ltb_rank by assumption.
  destruct (rank a <? rank b)%Z eqn:E1.
  - apply Z.ltb_lt in E1. split; [exact Ha|]. split; [left; reflexivity|lia].
  - apply Z.ltb_ge in E1. destruct (rank b <? rank a)%Z eqn:E2.
    + apply Z.ltb_lt in E2. split; [exact Hb|]. split; [right; reflexivity|lia].
    + apply Z.ltb_ge in E2. destruct (isNegZero a).
      * split; [exact Ha|]. split; [left; reflexivity|lia].
      * split; [exact Hb|]. split; [right; reflexivity|lia].
Qed.

Lemma Math_max_pick (a b : float) :
  notNaN a -> notNaN b ->
  notNaN (Math_max a b) /\ (Math_max a b = a \/ Math_max a b = b)
  /\ rank (Math_max a b) = Z.max (rank a) (rank b).
Proof.
  intros Ha Hb. unfold Math_max. rewrite Ha, Hb. cbn [orb].
  rewrite !ltb_rank by assumption.
  destruct (rank a <? rank b)%Z eqn:E1.
  - apply Z.ltb_lt in E1. split; [exact Hb|]. split; [right; reflexivity|lia].
  - apply Z.ltb_ge in E1. destruct (rank b <? rank a)%Z eqn:E2.
    + apply Z.ltb_lt in E2. split; [exact Ha|]. split; [left; reflexivity|lia].
    + apply Z.ltb_ge in E2. destruct (isNegZero a).
      * split; [exact Hb|]. split; [right; reflexivity|lia].
      * split; [exact Ha|]. split; [left; reflexivity|lia].
Qed.

Lemma fold_min_pick (values : list float) : forall init,
  notNaN init -> Forall notNaN values ->
  let m := fold_left Math_min values init in
  notNaN m /\ In m (init :: values)
  /\ forall x, In x (init :: values) -> (rank m <= rank x)%Z.
Proof.
  induction values as [|v values IH]; intros init Hi Hv; cbn [fold_left].
  - split; [exact Hi|]. split; [left; reflexivity|].
    intros x [<-|[]]. lia.
  - apply Forall_cons_iff in Hv as [Hv Hvs].
    destruct (Math_min_pick init v Hi Hv) as (Hn & Hp & Hr).
    destruct (IH (Math_min init v) Hn Hvs) as (Hm & Hin & Hle).
    split; [exact Hm|]. split.
    + destruct Hin as [Hin|Hin]; [|right; right; exact Hin].
      rewrite <- Hin. destruct Hp as [-> | ->];
        [left; reflexivity|right; left; reflexivity].
    + intros x [<-|[<-|Hx]].
      * pose proof (Hle _ (or_introl eq_refl)). lia.
      * pose proof (Hle _ (or_introl eq_refl)). lia.
      * apply Hle. right. exact Hx.
Qed.

Lemma fold_max_pick (values : list float) : forall init,
  notNaN init -> Forall notNaN values ->
  let m := fold_left Math_max values init in
  notNaN m /\ In m (init :: values)
  /\ forall x, In x (init :: values) -> (rank x <= rank m)%Z.
Proof.
  induction values as [|v values IH]; intros init Hi Hv; cbn [fold_left].
  - split; [exact Hi|]. split; [left; reflexivity|].
    intros x [<-|[]]. lia.
  - apply Forall_cons_iff in Hv as [Hv Hvs].
    destruct (Math_max_pick init v Hi Hv) as (Hn & Hp & Hr).
    destruct (IH (Math_max init v) Hn Hvs) as (Hm & Hin & Hle).
    split; [exact Hm|]. split.
    + destruct Hin as [Hin|Hin]; [|right; right; exact Hin].
      rewrite <- Hin. destruct Hp as [-> | ->];
        [left; reflexivity|right; left; reflexivity].
    + intros x [<-|[<-|Hx]].
      * pose proof (Hle _ (or_introl eq_refl)). lia.
      * pose proof (Hle _ (or_introl eq_refl)). lia.
      * apply Hle. right. exact Hx.
Qed.

(** The minimum of numbers is one of them, and none is before it. *)
Lemma Math_min_of_pick (values : list float) :
  values <> [] -> Forall notNaN values ->
  In (Math_min_of values) values
  /\ forall x, In x values -> (rank (Math_min_of values) <= rank x)%Z.
Proof.
  intros Hne Hv. unfold Math_min_of.
  destruct (fold_min_pick values infinity eq_refl Hv) as (Hm & Hin & Hle).
  cbn zeta in *. split.
  - destruct Hin as [Hin|Hin]; [|exact Hin].
    destruct values as [|v values]; [contradiction|].
    pose proof (Hle v (or_intror (or_introl eq_refl))) as H.
    rewrite <- Hin in H. pose proof (rank_bound v) as B.
    change (rank infinity) with (2 ^ 2200)%Z in H.
    apply Forall_cons_iff in Hv as [Hv _].
    destruct (rank_inj infinity v eq_refl Hv) as [E|(s1 & s2 & E & _)].
    + change (rank infinity) with (2 ^ 2200)%Z. lia.
    + rewrite <- Hin, E. left. reflexivity.
    + discriminate E.
  - intros x Hx. apply Hle. right. exact Hx.
Qed.

Lemma Math_max_of_pick (values : list float) :
  values <> [] -> Forall notNaN values ->
  In (Math_max_of values) values
  /\ forall x, In x values -> (rank x <= rank (Math_max_of values))%Z.
Proof.
  intros Hne Hv. unfold Math_max_of.
  destruct (fold_max_pick values neg_infinity eq_refl Hv) as (Hm & Hin & Hle).
  cbn zeta in *. split.
  - destruct Hin as [Hin|Hin]; [|exact Hin].
    destruct values as [|v values]; [contradiction|].
    pose proof (Hle v (or_intror (or_introl eq_refl))) as H.
    rewrite <- Hin in H. pose proof (rank_bound v) as B.
    change (rank neg_infinity) with (- 2 ^ 2200)%Z in H.
    apply Forall_cons_iff in Hv as [Hv _].
    destruct (rank_inj neg_infinity v eq_refl Hv) as [E|(s1 & s2 & E & _)].
    + change (rank neg_infinity) with (- 2 ^ 2200)%Z. lia.
    + rewrite <- Hin, E. left. reflexivity.
    + discriminate E.
  - intros x Hx. apply Hle. right. exact Hx.
Qed.

Lemma finite_notNaN (x : float) : finiteOrZero (Prim2SF x) -> notNaN x.
Proof.
  intros H. apply notNaN_iff. intros E. rewrite E in H. exact H.
Qed.

(** The difference of two finite numbers is a number. *)
Lemma sub_finite (x y : float) :
  finiteOrZero (Prim2SF x) -> finiteOrZero (Prim2SF y) -> notNaN (x - y).
Proof.
  intros Hx Hy. apply notNaN_iff. rewrite FloatAxioms.sub_spec.
  pose proof (Prim2SF_valid x) as Vx. pose proof (Prim2SF_valid y) as Vy.
  destruct (Prim2SF x) as [sx|sx| |sx mx ex]; try contradiction;
    (destruct (Prim2SF y) as [sy|sy| |sy my ey]; try contradiction);
    try discriminate.
  - destruct sx, sy; discriminate.
  - unfold SF64sub, SFsub, binary_normalize.
    apply valid_finite in Vx as [Hcx _]. apply valid_finite in Vy as [Hcy _].
    assert (-1074 <= Z.min ex ey)%Z as Hez by (unfold fexp64 in *; lia).
    destruct (_ - _)%Z as [|p|p]; [discriminate| |].
    + destruct (binary_round_sign false p (Z.min ex ey) Hez)
        as [(m' & e' & ->)| ->]; discriminate.
    + destruct (binary_round_sign true p (Z.min ex ey) Hez)
        as [(m' & e' & ->)| ->]; discriminate.
Qed.

(** ** Alignment and grid *)

(** A container with at least 4 children and more than 3 distinct rounded
    gaps on an axis gets exactly one medium-severity issue; the gap it
    suggests on each axis is the rounded [averageOfValues]. *)
Lemma grid_issue_emitted snapshot container w :
  (4 <= length (DOMElement.children container))%nat ->
  (3 < length (Gaps.horizontal (calculateGaps (DOMElement.children container)))
   \/ 3 < length (Gaps.vertical (calculateGaps (DOMElement.children container))))%nat ->
  exists issue w',
    checkContainer snapshot container w = Ok [issue] w'
    /\ Issue.severity issue = medium
    /\ Issue.details issue
       = let gaps := calculateGaps (DOMElement.children container) in
         GridDetails (length (DOMElement.children container))
           (Gaps.horizontal gaps) (Gaps.vertical gaps)
           (Math_round (averageOfValues (Gaps.horizontal gaps)))
           (Math_round (averageOfValues (Gaps.vertical gaps))).
Proof.
  intros Hlen Hgaps. unfold checkContainer.
  assert ((length (DOMElement.children container) <? 4)%nat = false) as ->
    by (apply Nat.ltb_ge; exact Hlen).
  assert (((3 <? length (Gaps.horizontal
                          (calculateGaps (DOMElement.children container))))%nat
           || (3 <? length (Gaps.vertical
                             (calculateGaps (DOMElement.children container))))%nat)
          = true) as ->.
  { apply orb_true_iff. destruct Hgaps as [H|H]; [left|right];
      apply Nat.ltb_lt; exact H. }
  eexists. eexists. split; [reflexivity|]. split; reflexivity.
Qed.

(** C3 (code defect). On the grid of the test suite the gaps 20, 30, 40
    and 50 occur once each; their average is 35. The issue suggests 1,
    the average of the four counts, as horizontal gap, and [NaN] (0 / 0)
    as vertical gap: [avgHorizontalGap] averages [gaps.values()], the
    counts, not the gap values. *)
Theorem grid_suggestion_averages_counts :
  exists issue w',
    checkGridAlignment gridSnapshot 4 world0 = Ok [issue] w'
    /\ Issue.severity issue = medium
    /\ Issue.details issue
       = GridDetails 5
           [(20%float, 1%nat); (30%float, 1%nat); (40%float, 1%nat);
            (50%float, 1%nat)] [] 1 NaN
    /\ spec_averageGap
         [(20%float, 1%nat); (30%float, 1%nat); (40%float, 1%nat);
          (50%float, 1%nat)]
       = 35%float.
Proof.
  eexists. eexists.
  split; [vm_compute; reflexivity|].
  split; [vm_compute; reflexivity|].
  split; vm_compute; reflexivity.
Qed.


(** ** Rows and columns *)

Section Groups.

Variable coord : DOMElement.t -> float.
Variable tolerance : float.
Variable elements : list DOMElement.t.

Let member (el : DOMElement.t) : Prop := invisible el = false /\ In el elements.
Let group (row : list DOMElement.t) : Prop :=
  (2 <= length row)%nat /\ Forall member row.

Lemma keepRow_groups rows currentRow :
  Forall group rows -> Forall member currentRow ->
  Forall group (keepRow rows currentRow)
  /\ (length (concat (keepRow rows currentRow))
      <= length (concat rows) + length currentRow)%nat.
Proof.
  intros Hrows Hcur. unfold keepRow.
  destruct (1 <? length currentRow)%nat eqn:Hlen.
  - apply Nat.ltb_lt in Hlen. split.
    + apply Forall_app. split; [exact Hrows|].
      constructor; [|constructor]. split; [lia|exact Hcur].
    + rewrite concat_app, length_app. simpl. rewrite app_nil_r. lia.
  - split; [exact Hrows|lia].
Qed.

Lemma groupWalk_groups sorted :
  forall rows currentRow current,
    Forall (fun el => In el elements) sorted ->
    Forall group rows -> Forall member currentRow ->
    let result := groupWalk coord tolerance sorted rows currentRow current in
    Forall group result
    /\ (length (concat result)
        <= length (concat rows) + length currentRow + length sorted)%nat.
Proof.
  induction sorted as [|el rest IH]; intros rows currentRow current
    Hsorted Hrows Hcur; simpl.
  - destruct (keepRow_groups rows currentRow Hrows Hcur) as [H1 H2].
    split; [exact H1|lia].
  - pose proof (Forall_inv Hsorted) as Hel.
    pose proof (Forall_inv_tail Hsorted) as Hrest.
    destruct (invisible el) eqn:Hvis.
    + destruct (IH rows currentRow current Hrest Hrows Hcur) as [H1 H2].
      split; [exact H1|lia].
    + assert (member el) as Hm by (split; assumption).
      destruct (withinTolerance (coord el) current tolerance).
      * destruct (IH rows (currentRow ++ [el]) current Hrest Hrows) as [H1 H2].
        { apply Forall_app. split; [exact Hcur|]. constructor; [exact Hm|constructor]. }
        split; [exact H1|]. rewrite length_app in H2. simpl in H2. lia.
      * destruct (keepRow_groups rows currentRow Hrows Hcur) as [K1 K2].
        destruct (IH (keepRow rows currentRow) [el] (coord el) Hrest K1)
          as [H1 H2].
        { constructor; [exact Hm|constructor]. }
        split; [exact H1|]. simpl in H2. lia.
Qed.

End Groups.

(** X12. The rows (columns) the grouping returns have at least two members
    each, all of them visible elements of the input, and together no more
    members than the input has elements. *)
Theorem groups_have_two_visible_members :
  forall coord elements tolerance,
    let rows := groupElementsBy coord elements tolerance in
    Forall (fun row =>
              (2 <= length row)%nat
              /\ Forall (fun el => invisible el = false /\ In el elements) row)
           rows
    /\ (length (concat rows) <= length elements)%nat.
Proof.
  intros coord elements tolerance. unfold groupElementsBy.
  destruct (groupWalk_groups coord tolerance elements
              (Array_sort (coordBefore coord) elements) [] [] neg_infinity)
    as [H1 H2].
  - apply List.Forall_forall. intros x Hx.
    apply (Array_sort_In (coordBefore coord) elements x). exact Hx.
  - constructor.
  - constructor.
  - split; [exact H1|]. rewrite Array_sort_length in H2. simpl in H2. exact H2.
Qed.

(** ** The clusters of the walk *)

Section Clustering.

Variable coord : DOMElement.t -> float.
Variable tolerance : float.

#[local] Abbreviation anchored := (anchoredAt coord tolerance).
#[local] Abbreviation cluster := (isCluster coord tolerance).
#[local] Abbreviation building := (buildingFrom coord tolerance).
#[local] Abbreviation ascending :=
  (fun a b : DOMElement.t => (rank (coord a) <= rank (coord b))%Z).

(** Between elements with a coordinate, the comparator of the sort reads
    their order. *)
Lemma coordBefore_rank (a b : DOMElement.t) :
  notNaN (coord a) -> notNaN (coord b) ->
  coordBefore coord a b = (rank (coord a) <? rank (coord b))%Z.
Proof.
  intros Ha Hb. unfold coordBefore.
  rewrite sub_negative by assumption. apply ltb_rank; assumption.
Qed.

Lemma keepRow_clusters rows currentRow current :
  Forall cluster rows -> building current currentRow ->
  Forall cluster (keepRow rows currentRow).
Proof.
  intros Hrows Hcur. unfold keepRow.
  destruct (1 <? length currentRow)%nat eqn:Hlen; [|exact Hrows].
  apply Nat.ltb_lt in Hlen. apply Forall_app. split; [exact Hrows|].
  constructor; [|constructor].
  destruct Hcur as [[-> _]|[(first & others & -> & Hc & Ha)|Hinf]].
  - simpl in Hlen. lia.
  - left. exists first, others. split; [reflexivity|]. split.
    + intros ->. simpl in Hlen. lia.
    + rewrite Hc. exact Ha.
  - right. split; [|exact Hinf]. intros ->. simpl in Hlen. lia.
Qed.

Lemma groupWalk_clusters sorted :
  StronglySorted ascending sorted ->
  forall rows currentRow current,
    Forall cluster rows -> building current currentRow ->
    Forall (fun el => (rank current <= rank (coord el))%Z) sorted ->
    Forall cluster (groupWalk coord tolerance sorted rows currentRow current).
Proof.
  induction 1 as [|el rest Hrest IH Hel]; intros rows currentRow current
    Hrows Hcur Hlow; cbn [groupWalk].
  - eapply keepRow_clusters; eassumption.
  - apply Forall_cons_iff in Hlow as [Hlow1 Hlow].
    destruct (invisible el); [apply IH; assumption|].
    destruct (withinTolerance (coord el) current tolerance) eqn:W.
    + apply IH; [exact Hrows| |exact Hlow].
      destruct Hcur as [[-> ->]|[(first & others & -> & Hc & Ha)|Hinf]].
      * right. right. eapply within_neg_infinity. exact W.
      * right. left. exists first, (others ++ [el]).
        split; [reflexivity|]. split; [exact Hc|].
        apply Forall_app. split; [exact Ha|].
        constructor; [|constructor]. split; [exact W|exact Hlow1].
      * right. right. exact Hinf.
    + apply IH; [eapply keepRow_clusters; eassumption| |exact Hel].
      right. left. exists el, []. split; [reflexivity|].
      split; [reflexivity|constructor].
Qed.

Lemma groupElementsBy_clusters (elements : list DOMElement.t) :
  positioned coord elements ->
  Forall cluster (groupElementsBy coord elements tolerance).
Proof.
  intros Hpos. unfold groupElementsBy. apply groupWalk_clusters.
  - apply (Array_sort_sorted (coordBefore coord)
             (fun el => rank (coord el)) (fun el => notNaN (coord el))).
    + intros a b. apply coordBefore_rank.
    + exact Hpos.
  - constructor.
  - left. split; reflexivity.
  - apply List.Forall_forall. intros el _.
    pose proof (rank_bound (coord el)) as B.
    change (rank neg_infinity) with (- 2 ^ 2200)%Z. lia.
Qed.

(** The spread of a cluster with an anchor is the difference of the
    coordinate of a member and that of the anchor. *)
Lemma anchored_spread first others :
  positioned coord (first :: others) ->
  anchored (coord first) others ->
  exists member,
    In member (first :: others)
    /\ sameNumber (spread coord (first :: others))
                  (coord member - coord first).
Proof.
  unfold positioned. intros Hpos Ha. unfold spread.
  assert (Forall notNaN (List.map coord (first :: others))) as Hn.
  { apply Forall_map. exact Hpos. }
  assert (List.map coord (first :: others) <> []) as Hne by discriminate.
  destruct (Math_min_of_pick _ Hne Hn) as [Hmin Hle].
  destruct (Math_max_of_pick _ Hne Hn) as [Hmax _].
  apply in_map_iff in Hmax as (member & Emax & Hmember).
  exists member. split; [exact Hmember|].
  rewrite <- Emax. apply sub_same; [apply sameNumber_refl|].
  assert (notNaN (coord first)) as Hf by (apply Forall_inv in Hpos; exact Hpos).
  pose proof Hmin as Hmin'.
  apply in_map_iff in Hmin' as (least & Emin & Hleast).
  apply rank_same.
  - rewrite <- Emin. rewrite List.Forall_forall in Hpos. apply Hpos, Hleast.
  - exact Hf.
  - pose proof (Hle (coord first) (or_introl eq_refl)) as H1.
    assert (rank (coord first) <= rank (coord least))%Z as H2.
    { destruct Hleast as [<-|Hleast]; [lia|].
      unfold anchoredAt in Ha. rewrite List.Forall_forall in Ha.
      apply (Ha least Hleast). }
    rewrite <- Emin in *. lia.
Qed.

Lemma ltb_nan (t d : float) : isNaN d = true -> (t <? d)%float = false.
Proof.
  intros H. destruct (t <? d)%float eqn:E; [|reflexivity].
  apply ltb_notNaN in E as [_ E]. unfold notNaN in E. congruence.
Qed.

Lemma rank_zero (z : float) s : Prim2SF z = S754_zero s -> rank z = 0%Z.
Proof. intros E. unfold rank. rewrite E. reflexivity. Qed.

Lemma zero_notNaN (z : float) s : Prim2SF z = S754_zero s -> notNaN z.
Proof. intros E. apply notNaN_iff. rewrite E. discriminate. Qed.

(** A tolerance some number is within is not negative. *)
Lemma within_tolerance (x c : float) :
  withinTolerance x c tolerance = true ->
  notNaN tolerance /\ (0 <= rank tolerance)%Z.
Proof.
  unfold withinTolerance, Math_abs. intros H.
  pose proof (leb_notNaN _ _ H) as [Ha Ht]. split; [exact Ht|].
  rewrite leb_rank in H by assumption. apply Z.leb_le in H.
  rewrite rank_abs in H. lia.
Qed.

(** No cluster fails the test of the spread. *)
Lemma cluster_spread (row : list DOMElement.t) :
  positioned coord row -> cluster row ->
  (tolerance <? spread coord row)%float = false.
Proof.
  intros Hpos [(first & others & -> & Hne & Ha)|[_ ->]];
    [|apply ltb_infinity].
  destruct (anchored_spread first others Hpos Ha) as (member & Hin & Hsame).
  rewrite (ltb_same _ _ _ Hsame).
  unfold anchoredAt in Ha. rewrite List.Forall_forall in Ha.
  destruct Hin as [<-|Hin].
  - destruct others as [|other others]; [contradiction|].
    destruct (Ha other (or_introl eq_refl)) as [W _].
    apply within_tolerance in W as [Ht Hr].
    destruct (sub_self (coord first)) as [[s E]|E]; [|apply ltb_nan; exact E].
    rewrite ltb_rank by (exact Ht || eapply zero_notNaN; exact E).
    rewrite (rank_zero _ _ E). apply Z.ltb_ge. exact Hr.
  - destruct (Ha member Hin) as [W _]. apply within_not_beyond. exact W.
Qed.

(** With finite coordinates, the spread of a cluster is at most the
    tolerance. *)
Lemma cluster_spread_finite (row : list DOMElement.t) :
  finitelyPositioned coord row -> cluster row ->
  (spread coord row <=? tolerance)%float = true.
Proof.
  unfold finitelyPositioned. intros Hfin Hc.
  assert (positioned coord row) as Hpos.
  { unfold positioned. eapply List.Forall_impl; [|exact Hfin].
    intros el. apply finite_notNaN. }
  destruct Hc as [(first & others & -> & Hne & Ha)|[Hne ->]].
  - destruct (anchored_spread first others Hpos Ha) as (member & Hin & Hsame).
    rewrite (leb_same _ _ _ Hsame).
    unfold anchoredAt in Ha. rewrite List.Forall_forall in Ha.
    destruct Hin as [<-|Hin].
    + destruct others as [|other others]; [contradiction|].
      destruct (Ha other (or_introl eq_refl)) as [W _].
      apply within_tolerance in W as [Ht Hr].
      destruct (sub_self (coord first)) as [[s E]|E].
      * rewrite leb_rank by (exact Ht || eapply zero_notNaN; exact E).
        rewrite (rank_zero _ _ E). apply Z.leb_le. exact Hr.
      * apply Forall_inv in Hfin.
        pose proof (sub_finite _ _ Hfin Hfin) as N. unfold notNaN in N.
        congruence.
    + destruct (Ha member Hin) as [W _]. apply within_below. exact W.
  - unfold spread.
    assert (Forall notNaN (List.map coord row)) as Hn
      by (apply Forall_map; exact Hpos).
    unfold positioned in Hpos.
    assert (List.map coord row <> []) as Hne'
      by (destruct row; [contradiction|discriminate]).
    destruct (Math_min_of_pick _ Hne' Hn) as [Hmin _].
    destruct (Math_max_of_pick _ Hne' Hn) as [Hmax _].
    apply in_map_iff in Hmin as (least & <- & Hleast).
    apply in_map_iff in Hmax as (most & <- & Hmost).
    rewrite List.Forall_forall in Hfin.
    pose proof (sub_finite _ _ (Hfin _ Hmost) (Hfin _ Hleast)) as N.
    rewrite leb_rank by (exact N || reflexivity).
    apply Z.leb_le. change (rank infinity) with (2 ^ 2200)%Z.
    apply rank_bound.
Qed.

Lemma checkRow_silent texts snapshot (row : list DOMElement.t) w :
  (tolerance <? spread coord row)%float = false ->
  checkRow coord texts snapshot tolerance row w = Ok [] w.
Proof.
  intros H. unfold checkRow. destruct (length row <? 2)%nat; [reflexivity|].
  unfold spread in H. cbv zeta. rewrite H. reflexivity.
Qed.

End Clustering.

Lemma groupElementsBy_In coord elements tolerance row el :
  In row (groupElementsBy coord elements tolerance) -> In el row ->
  In el elements.
Proof.
  intros Hrow Hel. unfold groupElementsBy in Hrow.
  destruct (groupWalk_groups coord tolerance elements
              (Array_sort (coordBefore coord) elements) [] [] neg_infinity)
    as [H _].
  - apply List.Forall_forall. intros x Hx.
    apply (Array_sort_In (coordBefore coord) elements x). exact Hx.
  - constructor.
  - constructor.
  - rewrite List.Forall_forall in H. destruct (H row Hrow) as [_ Hm].
    rewrite List.Forall_forall in Hm. apply (Hm el Hel).
Qed.

Lemma groupElementsBy_spread coord elements tolerance row :
  positioned coord elements ->
  In row (groupElementsBy coord elements tolerance) ->
  (tolerance <? spread coord row)%float = false
  /\ (finitelyPositioned coord elements ->
      (spread coord row <=? tolerance)%float = true).
Proof.
  intros Hpos Hrow.
  pose proof (groupElementsBy_clusters coord tolerance elements Hpos) as Hc.
  rewrite List.Forall_forall in Hc. specialize (Hc row Hrow).
  split.
  - apply cluster_spread; [|exact Hc].
    apply List.Forall_forall. intros el Hel.
    unfold positioned in Hpos. rewrite List.Forall_forall in Hpos.
    apply Hpos. eapply groupElementsBy_In; eassumption.
  - intros Hfin. apply cluster_spread_finite; [|exact Hc].
    apply List.Forall_forall. intros el Hel.
    unfold finitelyPositioned in Hfin. rewrite List.Forall_forall in Hfin.
    apply Hfin. eapply groupElementsBy_In; eassumption.
Qed.

Lemma alignment_check_silent coord texts snapshot tolerance w :
  positioned coord (ViewportSnapshot.dom snapshot) ->
  forEach (checkRow coord texts snapshot tolerance)
          (groupElementsBy coord (ViewportSnapshot.dom snapshot) tolerance) w
  = Ok [] w.
Proof.
  intros Hpos. apply forEach_silent. intros row Hrow.
  apply checkRow_silent.
  apply (groupElementsBy_spread coord _ tolerance row Hpos Hrow).
Qed.

(** C2. On a snapshot in which no element has [NaN] as coordinate on the
    axis, every cluster of the row clustering and of the column
    clustering fails the test [spread > tolerance], and has a spread of
    at most the tolerance when the coordinates are finite numbers; so
    the horizontal and the vertical alignment check emit no issue,
    whatever the tolerance. *)
Theorem clusters_never_misaligned :
  forall (snapshot : ViewportSnapshot.t) (tolerance : float),
    (positioned rectY (ViewportSnapshot.dom snapshot) ->
     (forall row,
        In row (groupElementsByRow (ViewportSnapshot.dom snapshot) tolerance) ->
        (tolerance <? spread rectY row)%float = false
        /\ (finitelyPositioned rectY (ViewportSnapshot.dom snapshot) ->
            (spread rectY row <=? tolerance)%float = true))
     /\ (forall w, checkHorizontalAlignment snapshot tolerance w = Ok [] w))
    /\ (positioned rectX (ViewportSnapshot.dom snapshot) ->
        (forall column,
           In column
              (groupElementsByColumn (ViewportSnapshot.dom snapshot) tolerance) ->
           (tolerance <? spread rectX column)%float = false
           /\ (finitelyPositioned rectX (ViewportSnapshot.dom snapshot) ->
               (spread rectX column <=? tolerance)%float = true))
        /\ (forall w, checkVerticalAlignment snapshot tolerance w = Ok [] w)).
Proof.
  intros snapshot tolerance. split; intros Hpos; split.
  - intros row Hrow. apply groupElementsBy_spread; assumption.
  - intros w. apply alignment_check_silent. exact Hpos.
  - intros column Hcolumn. apply groupElementsBy_spread; assumption.
  - intros w. apply alignment_check_silent. exact Hpos.
Qed.

(** Two elements at y = 10 and y = 12 under a tolerance of 4: one row, of
    spread 2, and no issue. *)
Lemma clusters_never_misaligned_witness :
  positioned rectY (ViewportSnapshot.dom alignedRow)
  /\ finitelyPositioned rectY (ViewportSnapshot.dom alignedRow)
  /\ List.map (spread rectY)
       (groupElementsByRow (ViewportSnapshot.dom alignedRow) 4)
     = [2%float]
  /\ (forall row,
        In row (groupElementsByRow (ViewportSnapshot.dom alignedRow) 4) ->
        (4 <? spread rectY row)%float = false
        /\ (spread rectY row <=? 4)%float = true)
  /\ checkHorizontalAlignment alignedRow 4 world0 = Ok [] world0.
Proof.
  assert (positioned rectY (ViewportSnapshot.dom alignedRow)) as Hpos
    by (repeat constructor).
  assert (finitelyPositioned rectY (ViewportSnapshot.dom alignedRow)) as Hfin
    by (repeat constructor).
  split; [exact Hpos|]. split; [exact Hfin|].
  split; [vm_compute; reflexivity|].
  destruct (clusters_never_misaligned alignedRow 4) as [[Hrows Hcheck] _];
    [exact Hpos|].
  split; [|apply Hcheck].
  intros row Hrow. destruct (Hrows row Hrow) as [H1 H2].
  split; [exact H1|exact (H2 Hfin)].
Defined.

(** C2 as stated fails on an element without a coordinate: of a row at
    y = 10, 0 and 20 with an element of no size and of coordinate [NaN]
    after the first, the sort moves nothing, the cluster anchored at 10
    takes the three elements under a tolerance of 10, its spread is 20,
    and the horizontal check reports it. With coordinates that are not
    finite the spread need not be a number: two elements at y = Infinity
    under an infinite tolerance form a cluster of spread [NaN]. *)
Lemma clusters_misaligned_without_coordinate :
  (List.map rectY (ViewportSnapshot.dom brokenRow)
   = [10%float; nan; 0%float; 20%float]
   /\ List.map (List.map rectY)
        (groupElementsByRow (ViewportSnapshot.dom brokenRow) 10)
      = [[10%float; 0%float; 20%float]]
   /\ List.map (spread rectY)
        (groupElementsByRow (ViewportSnapshot.dom brokenRow) 10)
      = [20%float]
   /\ exists issue w',
        checkHorizontalAlignment brokenRow 10 world0 = Ok [issue] w'
        /\ Issue.severity issue = medium
        /\ Issue.element issue = ".b")
  /\ (positioned rectY (ViewportSnapshot.dom infiniteRow)
      /\ List.map (fun row => (spread rectY row <=? infinity)%float)
           (groupElementsByRow (ViewportSnapshot.dom infiniteRow) infinity)
         = [false]).
Proof.
  split.
  - split; [reflexivity|]. split; [vm_compute; reflexivity|].
    split; [vm_compute; reflexivity|].
    eexists. eexists. split; [vm_compute; reflexivity|].
    split; reflexivity.
  - split; [repeat constructor|vm_compute; reflexivity].
Qed.

(** ** Grids *)

Lemma countGap_length gap gaps :
  (length (countGap gap gaps) <= S (length gaps))%nat.
Proof.
  unfold countGap. induction gaps as [|[g n] rest IH]; simpl; [lia|].
  destruct (sameValueZero g gap); simpl; lia.
Qed.

Lemma gapStep_length gaps pair :
  (length (Gaps.horizontal (gapStep gaps pair)) <= S (length (Gaps.horizontal gaps))
   /\ length (Gaps.vertical (gapStep gaps pair)) <= S (length (Gaps.vertical gaps)))%nat.
Proof.
  destruct pair as [current next]. unfold gapStep.
  cbn [Gaps.horizontal Gaps.vertical]. split.
  - destruct (Math_abs (rectY current - rectY next) <? 10)%float; [|lia].
    destruct (0 <? _)%float; [|lia]. apply countGap_length.
  - destruct (Math_abs (rectX current - rectX next) <? 10)%float; [|lia].
    destruct (0 <? _)%float; [|lia]. apply countGap_length.
Qed.

Lemma gaps_fold_length pairs : forall gaps,
  (length (Gaps.horizontal (fold_left gapStep pairs gaps))
   <= length (Gaps.horizontal gaps) + length pairs
   /\ length (Gaps.vertical (fold_left gapStep pairs gaps))
      <= length (Gaps.vertical gaps) + length pairs)%nat.
Proof.
  induction pairs as [|p pairs IH]; intros gaps; simpl; [lia|].
  destruct (IH (gapStep gaps p)) as [H1 H2].
  destruct (gapStep_length gaps p) as [G1 G2]. lia.
Qed.

Lemma adjacent_length {A} (l : list A) :
  length (adjacent l) = (length l - 1)%nat.
Proof.
  induction l as [|a [|b l] IH]; simpl; try reflexivity.
  simpl in IH. rewrite IH. lia.
Qed.

Lemma calculateGaps_length elements :
  (length (Gaps.horizontal (calculateGaps elements)) <= length elements - 1
   /\ length (Gaps.vertical (calculateGaps elements)) <= length elements - 1)%nat.
Proof.
  unfold calculateGaps.
  destruct (gaps_fold_length
              (adjacent (Array_sort (fun a b => (gridCompare a b <? 0)%float)
                                    elements))
              (Gaps.mk [] [])) as [H1 H2].
  rewrite adjacent_length, Array_sort_length in H1, H2. simpl in H1, H2. lia.
Qed.

Lemma checkContainer_children snapshot container w bs w' i :
  checkContainer snapshot container w = Ok bs w' -> In i bs ->
  Issue.viewport i = Viewport.name (ViewportSnapshot.viewport snapshot)
  /\ Issue.element i = DOMElement.selector container
  /\ gridChildCount i = Some (length (DOMElement.children container))
  /\ (5 <= length (DOMElement.children container))%nat.
Proof.
  unfold checkContainer.
  destruct (length (DOMElement.children container) <? 4)%nat eqn:H4;
    [intros [= <- _] []|].
  destruct (calculateGaps_length (DOMElement.children container)) as [Hh Hv].
  destruct ((3 <? _)%nat || (3 <? _)%nat) eqn:Hgaps; [|intros [= <- _] []].
  unfold bind. simpl. intros [= <- _] [<-|[]].
  split; [reflexivity|]. split; [reflexivity|]. split; [reflexivity|].
  apply orb_true_iff in Hgaps as [H|H]; apply Nat.ltb_lt in H; lia.
Qed.

Lemma checkGridAlignment_children snapshot tolerance w issues w' i :
  checkGridAlignment snapshot tolerance w = Ok issues w' -> In i issues ->
  exists container,
    In container (ViewportSnapshot.dom snapshot)
    /\ Issue.viewport i = Viewport.name (ViewportSnapshot.viewport snapshot)
    /\ Issue.element i = DOMElement.selector container
    /\ gridChildCount i = Some (length (DOMElement.children container))
    /\ (5 <= length (DOMElement.children container))%nat.
Proof.
  intros Hrun Hi. unfold checkGridAlignment in Hrun.
  destruct (forEach_In _ _ _ _ _ _ Hrun Hi)
    as (container & w1 & bs & w2 & Hin & Hc & Hib).
  apply List.filter_In in Hin as [Hin _].
  exists container. split; [exact Hin|].
  eapply checkContainer_children; eassumption.
Qed.


(** X13. On snapshots in which no element has [NaN] as [rect.x] or
    [rect.y], every issue of the alignment detector is a grid issue,
    reported for a container with at least five children: the row and
    column checks emit nothing, and four children have three gaps at
    most. *)
Theorem misalignment_issues_are_grid_issues :
  forall snapshots config w issues w',
    Forall (fun snapshot =>
              positioned rectY (ViewportSnapshot.dom snapshot)
              /\ positioned rectX (ViewportSnapshot.dom snapshot))
           snapshots ->
    detectMisalignment snapshots config w = Ok issues w' ->
    forall i, In i issues ->
      exists snapshot container,
        In snapshot snapshots
        /\ In container (ViewportSnapshot.dom snapshot)
        /\ Issue.viewport i
           = Viewport.name (ViewportSnapshot.viewport snapshot)
        /\ Issue.element i = DOMElement.selector container
        /\ gridChildCount i = Some (length (DOMElement.children container))
        /\ (5 <= length (DOMElement.children container))%nat.
Proof.
  intros snapshots config w issues w' Hpos Hrun i Hi.
  unfold detectMisalignment in Hrun.
  destruct (forEach_In _ _ _ _ _ _ Hrun Hi)
    as (snapshot & w1 & bs & w2 & Hin & Hbody & Hib).
  rewrite List.Forall_forall in Hpos. destruct (Hpos snapshot Hin) as [Hy Hx].
  unfold bind in Hbody. unfold checkHorizontalAlignment in Hbody.
  unfold groupElementsByRow in Hbody.
  rewrite (alignment_check_silent rectY _ _ _ _ Hy) in Hbody.
  unfold checkVerticalAlignment, groupElementsByColumn in Hbody.
  rewrite (alignment_check_silent rectX _ _ _ _ Hx) in Hbody.
  destruct (checkGridAlignment snapshot _ w1) as [g wg|] eqn:Hg; [|discriminate].
  injection Hbody as <- _. simpl in Hib.
  destruct (checkGridAlignment_children _ _ _ _ _ _ Hg Hib)
    as (container & Hc).
  exists snapshot, container. split; [exact Hin|exact Hc].
Qed.

Lemma misalignment_issues_are_grid_issues_witness :
  exists issues w',
    detectMisalignment [gridSnapshot] defaultConfig world0 = Ok issues w'
    /\ List.map gridChildCount issues = [Some 5%nat]
    /\ forall i, In i issues ->
         exists snapshot container,
           In snapshot [gridSnapshot]
           /\ In container (ViewportSnapshot.dom snapshot)
           /\ Issue.viewport i
              = Viewport.name (ViewportSnapshot.viewport snapshot)
           /\ Issue.element i = DOMElement.selector container
           /\ gridChildCount i = Some (length (DOMElement.children container))
           /\ (5 <= length (DOMElement.children container))%nat.
Proof.
  eexists. eexists. split; [vm_compute; reflexivity|]. split; [reflexivity|].
  intros i Hi.
  eapply (misalignment_issues_are_grid_issues [gridSnapshot] defaultConfig world0).
  - repeat constructor.
  - vm_compute. reflexivity.
  - exact Hi.
Defined.

(** ** Contrast *)

Section ContrastFacts.

Variable pow : float -> float -> float.

Lemma linearize_255 : pow 1%float 2.4%float = 1%float -> linearize pow 255 = 1%float.
Proof. intros H. vm_compute. exact H. Qed.

Lemma linearize_0 : linearize pow 0 = 0%float.
Proof. vm_compute. reflexivity. Qed.

Lemma getLuminance_white :
  pow 1%float 2.4%float = 1%float -> getLuminance pow white = 1%float.
Proof.
  intros H. unfold getLuminance, white, RGB.r, RGB.g, RGB.b.
  rewrite (linearize_255 H). vm_compute. reflexivity.
Qed.

Lemma getLuminance_black : getLuminance pow black = 0%float.
Proof.
  unfold getLuminance, black, RGB.r, RGB.g, RGB.b.
  rewrite linearize_0. vm_compute. reflexivity.
Qed.

(** The contrast of a colour with itself. *)
Lemma calculateContrast_same (c : RGB.t) :
  finiteNonzero (getLuminance pow c + 0.05) = true ->
  calculateContrast pow c c = 1%float.
Proof.
  intros H. unfold calculateContrast.
  rewrite Math_max_same, Math_min_same. apply div_same. exact H.
Qed.

End ContrastFacts.

(** *** Colours of the 8-bit gamut *)

Lemma add_notNaN (x y : float) : notNaN (x + y) -> notNaN x.
Proof.
  rewrite !notNaN_iff, FloatAxioms.add_spec. intros H E. apply H.
  rewrite E. reflexivity.
Qed.

(** A number between 0.05 and 1.05 is finite and positive. *)
Lemma offset_positive (x : float) :
  (0.05 <=? x)%float = true -> (x <=? 1 + 0.05)%float = true ->
  exists m e, Prim2SF x = S754_finite false m e.
Proof.
  rewrite !FloatAxioms.leb_spec. intros H1 H2.
  destruct (Prim2SF x) as [s|[|]| |[|] m e]; try discriminate H1;
    try discriminate H2.
  eexists _, _. reflexivity.
Qed.

Lemma offset_finiteNonzero (luminance : float) :
  offsetInRange luminance = true ->
  finiteNonzero (luminance + 0.05) = true.
Proof.
  unfold offsetInRange. intros H. apply andb_true_iff in H as [H1 H2].
  destruct (offset_positive _ H1 H2) as (m & e & E).
  unfold finiteNonzero. rewrite E. reflexivity.
Qed.

Section Ratio.

#[local] Open Scope Z_scope.

Lemma scaled_product (a b A B C P : Z) :
  0 < P -> 0 < C -> a <= A -> B <= b -> A * P < C * B -> a * P < C * b.
Proof.
  intros HP HC Ha Hb H.
  apply Z.le_lt_trans with (A * P).
  - apply Z.mul_le_mono_nonneg_r; lia.
  - apply Z.lt_le_trans with (C * B); [exact H|].
    apply Z.mul_le_mono_nonneg_l; lia.
Qed.

(** The quotient of two numbers between 0.05 and 1.05 is at most 21. *)
Lemma ratio_at_most_21 (a b : float) :
  (0.05 <=? a)%float = true -> (a <=? 1 + 0.05)%float = true ->
  (0.05 <=? b)%float = true -> (b <=? 1 + 0.05)%float = true ->
  (a / b <=? 21)%float = true.
Proof.
  intros A1 A2 B1 B2.
  destruct (offset_positive a A1 A2) as (ma & ea & Ea).
  destruct (offset_positive b B1 B2) as (mb & eb & Eb).
  pose proof (leb_notNaN _ _ A2) as [Na _].
  pose proof (leb_notNaN _ _ B1) as [_ Nb].
  rewrite leb_rank in A2 by (exact Na || reflexivity).
  rewrite leb_rank in B1 by (exact Nb || reflexivity).
  apply Z.leb_le in A2, B1.
  assert (rank a = SFscaled (Prim2SF a)) as Ra by (unfold rank; rewrite Ea; reflexivity).
  assert (rank b = SFscaled (Prim2SF b)) as Rb by (unfold rank; rewrite Eb; reflexivity).
  rewrite Ra in A2. rewrite Rb in B1.
  eapply (div_below a b 21%float ma ea mb eb);
    [exact Ea|exact Eb|vm_compute; reflexivity|lia|].
  apply (scaled_product _ _ (rank (1 + 0.05)%float) (rank 0.05%float));
    [apply Z.pow_pos_nonneg; lia| |exact A2|exact B1|].
  - vm_compute. reflexivity.
  - apply Z.ltb_lt. vm_compute. reflexivity.
Qed.

End Ratio.

Section Gamut.

Variable pow : float -> float -> float.
Hypothesis pow_one : pow 1%float 2.4%float = 1%float.
Hypothesis gamut : withinGamut pow.

Lemma luminance_notNaN (luminance : float) :
  offsetInRange luminance = true -> notNaN luminance.
Proof.
  unfold offsetInRange. intros H. apply andb_true_iff in H as [H _].
  apply leb_notNaN in H as [_ H]. eapply add_notNaN. exact H.
Qed.

Lemma contrast_same_8bit (r g b : nat) :
  (r < 256)%nat -> (g < 256)%nat -> (b < 256)%nat ->
  calculateContrast pow (rgb8 r g b) (rgb8 r g b) = 1%float.
Proof.
  intros Hr Hg Hb. apply calculateContrast_same.
  apply offset_finiteNonzero. apply gamut; assumption.
Qed.

Lemma contrast_at_most_21 (fg bg : RGB.t) :
  offsetInRange (getLuminance pow fg) = true ->
  offsetInRange (getLuminance pow bg) = true ->
  (calculateContrast pow fg bg <=? 21)%float = true.
Proof.
  intros Hf Hb. unfold calculateContrast.
  pose proof (luminance_notNaN _ Hf) as Nf.
  pose proof (luminance_notNaN _ Hb) as Nb.
  destruct (Math_max_pick _ _ Nf Nb) as (_ & Hmax & _).
  destruct (Math_min_pick _ _ Nf Nb) as (_ & Hmin & _).
  assert (offsetInRange (Math_max (getLuminance pow fg) (getLuminance pow bg))
          = true) as Hl by (destruct Hmax as [-> | ->]; assumption).
  assert (offsetInRange (Math_min (getLuminance pow fg) (getLuminance pow bg))
          = true) as Hd by (destruct Hmin as [-> | ->]; assumption).
  unfold offsetInRange in Hl, Hd.
  apply andb_true_iff in Hl as [L1 L2]. apply andb_true_iff in Hd as [D1 D2].
  apply ratio_at_most_21; assumption.
Qed.

End Gamut.

(** The reference [pow] keeps the 16 777 216 colours with channels from 0
    to 255 in range (by computation). *)
Lemma linearTable_offsetInRange :
  forallb
    (fun r => forallb
       (fun g => forallb
          (fun b => offsetInRange (0.2126 * r + 0.7152 * g + 0.0722 * b))
          linearTable) linearTable) linearTable = true.
Proof. vm_compute. reflexivity. Qed.

Lemma linearTable_In (n : nat) :
  (n < 256)%nat ->
  In (linearize pow_ref (Z2float (Z.of_nat n))) linearTable.
Proof.
  intros H. unfold linearTable.
  apply (in_map (fun n => linearize pow_ref (Z2float (Z.of_nat n)))).
  apply in_seq. lia.
Qed.

Lemma pow_ref_withinGamut : withinGamut pow_ref.
Proof.
  intros r g b Hr Hg Hb.
  pose proof linearTable_offsetInRange as Hall.
  rewrite forallb_forall in Hall.
  specialize (Hall _ (linearTable_In r Hr)).
  rewrite forallb_forall in Hall.
  specialize (Hall _ (linearTable_In g Hg)).
  rewrite forallb_forall in Hall.
  exact (Hall _ (linearTable_In b Hb)).
Qed.

(** C7. Whatever [Math.pow] is, provided [Math.pow(1, 2.4)] is 1 and the
    luminance of the colours with channels from 0 to 255 stays in the
    range of black and white: the contrast of white on white is exactly
    1, that of black and white is exactly 21 in either order; and among
    the colours with channels from 0 to 255 the contrast of a colour with
    itself is exactly 1, so that the comparison
    [contrastRatio < requiredRatio] holds for every required ratio above
    1, and no contrast exceeds 21. *)
Theorem contrast_exact_values :
  forall pow : float -> float -> float,
    pow 1%float 2.4%float = 1%float ->
    withinGamut pow ->
    calculateContrast pow white white = 1%float
    /\ calculateContrast pow black white = 21%float
    /\ calculateContrast pow white black = 21%float
    /\ (forall r g b : nat,
          (r < 256)%nat -> (g < 256)%nat -> (b < 256)%nat ->
          calculateContrast pow (rgb8 r g b) (rgb8 r g b) = 1%float
          /\ forall requiredRatio : float,
               (1 <? requiredRatio)%float = true ->
               (calculateContrast pow (rgb8 r g b) (rgb8 r g b)
                <? requiredRatio)%float = true)
    /\ (forall r1 g1 b1 r2 g2 b2 : nat,
          (r1 < 256)%nat -> (g1 < 256)%nat -> (b1 < 256)%nat ->
          (r2 < 256)%nat -> (g2 < 256)%nat -> (b2 < 256)%nat ->
          (calculateContrast pow (rgb8 r1 g1 b1) (rgb8 r2 g2 b2)
           <=? 21)%float = true).
Proof.
  intros pow H G. split; [|split; [|split; [|split]]].
  - unfold calculateContrast. rewrite (getLuminance_white pow H).
    vm_compute. reflexivity.
  - unfold calculateContrast.
    rewrite (getLuminance_white pow H), getLuminance_black.
    vm_compute. reflexivity.
  - unfold calculateContrast.
    rewrite (getLuminance_white pow H), getLuminance_black.
    vm_compute. reflexivity.
  - intros r g b Hr Hg Hb.
    rewrite (contrast_same_8bit pow G r g b Hr Hg Hb).
    split; [reflexivity|]. intros requiredRatio Hq. exact Hq.
  - intros r1 g1 b1 r2 g2 b2 Hr1 Hg1 Hb1 Hr2 Hg2 Hb2.
    apply contrast_at_most_21; apply G; assumption.
Qed.

(** The theorem at the reference [pow], the gray of the test suite and
    the pair of gray and white. *)
Lemma contrast_exact_values_witness :
  calculateContrast pow_ref white white = 1%float
  /\ calculateContrast pow_ref black white = 21%float
  /\ calculateContrast pow_ref gray170 gray170 = 1%float
  /\ (calculateContrast pow_ref gray170 gray170 <? 4.5)%float = true
  /\ (calculateContrast pow_ref gray170 white <=? 21)%float = true.
Proof.
  destruct (contrast_exact_values pow_ref eq_refl pow_ref_withinGamut)
    as (H1 & H2 & _ & H4 & H5).
  destruct (H4 170%nat 170%nat 170%nat) as [H6 H7]; [lia..|].
  split; [exact H1|]. split; [exact H2|]. split; [exact H6|].
  split; [apply H7; reflexivity|].
  apply (H5 170%nat 170%nat 170%nat 255%nat 255%nat 255%nat); lia.
Defined.

(** C7 as stated fails beyond the 8-bit range, which [parseColor] does
    not enforce: under the reference [pow], the colour it reads in
    [rgb(300, 300, 300)] has a contrast of 29.99 with black, above 21;
    and a colour with a red channel of 200 digits has an infinite
    luminance and the contrast [NaN] with itself, which is not 1 and is
    below no required ratio. *)
Lemma contrast_beyond_8bit :
  parseColor "rgb(300, 300, 300)" = Some overbright
  /\ (21 <? calculateContrast pow_ref overbright black)%float = true
  /\ getLuminance pow_ref overflowing = infinity
  /\ isNaN (calculateContrast pow_ref overflowing overflowing) = true
  /\ (calculateContrast pow_ref overflowing overflowing <? 4.5)%float = false.
Proof. repeat split; vm_compute; reflexivity. Qed.

(** The contrast scenario of the specification: [rgb(170, 170, 170)] on
    white at 16px has ratio 2.32, below the required 7, and yields one
    high-severity issue. *)
Lemma contrast_scenario :
  exists issue w',
    checkAccessibility pow_ref
      [mobile [element0 ".text"
                 (<[ "fontSize" := "16px" ]>
                    (<[ "color" := "rgb(170, 170, 170)" ]>
                       {[ "backgroundColor" := "rgb(255, 255, 255)" ]}))]]
      defaultConfig world0 = Ok [issue] w'
    /\ Issue.severity issue = high
    /\ Issue.details issue
       = ContrastDetails (Some "rgb(170, 170, 170)") (Some "rgb(255, 255, 255)")
           2.32 7 false "AAA".
Proof.
  eexists. eexists.
  split; [vm_compute; reflexivity|].
  split; vm_compute; reflexivity.
Qed.


Lemma checkContrast_core pow snapshot config element w :
  exists issues w',
    checkContrast pow snapshot config element w = Ok issues w'
    /\ List.map core issues = contrastVerdict pow config snapshot element.
Proof.
  unfold checkContrast, contrastVerdict, foregroundOf, backgroundOf,
    requiredRatioOf.
  destruct (parseColor (orElse (style element "color") "#000000")) as [fg|];
    [|eexists; eexists; split; reflexivity].
  destruct (parseColor (orElse (style element "backgroundColor") "#ffffff"))
    as [bg|]; [|eexists; eexists; split; reflexivity].
  destruct (calculateContrast pow fg bg <? _)%float;
    eexists; eexists; split; reflexivity.
Qed.

Lemma flat_map_concat {A B} (f : A -> list B) (l : list A) :
  flat_map f l = concat (List.map f l).
Proof. induction l as [|a l IH]; simpl; [reflexivity|]. rewrite IH. reflexivity. Qed.

(** C6, as the code has it. The accessibility check returns, and its
    issues are those of the verdicts on the elements with a positive
    font size, in their order. For an element whose [color] is absent
    (or empty) the foreground is black, for one whose [background-color]
    is absent the background is white, and the contrast is compared with
    the required ratio: one issue when it is below, none otherwise. An
    element one of whose two colours is present but not parsed by
    [parseColor] is skipped. *)
Theorem contrast_defaults_when_absent :
  forall pow snapshots config w,
    (exists issues w',
       checkAccessibility pow snapshots config w = Ok issues w'
       /\ List.map core issues
          = flat_map
              (fun snapshot =>
                 flat_map (contrastVerdict pow config snapshot)
                   (List.filter isTextElement (ViewportSnapshot.dom snapshot)))
              snapshots)
    /\ forall snapshot element,
         (truthy (style element "color") = false ->
          foregroundOf element = Some black)
         /\ (truthy (style element "backgroundColor") = false ->
             backgroundOf element = Some white)
         /\ (forall fg bg,
               foregroundOf element = Some fg ->
               backgroundOf element = Some bg ->
               contrastVerdict pow config snapshot element
               = if (calculateContrast pow fg bg
                     <? requiredRatioOf config element)%float
                 then [contrastCore pow config snapshot element fg bg]
                 else [])
         /\ (foregroundOf element = None \/ backgroundOf element = None ->
             contrastVerdict pow config snapshot element = []).
Proof.
  intros pow snapshots config w. split.
  - unfold checkAccessibility. rewrite flat_map_concat.
    apply (forEach_map _ core
             (fun snapshot =>
                flat_map (contrastVerdict pow config snapshot)
                  (List.filter isTextElement (ViewportSnapshot.dom snapshot)))).
    intros snapshot w1 _. rewrite flat_map_concat.
    apply (forEach_map _ core (contrastVerdict pow config snapshot)).
    intros element w2 _. apply checkContrast_core.
  - intros snapshot element. split; [|split; [|split]].
    + unfold foregroundOf, truthy, orElse.
      destruct (style element "color") as [c|]; [|reflexivity].
      destruct (String.eqb c ""); [reflexivity|discriminate].
    + unfold backgroundOf, truthy, orElse.
      destruct (style element "backgroundColor") as [c|]; [|reflexivity].
      destruct (String.eqb c ""); [reflexivity|discriminate].
    + intros fg bg Hf Hb. unfold contrastVerdict. rewrite Hf, Hb. reflexivity.
    + intros [H|H]; unfold contrastVerdict; rewrite H; [reflexivity|].
      destruct (foregroundOf element); reflexivity.
Qed.

(** Text of 16px without a colour of its own on a black background: the
    foreground is black, the contrast with the background is 1, below
    the required 7, and the check reports the element. *)
Lemma contrast_defaults_when_absent_witness :
  isTextElement unstyledOnBlack = true
  /\ truthy (style unstyledOnBlack "color") = false
  /\ foregroundOf unstyledOnBlack = Some black
  /\ exists issues w',
       checkAccessibility pow_ref [mobile [unstyledOnBlack]] defaultConfig
         world0 = Ok issues w'
       /\ List.map core issues
          = [contrastCore pow_ref defaultConfig (mobile [unstyledOnBlack])
               unstyledOnBlack black black].
Proof.
  destruct (contrast_defaults_when_absent pow_ref [mobile [unstyledOnBlack]]
              defaultConfig world0) as [(issues & w' & Hrun & Hcore) Hel].
  destruct (Hel (mobile [unstyledOnBlack]) unstyledOnBlack)
    as (Hfg & _).
  split; [vm_compute; reflexivity|]. split; [reflexivity|].
  split; [apply Hfg; reflexivity|].
  exists issues, w'. split; [exact Hrun|]. rewrite Hcore.
  vm_compute. reflexivity.
Defined.

(** C6 as stated fails: text whose [color] is the unparsed [red], on a
    black background. With black as foreground the contrast would be 1,
    below the required 7, yet the element is skipped and no issue is
    emitted; the same element without [color] is flagged. *)
Lemma unparseable_color_is_skipped :
  isTextElement redOnBlack = true
  /\ style redOnBlack "color" = Some "red"
  /\ parseColor "red" = None
  /\ parseColor (orElse (style redOnBlack "backgroundColor") "#ffffff")
     = Some black
  /\ (calculateContrast pow_ref black black
      <? requiredRatioOf defaultConfig redOnBlack)%float = true
  /\ checkAccessibility pow_ref [mobile [redOnBlack]] defaultConfig world0
     = Ok [] world0
  /\ exists issue w',
       checkAccessibility pow_ref [mobile [unstyledOnBlack]] defaultConfig world0
       = Ok [issue] w'.
Proof.
  split; [vm_compute; reflexivity|].
  split; [vm_compute; reflexivity|].
  split; [vm_compute; reflexivity|].
  split; [vm_compute; reflexivity|].
  split; [vm_compute; reflexivity|].
  split; [vm_compute; reflexivity|].
  eexists. eexists. vm_compute. reflexivity.
Qed.


(** X4. The contrast ratio does not depend on which of the two colours is
    the foreground. *)
Theorem contrast_is_symmetric :
  forall pow fg bg, calculateContrast pow fg bg = calculateContrast pow bg fg.
Proof.
  intros pow fg bg. unfold calculateContrast.
  rewrite (Math_max_comm (getLuminance pow fg)),
          (Math_min_comm (getLuminance pow fg)).
  reflexivity.
Qed.


(** ** Accessibility issues *)

Lemma checkContrast_sound pow snapshot config element w bs w' i :
  isTextElement element = true ->
  checkContrast pow snapshot config element w = Ok bs w' -> In i bs ->
  contrastFinding pow config snapshot element i.
Proof.
  intros Htext. unfold checkContrast. fold (requiredRatioOf config element).
  destruct (parseColor (orElse (style element "color") "#000000")) as [fg|] eqn:Hfg;
    [|intros [= <- _] []].
  destruct (parseColor (orElse (style element "backgroundColor") "#ffffff"))
    as [bg|] eqn:Hbg; [|intros [= <- _] []].
  destruct (calculateContrast pow fg bg <? requiredRatioOf config element)%float
    eqn:Hlow; [|intros [= <- _] []].
  unfold bind. simpl. intros [= <- _] [<-|[]].
  unfold contrastFinding. simpl.
  repeat (split; [reflexivity|]). split; [exact Htext|].
  exists fg, bg. repeat split; try reflexivity; assumption.
Qed.

(** X14. Every issue of the accessibility check is about a text element of a
    snapshot whose two colours are read and whose contrast is below the
    ratio required of it. *)
Theorem accessibility_issues_are_sound :
  forall pow snapshots config w issues w',
    checkAccessibility pow snapshots config w = Ok issues w' ->
    forall i, In i issues ->
      exists snapshot element,
        In snapshot snapshots
        /\ In element (ViewportSnapshot.dom snapshot)
        /\ contrastFinding pow config snapshot element i.
Proof.
  intros pow snapshots config w issues w' Hrun i Hi.
  unfold checkAccessibility in Hrun.
  destruct (forEach_In _ _ _ _ _ _ Hrun Hi) as (snap & w1 & b1 & w2 & Hsnap & H1 & Hi1).
  destruct (forEach_In _ _ _ _ _ _ H1 Hi1) as (el & w3 & b2 & w4 & Hel & H2 & Hi2).
  apply List.filter_In in Hel as [Hel Htext].
  exists snap, el. split; [exact Hsnap|]. split; [exact Hel|].
  eapply checkContrast_sound; eassumption.
Qed.

Lemma accessibility_issues_are_sound_witness :
  exists issues w',
    checkAccessibility pow_ref [mobile [unstyledOnBlack]] defaultConfig world0
    = Ok issues w'
    /\ length issues = 1%nat
    /\ forall i, In i issues ->
         exists snapshot element,
           In snapshot [mobile [unstyledOnBlack]]
           /\ In element (ViewportSnapshot.dom snapshot)
           /\ contrastFinding pow_ref defaultConfig snapshot element i.
Proof.
  eexists. eexists. split; [vm_compute; reflexivity|]. split; [reflexivity|].
  intros i Hi.
  eapply (accessibility_issues_are_sound pow_ref [mobile [unstyledOnBlack]]
            defaultConfig world0).
  - vm_compute. reflexivity.
  - exact Hi.
Defined.


(** ** Determinism up to the message text *)

Lemma related_ret {A} (R : A -> A -> Prop) (a1 a2 : A) :
  R a1 a2 -> related R (ret a1) (ret a2).
Proof. intros H w1 w2 Hw. simpl. split; assumption. Qed.

Lemma related_throw {A} (R : A -> A -> Prop) (e : Exn) :
  related R (throw e) (throw e).
Proof. intros w1 w2 Hw. simpl. split; [reflexivity|assumption]. Qed.

Lemma related_bind {A B} (R : A -> A -> Prop) (S : B -> B -> Prop)
    (m1 m2 : M A) (k1 k2 : A -> M B) :
  related R m1 m2 ->
  (forall a1 a2, R a1 a2 -> related S (k1 a1) (k2 a2)) ->
  related S (bind m1 k1) (bind m2 k2).
Proof.
  intros Hm Hk w1 w2 Hw. unfold bind. specialize (Hm w1 w2 Hw).
  destruct (m1 w1) as [a1 v1|e1 v1], (m2 w2) as [a2 v2|e2 v2];
    simpl in Hm; try contradiction.
  - destruct Hm as [Ha Hv]. apply Hk; assumption.
  - exact Hm.
Qed.

Lemma related_generateId (prefix : string) :
  related eq (generateId prefix) (generateId prefix).
Proof.
  intros w1 w2 Hw. unfold generateId. simpl. rewrite Hw. split; reflexivity.
Qed.

(** The two runs may pick different texts. *)
Lemma related_pick (choices1 choices2 : list text) :
  related (fun _ _ => True) (pick choices1) (pick choices2).
Proof. intros w1 w2 Hw. simpl. split; [exact I|exact Hw]. Qed.

Lemma related_resetCounter : related eq resetCounter resetCounter.
Proof. intros w1 w2 Hw. simpl. split; reflexivity. Qed.

Lemma sameButMessage_app l1 l2 l1' l2' :
  sameButMessage l1 l2 -> sameButMessage l1' l2' ->
  sameButMessage (l1 ++ l1') (l2 ++ l2').
Proof.
  unfold sameButMessage. intros H H'. rewrite !List.map_app, H, H'. reflexivity.
Qed.

Lemma related_forEach {A} (body1 body2 : A -> M (list Issue.t)) (l : list A) :
  (forall a, In a l -> related sameButMessage (body1 a) (body2 a)) ->
  related sameButMessage (forEach body1 l) (forEach body2 l).
Proof.
  induction l as [|a l IH]; intros Hbody; simpl.
  - apply related_ret. reflexivity.
  - eapply related_bind; [apply Hbody; left; reflexivity|].
    intros bs1 bs2 Hbs. eapply related_bind.
    + apply IH. intros a' Ha'. apply Hbody. right. exact Ha'.
    + intros bs1' bs2' Hbs'. apply related_ret.
      apply sameButMessage_app; assumption.
Qed.

Lemma related_findNearest (value : float) (scale : list float) :
  related eq (findNearest value scale) (findNearest value scale).
Proof.
  destruct scale as [|first rest]; simpl.
  - apply related_throw.
  - apply related_ret. reflexivity.
Qed.

(** Steps shared by the proofs below: split a computation along its
    binds, branches and loops. *)
Ltac related_step :=
  match goal with
  | |- related _ (ret _) (ret _) => apply related_ret; try reflexivity
  | |- related _ (throw _) (throw _) => apply related_throw
  | |- related _ (bind (generateId _) _) (bind (generateId _) _) =>
      eapply related_bind; [apply related_generateId|intros ? ? <-]
  | |- related _ (bind (pick _) _) (bind (pick _) _) =>
      eapply related_bind; [apply related_pick|intros ? ? _]
  | |- related _ (bind (findNearest _ _) _) (bind (findNearest _ _) _) =>
      eapply related_bind; [apply related_findNearest|intros ? ? <-]
  | |- related _ (forEach _ _) (forEach _ _) =>
      apply related_forEach; intros ? _
  | |- related _ (if ?b then _ else _) (if ?b then _ else _) => destruct b
  | |- related _ (match ?x with _ => _ end) (match ?x with _ => _ end) =>
      destruct x
  end.

Lemma analyzeSpacing_related snapshots config :
  related sameButMessage (analyzeSpacing snapshots config)
                         (analyzeSpacing snapshots config).
Proof.
  unfold analyzeSpacing. do 3 related_step.
  unfold checkSpacingValue. repeat related_step.
Qed.

Lemma checkAccessibility_related pow snapshots config :
  related sameButMessage (checkAccessibility pow snapshots config)
                         (checkAccessibility pow snapshots config).
Proof.
  unfold checkAccessibility. do 2 related_step.
  unfold checkContrast. repeat related_step.
Qed.

Lemma nearDuplicates_related pairs :
  forall processedPairs,
    related sameButMessage (nearDuplicates pairs processedPairs)
                           (nearDuplicates pairs processedPairs).
Proof.
  induction pairs as [|[e1 e2] pairs IH]; intros processedPairs; simpl.
  - related_step.
  - related_step; [apply IH|].
    apply (related_bind sameButMessage).
    + repeat related_step.
    + intros found1 found2 Hfound. eapply related_bind; [apply IH|].
      intros more1 more2 Hmore. apply related_ret.
      apply sameButMessage_app; assumption.
Qed.

Lemma analyzeColors_related snapshots config :
  related sameButMessage (analyzeColors snapshots config)
                         (analyzeColors snapshots config).
Proof.
  unfold analyzeColors. eapply related_bind; [apply nearDuplicates_related|].
  intros near1 near2 Hnear. eapply related_bind.
  - related_step. unfold checkPalette. repeat related_step.
  - intros off1 off2 Hoff. apply related_ret.
    apply sameButMessage_app; assumption.
Qed.

Lemma detectMisalignment_related snapshots config :
  related sameButMessage (detectMisalignment snapshots config)
                         (detectMisalignment snapshots config).
Proof.
  unfold detectMisalignment. related_step.
  eapply related_bind.
  { unfold checkHorizontalAlignment. related_step.
    unfold checkRow. repeat related_step. }
  intros h1 h2 Hh. eapply related_bind.
  { unfold checkVerticalAlignment. related_step.
    unfold checkRow. repeat related_step. }
  intros v1 v2 Hv. eapply related_bind.
  { unfold checkGridAlignment. related_step.
    unfold checkContainer. repeat related_step. }
  intros g1 g2 Hg. apply related_ret.
  repeat apply sameButMessage_app; assumption.
Qed.

Lemma detectFixedWidths_related snapshots :
  related sameButMessage (detectFixedWidths snapshots)
                         (detectFixedWidths snapshots).
Proof.
  unfold detectFixedWidths. related_step; [|related_step].
  related_step. unfold checkFixedWidth. repeat related_step.
Qed.

Lemma detectOverflow_related snapshots config :
  related sameButMessage (detectOverflow snapshots config)
                         (detectOverflow snapshots config).
Proof.
  unfold detectOverflow. do 2 related_step.
  unfold checkOverflow. repeat related_step.
Qed.

Lemma enforceTypescale_related snapshots config :
  related sameButMessage (enforceTypescale snapshots config)
                         (enforceTypescale snapshots config).
Proof.
  unfold enforceTypescale. do 2 related_step.
  unfold checkFontSize. repeat related_step.
Qed.

(** The same steps, through the binds that collect issue lists. *)
Ltac related_go :=
  repeat first
    [ related_step
    | match goal with
      | |- related sameButMessage (bind _ _) (bind _ _) =>
          apply (related_bind sameButMessage); [|intros ? ? ?]
      | |- sameButMessage _ _ =>
          first [assumption | reflexivity | apply sameButMessage_app]
      end ].

Lemma detectDesignSystemChaos_related snapshots :
  related sameButMessage (detectDesignSystemChaos snapshots)
                         (detectDesignSystemChaos snapshots).
Proof.
  unfold detectDesignSystemChaos, analyzeButtonVariations,
    analyzeInputVariations, analyzeCardVariations,
    analyzeHeadingInconsistencies, checkHeading.
  related_go.
Qed.

Lemma tokenLoop_related config items :
  forall checkedElements,
    related sameButMessage (tokenLoop config items checkedElements)
                           (tokenLoop config items checkedElements).
Proof.
  induction items as [|[snapshot element] items IH]; intros checkedElements;
    cbn [tokenLoop].
  - related_go.
  - destruct (includes checkedElements _); [apply IH|].
    apply (related_bind sameButMessage).
    + unfold checkTokens, checkSpacingTokens, checkPaddingTokens,
        checkMarginTokens, checkColorTokens, checkBorderRadiusTokens,
        checkTypographyTokens, colorTokenIssue.
      related_go.
    + intros found1 found2 Hfound.
      apply (related_bind sameButMessage); [apply IH|].
      intros more1 more2 Hmore. related_go.
Qed.

Lemma enforceDesignTokens_related snapshots config :
  related sameButMessage (enforceDesignTokens snapshots config)
                         (enforceDesignTokens snapshots config).
Proof. unfold enforceDesignTokens. apply tokenLoop_related. Qed.

Lemma enforceResponsiveDesign_related snapshots config :
  related sameButMessage (enforceResponsiveDesign snapshots config)
                         (enforceResponsiveDesign snapshots config).
Proof.
  unfold enforceResponsiveDesign.
  apply (related_bind sameButMessage).
  { unfold detectNonResponsiveElements, checkSelector, checkFixedFontSize,
      checkFixedPadding, checkFixedPixelWidth.
    related_go. }
  intros fixed1 fixed2 Hfixed.
  apply (related_bind sameButMessage); [apply detectFixedWidths_related|].
  intros widths1 widths2 Hwidths.
  apply (related_bind sameButMessage).
  { unfold detectResponsiveOverflow, checkResponsiveOverflow. related_go. }
  intros overflows1 overflows2 Hoverflows. related_go.
Qed.

Lemma whenEnabled_related config feature (detector : M (list Issue.t)) :
  related sameButMessage detector detector ->
  related sameButMessage (whenEnabled config feature detector)
                         (whenEnabled config feature detector).
Proof.
  intros H. unfold whenEnabled. destruct (existsb _ _); [exact H|].
  apply related_ret. reflexivity.
Qed.

Lemma runDetectors_related pow snapshots config :
  related sameButMessage (runDetectors pow snapshots config)
                         (runDetectors pow snapshots config).
Proof.
  unfold runDetectors.
  apply (related_bind sameButMessage);
    [apply whenEnabled_related, detectOverflow_related|intros ? ? ?].
  apply (related_bind sameButMessage);
    [apply whenEnabled_related, analyzeSpacing_related|intros ? ? ?].
  apply (related_bind sameButMessage);
    [apply whenEnabled_related, enforceTypescale_related|intros ? ? ?].
  apply (related_bind sameButMessage);
    [apply whenEnabled_related, checkAccessibility_related|intros ? ? ?].
  apply (related_bind sameButMessage);
    [apply whenEnabled_related, analyzeColors_related|intros ? ? ?].
  apply (related_bind sameButMessage).
  { apply whenEnabled_related.
    apply (related_bind sameButMessage);
      [apply detectDesignSystemChaos_related|intros ? ? ?].
    apply (related_bind sameButMessage);
      [apply detectMisalignment_related|intros ? ? ?].
    apply (related_bind sameButMessage);
      [apply enforceDesignTokens_related|intros ? ? ?].
    apply (related_bind sameButMessage);
      [apply enforceResponsiveDesign_related|intros ? ? ?].
    related_go. }
  intros ? ? ?. related_go.
Qed.

Lemma runVisualAnalysis_related engine snapshots :
  repeatable engine ->
  related sameButMessage
    (runVisualAnalysis (AuditEngine.claudeAnalyzer engine) snapshots)
    (runVisualAnalysis (AuditEngine.claudeAnalyzer engine) snapshots).
Proof.
  unfold repeatable, runVisualAnalysis.
  destruct (AuditEngine.claudeAnalyzer engine) as [analyzer|];
    [|intros _; apply related_ret; reflexivity].
  intros Hanalyzer. apply related_forEach. intros snapshot _.
  eapply related_bind; [apply Hanalyzer|].
  intros [l1|] [l2|] Hsame; try contradiction; apply related_ret;
    [exact Hsame|reflexivity].
Qed.

(** The summary reads the issues' type, severity and viewport only. *)
Lemma buildSummary_sameButMessage l1 l2 :
  sameButMessage l1 l2 -> buildSummary l1 = buildSummary l2.
Proof.
  unfold sameButMessage, buildSummary, countSeverity.
  assert (forall l, length l = length (List.map unphrased l)) as Hlen
    by (intros l; rewrite length_map; reflexivity).
  assert (forall s l,
            length (List.filter (fun i => IssueSeverity_eqb (Issue.severity i) s) l)
            = length (List.filter
                        (fun i => IssueSeverity_eqb (Issue.severity i) s)
                        (List.map unphrased l))) as Hsev.
  { intros s l. induction l as [|i l IH]; [reflexivity|].
    simpl. destruct (IssueSeverity_eqb (Issue.severity i) s); simpl; rewrite IH;
      reflexivity. }
  assert (forall l m,
            fold_left (fun m i => bumpType (Issue.type i) m) l m
            = fold_left (fun m i => bumpType (Issue.type i) m)
                        (List.map unphrased l) m) as Hty.
  { induction l as [|i l IH]; intros m; [reflexivity|]. simpl. apply IH. }
  assert (forall l (m : gmap string JsCount),
            fold_left (fun m i => bumpViewport (Issue.viewport i) m) l m
            = fold_left (fun m i => bumpViewport (Issue.viewport i) m)
                        (List.map unphrased l) m) as Hvp.
  { induction l as [|i l IH]; intros m; [reflexivity|]. simpl. apply IH. }
  intros H.
  rewrite (Hlen l1), (Hlen l2), !(Hsev _ l1), !(Hsev _ l2),
    (Hty l1), (Hty l2), (Hvp l1), (Hvp l2), H.
  reflexivity.
Qed.

Lemma runAudit_related pow engine snapshots :
  repeatable engine ->
  related (fun r1 r2 => sameButMessage (fst r1) (fst r2) /\ snd r1 = snd r2)
          (runAudit pow engine snapshots) (runAudit pow engine snapshots).
Proof.
  intros Hengine. unfold runAudit.
  eapply related_bind; [apply related_resetCounter|intros ? ? _].
  eapply related_bind; [apply runDetectors_related|].
  intros code1 code2 Hcode.
  eapply related_bind; [apply runVisualAnalysis_related; exact Hengine|].
  intros ai1 ai2 Hai. apply related_ret. cbn [fst snd].
  assert (sameButMessage (code1 ++ ai1) (code2 ++ ai2)) as H
    by (apply sameButMessage_app; assumption).
  split; [exact H|apply buildSummary_sameButMessage; exact H].
Qed.

(** C5. Two runs of the audit on the same snapshots, by the same engine
    (configuration and, if any, an analyzer that answers the two runs
    alike), whatever [Math.random] yields in each and whatever the id
    counter was before: either both return, with issue lists that agree
    in length and, issue by issue, in everything but the message text
    (id, type, severity, viewport, element, details, fix), and with
    equal summaries; or both throw the same exception. *)
Theorem audit_deterministic_up_to_message :
  forall pow engine snapshots w1 w2,
    repeatable engine ->
    match runAudit pow engine snapshots w1,
          runAudit pow engine snapshots w2 with
    | Ok (issues1, summary1) _, Ok (issues2, summary2) _ =>
        length issues1 = length issues2
        /\ List.map unphrased issues1 = List.map unphrased issues2
        /\ List.map core issues1 = List.map core issues2
        /\ summary1 = summary2
    | Throw e1 _, Throw e2 _ => e1 = e2
    | _, _ => False
    end.
Proof.
  intros pow engine snapshots w1 w2 Hengine.
  pose proof (runAudit_related pow engine snapshots Hengine
                (mkWorld 0 (random w1) (draws w1))
                (mkWorld 0 (random w2) (draws w2)) eq_refl) as Hrun.
  change (runAudit pow engine snapshots (mkWorld 0 (random w1) (draws w1)))
    with (runAudit pow engine snapshots w1) in Hrun.
  change (runAudit pow engine snapshots (mkWorld 0 (random w2) (draws w2)))
    with (runAudit pow engine snapshots w2) in Hrun.
  destruct (runAudit pow engine snapshots w1) as [[issues1 summary1] v1|e1 v1],
    (runAudit pow engine snapshots w2) as [[issues2 summary2] v2|e2 v2];
    simpl in Hrun; try contradiction; [|exact (proj1 Hrun)].
  destruct Hrun as [[Hsame Hsum] _].
  split; [|split; [exact Hsame|split; [|exact Hsum]]].
  - rewrite <- (length_map unphrased issues1), Hsame, length_map.
    reflexivity.
  - assert (forall l, List.map core l = List.map core (List.map unphrased l))
      as Hcore by (intros l; rewrite List.map_map; reflexivity).
    rewrite (Hcore issues1), (Hcore issues2), Hsame. reflexivity.
Qed.

(** Two runs on the scenario of the test suite, by the engine of the
    default configuration, from different counters and with different
    draws: the same two issues, with different message texts. *)
Lemma audit_deterministic_up_to_message_witness :
  repeatable defaultEngine
  /\ exists issues1 summary1 v1 issues2 summary2 v2,
       runAudit pow_ref defaultEngine margin15 world0
       = Ok (issues1, summary1) v1
       /\ runAudit pow_ref defaultEngine margin15 world7
          = Ok (issues2, summary2) v2
       /\ length issues1 = 2%nat
       /\ List.map Issue.message issues1 <> List.map Issue.message issues2
       /\ List.map unphrased issues1 = List.map unphrased issues2
       /\ summary1 = summary2.
Proof.
  split; [exact I|].
  pose proof (audit_deterministic_up_to_message pow_ref defaultEngine margin15
                world0 world7 I) as H.
  destruct (runAudit pow_ref defaultEngine margin15 world0)
    as [[issues1 summary1] v1|] eqn:E1; [|vm_compute in E1; discriminate E1].
  destruct (runAudit pow_ref defaultEngine margin15 world7)
    as [[issues2 summary2] v2|] eqn:E2; [|vm_compute in E2; discriminate E2].
  destruct H as (_ & Hsame & _ & Hsum).
  exists issues1, summary1, v1, issues2, summary2, v2.
  split; [reflexivity|]. split; [reflexivity|].
  vm_compute in E1. vm_compute in E2.
  injection E1 as <- _ _. injection E2 as <- _ _.
  split; [reflexivity|]. split; [vm_compute; discriminate|].
  split; [exact Hsame|exact Hsum].
Defined.

(** ** Colours *)

(** C4 as stated fails: [#AABBC5] is used 3 times and [#AABBCC] 5 times,
    at distance 10.69. The one medium issue replaces [#AABBCC], the colour
    with the higher count, by [#AABBC5], the colour collected first. *)
Lemma consolidation_ignores_counts :
  exists issues issue w',
    analyzeColors twoBlues defaultConfig world0 = Ok issues w'
    /\ List.filter isMedium issues = [issue]
    /\ Issue.details issue
       = NearDuplicateDetails (Hex "#AABBC5") (Hex "#AABBCC") 10.69 3 5
           [".a"; ".b"]
    /\ replacement issue
       = Some ([Str "color: "; Str "#AABBCC"; Str ";"],
               [Str "color: "; Str "#AABBC5"; Str ";"]).
Proof.
  eexists. eexists. eexists.
  split; [vm_compute; reflexivity|].
  split; [vm_compute; reflexivity|].
  split; vm_compute; reflexivity.
Qed.

Lemma noBar_cons (c : ascii) (s : string) :
  noBar (String c s) = negb (Ascii.eqb c "|"%char) && noBar s.
Proof. reflexivity. Qed.

Lemma append_nil (t : string) : ("" ++ t)%string = t.
Proof. reflexivity. Qed.

Lemma append_cons (c : ascii) (s t : string) :
  (String c s ++ t)%string = String c (s ++ t)%string.
Proof. reflexivity. Qed.

(** A key splits in one way only into two colours without ['|']. *)
Lemma append_bar_inj (s : string) :
  forall s' t t',
    noBar s = true -> noBar s' = true ->
    (s ++ "|" ++ t)%string = (s' ++ "|" ++ t')%string ->
    s = s' /\ t = t'.
Proof.
  induction s as [|c s IH]; intros [|c' s'] t t' Hs Hs' H;
    rewrite ?append_cons, ?append_nil in H.
  - injection H as ->. split; reflexivity.
  - injection H as <- _.
    rewrite noBar_cons in Hs'. discriminate.
  - injection H as -> _.
    rewrite noBar_cons in Hs. discriminate.
  - injection H as -> H.
    rewrite noBar_cons in Hs, Hs'.
    apply andb_prop in Hs as [_ Hs]. apply andb_prop in Hs' as [_ Hs'].
    destruct (IH s' t t' Hs Hs' H) as [-> ->]. split; reflexivity.
Qed.

Lemma Color_eqb_eq (a b : Color) : Color_eqb a b = true <-> a = b.
Proof.
  destruct a as [s| |], b as [t| |]; simpl; try (split; congruence);
    try (split; [discriminate|congruence]).
  rewrite String.eqb_eq. split; congruence.
Qed.

Lemma Color_eqb_sym (a b : Color) : Color_eqb a b = Color_eqb b a.
Proof.
  destruct a as [s| |], b as [t| |]; simpl; try reflexivity.
  apply String.eqb_sym.
Qed.

(** Keys are told apart by their texts. *)
Lemma colorText_inj (a b : Color) :
  keyShaped a -> keyShaped b -> colorText a = colorText b -> a = b.
Proof.
  destruct a as [s| |], b as [t| |]; simpl; intros Ha Hb H;
    try reflexivity; try discriminate H; subst;
    try (vm_compute in Ha; discriminate Ha);
    try (vm_compute in Hb; discriminate Hb).
  reflexivity.
Qed.

(** Two pairs of such colours with the same key are the same unordered
    pair. *)
Lemma pairKey_inj (a b c d : Color) :
  keyShaped a -> keyShaped b -> keyShaped c -> keyShaped d ->
  noBar (colorText a) = true -> noBar (colorText b) = true ->
  noBar (colorText c) = true -> noBar (colorText d) = true ->
  pairKey a b = pairKey c d ->
  (a = c /\ b = d) \/ (a = d /\ b = c).
Proof.
  intros Sa Sb Sc Sd Ha Hb Hc Hd. unfold pairKey.
  destruct (stringLe (colorText a) (colorText b)),
           (stringLe (colorText c) (colorText d)); intros H;
    apply append_bar_inj in H; try assumption; destruct H as [H1 H2];
    apply colorText_inj in H1; try assumption;
    apply colorText_inj in H2; try assumption; subst; tauto.
Qed.

Lemma allPairs_In {A} (l : list A) (a b : A) :
  In (a, b) (allPairs l) -> In a l /\ In b l.
Proof.
  induction l as [|x l IH]; simpl; [intros []|].
  intros H. apply in_app_or in H as [H|H].
  - apply in_map_iff in H as (y & [= <- <-] & Hy). split; [left|right]; auto.
  - destruct (IH H) as [Ha Hb]. split; right; assumption.
Qed.

(** The nested loops visit every two distinct entries, in one order. *)
Lemma allPairs_cover {A} (l : list A) (a b : A) :
  In a l -> In b l -> a <> b ->
  In (a, b) (allPairs l) \/ In (b, a) (allPairs l).
Proof.
  induction l as [|x l IH]; simpl; [intros []|].
  intros [->|Ha] [->|Hb] Hne.
  - contradiction.
  - left. apply in_or_app. left. apply in_map. exact Hb.
  - right. apply in_or_app. left. apply in_map. exact Ha.
  - destruct (IH Ha Hb Hne) as [H|H]; [left|right]; apply in_or_app; right;
      exact H.
Qed.


Lemma existsb_Color_false (l : list Color) (c : Color) :
  existsb (Color_eqb c) l = false <-> ~ In c l.
Proof.
  split.
  - intros H Hin.
    assert (existsb (Color_eqb c) l = true) as Ht.
    { apply existsb_exists. exists c. split; [exact Hin|].
      apply Color_eqb_eq. reflexivity. }
    congruence.
  - intros H. destruct (existsb (Color_eqb c) l) eqn:He; [|reflexivity].
    apply existsb_exists in He as (x & Hx & Heq).
    apply Color_eqb_eq in Heq. subst x. contradiction.
Qed.

Lemma includes_false (l : list string) (s : string) :
  includes l s = false <-> ~ In s l.
Proof.
  unfold includes. split.
  - intros H Hin.
    assert (existsb (String.eqb s) l = true) as Ht.
    { apply existsb_exists. exists s. split; [exact Hin|apply String.eqb_refl]. }
    congruence.
  - intros H. destruct (existsb (String.eqb s) l) eqn:He; [|reflexivity].
    apply existsb_exists in He as (x & Hx & Heq).
    apply String.eqb_eq in Heq. subst x. contradiction.
Qed.


Lemma recordColor_keys (normalized : Color) (selector : string)
    (usedColors : UsedColors) :
  List.map fst (recordColor normalized selector usedColors)
  = if existsb (Color_eqb normalized) (List.map fst usedColors)
    then List.map fst usedColors
    else List.map fst usedColors ++ [normalized].
Proof.
  induction usedColors as [|[c usage] rest IH]; [reflexivity|].
  simpl. rewrite (Color_eqb_sym normalized c).
  destruct (Color_eqb c normalized); simpl; [reflexivity|].
  rewrite IH.
  destruct (existsb (Color_eqb normalized) (List.map fst rest)); reflexivity.
Qed.

Lemma recordColor_NoDup (normalized : Color) (selector : string)
    (usedColors : UsedColors) :
  List.NoDup (List.map fst usedColors) ->
  List.NoDup (List.map fst (recordColor normalized selector usedColors)).
Proof.
  intros H. rewrite recordColor_keys.
  destruct (existsb (Color_eqb normalized) (List.map fst usedColors)) eqn:Hin;
    [exact H|].
  apply existsb_Color_false in Hin. apply List.NoDup_app.
  - exact H.
  - constructor; [intros []|constructor].
  - intros a Ha [<-|[]]. contradiction.
Qed.

(** What the collection establishes of the keys of the map, from what
    each recorded colour brings. *)
Lemma collectColors_keys (P : list Color -> Prop) :
  P [] ->
  (forall color normalized selector used,
     normalizeColor color = Some normalized ->
     P (List.map fst used) ->
     P (List.map fst (recordColor normalized selector used))) ->
  forall snapshots, P (List.map fst (collectColors snapshots)).
Proof.
  intros Hnil Hstep snapshots. unfold collectColors.
  assert (forall cs sel used,
            P (List.map fst used) ->
            P (List.map fst
                 (fold_left
                    (fun used color =>
                       match normalizeColor color with
                       | Some normalized => recordColor normalized sel used
                       | None => used
                       end) cs used))) as Hcolors.
  { induction cs as [|color cs IH]; intros sel used H; [exact H|].
    simpl. apply IH. destruct (normalizeColor color) eqn:E; [|exact H].
    eapply Hstep; eassumption. }
  assert (forall dom used,
            P (List.map fst used) ->
            P (List.map fst (fold_left collectElement dom used)))
    as Hdom.
  { induction dom as [|el dom IH]; intros used H; [exact H|].
    simpl. apply IH. unfold collectElement. apply Hcolors. exact H. }
  assert (forall used : UsedColors,
            P (List.map fst used) ->
            P (List.map fst
                 (fold_left
                    (fun used snapshot =>
                       fold_left collectElement (ViewportSnapshot.dom snapshot)
                                 used) snapshots used))) as Hall.
  { induction snapshots as [|snapshot snapshots IH]; intros used H; [exact H|].
    simpl. apply IH. apply Hdom. exact H. }
  apply Hall. exact Hnil.
Qed.

(** The colours of the map of used colours are pairwise distinct. *)
Lemma collectColors_NoDup (snapshots : list ViewportSnapshot.t) :
  List.NoDup (List.map fst (collectColors snapshots)).
Proof.
  apply (collectColors_keys (fun keys => List.NoDup keys)); [constructor|].
  intros color normalized selector used _. apply recordColor_NoDup.
Qed.

(** What [normalizeColor] returns: ['#'], then upper case; or one of the
    two objects, for their names in whatever case. *)
Lemma normalizeColor_shape color key :
  normalizeColor color = Some key ->
  match key with
  | Hex normalized => exists s, normalized = String "#" (toUpperCase s)
  | ObjectConstructor => toLowerCase color = "constructor"
  | ObjectPrototype => toLowerCase color = "__proto__"
  end.
Proof.
  unfold normalizeColor.
  destruct (String.eqb color "" || String.eqb color "transparent");
    [discriminate|].
  destruct (startsWith color "#") eqn:Hhash.
  - destruct (startsWith_hash color Hhash) as (rest & ->).
    intros [= <-]. exists rest. apply toUpperCase_hash.
  - destruct (search matchRgbaAt (chars color)) as [[[[m1 m2] m3] m4]|].
    + destruct (_ =? 0)%float; [discriminate|]. intros [= <-].
      unfold rgbToHex. eexists. reflexivity.
    + unfold namedColors.
      repeat match goal with
             | |- (if String.eqb ?a ?b then _ else _) = _ -> _ =>
                 destruct (String.eqb_spec a b);
                 [intros [= <-];
                  first [ assumption
                        | match goal with
                          | |- exists s, String _ ?r = _ =>
                              exists r; reflexivity
                          end ]|]
             end.
      discriminate.
Qed.

Lemma normalizeColor_keyShaped color key :
  normalizeColor color = Some key -> keyShaped key.
Proof.
  intros H. apply normalizeColor_shape in H.
  destruct key as [normalized| |]; [|exact I..].
  destruct H as [s ->]. reflexivity.
Qed.

Lemma recordColor_shaped color normalized selector used :
  normalizeColor color = Some normalized ->
  Forall keyShaped (List.map fst used) ->
  Forall keyShaped (List.map fst (recordColor normalized selector used)).
Proof.
  intros Hn H. rewrite recordColor_keys.
  destruct (existsb _ _); [exact H|].
  apply Forall_app. split; [exact H|].
  constructor; [|constructor]. eapply normalizeColor_keyShaped. exact Hn.
Qed.

(** The keys of the map of used colours are as [normalizeColor] makes
    them. *)
Lemma collectColors_shaped (snapshots : list ViewportSnapshot.t) :
  Forall keyShaped (List.map fst (collectColors snapshots)).
Proof.
  apply (collectColors_keys (fun keys => Forall keyShaped keys));
    [constructor|].
  intros color normalized selector used. apply recordColor_shaped.
Qed.

(** The keys of the pairs of one colour with distinct other colours are
    distinct. *)
Lemma pairKey_row_NoDup (a : Color) (rest : UsedColors) :
  keyShaped a -> noBar (colorText a) = true ->
  (forall e, In e rest ->
     keyShaped (fst e) /\ noBar (colorText (fst e)) = true) ->
  ~ In a (List.map fst rest) ->
  List.NoDup (List.map fst rest) ->
  List.NoDup (List.map (fun e => pairKey a (fst e)) rest).
Proof.
  intros Sa Ha. induction rest as [|e rest IH]; intros Hbar Hfresh Hnd;
    [constructor|].
  simpl in *. apply List.NoDup_cons_iff in Hnd as [Hfresh' Hnd].
  constructor.
  - intros Hin. apply in_map_iff in Hin as (e' & Hkey & Hin).
    destruct (Hbar e' (or_intror Hin)) as [S' B'].
    destruct (Hbar e (or_introl eq_refl)) as [Se Be].
    destruct (pairKey_inj _ _ _ _ Sa S' Sa Se Ha B' Ha Be Hkey)
      as [[_ H]|[H _]].
    + apply Hfresh'. rewrite <- H. apply in_map. exact Hin.
    + apply Hfresh. left. symmetry. exact H.
  - apply IH.
    + intros x Hx. apply Hbar. right. exact Hx.
    + intros H. apply Hfresh. right. exact H.
    + exact Hnd.
Qed.

Lemma keysOf_allPairs_NoDup (usedColors : UsedColors) :
  List.NoDup (List.map fst usedColors) ->
  Forall keyShaped (List.map fst usedColors) ->
  Forall (fun e => noBar (colorText (fst e)) = true) usedColors ->
  List.NoDup (keysOf (allPairs usedColors)).
Proof.
  induction usedColors as [|e rest IH]; intros Hnd Hshape Hbar; [constructor|].
  apply List.NoDup_cons_iff in Hnd as [Hfresh Hnd].
  pose proof (Forall_inv Hbar) as He.
  pose proof (Forall_inv_tail Hbar) as Hrest.
  simpl in Hshape.
  pose proof (Forall_inv Hshape) as Se.
  pose proof (Forall_inv_tail Hshape) as Srest.
  assert (forall x, In x rest ->
            keyShaped (fst x) /\ noBar (colorText (fst x)) = true) as Hboth.
  { intros x Hx. split.
    - rewrite List.Forall_forall in Srest. apply Srest. apply in_map. exact Hx.
    - rewrite List.Forall_forall in Hrest. apply Hrest. exact Hx. }
  simpl. unfold keysOf. rewrite List.map_app, List.map_map. simpl.
  apply List.NoDup_app.
  - apply pairKey_row_NoDup; assumption.
  - apply IH; assumption.
  - intros k Hk Hk'.
    apply in_map_iff in Hk as (e' & Hkey & Hin).
    apply in_map_iff in Hk' as ([e1 e2] & Hkey' & Hin').
    apply allPairs_In in Hin' as [H1 H2]. simpl in Hkey'.
    rewrite <- Hkey' in Hkey.
    destruct (Hboth e' Hin) as [S' B'], (Hboth e1 H1) as [S1 B1],
      (Hboth e2 H2) as [S2 B2].
    destruct (pairKey_inj _ _ _ _ Se S' S1 S2 He B' B1 B2 Hkey)
      as [[H _]|[H _]];
      apply Hfresh; rewrite H; apply in_map; assumption.
Qed.

Lemma withoutId_nearDuplicateIssue (id : string) (e1 e2 : ColorEntry) :
  withoutId (nearDuplicateIssue id e1 e2 (distanceOf (fst e1) (fst e2)))
  = nearDuplicateFinding (e1, e2).
Proof. destruct e1, e2. reflexivity. Qed.

(** While no key comes twice, the set of processed pairs skips nothing:
    each near pair gets one issue. *)
Lemma nearDuplicates_fresh (pairs : list (ColorEntry * ColorEntry)) :
  forall processedPairs w,
    List.NoDup (keysOf pairs) ->
    (forall k, In k (keysOf pairs) -> includes processedPairs k = false) ->
    exists issues w',
      nearDuplicates pairs processedPairs w = Ok issues w'
      /\ List.map withoutId issues
         = List.map nearDuplicateFinding (List.filter nearPair pairs).
Proof.
  induction pairs as [|[e1 e2] pairs IH]; intros processedPairs w Hnd Hfresh.
  - exists [], w. split; reflexivity.
  - simpl in Hnd. apply List.NoDup_cons_iff in Hnd as [Hkey Hnd].
    assert (includes processedPairs (pairKey (fst e1) (fst e2)) = false)
      as Hkey0 by (apply Hfresh; left; reflexivity).
    cbn [nearDuplicates]. rewrite Hkey0.
    assert (forall k, In k (keysOf pairs) ->
              includes (pairKey (fst e1) (fst e2) :: processedPairs) k = false)
      as Hfresh'.
    { intros k Hk. unfold includes. simpl.
      destruct (String.eqb_spec k (pairKey (fst e1) (fst e2))) as [->|_];
        [contradiction|].
      apply (Hfresh k). right. exact Hk. }
    cbn [List.filter]. unfold nearPair at 1. cbn [fst snd].
    fold (distanceOf (fst e1) (fst e2)).
    destruct ((0 <? distanceOf (fst e1) (fst e2))%float
              && (distanceOf (fst e1) (fst e2) <? 15)%float).
    + unfold bind at 1. unfold bind at 1. unfold generateId at 1.
      cbn beta iota zeta.
      destruct (IH _ (mkWorld (S (counter w)) (random w) (draws w)) Hnd Hfresh')
        as (more & w' & Hmore & Hmap).
      unfold bind, ret. rewrite Hmore.
      eexists. eexists. split; [reflexivity|].
      cbn [List.map app]. rewrite withoutId_nearDuplicateIssue, Hmap.
      reflexivity.
    + unfold bind at 1. unfold ret at 1. cbn beta iota.
      destruct (IH _ w Hnd Hfresh') as (more & w' & Hmore & Hmap).
      unfold bind, ret. rewrite Hmore.
      eexists. eexists. split; [reflexivity|exact Hmap].
Qed.

Lemma nearDuplicateFinding_medium (issues : list Issue.t) :
  forall pairs,
    List.map withoutId issues = List.map nearDuplicateFinding pairs ->
    List.filter isMedium issues = issues.
Proof.
  induction issues as [|i issues IH]; intros [|p pairs] H; try discriminate;
    [reflexivity|].
  simpl in H. injection H as Hi H. simpl.
  assert (isMedium i = true) as ->.
  { change (isMedium i) with (isMedium (withoutId i)). rewrite Hi.
    destruct p as [[c1 d1] [c2 d2]]. reflexivity. }
  rewrite (IH pairs H). reflexivity.
Qed.

(** The palette check returns, with issues of low severity only. *)
Lemma checkPalette_low (palette : list string) (usedColors : UsedColors) w :
  exists off w',
    forEach (checkPalette palette) usedColors w = Ok off w'
    /\ List.filter isMedium off = [].
Proof.
  destruct (forEach_map (checkPalette palette) isMedium
              (fun entry : ColorEntry =>
                 if (ColorUsage.count (snd entry) <? 3)%nat then []
                 else if (20 <? colorDistance (colorText (fst entry))
                                  (orUndefined
                                     (findNearestColor (colorText (fst entry))
                                        palette)))%float
                      then [false] else [])
              usedColors) with (w := w) as (off & w' & Hrun & Hmap).
  { intros [color data] w0 _. unfold checkPalette. simpl.
    destruct (ColorUsage.count data <? 3)%nat.
    - eexists. eexists. split; reflexivity.
    - destruct (20 <? _)%float.
      + eexists. eexists. split; reflexivity.
      + eexists. eexists. split; reflexivity. }
  exists off, w'. split; [exact Hrun|].
  assert (Forall (fun b => b = false) (List.map isMedium off)) as Hall.
  { rewrite Hmap. clear. induction usedColors as [|e l IH]; [constructor|].
    simpl. apply Forall_app. split; [|exact IH].
    destruct (ColorUsage.count (snd e) <? 3)%nat; [constructor|].
    destruct (20 <? _)%float; repeat constructor. }
  clear Hrun Hmap. induction off as [|i off IH]; [reflexivity|].
  simpl in Hall. pose proof (Forall_inv Hall) as Hi.
  simpl. rewrite Hi. apply IH. exact (Forall_inv_tail Hall).
Qed.

(** C4, as the code has it. Provided no collected colour contains the
    character ['|']: the collected colours are pairwise distinct, the
    nested loops visit every unordered pair of them exactly once, and the
    medium-severity issues are, in the order of the visits, exactly one
    issue for each visited pair at distance strictly between 0 and 15.
    The fix of that issue names both colours with their occurrence counts
    and its code replaces the colour collected later by the colour
    collected first, whatever the counts. *)
Theorem near_duplicates_one_issue_per_pair :
  forall snapshots config w,
    let usedColors := collectColors snapshots in
    Forall (fun e => noBar (colorText (fst e)) = true) usedColors ->
    List.NoDup (List.map fst usedColors)
    /\ List.NoDup (keysOf (allPairs usedColors))
    /\ (forall e1 e2 : ColorEntry,
          In e1 usedColors -> In e2 usedColors -> fst e1 <> fst e2 ->
          In (e1, e2) (allPairs usedColors) \/ In (e2, e1) (allPairs usedColors))
    /\ (exists issues w',
          analyzeColors snapshots config w = Ok issues w'
          /\ List.map withoutId (List.filter isMedium issues)
             = List.map nearDuplicateFinding
                 (List.filter nearPair (allPairs usedColors)))
    /\ (forall (color1 color2 : Color) (data1 data2 : ColorUsage.t),
          let issue := nearDuplicateFinding ((color1, data1), (color2, data2)) in
          Issue.severity issue = medium
          /\ Issue.fix_ issue
             = Some (Fix.mk
                 [Str "Consolidate to a single color. Use ";
                  Str (colorText color1);
                  Str " ("; Cnt (ColorUsage.count data1);
                  Str " occurrences) or "; Str (colorText color2); Str " (";
                  Cnt (ColorUsage.count data2); Str " occurrences)."]
                 (Some (IssueFix.mk "styles/colors.css"
                    [Str "color: "; Str (colorText color2); Str ";"]
                    [Str "color: "; Str (colorText color1); Str ";"]
                    None)))).
Proof.
  intros snapshots config w usedColors Hbar.
  pose proof (collectColors_NoDup snapshots) as Hnd. fold usedColors in Hnd.
  pose proof (collectColors_shaped snapshots) as Hshape.
  fold usedColors in Hshape.
  pose proof (keysOf_allPairs_NoDup usedColors Hnd Hshape Hbar) as Hkeys.
  split; [exact Hnd|]. split; [exact Hkeys|]. split; [|split].
  - intros e1 e2 H1 H2 Hne. apply allPairs_cover; try assumption.
    intros ->. apply Hne. reflexivity.
  - unfold analyzeColors. fold usedColors.
    destruct (nearDuplicates_fresh (allPairs usedColors) [] w Hkeys
                (fun k _ => eq_refl)) as (near & w1 & Hnear & Hmap).
    destruct (checkPalette_low (KarenConfig.colorPalette config) usedColors w1)
      as (off & w2 & Hoff & Hlow).
    exists (near ++ off), w2. unfold bind. rewrite Hnear, Hoff.
    split; [reflexivity|].
    rewrite List.filter_app, Hlow, app_nil_r.
    rewrite (nearDuplicateFinding_medium near _ Hmap). exact Hmap.
  - intros color1 color2 data1 data2. split; reflexivity.
Qed.

(** The theorem on the palette scenario: two colours, one near pair, one
    medium issue. *)
Lemma near_duplicates_one_issue_per_pair_witness :
  exists issues w',
    analyzeColors twoBlues defaultConfig world0 = Ok issues w'
    /\ List.map withoutId (List.filter isMedium issues)
       = List.map nearDuplicateFinding
           (List.filter nearPair (allPairs (collectColors twoBlues))).
Proof.
  assert (Forall (fun e : ColorEntry => noBar (colorText (fst e)) = true)
                 (collectColors twoBlues)) as Hbar
    by (repeat constructor).
  exact (proj1 (proj2 (proj2 (proj2
           (near_duplicates_one_issue_per_pair twoBlues defaultConfig world0
              Hbar))))).
Defined.

(** Without the proviso a pair can go unreported: the key of
    [#000000|#1] and [#000001] is that of [#000000] and [#1|#000001],
    visited before; the pair is at distance 1.73 and gets no issue. *)
Lemma barred_pair_unreported :
  List.filter nearPair (allPairs (collectColors barredColors))
  = [ ((Hex "#000000", ColorUsage.mk 1 [".a"]),
       (Hex "#000001", ColorUsage.mk 1 [".a"]));
      ((Hex "#1|#000001", ColorUsage.mk 1 [".a"]),
       (Hex "#000001", ColorUsage.mk 1 [".a"]));
      ((Hex "#000000|#1", ColorUsage.mk 1 [".a"]),
       (Hex "#000001", ColorUsage.mk 1 [".a"])) ]
  /\ exists issues w',
       analyzeColors barredColors defaultConfig world0 = Ok issues w'
       /\ List.map Issue.details (List.filter isMedium issues)
          = [ NearDuplicateDetails (Hex "#000000") (Hex "#000001") 1.73 1 1
                [".a"];
              NearDuplicateDetails (Hex "#1|#000001") (Hex "#000001") 1.73 1 1
                [".a"] ].
Proof.
  split; [vm_compute; reflexivity|].
  eexists. eexists. split; vm_compute; reflexivity.
Qed.



(** ** Colour distance and the palette *)

Lemma sameFloat_eq x y : sameFloat x y = true -> x = y.
Proof.
  unfold sameFloat. intros H. apply Prim2SF_inj.
  destruct (Prim2SF x) as [s1|s1| |s1 m1 e1], (Prim2SF y) as [s2|s2| |s2 m2 e2];
    try discriminate; try reflexivity.
  - apply Bool.eqb_prop in H. congruence.
  - apply Bool.eqb_prop in H. congruence.
  - apply andb_true_iff in H as [H He]. apply andb_true_iff in H as [Hs Hm].
    apply Bool.eqb_prop in Hs. apply Pos.eqb_eq in Hm. apply Z.eqb_eq in He.
    congruence.
Qed.

Lemma forallb_In {A} (p : A -> bool) l x :
  forallb p l = true -> In x l -> p x = true.
Proof. intros H Hx. rewrite forallb_forall in H. apply H, Hx. Qed.

Lemma channels_sub_self x : In x channels -> (x - x)%float = 0%float.
Proof.
  intros Hx. apply sameFloat_eq.
  apply (forallb_In (fun x => sameFloat (x - x) 0) channels x); [|exact Hx].
  vm_compute. reflexivity.
Qed.

Lemma channels_selfDistance r : In r channels -> selfDistance r = 0%float.
Proof.
  intros Hr. apply sameFloat_eq.
  apply (forallb_In (fun r => sameFloat (selfDistance r) 0) channels r);
    [|exact Hr].
  vm_compute. reflexivity.
Qed.

Lemma hexVal_range c : isHexDigit c = true -> 0 <= hexVal c <= 15.
Proof.
  unfold isHexDigit, hexVal, isDigit, isLowerHex, isUpperHex.
  destruct ((48 <=? code c)%nat && (code c <=? 57)%nat) eqn:Hd;
    [apply andb_true_iff in Hd as [H1 H2];
     apply Nat.leb_le in H1; apply Nat.leb_le in H2; lia|].
  destruct ((97 <=? code c)%nat && (code c <=? 102)%nat) eqn:Hl;
    [apply andb_true_iff in Hl as [H1 H2];
     apply Nat.leb_le in H1; apply Nat.leb_le in H2; lia|].
  cbn [orb]. intros H. apply andb_true_iff in H as [H1 H2].
  apply Nat.leb_le in H1; apply Nat.leb_le in H2; lia.
Qed.

Lemma parseInt16_pair a b :
  isHexDigit a = true -> isHexDigit b = true ->
  parseInt16 (str [a; b]) = Z2float (hexVal a * 16 + hexVal b)
  /\ In (parseInt16 (str [a; b])) channels.
Proof.
  intros Ha Hb.
  assert (parseInt16 (str [a; b]) = Z2float (hexVal a * 16 + hexVal b)) as ->.
  { unfold parseInt16. rewrite chars_str. simpl. rewrite Ha, Hb.
    unfold hexToZ. simpl. reflexivity. }
  pose proof (hexVal_range a Ha). pose proof (hexVal_range b Hb).
  split; [reflexivity|].
  unfold channels. apply in_map_iff.
  exists (Z.to_nat (hexVal a * 16 + hexVal b)). split.
  - rewrite Z2Nat.id by lia. reflexivity.
  - apply in_seq. lia.
Qed.

Lemma hexToRgb_channels hex :
  In (RGB.r (hexToRgb hex)) channels
  /\ In (RGB.g (hexToRgb hex)) channels
  /\ In (RGB.b (hexToRgb hex)) channels.
Proof.
  assert (In 0%float channels) as H0.
  { unfold channels. apply in_map_iff. exists 0%nat. split; [reflexivity|].
    apply in_seq. lia. }
  unfold hexToRgb, matchHex.
  set (body := match chars hex with
               | c :: l' => if Ascii.eqb c "#"%char then l' else chars hex
               | [] => chars hex
               end).
  destruct body as [|a [|b [|c [|d [|e [|f [|g l]]]]]]];
    cbn [RGB.r RGB.g RGB.b]; auto.
  cbn [forallb].
  destruct (isHexDigit a) eqn:Ha; cbn [andb RGB.r RGB.g RGB.b]; auto.
  destruct (isHexDigit b) eqn:Hb; cbn [andb RGB.r RGB.g RGB.b]; auto.
  destruct (isHexDigit c) eqn:Hc; cbn [andb RGB.r RGB.g RGB.b]; auto.
  destruct (isHexDigit d) eqn:Hd; cbn [andb RGB.r RGB.g RGB.b]; auto.
  destruct (isHexDigit e) eqn:He; cbn [andb RGB.r RGB.g RGB.b]; auto.
  destruct (isHexDigit f) eqn:Hf; cbn [andb RGB.r RGB.g RGB.b]; auto.
  repeat split; apply parseInt16_pair; assumption.
Qed.

Lemma colorDistance_equal_rgb color1 color2 :
  hexToRgb color1 = hexToRgb color2 -> colorDistance color1 color2 = 0%float.
Proof.
  intros H. unfold colorDistance. rewrite H.
  destruct (hexToRgb_channels color2) as (Hr & Hg & Hb).
  rewrite (channels_sub_self _ Hg), (channels_sub_self _ Hb).
  apply (channels_selfDistance _ Hr).
Qed.

Lemma colorDistance_self color : colorDistance color color = 0%float.
Proof. apply colorDistance_equal_rgb. reflexivity. Qed.

(** X5. Two colour strings that [hexToRgb] reads as the same channels are at
    distance exactly 0, so they are never reported as near-duplicates of
    each other. *)
Theorem same_rgb_never_near_duplicates :
  forall (e1 e2 : ColorEntry),
    hexToRgb (colorText (fst e1)) = hexToRgb (colorText (fst e2)) ->
    distanceOf (fst e1) (fst e2) = 0%float
    /\ nearPair (e1, e2) = false.
Proof.
  intros e1 e2 H. pose proof (colorDistance_equal_rgb _ _ H) as Hd.
  fold (distanceOf (fst e1) (fst e2)) in Hd.
  split; [exact Hd|]. unfold nearPair. cbn [fst snd]. rewrite Hd. reflexivity.
Qed.

(** Shorthand hex colours are not read by [hexToRgb]: both count as
    black. *)
Lemma same_rgb_never_near_duplicates_witness :
  hexToRgb "#FFF" = RGB.mk 0 0 0
  /\ colorDistance "#FFF" "#000000" = 0%float
  /\ nearPair ((Hex "#FFF", ColorUsage.mk 1 [".a"]),
               (Hex "#000000", ColorUsage.mk 1 [".b"])) = false.
Proof.
  split; [reflexivity|].
  apply (same_rgb_never_near_duplicates
           (Hex "#FFF", ColorUsage.mk 1 [".a"])
           (Hex "#000000", ColorUsage.mk 1 [".b"])).
  vm_compute. reflexivity.
Defined.

(** A square root is [NaN], a zero, or positive. *)
Lemma sqrt_not_negative x :
  match Prim2SF (Math_sqrt x) with
  | S754_infinity true | S754_finite true _ _ => False
  | _ => True
  end.
Proof.
  unfold Math_sqrt. rewrite sqrt_spec. unfold SF64sqrt, SFsqrt.
  destruct (Prim2SF x) as [s|[|]| |[|] m e]; try exact I.
  destruct (SFsqrt_core_binary prec emax (Z.pos m) e) as [[mz ez] lz].
  unfold binary_round_aux.
  destruct (shr_fexp prec emax mz ez lz) as [mrs' e'].
  destruct (shr_fexp prec emax _ e' loc_Exact) as [mrs'' e''].
  destruct (shr_m mrs''); try exact I.
  destruct (e'' <=? emax - prec)%Z; exact I.
Qed.

Lemma colorDistance_vs_zero color p m :
  isZero m = true -> (colorDistance color p <? m)%float = false.
Proof.
  unfold isZero. intros Hm. rewrite FloatAxioms.ltb_spec.
  pose proof (sqrt_not_negative
    (let rMean := ((RGB.r (hexToRgb color) + RGB.r (hexToRgb p)) / 2)%float in
     let r := (RGB.r (hexToRgb color) - RGB.r (hexToRgb p))%float in
     let g := (RGB.g (hexToRgb color) - RGB.g (hexToRgb p))%float in
     let b := (RGB.b (hexToRgb color) - RGB.b (hexToRgb p))%float in
     (2 + rMean / 256) * r * r + 4 * g * g
     + (2 + (255 - rMean) / 256) * b * b)%float) as Hd.
  change (Math_sqrt _) with (colorDistance color p) in Hd.
  destruct (Prim2SF m) as [s|s| |s mm e]; try discriminate.
  destruct (Prim2SF (colorDistance color p)) as [s'|[|]| |[|] m' e'];
    try contradiction; reflexivity.
Qed.

Lemma colorDistance_zero_or_more color p :
  isNaN (colorDistance color p) = false ->
  (0 <? colorDistance color p)%float = false ->
  isZero (colorDistance color p) = true.
Proof.
  pose proof (colorDistance_vs_zero color p 0 eq_refl) as Hlt.
  unfold isNaN, isZero.
  rewrite FloatAxioms.ltb_spec, FloatAxioms.eqb_spec in *.
  change (Prim2SF 0) with (S754_zero false) in *.
  destruct (Prim2SF (colorDistance color p)) as [s'|[|]| |[|] m' e'];
    simpl; try discriminate; try reflexivity.
Qed.

Section NearestInPalette.

Variable color : string.

Let step :=
  fun '(nearestColor, minDistance) paletteColor =>
    let distance := colorDistance color paletteColor in
    if (distance <? minDistance)%float
    then (Some paletteColor, distance)
    else (nearestColor : option string, minDistance).

Let searching (st : option string * float) : Prop :=
  snd st = infinity
  \/ exists n, fst st = Some n /\ snd st = colorDistance color n
               /\ isNaN (snd st) = false.

Let found (st : option string * float) : Prop :=
  exists n, fst st = Some n /\ snd st = colorDistance color n
            /\ isZero (snd st) = true.

Lemma nearest_found_stays palette :
  forall st, found st -> found (fold_left step palette st).
Proof.
  induction palette as [|p palette IH]; intros st Hst; [exact Hst|].
  simpl. apply IH. destruct st as [nc m].
  destruct Hst as (n & Hn & Hm & Hz). simpl in *.
  rewrite (colorDistance_vs_zero color p m Hz). exists n. auto.
Qed.

Lemma nearest_step_hit st : searching st -> found (step st color).
Proof.
  destruct st as [nc m]. intros Hst. simpl.
  rewrite colorDistance_self.
  destruct (0 <? m)%float eqn:Hlt.
  - exists color. simpl. rewrite colorDistance_self. auto.
  - destruct Hst as [Hinf|(n & Hn & Hm & Hnan)]; simpl in *.
    + rewrite Hinf in Hlt. discriminate Hlt.
    + exists n. simpl. split; [exact Hn|]. split; [exact Hm|].
      rewrite Hm in *. apply colorDistance_zero_or_more; assumption.
Qed.

Lemma nearest_step_other st p : searching st -> searching (step st p).
Proof.
  destruct st as [nc m]. intros Hst. simpl.
  destruct (colorDistance color p <? m)%float eqn:Hlt; [|exact Hst].
  right. exists p. simpl. split; [reflexivity|]. split; [reflexivity|].
  eapply ltb_not_nan. exact Hlt.
Qed.

Lemma nearest_reaches palette :
  forall st, searching st -> In color palette ->
             found (fold_left step palette st).
Proof.
  induction palette as [|p palette IH]; intros st Hst Hin; [destruct Hin|].
  simpl. destruct (String.eqb_spec p color) as [->|Hne].
  - apply nearest_found_stays, nearest_step_hit, Hst.
  - destruct Hin as [Hin|Hin]; [contradiction|].
    apply IH; [apply nearest_step_other, Hst|exact Hin].
Qed.

Lemma findNearestColor_of_palette_color palette :
  In color palette ->
  exists n, findNearestColor color palette = Some n
            /\ isZero (colorDistance color n) = true.
Proof.
  intros Hin. unfold findNearestColor.
  destruct (nearest_reaches palette (head palette, infinity)) as (n & Hn & Hm & Hz).
  - left. reflexivity.
  - exact Hin.
  - exists n. fold step. split; [exact Hn|]. rewrite <- Hm. exact Hz.
Qed.

End NearestInPalette.

Lemma checkPalette_of_palette_color palette color data w :
  In (colorText color) palette ->
  checkPalette palette (color, data) w = Ok [] w.
Proof.
  intros Hin. unfold checkPalette.
  destruct (ColorUsage.count data <? 3)%nat; [reflexivity|].
  destruct (findNearestColor_of_palette_color (colorText color) palette Hin)
    as (n & -> & Hz).
  cbn [orUndefined]. unfold isZero in Hz. rewrite FloatAxioms.ltb_spec.
  destruct (Prim2SF (colorDistance (colorText color) n)); try discriminate.
  reflexivity.
Qed.

Lemma checkPalette_color palette entry w bs w' i :
  checkPalette palette entry w = Ok bs w' -> In i bs ->
  offPaletteColor i = Some (fst entry)
  /\ (3 <= ColorUsage.count (snd entry))%nat.
Proof.
  destruct entry as [color data]. unfold checkPalette.
  destruct (ColorUsage.count data <? 3)%nat eqn:Hc; [intros [= <- _] []|].
  destruct (20 <? _)%float; [|intros [= <- _] []].
  unfold bind. simpl. intros [= <- _] [<-|[]].
  split; [reflexivity|]. apply Nat.ltb_ge in Hc. exact Hc.
Qed.

Lemma nearDuplicates_details pairs :
  forall processedPairs w issues w' i,
    nearDuplicates pairs processedPairs w = Ok issues w' -> In i issues ->
    offPaletteColor i = None.
Proof.
  induction pairs as [|[[c1 d1] [c2 d2]] pairs IH];
    intros processedPairs w issues w' i; simpl.
  - intros [= <- _] [].
  - destruct (includes processedPairs (pairKey c1 c2)); [apply IH|].
    unfold bind at 1.
    destruct ((0 <? colorDistance (colorText c1) (colorText c2))%float
              && (colorDistance (colorText c1) (colorText c2) <? 15)%float).
    + unfold bind at 1. simpl. unfold bind.
      destruct (nearDuplicates pairs _ _) as [more w1|] eqn:Hmore; [|discriminate].
      simpl. intros [= <- _] [<-|Hi]; [reflexivity|].
      eapply IH; eassumption.
    + simpl. unfold bind.
      destruct (nearDuplicates pairs _ _) as [more w1|] eqn:Hmore; [|discriminate].
      simpl. intros [= <- _] Hi. eapply IH; eassumption.
Qed.

(** X6. A colour that is listed in the palette as it is recorded is never
    reported as off-palette, and a reported colour is used at least 3
    times. *)
Theorem palette_colors_not_flagged :
  forall snapshots config w issues w',
    analyzeColors snapshots config w = Ok issues w' ->
    forall i color, In i issues -> offPaletteColor i = Some color ->
      ~ In (colorText color) (KarenConfig.colorPalette config)
      /\ exists data, In (color, data) (collectColors snapshots)
                      /\ (3 <= ColorUsage.count data)%nat.
Proof.
  intros snapshots config w issues w'. unfold analyzeColors, bind.
  destruct (nearDuplicates _ _ w) as [near w1|] eqn:Hnear; [|discriminate].
  destruct (forEach _ _ w1) as [off w2|] eqn:Hoff; [|discriminate].
  simpl. intros [= <- _] i color Hi Hcolor.
  apply in_app_or in Hi as [Hi|Hi].
  - rewrite (nearDuplicates_details _ _ _ _ _ _ Hnear Hi) in Hcolor.
    discriminate.
  - destruct (forEach_In _ _ _ _ _ _ Hoff Hi)
      as ([c data] & wa & bs & wb & Hin & Hrun & Hib).
    destruct (checkPalette_color _ _ _ _ _ _ Hrun Hib) as [Hc Hcount].
    rewrite Hc in Hcolor. simpl in Hcolor, Hcount.
    injection Hcolor as <-. split.
    + intros Hpal.
      rewrite (checkPalette_of_palette_color _ _ data wa Hpal) in Hrun.
      injection Hrun as <- _. destruct Hib.
    + exists data. split; assumption.
Qed.

Lemma palette_colors_not_flagged_witness :
  exists issues w',
    analyzeColors twoBlues defaultConfig world0 = Ok issues w'
    /\ List.map offPaletteColor issues
       = [None; Some (Hex "#AABBC5"); Some (Hex "#AABBCC")]
    /\ forall i color, In i issues -> offPaletteColor i = Some color ->
         ~ In (colorText color) (KarenConfig.colorPalette defaultConfig).
Proof.
  eexists. eexists. split; [vm_compute; reflexivity|]. split; [reflexivity|].
  intros i color Hi Hc.
  eapply (palette_colors_not_flagged twoBlues defaultConfig world0).
  - vm_compute. reflexivity.
  - exact Hi.
  - exact Hc.
Defined.


(** ** Hexadecimal round trip *)

Lemma channels_hexRoundTrip x :
  In x channels ->
  exists a b, chars (toUpperCase (hex2 x)) = [a; b]
              /\ isHexDigit a = true /\ isHexDigit b = true
              /\ parseInt16 (str [a; b]) = x.
Proof.
  intros Hx.
  assert (hexRoundTrip x = true) as H.
  { apply (forallb_In hexRoundTrip channels x); [|exact Hx].
    vm_compute. reflexivity. }
  unfold hexRoundTrip in H.
  destruct (chars (toUpperCase (hex2 x))) as [|a [|b [|c l]]]; try discriminate.
  apply andb_true_iff in H as [H Hs]. apply andb_true_iff in H as [Ha Hb].
  exists a, b. repeat split; try assumption. apply sameFloat_eq, Hs.
Qed.

Lemma rgbToHex_chars r g b :
  chars (rgbToHex r g b)
  = "#"%char :: chars (toUpperCase (hex2 r)) ++ chars (toUpperCase (hex2 g))
                ++ chars (toUpperCase (hex2 b)).
Proof.
  unfold rgbToHex.
  change (join "" (List.map _ [r; g; b]))
    with (hex2 r ++ "" ++ hex2 g ++ "" ++ hex2 b)%string.
  rewrite chars_app, !toUpperCase_app, !chars_app. reflexivity.
Qed.

(** What [rgbToHex] prints for 8-bit channels: ['#'] and six
    hexadecimal digits that read back as the channels. *)
Lemma rgbToHex_digits (r g b : nat) :
  (r < 256)%nat -> (g < 256)%nat -> (b < 256)%nat ->
  exists digits,
    chars (rgbToHex (Z2float (Z.of_nat r)) (Z2float (Z.of_nat g))
                    (Z2float (Z.of_nat b)))
    = "#"%char :: digits
    /\ forallb isHexDigit digits = true
    /\ matchHex ("#"%char :: digits)
       = match digits with
         | [a1; b1; a2; b2; a3; b3] =>
             Some (str [a1; b1], str [a2; b2], str [a3; b3])
         | _ => None
         end
    /\ match digits with
       | [a1; b1; a2; b2; a3; b3] =>
           parseInt16 (str [a1; b1]) = Z2float (Z.of_nat r)
           /\ parseInt16 (str [a2; b2]) = Z2float (Z.of_nat g)
           /\ parseInt16 (str [a3; b3]) = Z2float (Z.of_nat b)
       | _ => False
       end.
Proof.
  intros Hr Hg Hb.
  assert (forall n, (n < 256)%nat -> In (Z2float (Z.of_nat n)) channels) as Hin.
  { intros n Hn. unfold channels.
    apply (in_map (fun n => Z2float (Z.of_nat n))). apply in_seq. lia. }
  destruct (channels_hexRoundTrip _ (Hin r Hr)) as (a1 & b1 & E1 & Ha1 & Hb1 & P1).
  destruct (channels_hexRoundTrip _ (Hin g Hg)) as (a2 & b2 & E2 & Ha2 & Hb2 & P2).
  destruct (channels_hexRoundTrip _ (Hin b Hb)) as (a3 & b3 & E3 & Ha3 & Hb3 & P3).
  exists [a1; b1; a2; b2; a3; b3].
  rewrite rgbToHex_chars, E1, E2, E3.
  split; [reflexivity|].
  assert (forallb isHexDigit [a1; b1; a2; b2; a3; b3] = true) as Hall
    by (cbn [forallb]; rewrite Ha1, Hb1, Ha2, Hb2, Ha3, Hb3; reflexivity).
  split; [exact Hall|]. split.
  - unfold matchHex. cbn [Ascii.eqb Bool.eqb]. rewrite Hall. reflexivity.
  - repeat split; assumption.
Qed.

(** X7. Printing an 8-bit colour with [rgbToHex] and reading it with
    [hexToRgb] gives the colour back. *)
Theorem hex_round_trip :
  forall r g b : nat,
    (r < 256)%nat -> (g < 256)%nat -> (b < 256)%nat ->
    hexToRgb (rgbToHex (Z2float (Z.of_nat r)) (Z2float (Z.of_nat g))
                       (Z2float (Z.of_nat b)))
    = rgb8 r g b.
Proof.
  intros r g b Hr Hg Hb.
  destruct (rgbToHex_digits r g b Hr Hg Hb) as (digits & E & _ & Hm & Hp).
  unfold hexToRgb. rewrite E, Hm.
  destruct digits as [|a1 [|b1 [|a2 [|b2 [|a3 [|b3 [|x l]]]]]]];
    try contradiction.
  destruct Hp as (-> & -> & ->). reflexivity.
Qed.

(** The blue of the palette scenario. *)
Lemma hex_round_trip_witness :
  rgbToHex 170 187 204 = "#AABBCC"
  /\ hexToRgb "#AABBCC" = RGB.mk 170 187 204.
Proof.
  split; [vm_compute; reflexivity|].
  change "#AABBCC" with (rgbToHex (Z2float 170) (Z2float 187) (Z2float 204)).
  apply (hex_round_trip 170 187 204); lia.
Defined.


(** ** Colour normalisation *)

(** A string of the shape [normalizeColor] returns: ['#'], then upper
    case. *)
Lemma normalizeColor_hash s :
  normalizeColor (String "#" (toUpperCase s))
  = Some (Hex (String "#" (toUpperCase s))).
Proof.
  unfold normalizeColor.
  change (String.eqb (String "#" (toUpperCase s)) "") with false.
  change (String.eqb (String "#" (toUpperCase s)) "transparent") with false.
  change (startsWith (String "#" (toUpperCase s)) "#") with true.
  cbn [orb]. rewrite toUpperCase_hash, toUpperCase_idem. reflexivity.
Qed.



(** ** Colours written as [rgb(r, g, b)] *)

Lemma uint_digits d :
  forallb isDigit (chars (DecimalString.NilEmpty.string_of_uint d)) = true.
Proof. induction d; simpl; try reflexivity; exact IHd. Qed.

Lemma natToString_digits n :
  chars (natToString n) <> []
  /\ forallb isDigit (chars (natToString n)) = true.
Proof.
  unfold natToString. split; [|apply uint_digits].
  assert (Nat.to_uint n <> Decimal.Nil) as Hnil.
  { rewrite <- (Unsigned.of_to n) at 1. rewrite Unsigned.to_of.
    unfold Decimal.unorm. destruct (Decimal.nzhead (Nat.to_uint n)); discriminate. }
  destruct (Nat.to_uint n); try contradiction; discriminate.
Qed.

Lemma digit_differs c x :
  isDigit c = true -> isDigit x = false -> Ascii.eqb c x = false.
Proof.
  intros Hc Hx. destruct (Ascii.eqb_spec c x) as [->|]; [congruence|reflexivity].
Qed.

Lemma digit_not_space c : isDigit c = true -> isSpace c = false.
Proof.
  unfold isDigit, isSpace. intros H. apply andb_true_iff in H as [H1 H2].
  apply Nat.leb_le in H1. apply Nat.leb_le in H2.
  apply orb_false_iff. split; [apply orb_false_iff; split|].
  - apply andb_false_iff. right. apply Nat.leb_gt. lia.
  - apply Nat.eqb_neq. lia.
  - apply Nat.eqb_neq. lia.
Qed.

Lemma takeWhile_digits ds c rest :
  forallb isDigit ds = true -> isDigit c = false ->
  takeWhile isDigit (ds ++ c :: rest) = ds
  /\ dropWhile isDigit (ds ++ c :: rest) = c :: rest.
Proof.
  intros Hds Hc. induction ds as [|d ds IH]; simpl.
  - rewrite Hc. split; reflexivity.
  - simpl in Hds. apply andb_true_iff in Hds as [Hd Hds]. rewrite Hd.
    destruct (IH Hds) as [-> ->]. split; reflexivity.
Qed.

Lemma takeWhile_all_digits ds :
  forallb isDigit ds = true -> takeWhile isDigit ds = ds.
Proof.
  induction ds as [|d ds IH]; simpl; [reflexivity|].
  intros H. apply andb_true_iff in H as [Hd Hds]. rewrite Hd, (IH Hds).
  reflexivity.
Qed.

Lemma digits1_digits ds c rest :
  ds <> [] -> forallb isDigit ds = true -> isDigit c = false ->
  digits1 (ds ++ c :: rest) = Some (ds, c :: rest).
Proof.
  intros Hne Hds Hc. unfold digits1.
  destruct (takeWhile_digits ds c rest Hds Hc) as [-> ->].
  destruct ds; [contradiction|reflexivity].
Qed.

(** [parseInt] of a run of decimal digits is the number they write. *)
Lemma parseInt_digits ds :
  ds <> [] -> forallb isDigit ds = true ->
  parseInt (str ds) = Z2float (digitsToZ ds).
Proof.
  intros Hne Hds. unfold parseInt. rewrite chars_str.
  destruct ds as [|c l]; [contradiction|].
  pose proof Hds as Hall. simpl in Hds.
  apply andb_true_iff in Hds as [Hc Hl].
  cbn [dropWhile]. rewrite (digit_not_space c Hc).
  rewrite (digit_differs c "-" Hc eq_refl), (digit_differs c "+" Hc eq_refl).
  unfold unsignedInt.
  assert (takeWhile isDigit (c :: l) = c :: l) as Htake
    by (apply takeWhile_all_digits; exact Hall).
  destruct l as [|x l'].
  - rewrite Htake. reflexivity.
  - simpl in Hl. apply andb_true_iff in Hl as [Hx _].
    rewrite (digit_differs x "x" Hx eq_refl), (digit_differs x "X" Hx eq_refl).
    rewrite andb_false_r, Htake. reflexivity.
Qed.

Lemma parseInt_natToString n :
  parseInt (str (chars (natToString n))) = Z2float (Z.of_nat n).
Proof.
  destruct (natToString_digits n) as [Hne Hds].
  rewrite (parseInt_digits _ Hne Hds), digitsToZ_natToString. reflexivity.
Qed.

Lemma dropWhile_space_digits ds rest :
  ds <> [] -> forallb isDigit ds = true ->
  dropWhile isSpace (ds ++ rest) = ds ++ rest.
Proof.
  intros Hne Hds. destruct ds as [|d ds]; [contradiction|].
  simpl in Hds. apply andb_true_iff in Hds as [Hd _].
  cbn [app dropWhile]. rewrite (digit_not_space d Hd). reflexivity.
Qed.

Lemma matchRgbAt_rgb R G B :
  R <> [] -> forallb isDigit R = true ->
  G <> [] -> forallb isDigit G = true ->
  B <> [] -> forallb isDigit B = true ->
  matchRgbAt ("r"%char :: "g"%char :: "b"%char :: "("%char
              :: R ++ ","%char :: " "%char :: G ++ ","%char
              :: " "%char :: B ++ [")"%char])
  = Some (str R, str G, str B).
Proof.
  intros Hr Dr Hg Dg Hb Db. unfold matchRgbAt, expectPrefix.
  change (chars "rgb(") with ["r"; "g"; "b"; "("]%char.
  cbn [prefixChars Ascii.eqb Bool.eqb andb length skipn mbind option_bind].
  rewrite drop_0.
  rewrite (digits1_digits R ","%char _ Hr Dr eq_refl).
  cbn [mbind option_bind expectChar Ascii.eqb Bool.eqb dropWhile].
  change (isSpace " ") with true. cbv iota.
  rewrite (dropWhile_space_digits G _ Hg Dg).
  rewrite (digits1_digits G ","%char _ Hg Dg eq_refl).
  cbn [mbind option_bind expectChar Ascii.eqb Bool.eqb dropWhile].
  change (isSpace " ") with true. cbv iota.
  rewrite (dropWhile_space_digits B _ Hb Db).
  rewrite (digits1_digits B ")"%char _ Hb Db eq_refl).
  reflexivity.
Qed.

Lemma rgbString_chars r g b :
  chars (rgbString r g b)
  = "r"%char :: "g"%char :: "b"%char :: "("%char
    :: chars (natToString r) ++ ","%char :: " "%char
    :: chars (natToString g) ++ ","%char :: " "%char
    :: chars (natToString b) ++ [")"%char].
Proof. unfold rgbString. rewrite !chars_app. reflexivity. Qed.

(** X23. [parseColor] reads the channels of [rgb(r, g, b)] as they are
    written in decimal, whatever their size: none is clamped to 255. *)
Theorem parseColor_reads_rgb :
  forall r g b : nat,
    parseColor (rgbString r g b)
    = Some (RGB.mk (Z2float (Z.of_nat r)) (Z2float (Z.of_nat g))
                   (Z2float (Z.of_nat b))).
Proof.
  intros r g b. unfold parseColor.
  destruct (natToString_digits r) as [Hr Dr].
  destruct (natToString_digits g) as [Hg Dg].
  destruct (natToString_digits b) as [Hb Db].
  rewrite rgbString_chars.
  unfold search; fold (@search (string * string * string)).
  rewrite (matchRgbAt_rgb _ _ _ Hr Dr Hg Dg Hb Db).
  rewrite !parseInt_natToString. reflexivity.
Qed.

Lemma matchRgbaAt_rgb R G B :
  R <> [] -> forallb isDigit R = true ->
  G <> [] -> forallb isDigit G = true ->
  B <> [] -> forallb isDigit B = true ->
  matchRgbaAt ("r"%char :: "g"%char :: "b"%char :: "("%char
               :: R ++ ","%char :: " "%char :: G ++ ","%char
               :: " "%char :: B ++ [")"%char])
  = Some (str R, str G, str B, None).
Proof.
  intros Hr Dr Hg Dg Hb Db. unfold matchRgbaAt, expectPrefix.
  change (chars "rgb") with ["r"; "g"; "b"]%char.
  cbn [prefixChars Ascii.eqb Bool.eqb andb length skipn mbind option_bind].
  cbn [mbind option_bind expectChar Ascii.eqb Bool.eqb].
  rewrite (digits1_digits R ","%char _ Hr Dr eq_refl).
  cbn [mbind option_bind expectChar Ascii.eqb Bool.eqb dropWhile].
  change (isSpace " ") with true. cbv iota.
  rewrite (dropWhile_space_digits G _ Hg Dg).
  rewrite (digits1_digits G ","%char _ Hg Dg eq_refl).
  cbn [mbind option_bind expectChar Ascii.eqb Bool.eqb dropWhile].
  change (isSpace " ") with true. cbv iota.
  rewrite (dropWhile_space_digits B _ Hb Db).
  rewrite (digits1_digits B ")"%char _ Hb Db eq_refl).
  reflexivity.
Qed.

Lemma normalizeColor_rgbString r g b :
  normalizeColor (rgbString r g b)
  = Some (Hex (rgbToHex (Z2float (Z.of_nat r)) (Z2float (Z.of_nat g))
                        (Z2float (Z.of_nat b)))).
Proof.
  unfold normalizeColor.
  assert (String.eqb (rgbString r g b) "" = false) as -> by reflexivity.
  assert (String.eqb (rgbString r g b) "transparent" = false) as ->
    by reflexivity.
  assert (startsWith (rgbString r g b) "#" = false) as -> by reflexivity.
  cbn [orb].
  destruct (natToString_digits r) as [Hr Dr].
  destruct (natToString_digits g) as [Hg Dg].
  destruct (natToString_digits b) as [Hb Db].
  rewrite rgbString_chars.
  unfold search; fold (@search (string * string * string * option string)).
  rewrite (matchRgbaAt_rgb _ _ _ Hr Dr Hg Dg Hb Db).
  change (1 =? 0)%float with false. cbv iota.
  rewrite !parseInt_natToString. reflexivity.
Qed.

Lemma search_without_r l :
  Forall (fun c => Ascii.eqb "r"%char c = false) l ->
  search matchRgbAt l = None.
Proof.
  induction 1 as [|c l Hc Hl IH].
  - reflexivity.
  - unfold search; fold (@search (string * string * string)).
    unfold matchRgbAt at 1, expectPrefix.
    change (chars "rgb(") with ["r"; "g"; "b"; "("]%char.
    cbn [prefixChars]. rewrite Hc. cbn [andb mbind option_bind].
    exact IH.
Qed.

(** X24. The colour detector and the accessibility detector agree on a
    computed colour [rgb(r, g, b)] with 8-bit channels: the hex string
    [normalizeColor] returns for it is read by [hexToRgb] as the channels
    [parseColor] reads from it, which are [r], [g] and [b]. *)
Theorem detectors_agree_on_rgb :
  forall r g b : nat,
    (r < 256)%nat -> (g < 256)%nat -> (b < 256)%nat ->
    exists hex,
      normalizeColor (rgbString r g b) = Some (Hex hex)
      /\ hexToRgb hex = rgb8 r g b
      /\ parseColor (rgbString r g b) = Some (rgb8 r g b)
      /\ parseColor hex = Some (rgb8 r g b).
Proof.
  intros r g b Hr Hg Hb. eexists. split; [apply normalizeColor_rgbString|].
  destruct (rgbToHex_digits r g b Hr Hg Hb) as (digits & E & Hall & Hm & Hp).
  assert (digits_read :
            match matchHex ("#"%char :: digits) with
            | Some (m1, m2, m3) =>
                RGB.mk (parseInt16 m1) (parseInt16 m2) (parseInt16 m3)
                = rgb8 r g b
            | None => False
            end).
  { rewrite Hm.
    destruct digits as [|a1 [|b1 [|a2 [|b2 [|a3 [|b3 [|x l]]]]]]];
      try contradiction.
    destruct Hp as (-> & -> & ->). reflexivity. }
  split; [|split].
  - unfold hexToRgb. rewrite E.
    destruct (matchHex ("#"%char :: digits)) as [[[m1 m2] m3]|];
      [exact digits_read|contradiction].
  - destruct (natToString_digits r) as [Hr' Dr].
    destruct (natToString_digits g) as [Hg' Dg].
    destruct (natToString_digits b) as [Hb' Db].
    unfold parseColor. rewrite rgbString_chars.
    unfold search; fold (@search (string * string * string)).
    rewrite (matchRgbAt_rgb _ _ _ Hr' Dr Hg' Dg Hb' Db).
    rewrite !parseInt_natToString. reflexivity.
  - unfold parseColor. rewrite E.
    rewrite (search_without_r ("#"%char :: digits)).
    + destruct (matchHex ("#"%char :: digits)) as [[[m1 m2] m3]|];
        [rewrite digits_read; reflexivity|contradiction].
    + constructor; [reflexivity|].
      apply List.Forall_forall. intros c Hc.
      destruct (Ascii.eqb_spec "r"%char c) as [<-|]; [|reflexivity].
      rewrite forallb_forall in Hall. discriminate (Hall _ Hc).
Qed.

(** The blue of the palette scenario. *)
Lemma detectors_agree_on_rgb_witness :
  exists hex,
    normalizeColor "rgb(170, 187, 204)" = Some (Hex hex)
    /\ hexToRgb hex = RGB.mk 170 187 204
    /\ parseColor "rgb(170, 187, 204)" = Some (RGB.mk 170 187 204)
    /\ parseColor hex = Some (RGB.mk 170 187 204).
Proof. apply (detectors_agree_on_rgb 170 187 204); lia. Defined.


(** ** Colour collection *)

Lemma collectColors_fold (P : UsedColors -> list Color -> Prop) :
  P [] [] ->
  (forall used seen color selector,
     P used seen ->
     P (match normalizeColor color with
        | Some normalized => recordColor normalized selector used
        | None => used
        end)
       (seen ++ omap normalizeColor [color])) ->
  forall snapshots, P (collectColors snapshots) (occurrences snapshots).
Proof.
  intros Hnil Hstep snapshots. unfold collectColors, occurrences.
  assert (forall cs sel used seen,
            P used seen ->
            P (fold_left
                 (fun used color =>
                    match normalizeColor color with
                    | Some normalized => recordColor normalized sel used
                    | None => used
                    end) cs used)
              (seen ++ omap normalizeColor cs)) as Hcolors.
  { induction cs as [|color cs IH]; intros sel used seen H.
    - simpl. rewrite app_nil_r. exact H.
    - assert (omap normalizeColor (color :: cs)
              = omap normalizeColor [color] ++ omap normalizeColor cs) as ->
        by (simpl; destruct (normalizeColor color); reflexivity).
      rewrite app_assoc. simpl fold_left. apply IH. apply Hstep. exact H. }
  assert (forall dom used seen,
            P used seen ->
            P (fold_left collectElement dom used)
              (seen ++ flat_map
                         (fun element => omap normalizeColor (elementColors element))
                         dom)) as Hdom.
  { induction dom as [|el dom IH]; intros used seen H.
    - simpl. rewrite app_nil_r. exact H.
    - simpl. rewrite app_assoc. apply IH. unfold collectElement.
      apply Hcolors. exact H. }
  assert (forall used seen,
            P used seen ->
            P (fold_left
                 (fun used snapshot =>
                    fold_left collectElement (ViewportSnapshot.dom snapshot) used)
                 snapshots used)
              (seen ++ flat_map
                 (fun snapshot =>
                    flat_map
                      (fun element => omap normalizeColor (elementColors element))
                      (ViewportSnapshot.dom snapshot)) snapshots)) as Hall.
  { induction snapshots as [|snapshot snapshots IH]; intros used seen H.
    - simpl. rewrite app_nil_r. exact H.
    - simpl. rewrite app_assoc. apply IH. apply Hdom. exact H. }
  apply (Hall [] []). exact Hnil.
Qed.

Lemma usageCount_recordColor color normalized selector used :
  usageCount color (recordColor normalized selector used)
  = (usageCount color used + if Color_eqb normalized color then 1 else 0)%nat.
Proof.
  unfold usageCount. induction used as [|[c usage] rest IH]; simpl.
  - destruct (Color_eqb normalized color); reflexivity.
  - destruct (Color_eqb c normalized) eqn:E; simpl.
    + apply Color_eqb_eq in E. subst c.
      destruct (Color_eqb normalized color); simpl; [lia|].
      destruct (List.find _ rest); lia.
    + destruct (Color_eqb c color) eqn:E'; simpl.
      * apply Color_eqb_eq in E'. subst c.
        rewrite Color_eqb_sym, E. lia.
      * exact IH.
Qed.

(** X9. The count recorded for a colour is the number of its occurrences. *)
Theorem usage_counts_occurrences :
  forall snapshots color,
    usageCount color (collectColors snapshots)
    = length (List.filter (Color_eqb color) (occurrences snapshots)).
Proof.
  intros snapshots color.
  apply (collectColors_fold
           (fun used seen =>
              usageCount color used
              = length (List.filter (Color_eqb color) seen))).
  - reflexivity.
  - intros used seen c selector IH. rewrite List.filter_app, length_app, <- IH.
    simpl. destruct (normalizeColor c) as [normalized|]; simpl.
    + rewrite usageCount_recordColor, (Color_eqb_sym color normalized).
      destruct (Color_eqb normalized color); reflexivity.
    + lia.
Qed.

Lemma recordColor_wellFormed key selector used :
  normalized key ->
  Forall wellFormedUsage used ->
  Forall wellFormedUsage (recordColor key selector used).
Proof.
  intros Hn. induction 1 as [|[c usage] rest Hc Hrest IH]; simpl.
  - constructor; [|constructor]. unfold wellFormedUsage. simpl.
    split; [exact Hn|]. split; [discriminate|]. split; [|lia].
    constructor; [intros []|constructor].
  - destruct (Color_eqb c key).
    + constructor; [|exact Hrest].
      destruct Hc as (H1 & H2 & H3 & H4). unfold wellFormedUsage. simpl in *.
      split; [exact H1|].
      destruct (includes (ColorUsage.elements usage) selector) eqn:Hin.
      * split; [exact H2|]. split; [exact H3|]. lia.
      * apply includes_false in Hin.
        split; [destruct (ColorUsage.elements usage); discriminate|].
        split; [|rewrite length_app; simpl; lia].
        apply List.NoDup_app; [exact H3|constructor; [intros []|constructor]|].
        intros a Ha [<-|[]]. contradiction.
    + constructor; assumption.
Qed.

(** X10. Every entry of the map of used colours has as key a string that
    [normalizeColor] maps to itself, or one of the two objects the table
    of named colours inherits, and holds a non-empty list of distinct
    selectors, no longer than the count. *)
Theorem collected_usages_well_formed :
  forall snapshots, Forall wellFormedUsage (collectColors snapshots).
Proof.
  intros snapshots.
  apply (collectColors_fold (fun used _ => Forall wellFormedUsage used)).
  - constructor.
  - intros used seen color selector IH.
    destruct (normalizeColor color) as [key|] eqn:Hn; [|exact IH].
    apply recordColor_wellFormed; [|exact IH].
    pose proof (normalizeColor_shape _ _ Hn) as Hs.
    destruct key as [s| |]; [|exact I..].
    destruct Hs as (s' & ->). apply normalizeColor_hash.
Qed.


(** ** Issue identifiers *)

Lemma afterDash_app p rest :
  forallb (fun c => negb (Ascii.eqb c "-"%char)) p = true ->
  afterDash (p ++ "-"%char :: rest) = rest.
Proof.
  unfold afterDash. induction p as [|c p IH]; simpl; [reflexivity|].
  intros H. apply andb_true_iff in H as [Hc Hp]. rewrite Hc. apply IH, Hp.
Qed.

Lemma idNumber_generateId prefix w :
  dashFree prefix = true ->
  match generateId prefix w with
  | Ok id w' => idNumber id = Z.of_nat (counter w') /\ counter w' = S (counter w)
  | Throw _ _ => False
  end.
Proof.
  intros Hp. unfold generateId, idNumber. simpl. split; [|reflexivity].
  rewrite !chars_app. change (chars "-") with ["-"%char]. simpl.
  rewrite afterDash_app by exact Hp. apply digitsToZ_padStart4.
Qed.

Lemma numberedFrom_app c l1 l2 :
  numberedFrom c l1 -> numberedFrom (c + length l1) l2 ->
  numberedFrom c (l1 ++ l2).
Proof.
  unfold numberedFrom. intros H1 H2.
  rewrite List.map_app, length_app, seq_app, List.map_app, H1, H2.
  reflexivity.
Qed.

Lemma numbered_ret_nil : numbered (ret []).
Proof. intros w. simpl. split; [lia|reflexivity]. Qed.

Lemma numbered_app (m1 m2 : M (list Issue.t)) :
  numbered m1 -> numbered m2 ->
  numbered (a <- m1 ;; b <- m2 ;; ret (a ++ b)).
Proof.
  intros H1 H2 w. unfold bind, ret. specialize (H1 w).
  destruct (m1 w) as [a w1|e w1]; [|exact I].
  specialize (H2 w1). destruct (m2 w1) as [b w2|e w2]; [|exact I].
  destruct H1 as [Hc1 Hn1], H2 as [Hc2 Hn2]. split.
  - rewrite length_app. lia.
  - apply numberedFrom_app; [exact Hn1|]. rewrite <- Hc1. exact Hn2.
Qed.

Lemma numbered_forEach {A} (body : A -> M (list Issue.t)) (l : list A) :
  (forall a, In a l -> numbered (body a)) -> numbered (forEach body l).
Proof.
  induction l as [|a l IH]; intros Hbody; simpl.
  - apply numbered_ret_nil.
  - apply numbered_app; [apply Hbody; left; reflexivity|].
    apply IH. intros a' Ha'. apply Hbody. right. exact Ha'.
Qed.

Lemma numbered_generateId prefix (k : string -> M (list Issue.t)) :
  dashFree prefix = true ->
  (forall id, emits id (k id)) ->
  numbered (bind (generateId prefix) k).
Proof.
  intros Hp Hk w. unfold bind.
  pose proof (idNumber_generateId prefix w Hp) as Hid.
  destruct (generateId prefix w) as [id w1|e w1]; [|contradiction].
  destruct Hid as [Hnum Hc]. specialize (Hk id w1).
  destruct (k id w1) as [l w2|e w2]; [|exact I].
  destruct Hk as [Hc2 (i & -> & Hi)]. simpl. split; [lia|].
  unfold numberedFrom. simpl. rewrite Hi, Hnum, Hc. reflexivity.
Qed.

Lemma emits_pick id choices (k : text -> M (list Issue.t)) :
  (forall message, emits id (k message)) -> emits id (bind (pick choices) k).
Proof.
  intros Hk w. unfold bind, pick, randomIndex, ret.
  exact (Hk _ (mkWorld (counter w) (random w) (S (draws w)))).
Qed.

Lemma emits_ret id i : Issue.id i = id -> emits id (ret [i]).
Proof. intros Hi w. simpl. split; [reflexivity|]. exists i. split; [reflexivity|exact Hi]. Qed.

Lemma numbered_findNearest value scale (k : float -> M (list Issue.t)) :
  (forall nearest, numbered (k nearest)) ->
  numbered (bind (findNearest value scale) k).
Proof.
  intros Hk w. unfold bind. destruct scale as [|first rest]; simpl; [exact I|].
  apply (Hk _ w).
Qed.

(** Steps shared by the proofs below. *)

Lemma numbered_continues (m : M (list Issue.t)) :
  continues [] m -> numbered m.
Proof.
  intros H w. specialize (H w). destruct (m w) as [issues w'|]; [|exact I].
  destruct H as (more & -> & Hc & Hn). split; assumption.
Qed.

Lemma continues_bind acc (m : M (list Issue.t))
    (k : list Issue.t -> M (list Issue.t)) :
  numbered m -> (forall a, continues (acc ++ a) (k a)) ->
  continues acc (bind m k).
Proof.
  intros Hm Hk w. unfold bind. specialize (Hm w).
  destruct (m w) as [a w1|e w1]; [|exact I].
  destruct Hm as [Hc1 Hn1]. specialize (Hk a w1).
  destruct (k a w1) as [issues w2|e w2]; [|exact I].
  destruct Hk as (more & -> & Hc2 & Hn2).
  exists (a ++ more). split; [rewrite app_assoc; reflexivity|].
  split; [rewrite length_app; lia|].
  apply numberedFrom_app; [exact Hn1|]. rewrite <- Hc1. exact Hn2.
Qed.

Lemma continues_ret acc l : acc = l -> continues acc (ret l).
Proof.
  intros <- w. exists []. simpl. split; [rewrite app_nil_r; reflexivity|].
  split; [lia|reflexivity].
Qed.

(** Steps shared by the proofs below. *)
Ltac numbered_step :=
  match goal with
  | |- numbered (ret []) => apply numbered_ret_nil
  | |- numbered (forEach _ _) => apply numbered_forEach; intros ? _
  | |- numbered (bind (findNearest _ _) _) =>
      apply numbered_findNearest; intros ?
  | |- numbered (bind (generateId _) _) =>
      apply numbered_generateId; [reflexivity|intros ?]
  | |- numbered (bind _ _) => apply numbered_continues
  | |- continues _ (bind _ _) => apply continues_bind; [|intros ?]
  | |- continues _ (ret _) =>
      apply continues_ret; cbn [app]; rewrite <- ?app_assoc; reflexivity
  | |- emits _ (bind (pick _) _) => apply emits_pick; intros ?
  | |- emits _ (ret [_]) => apply emits_ret; reflexivity
  | |- numbered (if ?b then _ else _) => destruct b
  | |- numbered (match ?x with _ => _ end) => destruct x
  | |- numbered (throw _) => intros ?; exact I
  end.


Lemma analyzeSpacing_numbered snapshots config :
  numbered (analyzeSpacing snapshots config).
Proof.
  unfold analyzeSpacing. do 3 numbered_step.
  unfold checkSpacingValue. repeat numbered_step.
Qed.


















(** X21. On a scale with at least one entry the spacing analysis returns,
    and the id counter has advanced by the number of issues. *)
Theorem spacing_analysis_returns_on_nonempty_scale :
  forall snapshots config w,
    KarenConfig.spacingScale config <> [] ->
    exists issues w',
      analyzeSpacing snapshots config w = Ok issues w'
      /\ counter w' = (counter w + length issues)%nat.
Proof.
  intros snapshots config w Hscale.
  destruct (analyzeSpacing_total_on_nonempty_scale snapshots config w Hscale)
    as (issues & w' & Hrun).
  exists issues, w'. split; [exact Hrun|].
  pose proof (analyzeSpacing_numbered snapshots config w) as H.
  rewrite Hrun in H. exact (proj1 H).
Qed.

Lemma spacing_analysis_returns_on_nonempty_scale_witness :
  exists issues w',
    analyzeSpacing margin5 defaultConfig world0 = Ok issues w'
    /\ counter w' = (counter world0 + length issues)%nat.
Proof.
  apply (spacing_analysis_returns_on_nonempty_scale margin5 defaultConfig world0).
  discriminate.
Defined.

(** ** Issue types and features *)

Lemma every_ret_nil P : every P (ret []).
Proof. intros w. constructor. Qed.

Lemma every_ret_one P i : P i -> every P (ret [i]).
Proof. intros H w. simpl. constructor; [exact H|constructor]. Qed.

Lemma every_bind {A} P (m : M A) (k : A -> M (list Issue.t)) :
  (forall a, every P (k a)) -> every P (bind m k).
Proof.
  intros Hk w. unfold bind. destruct (m w) as [a w1|e w1]; [|exact I].
  exact (Hk a w1).
Qed.

Lemma every_app P (m1 m2 : M (list Issue.t)) :
  every P m1 -> every P m2 -> every P (a <- m1 ;; b <- m2 ;; ret (a ++ b)).
Proof.
  intros H1 H2 w. unfold bind, ret. specialize (H1 w).
  destruct (m1 w) as [a w1|e w1]; [|exact I].
  specialize (H2 w1). destruct (m2 w1) as [b w2|e w2]; [|exact I].
  apply Forall_app. split; assumption.
Qed.

Lemma every_forEach {A} P (body : A -> M (list Issue.t)) (l : list A) :
  (forall a, In a l -> every P (body a)) -> every P (forEach body l).
Proof.
  induction l as [|a l IH]; intros Hbody; simpl.
  - apply every_ret_nil.
  - apply every_app; [apply Hbody; left; reflexivity|].
    apply IH. intros a' Ha'. apply Hbody. right. exact Ha'.
Qed.


Lemma every_seq P (m : M (list Issue.t)) (k : list Issue.t -> M (list Issue.t)) :
  every P m -> (forall a, Forall P a -> every P (k a)) -> every P (bind m k).
Proof.
  intros Hm Hk w. unfold bind. specialize (Hm w).
  destruct (m w) as [a w1|e w1]; [|exact I].
  exact (Hk a Hm w1).
Qed.

Lemma every_ret P l : Forall P l -> every P (ret l).
Proof. intros H w. exact H. Qed.

Lemma every_impl (P Q : Issue.t -> Prop) m :
  (forall i, P i -> Q i) -> every P m -> every Q m.
Proof.
  intros HPQ Hm w. specialize (Hm w). destruct (m w); [|exact I].
  eapply List.Forall_impl; [exact HPQ|exact Hm].
Qed.

(** Steps shared by the proofs below. *)
Ltac every_step :=
  match goal with
  | |- every _ (ret _) =>
      apply every_ret;
      repeat first [ assumption | apply List.Forall_nil
                   | apply List.Forall_cons; [reflexivity|]
                   | apply Forall_app; split ]
  | |- every _ (throw _) => intros ?; exact I
  | |- every _ (forEach _ _) => apply every_forEach; intros ? _
  | |- every _ (bind (findNearest _ _) _) => apply every_bind; intros ?
  | |- every _ (bind (generateId _) _) => apply every_bind; intros ?
  | |- every _ (bind (pick _) _) => apply every_bind; intros ?
  | |- every _ (bind _ _) => apply every_seq; [|intros ? ?]
  | |- every _ (if ?b then _ else _) => destruct b
  | |- every _ (match ?x with _ => _ end) => destruct x
  end.

Lemma detectOverflow_types snapshots config :
  every (fun i => Issue.type i = overflow) (detectOverflow snapshots config).
Proof.
  unfold detectOverflow. do 2 every_step.
  unfold checkOverflow. repeat every_step.
Qed.

Lemma analyzeSpacing_types snapshots config :
  every (fun i => Issue.type i = spacing) (analyzeSpacing snapshots config).
Proof.
  unfold analyzeSpacing. do 3 every_step.
  unfold checkSpacingValue. repeat every_step.
Qed.

Lemma enforceTypescale_types snapshots config :
  every (fun i => Issue.type i = typescale)
        (enforceTypescale snapshots config).
Proof.
  unfold enforceTypescale. do 2 every_step.
  unfold checkFontSize. repeat every_step.
Qed.

Lemma checkAccessibility_types pow snapshots config :
  every (fun i => Issue.type i = accessibility)
        (checkAccessibility pow snapshots config).
Proof.
  unfold checkAccessibility. do 2 every_step.
  unfold checkContrast. repeat every_step.
Qed.

Lemma nearDuplicates_types pairs :
  forall processedPairs,
    every (fun i => Issue.type i = colors) (nearDuplicates pairs processedPairs).
Proof.
  induction pairs as [|[[c1 d1] [c2 d2]] pairs IH]; intros processedPairs;
    cbn [nearDuplicates].
  - every_step.
  - every_step; [apply IH|].
    every_step; [repeat every_step|].
    every_step; [apply IH|]. every_step.
Qed.

Lemma analyzeColors_types snapshots config :
  every (fun i => Issue.type i = colors) (analyzeColors snapshots config).
Proof.
  unfold analyzeColors. every_step; [apply nearDuplicates_types|].
  every_step; [|every_step].
  every_step. unfold checkPalette. repeat every_step.
Qed.

Lemma detectDesignSystemChaos_types snapshots :
  every (fun i => Issue.type i = design_system)
        (detectDesignSystemChaos snapshots).
Proof.
  unfold detectDesignSystemChaos, analyzeButtonVariations,
    analyzeInputVariations, analyzeCardVariations,
    analyzeHeadingInconsistencies, checkHeading.
  repeat every_step.
Qed.

Lemma detectMisalignment_types snapshots config :
  every (fun i => Issue.type i = design_system)
        (detectMisalignment snapshots config).
Proof.
  unfold detectMisalignment, checkHorizontalAlignment,
    checkVerticalAlignment, checkGridAlignment, checkRow, checkContainer.
  repeat every_step.
Qed.

Lemma tokenLoop_types config items :
  forall checkedElements,
    every (fun i => Issue.type i = design_system)
          (tokenLoop config items checkedElements).
Proof.
  induction items as [|[snapshot element] items IH]; intros checkedElements;
    cbn [tokenLoop].
  - every_step.
  - every_step; [apply IH|].
    every_step.
    + unfold checkTokens, checkSpacingTokens, checkPaddingTokens,
        checkMarginTokens, checkColorTokens, checkBorderRadiusTokens,
        checkTypographyTokens.
      repeat every_step.
    + every_step; [apply IH|]. every_step.
Qed.

Lemma detectFixedWidths_types snapshots :
  every (fun i => Issue.type i = overflow) (detectFixedWidths snapshots).
Proof.
  unfold detectFixedWidths. every_step; [|every_step].
  every_step. unfold checkFixedWidth. repeat every_step.
Qed.

Lemma enforceResponsiveDesign_types snapshots config :
  every (fun i => Issue.type i = design_system \/ Issue.type i = overflow)
        (enforceResponsiveDesign snapshots config).
Proof.
  unfold enforceResponsiveDesign.
  apply every_seq.
  { eapply every_impl; [intros i H; left; exact H|].
    unfold detectNonResponsiveElements, checkSelector, checkFixedFontSize,
      checkFixedPadding, checkFixedPixelWidth.
    repeat every_step. }
  intros fixed Hfixed. apply every_seq.
  { eapply every_impl; [intros i H; right; exact H|].
    apply detectFixedWidths_types. }
  intros widths Hwidths. apply every_seq.
  { eapply every_impl; [intros i H; left; exact H|].
    unfold detectResponsiveOverflow, checkResponsiveOverflow.
    repeat every_step. }
  intros overflows Hoverflows. apply every_ret.
  repeat (apply Forall_app; split); assumption.
Qed.

Lemma whenEnabled_types config feature (P : Issue.t -> Prop)
    (detector : M (list Issue.t)) :
  every P detector ->
  (In feature (KarenConfig.features config) ->
   forall i, P i -> enabledFor config (Issue.type i)) ->
  every (fun i => enabledFor config (Issue.type i))
        (whenEnabled config feature detector).
Proof.
  intros Hd HP. unfold whenEnabled.
  destruct (existsb _ _) eqn:Hon; [|apply every_ret_nil].
  apply existsb_exists in Hon as (f & Hf & Heq).
  assert (f = feature) as ->
    by (destruct feature, f; try discriminate Heq; reflexivity).
  eapply every_impl; [exact (HP Hf)|exact Hd].
Qed.

Lemma runDetectors_types pow snapshots config :
  every (fun i => enabledFor config (Issue.type i))
        (runDetectors pow snapshots config).
Proof.
  unfold runDetectors.
  apply every_seq.
  { eapply whenEnabled_types; [apply detectOverflow_types|].
    intros Hf i ->. left. exact Hf. }
  intros ovf Hovf. apply every_seq.
  { eapply whenEnabled_types; [apply analyzeSpacing_types|].
    intros Hf i ->. left. exact Hf. }
  intros spc Hspc. apply every_seq.
  { eapply whenEnabled_types; [apply enforceTypescale_types|].
    intros Hf i ->. left. exact Hf. }
  intros typ Htyp. apply every_seq.
  { eapply whenEnabled_types; [apply checkAccessibility_types|].
    intros Hf i ->. left. exact Hf. }
  intros a11y Ha11y. apply every_seq.
  { eapply whenEnabled_types; [apply analyzeColors_types|].
    intros Hf i ->. left. exact Hf. }
  intros clr Hclr. apply every_seq.
  { apply (whenEnabled_types config design_system
             (fun i => Issue.type i = design_system
                       \/ Issue.type i = overflow)).
    - apply every_seq.
      { eapply every_impl; [intros i H; left; exact H|].
        apply detectDesignSystemChaos_types. }
      intros chaos Hchaos. apply every_seq.
      { eapply every_impl; [intros i H; left; exact H|].
        apply detectMisalignment_types. }
      intros aligned Haligned. apply every_seq.
      { eapply every_impl; [intros i H; left; exact H|].
        apply tokenLoop_types. }
      intros tokens Htokens. apply every_seq;
        [apply enforceResponsiveDesign_types|].
      intros responsive Hresponsive. apply every_ret.
      repeat (apply Forall_app; split); assumption.
    - intros Hf i [-> | ->]; [left; exact Hf|right; split; [reflexivity|exact Hf]]. }
  intros ds Hds. apply every_ret.
  repeat (apply Forall_app; split); assumption.
Qed.

(** X22. In an audit by an engine without analyzer, an issue of some type
    is reported only when [config.features] holds that type, with one
    exception: the overflow issues of the fixed-width check are
    reported under [design-system]. *)
Theorem issue_types_follow_features :
  forall pow engine snapshots w issues summary w',
    AuditEngine.claudeAnalyzer engine = None ->
    runAudit pow engine snapshots w = Ok (issues, summary) w' ->
    forall i, In i issues ->
      enabledFor (AuditEngine.config engine) (Issue.type i).
Proof.
  intros pow engine snapshots w issues summary w' Hnone.
  pose proof (runDetectors_types pow snapshots (AuditEngine.config engine)
                (mkWorld 0 (random w) (draws w))) as Hrun.
  unfold runAudit, bind, resetCounter, ret. rewrite Hnone.
  unfold runVisualAnalysis, ret. intros H.
  destruct (runDetectors _ _ _ _) as [l v|e v]; [|discriminate].
  injection H as <- _ _. rewrite app_nil_r.
  simpl in Hrun. rewrite List.Forall_forall in Hrun. exact Hrun.
Qed.

(** With [design-system] as only feature, the fixed width of 500px on
    the mobile viewport is reported, as an issue of type overflow. *)
Lemma issue_types_follow_features_witness :
  exists issues summary w',
    runAudit pow_ref designSystemEngine wide500 world0
    = Ok (issues, summary) w'
    /\ List.map Issue.type issues = [overflow]
    /\ forall i, In i issues -> enabledFor designSystemOnly (Issue.type i).
Proof.
  eexists. eexists. eexists. split; [vm_compute; reflexivity|].
  split; [reflexivity|].
  eapply (issue_types_follow_features pow_ref designSystemEngine wide500
            world0).
  - reflexivity.
  - vm_compute. reflexivity.
Defined.

(** ** Typescale enforcement *)

Lemma checkFontSize_sound snapshot config element w bs w' i :
  includes textTags (DOMElement.tagName element) = true ->
  checkFontSize snapshot config element w = Ok bs w' -> In i bs ->
  typescaleFinding (Typescale.sizes (KarenConfig.typescale config)) element i
  /\ Issue.viewport i = Viewport.name (ViewportSnapshot.viewport snapshot).
Proof.
  intros Htag. unfold checkFontSize. fold (checkedFontSize element).
  cbv zeta.
  destruct (includesNumber (Typescale.sizes (KarenConfig.typescale config))
                           (checkedFontSize element)) eqn:Hon;
    simpl; [intros [= <- _] []|].
  destruct (0 <? checkedFontSize element)%float eqn:Hpos; [|intros [= <- _] []].
  unfold bind.
  destruct (Typescale.sizes (KarenConfig.typescale config)) as [|first rest];
    [discriminate|].
  simpl. intros [= <- _] [<-|[]]. simpl.
  split; [|reflexivity].
  split; [reflexivity|]. split; [reflexivity|]. split; [reflexivity|].
  split; [unfold sizedText; rewrite Htag, Hpos; reflexivity|].
  split; [exact Hon|].
  eexists. split; [reflexivity|]. split.
  - destruct (nearest_fold_In (checkedFontSize element) rest first) as [H|H];
      [left; symmetry; exact H|right; exact H].
  - intros s Hs.
    apply (nearest_fold_minimal (checkedFontSize element) rest first [first]).
    + intros s' [<-|[]]. apply ltb_irrefl.
    + exact Hs.
Qed.

(** X15. Every issue of the typescale enforcement is about a text element of
    a snapshot whose font size is positive and not in the typescale; the
    nearest size it names is in the typescale, and none is strictly
    nearer. *)
Theorem typescale_issues_are_sound :
  forall snapshots config w issues w',
    enforceTypescale snapshots config w = Ok issues w' ->
    forall i, In i issues ->
      exists snapshot element,
        In snapshot snapshots
        /\ In element (ViewportSnapshot.dom snapshot)
        /\ Issue.viewport i
           = Viewport.name (ViewportSnapshot.viewport snapshot)
        /\ typescaleFinding (Typescale.sizes (KarenConfig.typescale config))
             element i.
Proof.
  intros snapshots config w issues w' Hrun i Hi. unfold enforceTypescale in Hrun.
  destruct (forEach_In _ _ _ _ _ _ Hrun Hi) as (snap & w1 & b1 & w2 & Hsnap & H1 & Hi1).
  destruct (forEach_In _ _ _ _ _ _ H1 Hi1) as (el & w3 & b2 & w4 & Hel & H2 & Hi2).
  apply List.filter_In in Hel as [Hel Htag].
  destruct (checkFontSize_sound _ _ _ _ _ _ _ Htag H2 Hi2) as [Hf Hvp].
  exists snap, el.
  split; [exact Hsnap|]. split; [exact Hel|]. split; [exact Hvp|exact Hf].
Qed.

(** X16. On an empty typescale the enforcement throws as soon as one text
    element has a positive font size, and returns no issue otherwise. *)
Theorem enforceTypescale_empty_scale :
  forall snapshots config w,
    Typescale.sizes (KarenConfig.typescale config) = [] ->
    enforceTypescale snapshots config w
    = if existsb (fun snapshot => existsb sizedText (ViewportSnapshot.dom snapshot))
                 snapshots
      then Throw (TypeError "Reduce of empty array with no initial value") w
      else Ok [] w.
Proof.
  intros snapshots config w Hsizes. unfold enforceTypescale.
  apply forEach_silent_or_throw. intros snapshot _. cbv zeta.
  rewrite (forEach_silent_or_throw _
             (fun el => (0 <? checkedFontSize el)%float)
             (TypeError "Reduce of empty array with no initial value")).
  - match goal with
    | |- (if ?x then _ else _) = (if ?y then _ else _) =>
        assert (x = y) as ->; [|reflexivity]
    end.
    generalize (ViewportSnapshot.dom snapshot).
    induction l as [|el dom IH]; [reflexivity|].
    cbn [List.filter existsb]. unfold sizedText at 1.
    destruct (includes textTags (DOMElement.tagName el));
      cbn [existsb andb orb]; rewrite IH; reflexivity.
  - intros el _. unfold checkFontSize. fold (checkedFontSize el).
    cbv zeta. rewrite Hsizes. simpl.
    destruct (0 <? checkedFontSize el)%float; reflexivity.
Qed.


Lemma typescale_issues_are_sound_witness :
  exists issues w',
    enforceTypescale title18 defaultConfig world0 = Ok issues w'
    /\ List.map Issue.details issues
       = [TypescaleDetails 18 16 (Typescale.sizes defaultTypescale) 2]
    /\ forall i, In i issues ->
         exists snapshot element,
           In snapshot title18
           /\ In element (ViewportSnapshot.dom snapshot)
           /\ Issue.viewport i
              = Viewport.name (ViewportSnapshot.viewport snapshot)
           /\ typescaleFinding (Typescale.sizes defaultTypescale) element i.
Proof.
  eexists. eexists. split; [vm_compute; reflexivity|]. split; [reflexivity|].
  intros i Hi.
  eapply (typescale_issues_are_sound title18 defaultConfig world0).
  - vm_compute. reflexivity.
  - exact Hi.
Defined.

Lemma enforceTypescale_empty_scale_witness :
  enforceTypescale margin5 (withTypescale emptyTypescale) world0
  = Throw (TypeError "Reduce of empty array with no initial value") world0.
Proof.
  rewrite (enforceTypescale_empty_scale margin5 (withTypescale emptyTypescale)
             world0 eq_refl).
  reflexivity.
Defined.


(** ** Elements across viewports *)

Lemma mapSet_In {V} key (value : V) m k v :
  In (k, v) (mapSet key value m) -> (k = key /\ v = value) \/ In (k, v) m.
Proof.
  induction m as [|[k0 v0] rest IH]; simpl.
  - intros [[= <- <-]|[]]. left. split; reflexivity.
  - destruct (String.eqb_spec k0 key) as [->|Hne].
    + intros [[= <- <-]|H]; [left; split; reflexivity|right; right; exact H].
    + intros [H|H]; [right; left; exact H|].
      destruct (IH H) as [H'|H']; [left; exact H'|right; right; exact H'].
Qed.

Lemma mapSet_keys {V} key (value : V) m :
  List.map fst (mapSet key value m)
  = if includes (List.map fst m) key then List.map fst m
    else List.map fst m ++ [key].
Proof.
  induction m as [|[k v] rest IH]; [reflexivity|].
  simpl. rewrite (String.eqb_sym key k).
  destruct (String.eqb k key); simpl; [reflexivity|].
  rewrite IH. unfold includes.
  destruct (existsb (String.eqb key) (List.map fst rest)); reflexivity.
Qed.

Lemma mapSet_NoDup {V} key (value : V) m :
  List.NoDup (List.map fst m) -> List.NoDup (List.map fst (mapSet key value m)).
Proof.
  intros H. rewrite mapSet_keys.
  destruct (includes (List.map fst m) key) eqn:Hin; [exact H|].
  apply includes_false in Hin. apply List.NoDup_app.
  - exact H.
  - constructor; [intros []|constructor].
  - intros a Ha [<-|[]]. contradiction.
Qed.

Lemma mapGet_In {V} key (m : list (string * V)) v :
  mapGet key m = Some v -> In (key, v) m.
Proof.
  induction m as [|[k0 v0] rest IH]; simpl; [discriminate|].
  destruct (String.eqb_spec k0 key) as [->|Hne].
  - intros [= <-]. left. reflexivity.
  - intros H. right. apply IH, H.
Qed.

Lemma fromSnapshot_more snapshots snapshots' selector entry :
  (forall s, In s snapshots -> In s snapshots') ->
  fromSnapshot snapshots selector entry -> fromSnapshot snapshots' selector entry.
Proof.
  intros Hsub (s & Hs & H). exists s. split; [apply Hsub, Hs|exact H].
Qed.

Lemma groupElement_grouped snapshots snapshot m element :
  In snapshot snapshots -> In element (ViewportSnapshot.dom snapshot) ->
  Forall (groupedEntry snapshots) m ->
  Forall (groupedEntry snapshots) (groupElement snapshot m element).
Proof.
  intros Hs Hel Hm. unfold groupElement.
  apply List.Forall_forall. intros [sel vd] Hin.
  apply mapSet_In in Hin as [[-> ->]|Hin].
  - assert (groupedEntry snapshots
              (DOMElement.selector element,
               match mapGet (DOMElement.selector element) m with
               | Some viewportData => viewportData
               | None => []
               end)) as [Hnd Hfrom].
    { destruct (mapGet (DOMElement.selector element) m) as [vd|] eqn:Hget.
      - apply mapGet_In in Hget. rewrite List.Forall_forall in Hm.
        apply (Hm _ Hget).
      - split; constructor. }
    split; simpl in *.
    + apply mapSet_NoDup, Hnd.
    + apply List.Forall_forall. intros [name data] Hin.
      apply mapSet_In in Hin as [[-> ->]|Hin].
      * exists snapshot. simpl. repeat split; assumption.
      * rewrite List.Forall_forall in Hfrom. apply (Hfrom _ Hin).
  - rewrite List.Forall_forall in Hm. apply (Hm _ Hin).
Qed.

Lemma groupBySelector_grouped snapshots :
  Forall (groupedEntry snapshots) (groupBySelector snapshots).
Proof.
  unfold groupBySelector.
  assert (forall processed m,
            (forall s, In s processed -> In s snapshots) ->
            Forall (groupedEntry snapshots) m ->
            Forall (groupedEntry snapshots)
              (fold_left
                 (fun m snapshot =>
                    fold_left (groupElement snapshot)
                              (ViewportSnapshot.dom snapshot) m)
                 processed m)) as Hall.
  { induction processed as [|snapshot processed IH]; intros m Hsub Hm;
      [exact Hm|].
    simpl. apply IH; [intros s Hs; apply Hsub; right; exact Hs|].
    assert (In snapshot snapshots) as Hsnap by (apply Hsub; left; reflexivity).
    assert (forall dom m,
              (forall el, In el dom -> In el (ViewportSnapshot.dom snapshot)) ->
              Forall (groupedEntry snapshots) m ->
              Forall (groupedEntry snapshots)
                     (fold_left (groupElement snapshot) dom m)) as Hdom.
    { induction dom as [|el dom IHd]; intros m' Hsub' Hm'; [exact Hm'|].
      simpl. apply IHd; [intros e He; apply Hsub'; right; exact He|].
      apply groupElement_grouped; [exact Hsnap| |exact Hm'].
      apply Hsub'. left. reflexivity. }
    apply Hdom; [tauto|exact Hm]. }
  apply Hall; [tauto|constructor].
Qed.

Lemma grouped_names snapshots names e :
  (forall s, In s snapshots ->
     In (Viewport.name (ViewportSnapshot.viewport s)) names) ->
  groupedEntry snapshots e -> (length (snd e) <= length names)%nat.
Proof.
  intros Hnames [Hnd Hfrom]. rewrite <- (length_map fst (snd e)).
  apply List.NoDup_incl_length; [exact Hnd|].
  intros name Hin. apply in_map_iff in Hin as (entry & <- & Hentry).
  rewrite List.Forall_forall in Hfrom.
  destruct (Hfrom _ Hentry) as (s & Hs & _ & Hname & _).
  rewrite <- Hname. apply Hnames, Hs.
Qed.

(** X17. Snapshots under fewer than three viewport names give no issue: a
    selector is analysed only when seen under three names at least. *)
Theorem non_responsive_needs_three_viewports :
  forall snapshots config names w,
    (forall s, In s snapshots ->
       In (Viewport.name (ViewportSnapshot.viewport s)) names) ->
    (length names < 3)%nat ->
    detectNonResponsiveElements snapshots config w = Ok [] w.
Proof.
  intros snapshots config names w Hnames Hlen.
  unfold detectNonResponsiveElements. apply forEach_silent.
  intros [selector vd] Hin. unfold checkSelector.
  pose proof (groupBySelector_grouped snapshots) as Hall.
  rewrite List.Forall_forall in Hall.
  pose proof (grouped_names snapshots names _ Hnames (Hall _ Hin)) as Hle.
  simpl in Hle.
  assert ((length vd <? 3)%nat = true) as -> by (apply Nat.ltb_lt; lia).
  reflexivity.
Qed.

Lemma distinct_nil {A} (eqb : A -> A -> bool) l : forall seen,
  distinct eqb seen l = [] ->
  Forall (fun a => existsb (eqb a) seen = true) l.
Proof.
  induction l as [|a l IH]; intros seen H; [constructor|].
  simpl in H. destruct (existsb (eqb a) seen) eqn:Ha; [|discriminate].
  constructor; [exact Ha|apply IH, H].
Qed.

Lemma setSize_one {A} (eqb : A -> A -> bool) first rest :
  setSize eqb (first :: rest) = 1%nat ->
  Forall (fun a => eqb a first = true) rest.
Proof.
  unfold setSize. simpl. intros H.
  assert (distinct eqb [first] rest = []) as Hnil
    by (destruct (distinct eqb [first] rest); [reflexivity|discriminate]).
  eapply List.Forall_impl; [|apply (distinct_nil eqb rest [first] Hnil)].
  intros a Ha. simpl in Ha. rewrite orb_false_r in Ha. exact Ha.
Qed.

Lemma sameValueZero_refl x : sameValueZero x x = true.
Proof.
  unfold sameValueZero, isNaN. destruct (x =? x)%float; reflexivity.
Qed.

Lemma filter_all {A} (p : A -> bool) l :
  length (List.filter p l) = length l -> Forall (fun a => p a = true) l.
Proof.
  induction l as [|a l IH]; [constructor|]. simpl.
  pose proof (List.filter_length_le p l) as Hle.
  destruct (p a) eqn:Ha; simpl; intros H.
  - constructor; [exact Ha|]. apply IH. lia.
  - lia.
Qed.

Lemma checkFixedFontSize_sound selector viewportData w bs w' i :
  checkFixedFontSize selector viewportData w = Ok bs w' -> In i bs ->
  Issue.viewport i = "all" /\ Issue.type i = design_system
  /\ Issue.element i = selector /\ fixedAcross viewportData i.
Proof.
  unfold checkFixedFontSize.
  destruct (setSize _ _ =? 1)%nat eqn:Hsize; [|intros [= <- _] []].
  apply Nat.eqb_eq in Hsize.
  destruct viewportData as [|[name [element viewport]] rest];
    [intros [= <- _] []|].
  cbn [List.map] in *. fold (comparedFontSize element) in *.
  destruct (24 <? comparedFontSize element)%float eqn:Hbig;
    [|intros [= <- _] []].
  unfold bind. simpl. intros [= <- _] [<-|[]].
  split; [reflexivity|]. split; [reflexivity|]. split; [reflexivity|].
  unfold fixedAcross. cbn [Issue.details Issue.severity].
  split; [reflexivity|]. split; [reflexivity|].
  exists (comparedFontSize element). split; [exact Hbig|].
  constructor; [apply sameValueZero_refl|].
  apply setSize_one in Hsize. rewrite List.Forall_map in Hsize.
  eapply List.Forall_impl; [|exact Hsize].
  intros [n [el vp]] H. exact H.
Qed.

Lemma checkFixedPadding_sound selector viewportData w bs w' i :
  checkFixedPadding selector viewportData w = Ok bs w' -> In i bs ->
  Issue.viewport i = "all" /\ Issue.type i = design_system
  /\ Issue.element i = selector /\ fixedAcross viewportData i.
Proof.
  unfold checkFixedPadding.
  destruct (setSize _ _ =? 1)%nat eqn:Hsize; [|intros [= <- _] []].
  apply Nat.eqb_eq in Hsize.
  destruct viewportData as [|[name [element viewport]] rest];
    [intros [= <- _] []|].
  cbn [List.map] in *.
  destruct (style element "padding") as [padding|] eqn:Hpad;
    [|intros [= <- _] []].
  destruct (negb (String.eqb padding "") && negb (String.eqb padding "0px"));
    [|intros [= <- _] []].
  destruct (32 <? _)%float eqn:Hbig; [|intros [= <- _] []].
  unfold bind. simpl. intros [= <- _] [<-|[]].
  split; [reflexivity|]. split; [reflexivity|]. split; [reflexivity|].
  unfold fixedAcross. cbn [Issue.details Issue.severity].
  split; [reflexivity|]. split; [reflexivity|]. split; [reflexivity|].
  split; [exact Hbig|].
  constructor; [exact Hpad|].
  apply setSize_one in Hsize. rewrite List.Forall_map in Hsize.
  eapply List.Forall_impl; [|exact Hsize].
  intros [n [el vp]] H. simpl in *.
  destruct (style el "padding") as [p|]; [|discriminate].
  apply String.eqb_eq in H. congruence.
Qed.

Lemma checkFixedPixelWidth_sound selector viewportData w bs w' i :
  checkFixedPixelWidth selector viewportData w = Ok bs w' -> In i bs ->
  Issue.viewport i = "all" /\ Issue.type i = design_system
  /\ Issue.element i = selector /\ fixedAcross viewportData i.
Proof.
  unfold checkFixedPixelWidth. fold wideInPixels.
  destruct (_ =? length viewportData)%nat eqn:Hcount; [|intros [= <- _] []].
  apply Nat.eqb_eq in Hcount.
  unfold bind. simpl. intros [= <- _] [<-|[]].
  split; [reflexivity|]. split; [reflexivity|]. split; [reflexivity|].
  unfold fixedAcross. cbn [Issue.details Issue.severity].
  split; [reflexivity|]. split; [reflexivity|]. split; [reflexivity|].
  rewrite <- (length_map (fun '(_, (element, _)) => style element "width"))
    in Hcount.
  apply filter_all in Hcount. rewrite List.Forall_map in Hcount.
  eapply List.Forall_impl; [|exact Hcount].
  intros [n [el vp]] H. exact H.
Qed.

(** X18. Every issue of [detectNonResponsiveElements] is reported for all
    viewports, on a selector seen under at least three distinct viewport
    names, and states what is fixed across the elements under those
    names. *)
Theorem non_responsive_issues_are_sound :
  forall snapshots config w issues w',
    detectNonResponsiveElements snapshots config w = Ok issues w' ->
    forall i, In i issues ->
      Issue.viewport i = "all" /\ Issue.type i = design_system
      /\ exists viewportData,
           (3 <= length viewportData)%nat
           /\ List.NoDup (List.map fst viewportData)
           /\ Forall (fromSnapshot snapshots (Issue.element i)) viewportData
           /\ fixedAcross viewportData i.
Proof.
  intros snapshots config w issues w' Hrun i Hi.
  unfold detectNonResponsiveElements in Hrun.
  destruct (forEach_In _ _ _ _ _ _ Hrun Hi)
    as ([selector vd] & w1 & bs & w2 & Hin & Hsel & Hib).
  pose proof (groupBySelector_grouped snapshots) as Hall.
  rewrite List.Forall_forall in Hall. destruct (Hall _ Hin) as [Hnd Hfrom].
  simpl in Hnd, Hfrom. unfold checkSelector in Hsel.
  destruct (length vd <? 3)%nat eqn:Hlen;
    [injection Hsel as <- _; destruct Hib|].
  apply Nat.ltb_ge in Hlen. unfold bind in Hsel.
  destruct (checkFixedFontSize selector vd w1) as [fonts wa|] eqn:Hf;
    [|discriminate].
  destruct (checkFixedPadding selector vd wa) as [paddings wb|] eqn:Hp;
    [|discriminate].
  destruct (checkFixedPixelWidth selector vd wb) as [widths wc|] eqn:Hw;
    [|discriminate].
  injection Hsel as <- _.
  assert (Issue.viewport i = "all" /\ Issue.type i = design_system
          /\ Issue.element i = selector /\ fixedAcross vd i)
    as (Hvp & Hty & Hel & Hfixed).
  { apply in_app_or in Hib as [Hib|Hib];
      [eapply checkFixedFontSize_sound; eassumption|].
    apply in_app_or in Hib as [Hib|Hib];
      [eapply checkFixedPadding_sound; eassumption|].
    eapply checkFixedPixelWidth_sound; eassumption. }
  split; [exact Hvp|]. split; [exact Hty|].
  exists vd. rewrite Hel. repeat split; assumption.
Qed.


Lemma non_responsive_needs_three_viewports_witness :
  detectNonResponsiveElements twoViewports defaultConfig world0 = Ok [] world0.
Proof.
  apply (non_responsive_needs_three_viewports twoViewports defaultConfig
           ["mobile"; "tablet"] world0).
  - intros s [<-|[<-|[]]]; simpl; tauto.
  - simpl. lia.
Defined.

Lemma non_responsive_issues_are_sound_witness :
  exists issues w',
    detectNonResponsiveElements threeViewports defaultConfig world0
    = Ok issues w'
    /\ List.map Issue.severity issues = [medium; medium; high]
    /\ forall i, In i issues ->
         Issue.viewport i = "all" /\ Issue.type i = design_system
         /\ exists viewportData,
              (3 <= length viewportData)%nat
              /\ List.NoDup (List.map fst viewportData)
              /\ Forall (fromSnapshot threeViewports (Issue.element i))
                        viewportData
              /\ fixedAcross viewportData i.
Proof.
  eexists. eexists. split; [vm_compute; reflexivity|]. split; [reflexivity|].
  intros i Hi.
  eapply (non_responsive_issues_are_sound threeViewports defaultConfig world0).
  - vm_compute. reflexivity.
  - exact Hi.
Defined.


(** ** The performance score *)

Lemma scoreMetric_grade metric weight poor needsImprovement deduction state :
  scoreMetric metric weight poor needsImprovement deduction state
  = scoreGrade (grade metric poor needsImprovement) weight deduction state.
Proof.
  destruct state as [score weights]. unfold scoreMetric, grade, scoreGrade.
  destruct metric as [value|]; [|reflexivity].
  destruct (poor <? value)%float; [reflexivity|].
  destruct (needsImprovement <? value)%float; reflexivity.
Qed.

Lemma calculatePerformanceScore_grades metrics :
  calculatePerformanceScore metrics
  = scoreOfGrades
      (grade (PerformanceMetrics.lcp metrics) 4000 2500)
      (grade (PerformanceMetrics.cls metrics) 0.25 0.1)
      (grade (interactionMetric metrics) 500 200)
      (grade (PerformanceMetrics.ttfb metrics) 1800 600)
      (grade (PerformanceMetrics.fcp metrics) 3000 1800).
Proof.
  unfold calculatePerformanceScore, scoreOfGrades. cbv zeta.
  fold (interactionMetric metrics). rewrite !scoreMetric_grade. reflexivity.
Qed.

(** X19. The score is a number between 0 and 100, whatever the metrics. *)
Theorem performance_score_in_range :
  forall metrics,
    let score := calculatePerformanceScore metrics in
    (0 <=? score)%float = true /\ (score <=? 100)%float = true.
Proof.
  intros metrics score. subst score.
  rewrite calculatePerformanceScore_grades.
  generalize (grade (PerformanceMetrics.lcp metrics) 4000 2500),
             (grade (PerformanceMetrics.cls metrics) 0.25 0.1),
             (grade (interactionMetric metrics) 500 200),
             (grade (PerformanceMetrics.ttfb metrics) 1800 600),
             (grade (PerformanceMetrics.fcp metrics) 3000 1800).
  intros g1 g2 g3 g4 g5.
  destruct g1, g2, g3, g4, g5; vm_compute; split; reflexivity.
Qed.

(** X20. When the measured metrics weigh 50 at most, the score is 100
    whatever their values: the normalisation divides the score left by
    the measured weight. *)
Theorem performance_score_of_few_metrics :
  forall metrics,
    measuredWeight metrics <= 50 ->
    calculatePerformanceScore metrics = 100%float.
Proof.
  intros metrics. unfold measuredWeight, grades.
  rewrite calculatePerformanceScore_grades.
  generalize (grade (PerformanceMetrics.lcp metrics) 4000 2500),
             (grade (PerformanceMetrics.cls metrics) 0.25 0.1),
             (grade (interactionMetric metrics) 500 200),
             (grade (PerformanceMetrics.ttfb metrics) 1800 600),
             (grade (PerformanceMetrics.fcp metrics) 3000 1800).
  intros g1 g2 g3 g4 g5.
  destruct g1, g2, g3, g4, g5; simpl; intros H;
    try (exfalso; lia); vm_compute; reflexivity.
Qed.

Lemma performance_score_of_few_metrics_witness :
  calculatePerformanceScore
    (PerformanceMetrics.mk (Some 999999%float) (Some 999%float)
                           None None None None)
  = 100%float.
Proof.
  apply performance_score_of_few_metrics. vm_compute. discriminate.
Defined.

